(** * RemoteMemorySync: the bidirectional memory-synchronisation engine

    A shallow embedding of [src/services/sync/RemoteMemorySync.ts] (the engine)
    and of the backend contract it drives, and of
    [src/services/sync/AzureCosmosRemoteStore.ts] (the backend over Azure
    Cosmos DB), together with the properties the specification states about
    them and further properties of the code.

    Conventions of the embedding.
    - JavaScript numbers that hold epochs, row ids and counters are integers
      ([Z]); [null]/[undefined] is [None].
    - A SQLite table is the list of its rows in rowid order; a
      [SELECT ... LIMIT 1] returns the first matching row of that list.
    - Code that can throw lives in a state-and-exception monad over the
      engine's world (state file, local store, backend, call log).
    - Library functions whose text is not part of the repository
      ([createHash('sha256')], [JSON.stringify], [String.prototype.localeCompare])
      are fields of the class [Platform]; the operations of the [@azure/cosmos]
      SDK are those of the class [CosmosSDK], and [Number.parseInt] is the one
      of [NumberPlatform]. *)

From Stdlib Require Import ZArith List Bool Sorting.Sorted Sorting.Permutation.
From Stdlib Require Import OrderedTypeEx.
From stdpp Require Import base tactics option list strings gmap pretty.

Local Open Scope Z_scope.
Local Open Scope string_scope.
#[local] Set Warnings "-register-all".

(** ** JavaScript values and operators *)

Module JS.

(** The result of [JSON.parse]. *)
Inductive json : Type :=
| JNull
| JBool (b : bool)
| JNum (n : Z)
| JStr (s : string)
| JArr (items : list json)
| JObj (fields : list (string * json)).

(** [o[k]] on the own properties of an object literal. *)
Fixpoint assoc (k : string) (fields : list (string * json)) : option json :=
  match fields with
  | [] => None
  | (k', v) :: rest => if bool_decide (k' = k) then Some v else assoc k rest
  end.

(** [o[k] = v]: an existing key keeps its place, a new one goes last. *)
Fixpoint assign (k : string) (v : json) (fields : list (string * json))
  : list (string * json) :=
  match fields with
  | [] => [(k, v)]
  | (k', v') :: rest =>
      if bool_decide (k' = k) then (k, v) :: rest
      else (k', v') :: assign k v rest
  end.

(** Truthiness of a JSON value (the operand of [!]). *)
Definition truthy (j : json) : bool :=
  match j with
  | JNull => false
  | JBool b => b
  | JNum n => negb (bool_decide (n = 0))
  | JStr s => negb (bool_decide (s = ""))
  | JArr _ | JObj _ => true
  end.

(** [a || b] on strings: the empty string is falsy. *)
Definition or_str (a b : string) : string :=
  if bool_decide (a = "") then b else a.

(** [!a] on a nullable string. *)
Definition falsy_ostr (a : option string) : bool :=
  match a with
  | None => true
  | Some s => bool_decide (s = "")
  end.

(** [a || b] on nullable strings. *)
Definition or_ostr (a b : option string) : option string :=
  if falsy_ostr a then b else a.

(** [a || b] on numbers: zero is falsy. *)
Definition or_num (a b : Z) : Z :=
  if bool_decide (a = 0) then b else a.

(** [a || b] on a nullable number. *)
Definition or_onum (a : option Z) (b : Z) : Z :=
  match a with
  | Some n => or_num n b
  | None => b
  end.

(** [a ?? b]. *)
Definition nullish {A : Type} (a b : option A) : option A :=
  match a with
  | Some _ => a
  | None => b
  end.

(** [a ?? b] when the right operand is never null. *)
Definition nullish_default {A : Type} (a : option A) (b : A) : A :=
  match a with
  | Some x => x
  | None => b
  end.

(** [a !== b] on values of one type. *)
Definition strict_ne {A : Type} `{EqDecision A} (a b : A) : bool :=
  negb (bool_decide (a = b)).

(** The members that every object literal inherits from [Object.prototype],
    by name, each as the string that [ToPrimitive] gives for it: the source
    text of a native function ([constructor] is the function [Object]), and
    ["[object Object]"] for the prototype that [__proto__] returns. Engines
    differ in the white space that follows the name in the source text, which
    does not bear on the order of two of these strings. *)
Definition Object_prototype (name : string) : option string :=
  if bool_decide (name = "constructor") then Some "function Object() { [native code] }"
  else if bool_decide (name = "__proto__") then Some "[object Object]"
  else if bool_decide (name ∈ ["__defineGetter__"; "__defineSetter__"; "hasOwnProperty";
                               "__lookupGetter__"; "__lookupSetter__"; "isPrototypeOf";
                               "propertyIsEnumerable"; "toString"; "valueOf";
                               "toLocaleString"])
  then Some ("function " ++ name ++ "() { [native code] }")
  else None.

(** What [o[k]] finds on an object literal whose own properties are numbers:
    one of these numbers, or a member inherited from [Object.prototype]. *)
Inductive PropertyValue : Type :=
| OwnNumber (n : Z)
| Inherited (primitive : string).

Fixpoint ownNumber (k : string) (table : list (string * Z)) : option Z :=
  match table with
  | [] => None
  | (k', n) :: rest => if bool_decide (k' = k) then Some n else ownNumber k rest
  end.

(** [o[k]] on the object literal with the own properties [table]: an own
    property, else an inherited one, else [undefined]. *)
Definition getNumber (table : list (string * Z)) (k : string) : option PropertyValue :=
  match ownNumber k table with
  | Some n => Some (OwnNumber n)
  | None => Inherited <$> Object_prototype k
  end.

(** [a >= b] on such values, which is [!(a < b)] unless an operand is [NaN].
    Two numbers compare as numbers. Two inherited members both convert to
    strings, which compare by their code units. An inherited member against a
    number converts to a number: its string is no numeral, so it is [NaN],
    and no comparison with [NaN] holds. *)
Definition ge (a b : PropertyValue) : bool :=
  match a, b with
  | OwnNumber x, OwnNumber y => bool_decide (y <= x)
  | Inherited s, Inherited t => negb (String.ltb s t)
  | OwnNumber _, Inherited _ | Inherited _, OwnNumber _ => false
  end.

End JS.

Import JS.

(** ** The data model *)

Module Session.
(** [RemoteSessionPayload]. *)
Record t : Type := mk {
  content_session_id : string;
  memory_session_id : option string;
  project : string;
  user_prompt : option string;
  custom_title : option string;
  started_at : string;
  started_at_epoch : Z;
  completed_at : option string;
  completed_at_epoch : option Z;
  status : string;
}.
End Session.

Module Prompt.
(** [RemotePromptPayload]. *)
Record t : Type := mk {
  content_session_id : string;
  project : string;
  prompt_number : Z;
  prompt_text : string;
  created_at : string;
  created_at_epoch : Z;
}.
End Prompt.

Module Observation.
(** [RemoteObservationPayload]; [discovery_tokens] may be missing, which is
    why the code writes [discovery_tokens || 0]. *)
Record t : Type := mk {
  memory_session_id : string;
  project : string;
  text : option string;
  type : string;
  title : option string;
  subtitle : option string;
  facts : option string;
  narrative : option string;
  concepts : option string;
  files_read : option string;
  files_modified : option string;
  prompt_number : option Z;
  discovery_tokens : option Z;
  created_at : string;
  created_at_epoch : Z;
}.
End Observation.

Module Summary.
(** [RemoteSummaryPayload]. *)
Record t : Type := mk {
  memory_session_id : string;
  project : string;
  request : option string;
  investigated : option string;
  learned : option string;
  completed : option string;
  next_steps : option string;
  files_read : option string;
  files_edited : option string;
  notes : option string;
  prompt_number : option Z;
  discovery_tokens : option Z;
  created_at : string;
  created_at_epoch : Z;
}.
End Summary.

Module UserPrompt.
(** The columns of [user_prompts] the engine writes; the table has no
    [project] column, readers take it from the joined session. *)
Record t : Type := mk {
  content_session_id : string;
  prompt_number : Z;
  prompt_text : string;
  created_at : string;
  created_at_epoch : Z;
}.
End UserPrompt.

(** [interface LocalXRow extends RemoteXPayload { id: number }]. *)
Record Row (P : Type) : Type := mkRow { id : Z; data : P }.
Arguments mkRow {P} _ _.
Arguments id {P} _.
Arguments data {P} _.

Abbreviation LocalSessionRow := (Row Session.t).
Abbreviation LocalPromptRow := (Row Prompt.t).
Abbreviation LocalObservationRow := (Row Observation.t).
Abbreviation LocalSummaryRow := (Row Summary.t).

Inductive RemoteMemoryKind : Type :=
| KSession | KPrompt | KObservation | KSummary.

(** The payload of a document determines its kind (a tagged union). *)
Inductive Payload : Type :=
| PSession (s : Session.t)
| PPrompt (p : Prompt.t)
| PObservation (o : Observation.t)
| PSummary (s : Summary.t).

Module Doc.
(** [RemoteMemoryDocument]. *)
Record t : Type := mk {
  id : string;
  sortEpoch : Z;
  updatedAtEpoch : Z;
  payload : Payload;
}.

Definition kind (d : t) : RemoteMemoryKind :=
  match payload d with
  | PSession _ => KSession
  | PPrompt _ => KPrompt
  | PObservation _ => KObservation
  | PSummary _ => KSummary
  end.
End Doc.

#[global] Instance RemoteMemoryKind_eq_dec : EqDecision RemoteMemoryKind.
Proof. solve_decision. Defined.

(** The local store: the four tables the engine touches. *)
Record Database : Type := mkDatabase {
  sdk_sessions : list LocalSessionRow;
  user_prompts : list (Row UserPrompt.t);
  observations : list LocalObservationRow;
  session_summaries : list LocalSummaryRow;
}.

(** The rowid SQLite gives to an inserted row: one more than the largest. *)
Definition nextRowId {P : Type} (rows : list (Row P)) : Z :=
  1 + fold_right (fun r acc => Z.max (id r) acc) 0 rows.

Definition SQL_insert {P : Type} (rows : list (Row P)) (values : P) : list (Row P) :=
  rows ++ [mkRow (nextRowId rows) values].

(** [UPDATE t SET ... WHERE id = ?]. *)
Definition SQL_update_by_id {P : Type} (rows : list (Row P)) (rowid : Z) (set : P -> P)
  : list (Row P) :=
  (fun r => if bool_decide (id r = rowid) then mkRow (id r) (set (data r)) else r) <$> rows.

(** [COALESCE(x, '')]. *)
Definition COALESCE_str (x : option string) : string := nullish_default x "".

(** [COALESCE(x, -1)]. *)
Definition COALESCE_neg1 (x : option Z) : Z := nullish_default x (-1).

(** ** The importer *)

(** The object literal [priority] of [selectSessionStatus]. *)
Definition priority : list (string * Z) :=
  [("active", 0); ("failed", 1); ("completed", 2)].

(** [selectSessionStatus]: [priority[status]] is the priority of the table for
    the three statuses, [undefined] (then 0, by [?? 0]) for a name the object
    does not have, and the inherited member for a name of [Object.prototype],
    such as [constructor]. *)
Definition selectSessionStatus (currentStatus incomingStatus : string) : string :=
  if ge (nullish_default (getNumber priority incomingStatus) (OwnNumber 0))
        (nullish_default (getNumber priority currentStatus) (OwnNumber 0))
  then incomingStatus
  else currentStatus.

(** [SELECT ... FROM sdk_sessions WHERE content_session_id = ? LIMIT 1]. *)
Definition getSessionByContentSessionId (db : Database) (contentSessionId : string)
  : option LocalSessionRow :=
  find (fun r => bool_decide (Session.content_session_id (data r) = contentSessionId))
       (sdk_sessions db).

(** [SELECT ... FROM sdk_sessions WHERE memory_session_id = ? LIMIT 1]; a
    NULL column never equals the parameter. *)
Definition getSessionByMemorySessionId (db : Database) (memorySessionId : string)
  : option LocalSessionRow :=
  find (fun r => bool_decide (Session.memory_session_id (data r) = Some memorySessionId))
       (sdk_sessions db).

(** [existing?.memory_session_id ?? null]. *)
Definition existingMemorySessionId (existing : option LocalSessionRow) : option string :=
  match existing with
  | Some e => Session.memory_session_id (data e)
  | None => None
  end.

Definition resolveImportedMemorySessionId
    (db : Database) (session : Session.t) (existing : option LocalSessionRow)
  : option string :=
  if falsy_ostr (Session.memory_session_id session) then
    existingMemorySessionId existing
  else
    let conflict :=
      find (fun r =>
              bool_decide (Session.memory_session_id (data r)
                           = Session.memory_session_id session)
              && negb (bool_decide (Session.content_session_id (data r)
                                    = Session.content_session_id session)))
           (sdk_sessions db) in
    match conflict with
    | Some _ => existingMemorySessionId existing
    | None => Session.memory_session_id session
    end.

(** The object [nextValues] of [upsertSession]; the UPDATE leaves
    [content_session_id] alone, so it is carried over from the row. *)
Definition nextValues
    (resolvedMemorySessionId : option string) (existing session : Session.t)
  : Session.t :=
  {| Session.content_session_id := Session.content_session_id existing;
     Session.memory_session_id := resolvedMemorySessionId;
     Session.project := or_str (Session.project session) (Session.project existing);
     Session.user_prompt :=
       or_ostr (Session.user_prompt session) (Session.user_prompt existing);
     Session.custom_title :=
       nullish (Session.custom_title session) (Session.custom_title existing);
     Session.started_at :=
       or_str (Session.started_at existing) (Session.started_at session);
     Session.started_at_epoch :=
       or_num (Session.started_at_epoch existing) (Session.started_at_epoch session);
     Session.completed_at :=
       nullish (Session.completed_at session) (Session.completed_at existing);
     Session.completed_at_epoch :=
       nullish (Session.completed_at_epoch session) (Session.completed_at_epoch existing);
     Session.status :=
       selectSessionStatus (Session.status existing) (Session.status session) |}.

(** The disjunction [changed] of [upsertSession]. *)
Definition sessionChanged (next existing : Session.t) : bool :=
  strict_ne (Session.memory_session_id next) (Session.memory_session_id existing)
  || strict_ne (Session.project next) (Session.project existing)
  || strict_ne (Session.user_prompt next) (Session.user_prompt existing)
  || strict_ne (Session.custom_title next) (Session.custom_title existing)
  || strict_ne (Session.started_at next) (Session.started_at existing)
  || strict_ne (Session.started_at_epoch next) (Session.started_at_epoch existing)
  || strict_ne (Session.completed_at next) (Session.completed_at existing)
  || strict_ne (Session.completed_at_epoch next) (Session.completed_at_epoch existing)
  || strict_ne (Session.status next) (Session.status existing).

Definition with_sessions (db : Database) (rows : list LocalSessionRow) : Database :=
  {| sdk_sessions := rows;
     user_prompts := user_prompts db;
     observations := observations db;
     session_summaries := session_summaries db |}.

Definition with_prompts (db : Database) (rows : list (Row UserPrompt.t)) : Database :=
  {| sdk_sessions := sdk_sessions db;
     user_prompts := rows;
     observations := observations db;
     session_summaries := session_summaries db |}.

Definition with_observations (db : Database) (rows : list LocalObservationRow) : Database :=
  {| sdk_sessions := sdk_sessions db;
     user_prompts := user_prompts db;
     observations := rows;
     session_summaries := session_summaries db |}.

Definition with_summaries (db : Database) (rows : list LocalSummaryRow) : Database :=
  {| sdk_sessions := sdk_sessions db;
     user_prompts := user_prompts db;
     observations := observations db;
     session_summaries := rows |}.

(** The values of the INSERT of [upsertSession]. *)
Definition insertedSession (resolvedMemorySessionId : option string) (session : Session.t)
  : Session.t :=
  {| Session.content_session_id := Session.content_session_id session;
     Session.memory_session_id := resolvedMemorySessionId;
     Session.project := Session.project session;
     Session.user_prompt := Some (nullish_default (Session.user_prompt session) "");
     Session.custom_title := Session.custom_title session;
     Session.started_at := Session.started_at session;
     Session.started_at_epoch := Session.started_at_epoch session;
     Session.completed_at := Session.completed_at session;
     Session.completed_at_epoch := Session.completed_at_epoch session;
     Session.status := Session.status session |}.

(** The SET clause of the UPDATE of [upsertSession]: every column but
    [content_session_id] (and [id]) is written. *)
Definition setSessionColumns (next row : Session.t) : Session.t :=
  {| Session.content_session_id := Session.content_session_id row;
     Session.memory_session_id := Session.memory_session_id next;
     Session.project := Session.project next;
     Session.user_prompt := Session.user_prompt next;
     Session.custom_title := Session.custom_title next;
     Session.started_at := Session.started_at next;
     Session.started_at_epoch := Session.started_at_epoch next;
     Session.completed_at := Session.completed_at next;
     Session.completed_at_epoch := Session.completed_at_epoch next;
     Session.status := Session.status next |}.

Definition upsertSession (db : Database) (session : Session.t) : Database * bool :=
  let existing := getSessionByContentSessionId db (Session.content_session_id session) in
  let resolvedMemorySessionId := resolveImportedMemorySessionId db session existing in
  match existing with
  | None =>
      (with_sessions db
         (SQL_insert (sdk_sessions db) (insertedSession resolvedMemorySessionId session)),
       true)
  | Some existing =>
      let next := nextValues resolvedMemorySessionId (data existing) session in
      if negb (sessionChanged next (data existing)) then (db, false)
      else
        (with_sessions db
           (SQL_update_by_id (sdk_sessions db) (id existing) (setSessionColumns next)),
         true)
  end.

Definition upsertPrompt (db : Database) (prompt : Prompt.t) : Database * bool :=
  let existing :=
    find (fun r =>
            bool_decide (UserPrompt.content_session_id (data r)
                         = Prompt.content_session_id prompt)
            && bool_decide (UserPrompt.prompt_number (data r)
                            = Prompt.prompt_number prompt))
         (user_prompts db) in
  match existing with
  | Some _ => (db, false)
  | None =>
      match getSessionByContentSessionId db (Prompt.content_session_id prompt) with
      | None => (db, false)
      | Some _ =>
          (with_prompts db
             (SQL_insert (user_prompts db)
                {| UserPrompt.content_session_id := Prompt.content_session_id prompt;
                   UserPrompt.prompt_number := Prompt.prompt_number prompt;
                   UserPrompt.prompt_text := Prompt.prompt_text prompt;
                   UserPrompt.created_at := Prompt.created_at prompt;
                   UserPrompt.created_at_epoch := Prompt.created_at_epoch prompt |}),
           true)
      end
  end.

(** The dedup key of observations. *)
Definition sameObservation (observation : Observation.t) (r : LocalObservationRow) : bool :=
  bool_decide (Observation.memory_session_id (data r)
               = Observation.memory_session_id observation)
  && bool_decide (Observation.created_at_epoch (data r)
                  = Observation.created_at_epoch observation)
  && bool_decide (Observation.type (data r) = Observation.type observation)
  && bool_decide (COALESCE_str (Observation.title (data r))
                  = COALESCE_str (Observation.title observation))
  && bool_decide (COALESCE_str (Observation.narrative (data r))
                  = COALESCE_str (Observation.narrative observation)).

Definition upsertObservation (db : Database) (observation : Observation.t)
  : Database * bool :=
  match getSessionByMemorySessionId db (Observation.memory_session_id observation) with
  | None => (db, false)
  | Some _ =>
      match find (sameObservation observation) (observations db) with
      | Some _ => (db, false)
      | None =>
          (with_observations db
             (SQL_insert (observations db)
                {| Observation.memory_session_id := Observation.memory_session_id observation;
                   Observation.project := Observation.project observation;
                   Observation.text := Observation.text observation;
                   Observation.type := Observation.type observation;
                   Observation.title := Observation.title observation;
                   Observation.subtitle := Observation.subtitle observation;
                   Observation.facts := Observation.facts observation;
                   Observation.narrative := Observation.narrative observation;
                   Observation.concepts := Observation.concepts observation;
                   Observation.files_read := Observation.files_read observation;
                   Observation.files_modified := Observation.files_modified observation;
                   Observation.prompt_number := Observation.prompt_number observation;
                   Observation.discovery_tokens :=
                     Some (or_onum (Observation.discovery_tokens observation) 0);
                   Observation.created_at := Observation.created_at observation;
                   Observation.created_at_epoch :=
                     Observation.created_at_epoch observation |}),
           true)
      end
  end.

(** The dedup key of summaries. *)
Definition sameSummary (summary : Summary.t) (r : LocalSummaryRow) : bool :=
  bool_decide (Summary.memory_session_id (data r) = Summary.memory_session_id summary)
  && bool_decide (Summary.created_at_epoch (data r) = Summary.created_at_epoch summary)
  && bool_decide (COALESCE_neg1 (Summary.prompt_number (data r))
                  = COALESCE_neg1 (Summary.prompt_number summary)).

Definition upsertSummary (db : Database) (summary : Summary.t) : Database * bool :=
  match getSessionByMemorySessionId db (Summary.memory_session_id summary) with
  | None => (db, false)
  | Some _ =>
      match find (sameSummary summary) (session_summaries db) with
      | Some _ => (db, false)
      | None =>
          (with_summaries db
             (SQL_insert (session_summaries db)
                {| Summary.memory_session_id := Summary.memory_session_id summary;
                   Summary.project := Summary.project summary;
                   Summary.request := Summary.request summary;
                   Summary.investigated := Summary.investigated summary;
                   Summary.learned := Summary.learned summary;
                   Summary.completed := Summary.completed summary;
                   Summary.next_steps := Summary.next_steps summary;
                   Summary.files_read := Summary.files_read summary;
                   Summary.files_edited := Summary.files_edited summary;
                   Summary.notes := Summary.notes summary;
                   Summary.prompt_number := Summary.prompt_number summary;
                   Summary.discovery_tokens :=
                     Some (or_onum (Summary.discovery_tokens summary) 0);
                   Summary.created_at := Summary.created_at summary;
                   Summary.created_at_epoch := Summary.created_at_epoch summary |}),
           true)
      end
  end.

(** The body of the [switch] in the import loop. *)
Definition importDocument (db : Database) (document : Doc.t) : Database * bool :=
  match Doc.payload document with
  | PSession s => upsertSession db s
  | PPrompt p => upsertPrompt db p
  | PObservation o => upsertObservation db o
  | PSummary s => upsertSummary db s
  end.

(** The loop of the import transaction: [importedCount += upsert(...) ? 1 : 0]. *)
Fixpoint importLoop (db : Database) (importedCount : nat) (orderedDocuments : list Doc.t)
  : Database * nat :=
  match orderedDocuments with
  | [] => (db, importedCount)
  | document :: rest =>
      let '(db', written) := importDocument db document in
      importLoop db' (importedCount + (if written then 1 else 0))%nat rest
  end.

Definition ofKind (k : RemoteMemoryKind) (documents : list Doc.t) : list Doc.t :=
  List.filter (fun document => bool_decide (Doc.kind document = k)) documents.

Definition orderDocuments (documents : list Doc.t) : list Doc.t :=
  ofKind KSession documents ++ ofKind KPrompt documents
  ++ ofKind KObservation documents ++ ofKind KSummary documents.

Definition importRemoteDocuments (db : Database) (documents : list Doc.t)
  : Database * nat :=
  importLoop db 0%nat (orderDocuments documents).

(** ** Document builders *)

(** Functions of the JavaScript platform the engine calls. *)
Class Platform : Type := {
  (** [createHash('sha256').update(s).digest('hex')] *)
  sha256_hex : string -> string;
  (** [JSON.stringify(v)] *)
  JSON_stringify : json -> string;
  (** [a.localeCompare(b)] *)
  localeCompare : string -> string -> Z;
}.

(** What [Array.prototype.sort] needs of a comparator to be well defined. *)
Class ConsistentCollation `{Platform} : Prop := {
  localeCompare_antisym : forall a b, 0 < localeCompare a b -> localeCompare b a < 0;
  localeCompare_trans : forall a b c,
      localeCompare a b <= 0 -> localeCompare b c <= 0 -> localeCompare a c <= 0;
}.

Definition json_ostr (x : option string) : json :=
  match x with
  | Some s => JStr s
  | None => JNull
  end.

Definition json_onum (x : option Z) : json :=
  match x with
  | Some n => JNum n
  | None => JNull
  end.

(** The observation payload as the object literal of [buildObservationDocument],
    keys in the order they are written there. *)
Definition observationPayloadJson (p : Observation.t) : json :=
  JObj [ ("memory_session_id", JStr (Observation.memory_session_id p));
         ("project", JStr (Observation.project p));
         ("text", json_ostr (Observation.text p));
         ("type", JStr (Observation.type p));
         ("title", json_ostr (Observation.title p));
         ("subtitle", json_ostr (Observation.subtitle p));
         ("facts", json_ostr (Observation.facts p));
         ("narrative", json_ostr (Observation.narrative p));
         ("concepts", json_ostr (Observation.concepts p));
         ("files_read", json_ostr (Observation.files_read p));
         ("files_modified", json_ostr (Observation.files_modified p));
         ("prompt_number", json_onum (Observation.prompt_number p));
         ("discovery_tokens", json_onum (Observation.discovery_tokens p));
         ("created_at", JStr (Observation.created_at p));
         ("created_at_epoch", JNum (Observation.created_at_epoch p)) ].

(** The summary payload as the object literal of [buildSummaryDocument]. *)
Definition summaryPayloadJson (p : Summary.t) : json :=
  JObj [ ("memory_session_id", JStr (Summary.memory_session_id p));
         ("project", JStr (Summary.project p));
         ("request", json_ostr (Summary.request p));
         ("investigated", json_ostr (Summary.investigated p));
         ("learned", json_ostr (Summary.learned p));
         ("completed", json_ostr (Summary.completed p));
         ("next_steps", json_ostr (Summary.next_steps p));
         ("files_read", json_ostr (Summary.files_read p));
         ("files_edited", json_ostr (Summary.files_edited p));
         ("notes", json_ostr (Summary.notes p));
         ("prompt_number", json_onum (Summary.prompt_number p));
         ("discovery_tokens", json_onum (Summary.discovery_tokens p));
         ("created_at", JStr (Summary.created_at p));
         ("created_at_epoch", JNum (Summary.created_at_epoch p)) ].

Section Builders.
Context `{Platform}.

Definition buildHashDocumentId (kind : string) (payload : json) : string :=
  kind ++ ":" ++ sha256_hex (JSON_stringify payload).

Definition getSessionStableUpdatedEpoch (session : Session.t) : Z :=
  Z.max (Session.started_at_epoch session)
        (nullish_default (Session.completed_at_epoch session) 0).

(** The payload literal copies the ten session fields one by one, which is
    the session record itself. *)
Definition buildSessionDocument (session : LocalSessionRow) (updatedAtEpoch : option Z)
  : Doc.t :=
  {| Doc.id := "session:" ++ Session.content_session_id (data session);
     Doc.sortEpoch := Session.started_at_epoch (data session);
     Doc.updatedAtEpoch :=
       nullish_default updatedAtEpoch (getSessionStableUpdatedEpoch (data session));
     Doc.payload := PSession (data session) |}.

(** A template literal prints an integer in decimal. *)
Definition buildPromptDocument (prompt : LocalPromptRow) : Doc.t :=
  {| Doc.id := "prompt:" ++ Prompt.content_session_id (data prompt)
               ++ ":" ++ pretty (Prompt.prompt_number (data prompt));
     Doc.sortEpoch := Prompt.created_at_epoch (data prompt);
     Doc.updatedAtEpoch := Prompt.created_at_epoch (data prompt);
     Doc.payload := PPrompt (data prompt) |}.

Definition observationPayload (observation : Observation.t) : Observation.t :=
  {| Observation.memory_session_id := Observation.memory_session_id observation;
     Observation.project := Observation.project observation;
     Observation.text := Observation.text observation;
     Observation.type := Observation.type observation;
     Observation.title := Observation.title observation;
     Observation.subtitle := Observation.subtitle observation;
     Observation.facts := Observation.facts observation;
     Observation.narrative := Observation.narrative observation;
     Observation.concepts := Observation.concepts observation;
     Observation.files_read := Observation.files_read observation;
     Observation.files_modified := Observation.files_modified observation;
     Observation.prompt_number := Observation.prompt_number observation;
     Observation.discovery_tokens :=
       Some (or_onum (Observation.discovery_tokens observation) 0);
     Observation.created_at := Observation.created_at observation;
     Observation.created_at_epoch := Observation.created_at_epoch observation |}.

Definition buildObservationDocument (observation : LocalObservationRow) : Doc.t :=
  let payload := observationPayload (data observation) in
  {| Doc.id := buildHashDocumentId "observation" (observationPayloadJson payload);
     Doc.sortEpoch := Observation.created_at_epoch (data observation);
     Doc.updatedAtEpoch := Observation.created_at_epoch (data observation);
     Doc.payload := PObservation payload |}.

Definition summaryPayload (summary : Summary.t) : Summary.t :=
  {| Summary.memory_session_id := Summary.memory_session_id summary;
     Summary.project := Summary.project summary;
     Summary.request := Summary.request summary;
     Summary.investigated := Summary.investigated summary;
     Summary.learned := Summary.learned summary;
     Summary.completed := Summary.completed summary;
     Summary.next_steps := Summary.next_steps summary;
     Summary.files_read := Summary.files_read summary;
     Summary.files_edited := Summary.files_edited summary;
     Summary.notes := Summary.notes summary;
     Summary.prompt_number := Summary.prompt_number summary;
     Summary.discovery_tokens := Some (or_onum (Summary.discovery_tokens summary) 0);
     Summary.created_at := Summary.created_at summary;
     Summary.created_at_epoch := Summary.created_at_epoch summary |}.

Definition buildSummaryDocument (summary : LocalSummaryRow) : Doc.t :=
  let payload := summaryPayload (data summary) in
  {| Doc.id := buildHashDocumentId "summary" (summaryPayloadJson payload);
     Doc.sortEpoch := Summary.created_at_epoch (data summary);
     Doc.updatedAtEpoch := Summary.created_at_epoch (data summary);
     Doc.payload := PSummary payload |}.

End Builders.

(** ** Local readers *)

(** A stable sort for [ORDER BY] and [Array.prototype.sort]: [x] goes before
    the first element it is not greater than. *)
Fixpoint insertSorted {A : Type} (leb : A -> A -> bool) (x : A) (sorted : list A) : list A :=
  match sorted with
  | [] => [x]
  | y :: rest => if leb x y then x :: y :: rest else y :: insertSorted leb x rest
  end.

Definition stableSort {A : Type} (leb : A -> A -> bool) (l : list A) : list A :=
  fold_right (insertSorted leb) [] l.

Definition orderByAsc {A : Type} (key : A -> Z) (rows : list A) : list A :=
  stableSort (fun a b => bool_decide (key a <= key b)) rows.

Definition getAllSessions (db : Database) : list LocalSessionRow :=
  orderByAsc (fun r => Session.started_at_epoch (data r)) (sdk_sessions db).

(** [user_prompts LEFT JOIN sdk_sessions USING (content_session_id)] for one
    prompt row, with [COALESCE(project, '') AS project]. *)
Definition joinedPrompt (up : Row UserPrompt.t) (project : string) : LocalPromptRow :=
  mkRow (id up)
    {| Prompt.content_session_id := UserPrompt.content_session_id (data up);
       Prompt.project := project;
       Prompt.prompt_number := UserPrompt.prompt_number (data up);
       Prompt.prompt_text := UserPrompt.prompt_text (data up);
       Prompt.created_at := UserPrompt.created_at (data up);
       Prompt.created_at_epoch := UserPrompt.created_at_epoch (data up) |}.

Definition leftJoinSession (db : Database) (up : Row UserPrompt.t) : list LocalPromptRow :=
  match List.filter (fun s => bool_decide (Session.content_session_id (data s)
                                           = UserPrompt.content_session_id (data up)))
                    (sdk_sessions db) with
  | [] => [joinedPrompt up ""]
  | matches => map (fun s => joinedPrompt up (Session.project (data s))) matches
  end.

Definition promptEpoch (r : LocalPromptRow) : Z := Prompt.created_at_epoch (data r).
Definition observationEpoch (r : LocalObservationRow) : Z :=
  Observation.created_at_epoch (data r).
Definition summaryEpoch (r : LocalSummaryRow) : Z := Summary.created_at_epoch (data r).

Definition getAllPrompts (db : Database) : list LocalPromptRow :=
  orderByAsc promptEpoch (flat_map (leftJoinSession db) (user_prompts db)).

Definition getAllObservations (db : Database) : list LocalObservationRow :=
  orderByAsc observationEpoch (observations db).

Definition getAllSummaries (db : Database) : list LocalSummaryRow :=
  orderByAsc summaryEpoch (session_summaries db).

Definition getPromptsSince (db : Database) (sinceEpoch : Z) : list LocalPromptRow :=
  orderByAsc promptEpoch
    (List.filter (fun r => bool_decide (sinceEpoch <= promptEpoch r))
                 (flat_map (leftJoinSession db) (user_prompts db))).

Definition getObservationsSince (db : Database) (sinceEpoch : Z) : list LocalObservationRow :=
  orderByAsc observationEpoch
    (List.filter (fun r => bool_decide (sinceEpoch <= observationEpoch r)) (observations db)).

Definition getSummariesSince (db : Database) (sinceEpoch : Z) : list LocalSummaryRow :=
  orderByAsc summaryEpoch
    (List.filter (fun r => bool_decide (sinceEpoch <= summaryEpoch r)) (session_summaries db)).

Definition getPromptById (db : Database) (promptId : Z) : option LocalPromptRow :=
  head (flat_map (leftJoinSession db)
          (List.filter (fun up => bool_decide (id up = promptId)) (user_prompts db))).

Definition getObservationById (db : Database) (observationId : Z)
  : option LocalObservationRow :=
  find (fun r => bool_decide (id r = observationId)) (observations db).

Definition getSummaryById (db : Database) (summaryId : Z) : option LocalSummaryRow :=
  find (fun r => bool_decide (id r = summaryId)) (session_summaries db).

(** ** Collectors *)

(** A [Map<string, RemoteMemoryDocument>]: entries in insertion order, at most
    one per key. *)
Abbreviation DocumentMap := (list (string * Doc.t)).

Fixpoint Map_get (documents : DocumentMap) (key : string) : option Doc.t :=
  match documents with
  | [] => None
  | (k, v) :: rest => if bool_decide (k = key) then Some v else Map_get rest key
  end.

(** [documents.set(key, value)]: a key already present keeps its position. *)
Fixpoint Map_set (documents : DocumentMap) (key : string) (value : Doc.t) : DocumentMap :=
  match documents with
  | [] => [(key, value)]
  | (k, v) :: rest =>
      if bool_decide (k = key) then (k, value) :: rest
      else (k, v) :: Map_set rest key value
  end.

Definition Map_values (documents : DocumentMap) : list Doc.t := map snd documents.

Definition addDocument (documents : DocumentMap) (document : Doc.t) : DocumentMap :=
  match Map_get documents (Doc.id document) with
  | None => Map_set documents (Doc.id document) document
  | Some existing =>
      if bool_decide (Doc.updatedAtEpoch existing <= Doc.updatedAtEpoch document)
      then Map_set documents (Doc.id document) document
      else documents
  end.

(** [for (const document of batch) addDocument(documents, document)]. *)
Definition addDocuments (documents : DocumentMap) (batch : list Doc.t) : DocumentMap :=
  fold_left addDocument batch documents.

Definition getMaxUpdatedEpoch (documents : list Doc.t) : Z :=
  fold_left (fun maxEpoch document => Z.max maxEpoch (Doc.updatedAtEpoch document))
            documents 0.

Section Collectors.
Context `{Platform}.

(** The comparator handed to [sort]. *)
Definition compareDocuments (left right : Doc.t) : Z :=
  if strict_ne (Doc.updatedAtEpoch left) (Doc.updatedAtEpoch right)
  then Doc.updatedAtEpoch left - Doc.updatedAtEpoch right
  else localeCompare (Doc.id left) (Doc.id right).

Definition sortDocuments (documents : DocumentMap) : list Doc.t :=
  stableSort (fun left right => bool_decide (compareDocuments left right <= 0))
             (Map_values documents).

(** The documents one prompt adds: its own, then its session's when the
    session is found. *)
Definition promptDocuments (db : Database) (prompt : LocalPromptRow) : list Doc.t :=
  buildPromptDocument prompt ::
  match getSessionByContentSessionId db (Prompt.content_session_id (data prompt)) with
  | Some session => [buildSessionDocument session (Some (promptEpoch prompt))]
  | None => []
  end.

Definition collectPromptDocuments (db : Database) (prompts : list LocalPromptRow)
  : list Doc.t :=
  sortDocuments
    (fold_left (fun documents prompt => addDocuments documents (promptDocuments db prompt))
               prompts []).

Definition observationDocuments (db : Database) (observation : LocalObservationRow)
  : list Doc.t :=
  buildObservationDocument observation ::
  match getSessionByMemorySessionId db (Observation.memory_session_id (data observation)) with
  | Some session => [buildSessionDocument session (Some (observationEpoch observation))]
  | None => []
  end.

Definition collectObservationDocuments
    (db : Database) (observations : list LocalObservationRow) : list Doc.t :=
  sortDocuments
    (fold_left (fun documents observation =>
                  addDocuments documents (observationDocuments db observation))
               observations []).

Definition summaryDocuments (db : Database) (summary : LocalSummaryRow) : list Doc.t :=
  buildSummaryDocument summary ::
  match getSessionByMemorySessionId db (Summary.memory_session_id (data summary)) with
  | Some session => [buildSessionDocument session (Some (summaryEpoch summary))]
  | None => []
  end.

Definition collectSummaryDocuments (db : Database) (summaries : list LocalSummaryRow)
  : list Doc.t :=
  sortDocuments
    (fold_left (fun documents summary =>
                  addDocuments documents (summaryDocuments db summary))
               summaries []).

(** The three inner loops shared by the bootstrap and incremental collectors. *)
Definition addPromptRows (db : Database) (documents : DocumentMap)
    (prompts : list LocalPromptRow) : DocumentMap :=
  fold_left (fun documents prompt =>
               addDocuments documents (collectPromptDocuments db [prompt]))
            prompts documents.

Definition addObservationRows (db : Database) (documents : DocumentMap)
    (observations : list LocalObservationRow) : DocumentMap :=
  fold_left (fun documents observation =>
               addDocuments documents (collectObservationDocuments db [observation]))
            observations documents.

Definition addSummaryRows (db : Database) (documents : DocumentMap)
    (summaries : list LocalSummaryRow) : DocumentMap :=
  fold_left (fun documents summary =>
               addDocuments documents (collectSummaryDocuments db [summary]))
            summaries documents.

Definition collectBootstrapDocuments (db : Database) : list Doc.t :=
  let documents : DocumentMap := [] in
  let documents :=
    fold_left (fun documents session =>
                 addDocument documents (buildSessionDocument session None))
              (getAllSessions db) documents in
  let documents := addPromptRows db documents (getAllPrompts db) in
  let documents := addObservationRows db documents (getAllObservations db) in
  let documents := addSummaryRows db documents (getAllSummaries db) in
  sortDocuments documents.

Definition collectIncrementalDocuments (db : Database) (sinceEpoch : Z) : list Doc.t :=
  let documents : DocumentMap := [] in
  let documents := addPromptRows db documents (getPromptsSince db sinceEpoch) in
  let documents := addObservationRows db documents (getObservationsSince db sinceEpoch) in
  let documents := addSummaryRows db documents (getSummariesSince db sinceEpoch) in
  sortDocuments documents.

End Collectors.

(** ** The state file *)

(** A file of the file system, seen through what [readFileSync] and
    [JSON.parse] make of it. *)
Inductive FileEntry : Type :=
| Unreadable              (* [readFileSync] throws *)
| Malformed               (* [JSON.parse] throws *)
| Parsed (content : json) (* the text parses to [content] *).

(** Paths that exist, with their entries. *)
Abbreviation FileSystem := (gmap string FileEntry).

Inductive Error : Type :=
| BackendError (message : string)  (* thrown by an operation of the backend *)
| SyntaxError                      (* thrown by [JSON.parse] *)
| TypeError                        (* a property of [null] is read *)
| IOError                          (* thrown by [readFileSync] *)
| OutsideModel                     (* a value does not inhabit its TypeScript type *).

Inductive Result (A : Type) : Type :=
| Ok (value : A)
| Err (error : Error).
Arguments Ok {A} _.
Arguments Err {A} _.

Definition STATE_VERSION : Z := 1.
Definition LOCAL_INCREMENTAL_OVERLAP_MS : Z := 5000.
Definition REMOTE_INCREMENTAL_OVERLAP_MS : Z := 5000.

(** [{ version: STATE_VERSION, targets: {} }]. *)
Definition emptyStateFile : json :=
  JObj [("version", JNum STATE_VERSION); ("targets", JObj [])].

(** [parsed.k]: reading a property of [null] throws, a primitive or an array
    has no property of the names the engine reads. *)
Definition getProperty (parsed : json) (k : string) : Result (option json) :=
  match parsed with
  | JNull => Err TypeError
  | JObj fields => Ok (assoc k fields)
  | _ => Ok None
  end.

(** [version !== STATE_VERSION]. *)
Definition notStateVersion (version : option json) : bool :=
  match version with
  | Some (JNum n) => strict_ne n STATE_VERSION
  | _ => true
  end.

(** [!targets]. *)
Definition falsy (value : option json) : bool :=
  match value with
  | Some v => negb (truthy v)
  | None => true
  end.

(** The [try] block of [loadStateFile]. *)
Definition loadStateFile_try (fs : FileSystem) (statePath : string) : Result json :=
  match fs !! statePath with
  | None => Ok emptyStateFile
  | Some Unreadable => Err IOError
  | Some Malformed => Err SyntaxError
  | Some (Parsed parsed) =>
      match getProperty parsed "version" with
      | Err e => Err e
      | Ok version =>
          if notStateVersion version then Ok emptyStateFile
          else
            match getProperty parsed "targets" with
            | Err e => Err e
            | Ok targets =>
                if falsy targets then Ok emptyStateFile else Ok parsed
            end
      end
  end.

(** [loadStateFile]: the [catch] clause logs and returns the empty state. *)
Definition loadStateFile (fs : FileSystem) (statePath : string) : json :=
  match loadStateFile_try fs statePath with
  | Ok state => state
  | Err _ => emptyStateFile
  end.

(** [saveStateFile]: the whole file is replaced; creating the parent directory
    and writing are taken to succeed. *)
Definition saveStateFile (fs : FileSystem) (statePath : string) (state : json)
  : FileSystem :=
  <[statePath := Parsed state]> fs.

(** [RemoteSyncTargetState]. *)
Record RemoteSyncTargetState : Type := mkTargetState {
  bootstrapComplete : bool;
  lastLocalPushEpoch : Z;
  lastPullEpoch : Z;
}.

Definition initialTargetState : RemoteSyncTargetState :=
  {| bootstrapComplete := false; lastLocalPushEpoch := 0; lastPullEpoch := 0 |}.

(** A target state as it is serialised. *)
Definition targetStateJson (state : RemoteSyncTargetState) : json :=
  JObj [ ("bootstrapComplete", JBool (bootstrapComplete state));
         ("lastLocalPushEpoch", JNum (lastLocalPushEpoch state));
         ("lastPullEpoch", JNum (lastPullEpoch state)) ].

(** The cast [as RemoteSyncTargetState] of an entry of [targets]: the three
    fields are read where the entry has them with their declared types. *)
Definition asTargetState (entry : json) : option RemoteSyncTargetState :=
  match entry with
  | JObj fields =>
      match assoc "bootstrapComplete" fields,
            assoc "lastLocalPushEpoch" fields,
            assoc "lastPullEpoch" fields with
      | Some (JBool b), Some (JNum push), Some (JNum pull) =>
          Some {| bootstrapComplete := b; lastLocalPushEpoch := push; lastPullEpoch := pull |}
      | _, _, _ => None
      end
  | _ => None
  end.

(** [fileState.targets] under the cast [as RemoteSyncStateFile]. *)
Definition targetsOf (fileState : json) : option (list (string * json)) :=
  match fileState with
  | JObj fields =>
      match assoc "targets" fields with
      | Some (JObj targets) => Some targets
      | _ => None
      end
  | _ => None
  end.

(** ** The backend contract *)

Class RemoteMemoryBackend (B : Type) : Type := {
  targetFingerprint : string;
  backend_initialize : B -> Result unit * B;
  upsertDocuments : list Doc.t -> B -> Result unit * B;
  fetchDocumentsUpdatedSince : Z -> B -> Result (list Doc.t) * B;
}.
Arguments targetFingerprint B {_}.

(** What the engine asked of the backend, and whether it was served. *)
Inductive BackendCall : Type :=
| CallInitialize (ok : bool)
| CallUpsert (documents : list Doc.t) (ok : bool)
| CallFetch (sinceEpoch : Z) (fetched : option (list Doc.t)).

(** ** The sync orchestrator *)

(** Everything a task of the engine can read or change. *)
Record World (B : Type) : Type := mkWorld {
  files : FileSystem;
  store : Database;
  backend : B;
  calls : list BackendCall;
  errorLog : list string;
}.
Arguments mkWorld {B} _ _ _ _ _.
Arguments files {B} _.
Arguments store {B} _.
Arguments backend {B} _.
Arguments calls {B} _.
Arguments errorLog {B} _.

(** Computations that read and change the world and may throw. *)
Definition Task (B A : Type) : Type := World B -> Result A * World B.

Definition ret {B A : Type} (x : A) : Task B A := fun w => (Ok x, w).

Definition bind {B A C : Type} (m : Task B A) (k : A -> Task B C) : Task B C :=
  fun w =>
    match m w with
    | (Ok x, w') => k x w'
    | (Err e, w') => (Err e, w')
    end.

Definition throw {B A : Type} (e : Error) : Task B A := fun w => (Err e, w).

Notation "'let*' x ':=' m 'in' k" := (bind m (fun x => k))
  (at level 10, x name, m at level 100, k at level 200).
Notation "m ';;' k" := (bind m (fun _ => k))
  (at level 100, k at level 200, right associativity).

(** What the host asks of the engine. *)
Inductive Request : Type :=
| Startup
| FullSync
| PromptSync (promptId : Z)
| ObservationSync (observationId : Z)
| SummarySync (summaryId : Z).

Section Orchestrator.
Context `{Platform} {B : Type} `{RemoteMemoryBackend B}.
(** The constructor argument [statePath] of [RemoteMemorySync]. *)
Variable statePath : string.

Definition getStore : Task B Database := fun w => (Ok (store w), w).

Definition setStore (db : Database) : Task B unit :=
  fun w => (Ok tt, mkWorld (files w) db (backend w) (calls w) (errorLog w)).

Definition logCall {A : Type} (call : Result A -> BackendCall)
    (operation : B -> Result A * B) : Task B A :=
  fun w =>
    let '(r, b) := operation (backend w) in
    (r, mkWorld (files w) (store w) b (calls w ++ [call r]) (errorLog w)).

Definition isOk {A : Type} (r : Result A) : bool :=
  match r with
  | Ok _ => true
  | Err _ => false
  end.

(** [await this.backend.initialize()] *)
Definition callInitialize : Task B unit :=
  logCall (fun r => CallInitialize (isOk r)) backend_initialize.

(** [await this.backend.upsertDocuments(documents)] *)
Definition callUpsertDocuments (documents : list Doc.t) : Task B unit :=
  logCall (fun r => CallUpsert documents (isOk r)) (upsertDocuments documents).

(** [await this.backend.fetchDocumentsUpdatedSince(sinceEpoch)] *)
Definition callFetchDocumentsUpdatedSince (sinceEpoch : Z) : Task B (list Doc.t) :=
  logCall (fun r => CallFetch sinceEpoch
                      match r with Ok documents => Some documents | Err _ => None end)
          (fetchDocumentsUpdatedSince sinceEpoch).

(** [fileState.targets[fingerprint] ?? { bootstrapComplete: false, ... }]. *)
Definition readTargetState (fs : FileSystem) : Result RemoteSyncTargetState :=
  match targetsOf (loadStateFile fs statePath) with
  | None => Err OutsideModel
  | Some targets =>
      match assoc (targetFingerprint B) targets with
      | None | Some JNull => Ok initialTargetState
      | Some entry =>
          match asTargetState entry with
          | Some state => Ok state
          | None => Err OutsideModel
          end
      end
  end.

Definition loadTargetState : Task B RemoteSyncTargetState :=
  fun w => (readTargetState (files w), w).

(** [fileState.targets[fingerprint] = targetState; saveStateFile(...)]. *)
Definition writeTargetState (fs : FileSystem) (targetState : RemoteSyncTargetState)
  : Result FileSystem :=
  match loadStateFile fs statePath with
  | JObj fields =>
      match assoc "targets" fields with
      | Some (JObj targets) =>
          Ok (saveStateFile fs statePath
                (JObj (assign "targets"
                         (JObj (assign (targetFingerprint B)
                                       (targetStateJson targetState) targets))
                         fields)))
      | _ => Err OutsideModel
      end
  | _ => Err OutsideModel
  end.

Definition saveTargetState (targetState : RemoteSyncTargetState) : Task B unit :=
  fun w =>
    match writeTargetState (files w) targetState with
    | Ok fs => (Ok tt, mkWorld fs (store w) (backend w) (calls w) (errorLog w))
    | Err e => (Err e, w)
    end.

Definition raisePush (state : RemoteSyncTargetState) (documents : list Doc.t)
  : RemoteSyncTargetState :=
  {| bootstrapComplete := bootstrapComplete state;
     lastLocalPushEpoch :=
       Z.max (lastLocalPushEpoch state) (getMaxUpdatedEpoch documents);
     lastPullEpoch := lastPullEpoch state |}.

Definition pushDocuments (documents : list Doc.t) : Task B unit :=
  if bool_decide (length documents = 0%nat) then ret tt
  else
    callUpsertDocuments documents ;;
    let* state := loadTargetState in
    saveTargetState (raisePush state documents).

(** The phases of [performSynchronization], in the order of its body. *)

(** [if (bootstrapLocal && !state.bootstrapComplete) { ... }] *)
Definition bootstrapPhase (bootstrapLocal : bool) (state : RemoteSyncTargetState)
  : Task B RemoteSyncTargetState :=
  if bootstrapLocal && negb (bootstrapComplete state) then
    let* db := getStore in
    let bootstrapDocuments := collectBootstrapDocuments db in
    pushDocuments bootstrapDocuments ;;
    ret {| bootstrapComplete := true;
           lastLocalPushEpoch :=
             Z.max (lastLocalPushEpoch state) (getMaxUpdatedEpoch bootstrapDocuments);
           lastPullEpoch := lastPullEpoch state |}
  else ret state.

(** The incremental push. *)
Definition incrementalPhase (state : RemoteSyncTargetState) : Task B RemoteSyncTargetState :=
  let localSince := Z.max 0 (lastLocalPushEpoch state - LOCAL_INCREMENTAL_OVERLAP_MS) in
  let* db := getStore in
  let incrementalDocuments := collectIncrementalDocuments db localSince in
  if bool_decide (0 < length incrementalDocuments)%nat then
    pushDocuments incrementalDocuments ;;
    ret (raisePush state incrementalDocuments)
  else ret state.

Definition raisePull (state : RemoteSyncTargetState) (documents : list Doc.t)
  : RemoteSyncTargetState :=
  {| bootstrapComplete := bootstrapComplete state;
     lastLocalPushEpoch := lastLocalPushEpoch state;
     lastPullEpoch := Z.max (lastPullEpoch state) (getMaxUpdatedEpoch documents) |}.

(** What follows the fetch: the import and the new pull cursor. *)
Definition importPhase (state : RemoteSyncTargetState) (remoteDocuments : list Doc.t)
  : Task B RemoteSyncTargetState :=
  if bool_decide (0 < length remoteDocuments)%nat then
    let* db := getStore in
    let '(db', importedCount) := importRemoteDocuments db remoteDocuments in
    setStore db' ;;
    ret (raisePull state remoteDocuments)
  else ret state.

(** The pull. *)
Definition pullPhase (state : RemoteSyncTargetState) : Task B RemoteSyncTargetState :=
  let remoteSince := Z.max 0 (lastPullEpoch state - REMOTE_INCREMENTAL_OVERLAP_MS) in
  let* remoteDocuments := callFetchDocumentsUpdatedSince remoteSince in
  importPhase state remoteDocuments.

Definition performSynchronization (bootstrapLocal : bool) : Task B unit :=
  callInitialize ;;
  let* state := loadTargetState in
  let* state := bootstrapPhase bootstrapLocal state in
  let* state := incrementalPhase state in
  let* state := pullPhase state in
  saveTargetState state.

(** [runTask(task).catch(error => logger.error(message))]: the tasks of the
    queue run one after the other, and an error ends in the log. *)
Definition runLogged (message : string) (task : Task B unit) (w : World B) : World B :=
  match task w with
  | (Ok _, w') => w'
  | (Err _, w') =>
      mkWorld (files w') (store w') (backend w') (calls w') (errorLog w' ++ [message])
  end.

Definition promptSyncTask (promptId : Z) : Task B unit :=
  let* db := getStore in
  match getPromptById db promptId with
  | None => ret tt
  | Some prompt => pushDocuments (collectPromptDocuments db [prompt])
  end.

Definition observationSyncTask (observationId : Z) : Task B unit :=
  let* db := getStore in
  match getObservationById db observationId with
  | None => ret tt
  | Some observation => pushDocuments (collectObservationDocuments db [observation])
  end.

Definition summarySyncTask (summaryId : Z) : Task B unit :=
  let* db := getStore in
  match getSummaryById db summaryId with
  | None => ret tt
  | Some summary => pushDocuments (collectSummaryDocuments db [summary])
  end.

Definition scheduleUserPromptSync (promptId : Z) : World B -> World B :=
  runLogged "Prompt sync failed" (promptSyncTask promptId).

Definition scheduleObservationSync (observationId : Z) : World B -> World B :=
  runLogged "Observation sync failed" (observationSyncTask observationId).

Definition scheduleSummarySync (summaryId : Z) : World B -> World B :=
  runLogged "Summary sync failed" (summarySyncTask summaryId).

Definition scheduleFullSync : World B -> World B :=
  runLogged "Periodic remote sync failed" (performSynchronization false).

(** [initialize]: the startup cycle asks for the bootstrap. *)
Definition initialize : World B -> World B :=
  runLogged "Initial remote sync failed, continuing with local DB only"
            (performSynchronization true).

Definition serve (request : Request) : World B -> World B :=
  match request with
  | Startup => initialize
  | FullSync => scheduleFullSync
  | PromptSync promptId => scheduleUserPromptSync promptId
  | ObservationSync observationId => scheduleObservationSync observationId
  | SummarySync summaryId => scheduleSummarySync summaryId
  end.

(** [runTask]: the queue runs the tasks one after the other. *)
Definition serveAll (requests : list Request) (w : World B) : World B :=
  fold_left (fun w request => serve request w) requests w.

End Orchestrator.

(** ** The Azure Cosmos store

    [src/services/sync/AzureCosmosRemoteStore.ts], over the operations of the
    [@azure/cosmos] SDK it calls. The lines it hands to the logger are not
    modelled. *)

(** [a || b] on a nullable string with a string default. *)
Definition or_else (a : option string) (b : string) : string :=
  match a with
  | Some s => or_str s b
  | None => b
  end.

(** [s || undefined]. *)
Definition or_undefined (s : string) : option string :=
  if bool_decide (s = "") then None else Some s.

(** The string a test [if (a)] lets through: neither [undefined] nor empty. *)
Definition whenSet (a : option string) : option string :=
  if falsy_ostr a then None else a.

(** [SqlQuerySpec]: the text of a query and its parameters. *)
Record SqlQuerySpec : Type := mkSqlQuerySpec {
  query : string;
  parameters : list (string * Z);
}.

(** The part of the [@azure/cosmos] SDK the store calls. [C] is a client with
    the service behind it, [D] and [K] are the handles of a database and of a
    container. Every operation may throw. *)
Class CosmosSDK (C D K : Type) : Type := {
  (** [new CosmosClient(connectionString)] *)
  CosmosClient_ofConnectionString : string -> Result C;
  (** [new CosmosClient({ endpoint, key })] *)
  CosmosClient_ofEndpoint : string -> string -> Result C;
  (** [client.databases.createIfNotExists({ id })] *)
  databases_createIfNotExists : string -> C -> Result D * C;
  (** [database.containers.createIfNotExists({ id, partitionKey: { paths } })] *)
  containers_createIfNotExists : D -> string -> list string -> C -> Result K * C;
  (** [container.items.upsert(document)] *)
  items_upsert : K -> Doc.t -> C -> Result unit * C;
  (** [container.items.query(querySpec).fetchAll()] *)
  items_query_fetchAll : K -> SqlQuerySpec -> C -> Result (list Doc.t) * C;
}.

Module AzureCosmosRemoteStore.

(** [AzureCosmosRemoteStoreConfig]. *)
Record Config : Type := mkConfig {
  connectionString : option string;
  endpoint : option string;
  key : option string;
  database : string;
  container : string;
}.

(** The fields of the class; [targetFingerprint] is a function of [config]. *)
Record t (C K : Type) : Type := mk {
  config : Config;
  client : C;
  containerRef : option K;
}.
Arguments mk {C K} _ _ _.
Arguments config {C K} _.
Arguments client {C K} _.
Arguments containerRef {C K} _.

Definition label : string := "azure-cosmos".

Section Store.
Context `{Platform} {C D K : Type} `{CosmosSDK C D K}.

Definition credentialsMissing : Error :=
  BackendError
    ("Remote DB is enabled but Azure Cosmos credentials are missing. "
     ++ "Set CLAUDE_MEM_AZURE_COSMOS_CONNECTION_STRING or "
     ++ "CLAUDE_MEM_AZURE_COSMOS_ENDPOINT and CLAUDE_MEM_AZURE_COSMOS_KEY.").

Definition createCosmosClient (config : Config) : Result C :=
  match whenSet (connectionString config) with
  | Some connectionString => CosmosClient_ofConnectionString connectionString
  | None =>
      match whenSet (endpoint config), whenSet (key config) with
      | Some endpoint, Some key => CosmosClient_ofEndpoint endpoint key
      | _, _ => Err credentialsMissing
      end
  end.

(** The object whose serialisation is hashed into the fingerprint. *)
Definition fingerprintJson (config : Config) : json :=
  JObj [ ("provider", JStr label);
         ("endpoint", JStr (or_else (endpoint config) "(connection-string)"));
         ("database", JStr (database config));
         ("container", JStr (container config)) ].

Definition targetFingerprintOf (config : Config) : string :=
  sha256_hex (JSON_stringify (fingerprintJson config)).

(** The constructor. *)
Definition new (config : Config) : Result (t C K) :=
  match createCosmosClient config with
  | Ok client => Ok (mk config client None)
  | Err e => Err e
  end.

Definition initialize (this : t C K) : Result unit * t C K :=
  match containerRef this with
  | Some _ => (Ok tt, this)
  | None =>
      match databases_createIfNotExists (database (config this)) (client this) with
      | (Err e, client) => (Err e, mk (config this) client None)
      | (Ok database, client) =>
          match containers_createIfNotExists database (container (config this))
                  ["/kind"] client with
          | (Err e, client) => (Err e, mk (config this) client None)
          | (Ok container, client) => (Ok tt, mk (config this) client (Some container))
          end
      end
  end.

Definition getContainer (this : t C K) : Result K :=
  match containerRef this with
  | Some container => Ok container
  | None => Err (BackendError "Azure Cosmos container not initialized")
  end.

(** [for (const document of documents) await container.items.upsert(document)]:
    the loop ends at the first upsert that throws. *)
Fixpoint upsertEach (container : K) (documents : list Doc.t) (client : C)
  : Result unit * C :=
  match documents with
  | [] => (Ok tt, client)
  | document :: rest =>
      match items_upsert container document client with
      | (Ok _, client) => upsertEach container rest client
      | (Err e, client) => (Err e, client)
      end
  end.

Definition upsertDocuments (documents : list Doc.t) (this : t C K)
  : Result unit * t C K :=
  if bool_decide (length documents = 0%nat) then (Ok tt, this)
  else
    match initialize this with
    | (Err e, this) => (Err e, this)
    | (Ok _, this) =>
        match getContainer this with
        | Err e => (Err e, this)
        | Ok container =>
            let '(r, client) := upsertEach container documents (client this) in
            (r, mk (config this) client (containerRef this))
        end
    end.

Definition fetchQuery (sinceEpoch : Z) : SqlQuerySpec :=
  {| query := "SELECT * FROM c WHERE c.updatedAtEpoch > @sinceEpoch";
     parameters := [("@sinceEpoch", sinceEpoch)] |}.

(** The resources are sorted with the comparator
    [left.updatedAtEpoch - right.updatedAtEpoch]. *)
Definition fetchDocumentsUpdatedSince (sinceEpoch : Z) (this : t C K)
  : Result (list Doc.t) * t C K :=
  match initialize this with
  | (Err e, this) => (Err e, this)
  | (Ok _, this) =>
      let querySpec := fetchQuery sinceEpoch in
      match getContainer this with
      | Err e => (Err e, this)
      | Ok container =>
          match items_query_fetchAll container querySpec (client this) with
          | (Err e, client) => (Err e, mk (config this) client (containerRef this))
          | (Ok resources, client) =>
              (Ok (orderByAsc Doc.updatedAtEpoch resources),
               mk (config this) client (containerRef this))
          end
      end
  end.

Definition close (this : t C K) : Result unit * t C K :=
  (Ok tt, mk (config this) (client this) None).

(** [class AzureCosmosRemoteStore implements RemoteMemoryBackend]. *)
Definition implements (config : Config) : RemoteMemoryBackend (t C K) :=
  Build_RemoteMemoryBackend (t C K) (targetFingerprintOf config)
    initialize upsertDocuments fetchDocumentsUpdatedSince.

End Store.
End AzureCosmosRemoteStore.

(** ** The configuration gate *)

(** A JavaScript number as [Number.parseInt] returns it: an integer, or
    [NaN] when the string starts with no digit, or an infinity when it has
    too many. *)
Inductive JSNumber : Type :=
| NotANumber
| Infinite (negative : bool)
| Integer (n : Z).

(** [Number.parseInt(string, radix)]. *)
Class NumberPlatform : Type := {
  Number_parseInt : string -> Z -> JSNumber;
}.

Definition parsePositiveInt `{NumberPlatform} (value : option string) (fallback : Z) : Z :=
  let parsed := Number_parseInt (nullish_default value "") 10 in
  match parsed with
  | Integer n => if bool_decide (0 < n) then n else fallback
  | NotANumber | Infinite _ => fallback
  end.

(** The keys of [SettingsDefaults] that [createFromSettings] reads; every
    setting is a string. *)
Record SettingsDefaults : Type := mkSettings {
  CLAUDE_MEM_REMOTE_DB_ENABLED : string;
  CLAUDE_MEM_REMOTE_DB_PROVIDER : string;
  CLAUDE_MEM_AZURE_COSMOS_CONNECTION_STRING : string;
  CLAUDE_MEM_AZURE_COSMOS_ENDPOINT : string;
  CLAUDE_MEM_AZURE_COSMOS_KEY : string;
  CLAUDE_MEM_AZURE_COSMOS_DATABASE : string;
  CLAUDE_MEM_AZURE_COSMOS_CONTAINER : string;
  CLAUDE_MEM_REMOTE_DB_SYNC_INTERVAL_MS : string;
}.

Module RemoteMemorySync.

(** The arguments of the constructor of [RemoteMemorySync]. *)
Record t (S : Type) : Type := mk {
  backend : S;
  statePath : string;
  syncIntervalMs : Z;
}.
Arguments mk {S} _ _ _.
Arguments backend {S} _.
Arguments statePath {S} _.
Arguments syncIntervalMs {S} _.

Section Gate.
Context `{Platform} `{NumberPlatform} {C D K : Type} `{CosmosSDK C D K}.

Definition configOf (settings : SettingsDefaults) : AzureCosmosRemoteStore.Config :=
  {| AzureCosmosRemoteStore.connectionString :=
       or_undefined (CLAUDE_MEM_AZURE_COSMOS_CONNECTION_STRING settings);
     AzureCosmosRemoteStore.endpoint :=
       or_undefined (CLAUDE_MEM_AZURE_COSMOS_ENDPOINT settings);
     AzureCosmosRemoteStore.key := or_undefined (CLAUDE_MEM_AZURE_COSMOS_KEY settings);
     AzureCosmosRemoteStore.database :=
       or_str (CLAUDE_MEM_AZURE_COSMOS_DATABASE settings) "claude-mem";
     AzureCosmosRemoteStore.container :=
       or_str (CLAUDE_MEM_AZURE_COSMOS_CONTAINER settings) "memory-records" |}.

(** [createFromSettings]: the engine or [null], with the lines handed to
    [logger.error]. *)
Definition createFromSettings (settings : SettingsDefaults) (statePath : string)
  : option (t (AzureCosmosRemoteStore.t C K)) * list string :=
  if strict_ne (CLAUDE_MEM_REMOTE_DB_ENABLED settings) "true" then (None, [])
  else
    let provider := or_str (CLAUDE_MEM_REMOTE_DB_PROVIDER settings) "azure-cosmos" in
    if strict_ne provider "azure-cosmos" then (None, [])
    else
      match AzureCosmosRemoteStore.new (configOf settings) with
      | Ok backend =>
          let intervalMs :=
            parsePositiveInt (Some (CLAUDE_MEM_REMOTE_DB_SYNC_INTERVAL_MS settings)) 30000 in
          (Some (mk backend statePath intervalMs), [])
      | Err _ =>
          (None, ["Failed to configure remote sync, continuing with local DB only"])
      end.

End Gate.
End RemoteMemorySync.

(** ** The life of an engine *)

Module Lifecycle.

(** The engine at work: the world of its tasks and [intervalRef], the timer
    of the periodic sync, given by its period when one is set. *)
Record t (B : Type) : Type := mk {
  world : World B;
  intervalRef : option Z;
}.
Arguments mk {B} _ _.
Arguments world {B} _.
Arguments intervalRef {B} _.

Section Engine.
Context `{Platform} {B : Type} `{RemoteMemoryBackend B}.
Variable statePath : string.
Variable syncIntervalMs : Z.

Definition startBackgroundSync (this : t B) : t B :=
  if bool_decide (is_Some (intervalRef this)) || bool_decide (syncIntervalMs <= 0) then this
  else mk (world this) (Some syncIntervalMs).

(** [initialize]: the timer is started after the startup cycle, inside the
    [try] block. *)
Definition initialize (this : t B) : t B :=
  match performSynchronization statePath true (world this) with
  | (Ok _, w) => startBackgroundSync (mk w (intervalRef this))
  | (Err _, w) =>
      mk (mkWorld (files w) (store w) (backend w) (calls w)
            (errorLog w ++ ["Initial remote sync failed, continuing with local DB only"]))
         (intervalRef this)
  end.

(** The timer fires: [this.scheduleFullSync(store, 'interval')] when a timer
    is set. *)
Definition interval (this : t B) : t B :=
  match intervalRef this with
  | Some _ => mk (scheduleFullSync statePath (world this)) (intervalRef this)
  | None => this
  end.

End Engine.
End Lifecycle.

(** ** A backend and a platform to run the engine on *)

(** An in-memory backend that keeps the contract of the interface: documents
    are stored by id, the last writer wins, a fetch returns the documents
    updated after the given epoch in ascending order. [faults] scripts the
    outcome of the coming operations, one entry each ([true]: the operation
    throws); when the script is used up every operation succeeds. *)
Record MemoryBackend : Type := mkMemoryBackend {
  remote : DocumentMap;
  faults : list bool;
}.

Definition nextFault (b : MemoryBackend) : bool * MemoryBackend :=
  match faults b with
  | [] => (false, b)
  | fault :: rest => (fault, mkMemoryBackend (remote b) rest)
  end.

Definition unavailable {A : Type} : Result A := Err (BackendError "unavailable").

Definition memory_initialize (b : MemoryBackend) : Result unit * MemoryBackend :=
  let '(fault, b') := nextFault b in
  (if fault then unavailable else Ok tt, b').

Definition memory_upsertDocuments (documents : list Doc.t) (b : MemoryBackend)
  : Result unit * MemoryBackend :=
  let '(fault, b') := nextFault b in
  if fault then (unavailable, b')
  else
    (Ok tt,
     mkMemoryBackend
       (fold_left (fun stored document => Map_set stored (Doc.id document) document)
                  documents (remote b'))
       (faults b')).

Definition memory_fetchDocumentsUpdatedSince (sinceEpoch : Z) (b : MemoryBackend)
  : Result (list Doc.t) * MemoryBackend :=
  let '(fault, b') := nextFault b in
  if fault then (unavailable, b')
  else
    (Ok (orderByAsc Doc.updatedAtEpoch
           (List.filter (fun document => bool_decide (sinceEpoch < Doc.updatedAtEpoch document))
                        (Map_values (remote b')))),
     b').

Definition memoryBackend (fingerprint : string) : RemoteMemoryBackend MemoryBackend :=
  {| targetFingerprint := fingerprint;
     backend_initialize := memory_initialize;
     upsertDocuments := memory_upsertDocuments;
     fetchDocumentsUpdatedSince := memory_fetchDocumentsUpdatedSince |}.

(** Comparison of strings by their characters, the collation of the "C" locale. *)
Definition codeUnitCompare (a b : string) : Z :=
  match String.compare a b with
  | Lt => -1
  | Eq => 0
  | Gt => 1
  end.

(** A platform for running examples. The digest and the serialiser stand in
    for the real ones: no property below depends on which functions they are. *)
Definition examplePlatform : Platform :=
  {| sha256_hex := fun s => s;
     JSON_stringify := fun j =>
       match j with
       | JObj fields =>
           String.concat ","
             (map (fun kv => fst kv ++ "=" ++
                     match snd kv with
                     | JStr s => s
                     | JNum n => pretty n
                     | JBool true => "true"
                     | JBool false => "false"
                     | _ => "null"
                     end) fields)
       | _ => "null"
       end;
     localeCompare := codeUnitCompare |}.

(** * The vocabulary of the properties *)

(** ** State files *)

(** The state files the specification calls missing, unreadable or of another
    version. *)
Inductive BadStateFile (fs : FileSystem) (statePath : string) : Prop :=
| file_missing :
    fs !! statePath = None -> BadStateFile fs statePath
| file_unreadable :
    fs !! statePath = Some Unreadable -> BadStateFile fs statePath
| file_malformed :
    fs !! statePath = Some Malformed -> BadStateFile fs statePath
| file_other_version parsed :
    fs !! statePath = Some (Parsed parsed) ->
    getProperty parsed "version" <> Ok (Some (JNum 1)) ->
    BadStateFile fs statePath
| file_without_targets parsed :
    fs !! statePath = Some (Parsed parsed) ->
    getProperty parsed "targets" = Ok None ->
    BadStateFile fs statePath.

(** ** The merge of a session row *)

#[global] Instance Session_eq_dec : EqDecision Session.t.
Proof. solve_decision. Defined.



(** ** Example sessions *)

Module Examples.
(** A local session and payloads used to run the importer. *)
Definition session (content : string) (memory : option string) : Session.t :=
  {| Session.content_session_id := content;
     Session.memory_session_id := memory;
     Session.project := "P";
     Session.user_prompt := Some "hi";
     Session.custom_title := None;
     Session.started_at := "2026-01-01T00:00:00Z";
     Session.started_at_epoch := 10;
     Session.completed_at := None;
     Session.completed_at_epoch := None;
     Session.status := "active" |}.

Definition finished (content : string) : Session.t :=
  {| Session.content_session_id := content;
     Session.memory_session_id := None;
     Session.project := "";
     Session.user_prompt := None;
     Session.custom_title := Some "title";
     Session.started_at := "2026-01-02T00:00:00Z";
     Session.started_at_epoch := 20;
     Session.completed_at := Some "2026-01-03T00:00:00Z";
     Session.completed_at_epoch := Some 30;
     Session.status := "completed" |}.


Definition sessionDocument (s : Session.t) : Doc.t :=
  {| Doc.id := "session:" ++ Session.content_session_id s;
     Doc.sortEpoch := Session.started_at_epoch s;
     Doc.updatedAtEpoch := Session.started_at_epoch s;
     Doc.payload := PSession s |}.

(** One local session, [A], bound to the memory session [X]. *)
Definition oneSession : Database :=
  {| sdk_sessions := [mkRow 1 (session "A" (Some "X"))];
     user_prompts := [];
     observations := [];
     session_summaries := [] |}.
End Examples.

(** ** Keys of the local store *)

Definition contentOf (r : LocalSessionRow) : string :=
  Session.content_session_id (data r).

Definition memoryOf (r : LocalSessionRow) : option string :=
  Session.memory_session_id (data r).

Definition promptKey (r : Row UserPrompt.t) : string * Z :=
  (UserPrompt.content_session_id (data r), UserPrompt.prompt_number (data r)).

(** The keys of the local store: the primary key of [sdk_sessions], and the
    three uniqueness invariants of the specification. *)
Record UniqueKeys (db : Database) : Prop := mkUniqueKeys {
  unique_rowid : NoDup (id <$> sdk_sessions db);
  unique_content_session_id : NoDup (contentOf <$> sdk_sessions db);
  unique_memory_session_id : NoDup (omap memoryOf (sdk_sessions db));
  unique_prompt : NoDup (promptKey <$> user_prompts db);
}.

(** A sequence of imports. *)
Definition importAll (db : Database) (batches : list (list Doc.t)) : Database :=
  fold_left (fun db batch => fst (importRemoteDocuments db batch)) batches db.

(** ** Repeated imports *)

(** The session payloads of a batch, in order. *)
Definition sessionsOf (documents : list Doc.t) : list Session.t :=
  omap (fun document => match Doc.payload document with
                        | PSession s => Some s
                        | _ => None
                        end) documents.

(** The session payload releases no [memory_session_id] that a document of
    another session carries: it leaves the binding that its session has
    locally in place (it carries none, or the same one), or no payload of
    [sessions] for another session carries that binding. *)
Definition ReleasesUnclaimed (db : Database) (sessions : list Session.t)
    (session : Session.t) : Prop :=
  forall existing bound,
    getSessionByContentSessionId db (Session.content_session_id session) = Some existing ->
    memoryOf existing = Some bound ->
    falsy_ostr (Session.memory_session_id session) = true
    \/ Session.memory_session_id session = Some bound
    \/ forall other,
         other ∈ sessions ->
         Session.content_session_id other <> Session.content_session_id session ->
         Session.memory_session_id other <> Some bound.

(** The session documents of one session carry the same payload. *)
Definition OnePayloadPerSession (sessions : list Session.t) : Prop :=
  forall s t,
    s ∈ sessions -> t ∈ sessions ->
    Session.content_session_id s = Session.content_session_id t -> s = t.

(** Importing the document writes nothing. *)
Definition Settled (db : Database) (document : Doc.t) : Prop :=
  importDocument db document = (db, false).

(** Some other session holds the [memory_session_id] of the payload. *)
Definition Conflict (db : Database) (session : Session.t) : Prop :=
  exists r, r ∈ sdk_sessions db
            /\ memoryOf r = Session.memory_session_id session
            /\ contentOf r <> Session.content_session_id session.

(** The loop of the import over session payloads only. *)
Definition applySessions (db : Database) (sessions : list Session.t) : Database :=
  fold_left (fun db session => fst (upsertSession db session)) sessions db.

(** The store [db'] has the sessions of [db], and its other tables are those
    of [db] with rows added at the end. *)
Definition Appended (db db' : Database) : Prop :=
  sdk_sessions db' = sdk_sessions db
  /\ (exists added : list (Row UserPrompt.t), user_prompts db' = (user_prompts db ++ added)%list)
  /\ (exists added : list LocalObservationRow, observations db' = (observations db ++ added)%list)
  /\ (exists added : list LocalSummaryRow,
        session_summaries db' = (session_summaries db ++ added)%list).

Definition notSession (document : Doc.t) : Prop := Doc.kind document <> KSession.

Module ExamplesImport.
(** Session [B] claims the memory session [X] that [A] holds locally, and
    the document of [A] moves [A] to the memory session [Y]. *)
Definition rebinding : list Doc.t :=
  [ Examples.sessionDocument (Examples.session "B" (Some "X"));
    Examples.sessionDocument (Examples.session "A" (Some "Y")) ].

Definition promptDocument (content : string) (number epoch : Z) : Doc.t :=
  {| Doc.id := "prompt:" ++ content ++ ":" ++ pretty number;
     Doc.sortEpoch := epoch;
     Doc.updatedAtEpoch := epoch;
     Doc.payload :=
       PPrompt {| Prompt.content_session_id := content;
                  Prompt.project := "P";
                  Prompt.prompt_number := number;
                  Prompt.prompt_text := "yo";
                  Prompt.created_at := "2026-01-01T00:00:01Z";
                  Prompt.created_at_epoch := epoch |} |}.

(** Two documents of the session [A] that carry different memory sessions. *)
Definition differing : list Doc.t :=
  [ Examples.sessionDocument (Examples.session "A" (Some "X"));
    Examples.sessionDocument (Examples.session "A" (Some "Y")) ].

(** The document of [A] moves [A] to the memory session [Y] and comes twice;
    [B] claims [Y], and has a prompt. *)
Definition moving : list Doc.t :=
  [ promptDocument "B" 1 40;
    Examples.sessionDocument (Examples.session "A" (Some "Y"));
    Examples.sessionDocument (Examples.session "B" (Some "Y"));
    Examples.sessionDocument (Examples.session "A" (Some "Y")) ].
End ExamplesImport.

(** ** Canonical payloads *)

(** [discovery_tokens] as an integer, a missing value counting as 0. *)
Definition tokensOrZero (tokens : option Z) : Z :=
  match tokens with
  | Some n => n
  | None => 0
  end.

(** Two observation payloads with the same content once [discovery_tokens]
    is normalised. *)
Definition sameObservationContent (a b : Observation.t) : Prop :=
  Observation.memory_session_id a = Observation.memory_session_id b
  /\ Observation.project a = Observation.project b
  /\ Observation.text a = Observation.text b
  /\ Observation.type a = Observation.type b
  /\ Observation.title a = Observation.title b
  /\ Observation.subtitle a = Observation.subtitle b
  /\ Observation.facts a = Observation.facts b
  /\ Observation.narrative a = Observation.narrative b
  /\ Observation.concepts a = Observation.concepts b
  /\ Observation.files_read a = Observation.files_read b
  /\ Observation.files_modified a = Observation.files_modified b
  /\ Observation.prompt_number a = Observation.prompt_number b
  /\ tokensOrZero (Observation.discovery_tokens a)
     = tokensOrZero (Observation.discovery_tokens b)
  /\ Observation.created_at a = Observation.created_at b
  /\ Observation.created_at_epoch a = Observation.created_at_epoch b.

Definition sameSummaryContent (a b : Summary.t) : Prop :=
  Summary.memory_session_id a = Summary.memory_session_id b
  /\ Summary.project a = Summary.project b
  /\ Summary.request a = Summary.request b
  /\ Summary.investigated a = Summary.investigated b
  /\ Summary.learned a = Summary.learned b
  /\ Summary.completed a = Summary.completed b
  /\ Summary.next_steps a = Summary.next_steps b
  /\ Summary.files_read a = Summary.files_read b
  /\ Summary.files_edited a = Summary.files_edited b
  /\ Summary.notes a = Summary.notes b
  /\ Summary.prompt_number a = Summary.prompt_number b
  /\ tokensOrZero (Summary.discovery_tokens a) = tokensOrZero (Summary.discovery_tokens b)
  /\ Summary.created_at a = Summary.created_at b
  /\ Summary.created_at_epoch a = Summary.created_at_epoch b.

(** The canonical serialisation input of an observation: the payload's keys
    in their fixed order, [discovery_tokens] normalised. *)
Definition canonicalObservation (o : Observation.t) : json :=
  JObj [ ("memory_session_id", JStr (Observation.memory_session_id o));
         ("project", JStr (Observation.project o));
         ("text", json_ostr (Observation.text o));
         ("type", JStr (Observation.type o));
         ("title", json_ostr (Observation.title o));
         ("subtitle", json_ostr (Observation.subtitle o));
         ("facts", json_ostr (Observation.facts o));
         ("narrative", json_ostr (Observation.narrative o));
         ("concepts", json_ostr (Observation.concepts o));
         ("files_read", json_ostr (Observation.files_read o));
         ("files_modified", json_ostr (Observation.files_modified o));
         ("prompt_number", json_onum (Observation.prompt_number o));
         ("discovery_tokens", JNum (tokensOrZero (Observation.discovery_tokens o)));
         ("created_at", JStr (Observation.created_at o));
         ("created_at_epoch", JNum (Observation.created_at_epoch o)) ].

Definition canonicalSummary (s : Summary.t) : json :=
  JObj [ ("memory_session_id", JStr (Summary.memory_session_id s));
         ("project", JStr (Summary.project s));
         ("request", json_ostr (Summary.request s));
         ("investigated", json_ostr (Summary.investigated s));
         ("learned", json_ostr (Summary.learned s));
         ("completed", json_ostr (Summary.completed s));
         ("next_steps", json_ostr (Summary.next_steps s));
         ("files_read", json_ostr (Summary.files_read s));
         ("files_edited", json_ostr (Summary.files_edited s));
         ("notes", json_ostr (Summary.notes s));
         ("prompt_number", json_onum (Summary.prompt_number s));
         ("discovery_tokens", JNum (tokensOrZero (Summary.discovery_tokens s)));
         ("created_at", JStr (Summary.created_at s));
         ("created_at_epoch", JNum (Summary.created_at_epoch s)) ].

Module ExamplesIdentity.
Definition observation (tokens : option Z) : Observation.t :=
  {| Observation.memory_session_id := "X";
     Observation.project := "P";
     Observation.text := None;
     Observation.type := "discovery";
     Observation.title := Some "title";
     Observation.subtitle := None;
     Observation.facts := Some "[]";
     Observation.narrative := Some "narrative";
     Observation.concepts := None;
     Observation.files_read := None;
     Observation.files_modified := None;
     Observation.prompt_number := Some 1;
     Observation.discovery_tokens := tokens;
     Observation.created_at := "2026-01-01T00:00:02Z";
     Observation.created_at_epoch := 50 |}.
End ExamplesIdentity.

(** ** Push batches and the collectors' map *)

(** [batch] stands for [added]: each of its documents was added, and each
    added document has one of its id in [batch] that is at least as recent. *)
Definition Represents (added batch : list Doc.t) : Prop :=
  (forall d, d ∈ batch -> d ∈ added)
  /\ (forall d, d ∈ added ->
        exists kept, kept ∈ batch /\ Doc.id kept = Doc.id d
                     /\ Doc.updatedAtEpoch d <= Doc.updatedAtEpoch kept).

(** The documents that the collectors build before deduplication. *)
Definition bootstrapCandidates `{Platform} (db : Database) : list Doc.t :=
  ((fun session => buildSessionDocument session None) <$> getAllSessions db)
  ++ flat_map (promptDocuments db) (getAllPrompts db)
  ++ flat_map (observationDocuments db) (getAllObservations db)
  ++ flat_map (summaryDocuments db) (getAllSummaries db).

Definition incrementalCandidates `{Platform} (db : Database) (sinceEpoch : Z) : list Doc.t :=
  flat_map (promptDocuments db) (getPromptsSince db sinceEpoch)
  ++ flat_map (observationDocuments db) (getObservationsSince db sinceEpoch)
  ++ flat_map (summaryDocuments db) (getSummariesSince db sinceEpoch).

(** Ascending by [(updatedAtEpoch, id)]. *)
Definition documentLe `{Platform} (left right : Doc.t) : Prop :=
  Doc.updatedAtEpoch left < Doc.updatedAtEpoch right
  \/ (Doc.updatedAtEpoch left = Doc.updatedAtEpoch right
      /\ localeCompare (Doc.id left) (Doc.id right) <= 0).

(** A push batch: one document per id, the most recent of those added, in
    ascending order. *)
Definition DedupedSorted `{Platform} (added batch : list Doc.t) : Prop :=
  NoDup (Doc.id <$> batch)
  /\ Represents added batch
  /\ StronglySorted documentLe batch.

(** What the map of a collector holds after the documents [added]. *)
Record Collected (added : list Doc.t) (documents : DocumentMap) : Prop := mkCollected {
  collected_keys : NoDup (fst <$> documents);
  collected_from : forall key value,
      Map_get documents key = Some value -> Doc.id value = key /\ value ∈ added;
  collected_all : forall d, d ∈ added ->
      exists kept, Map_get documents (Doc.id d) = Some kept
                   /\ Doc.updatedAtEpoch d <= Doc.updatedAtEpoch kept;
}.

Module ExamplesSync.
(** The local store of the engine examples: session [A] with one prompt. *)
Definition localStore : Database :=
  {| sdk_sessions := [mkRow 1 (Examples.session "A" (Some "X"))];
     user_prompts :=
       [mkRow 1 {| UserPrompt.content_session_id := "A";
                   UserPrompt.prompt_number := 1;
                   UserPrompt.prompt_text := "hello";
                   UserPrompt.created_at := "2026-01-01T00:00:01Z";
                   UserPrompt.created_at_epoch := 100 |}];
     observations := [];
     session_summaries := [] |}.
End ExamplesSync.

(** ** Backend calls and cursors *)

Definition callOk (call : BackendCall) : bool :=
  match call with
  | CallInitialize ok => ok
  | CallUpsert _ ok => ok
  | CallFetch _ (Some _) => true
  | CallFetch _ None => false
  end.

(** The batches that [upsertDocuments] accepted, in order. *)
Definition pushedBatches (calls : list BackendCall) : list (list Doc.t) :=
  omap (fun call => match call with
                    | CallUpsert documents true => Some documents
                    | _ => None
                    end) calls.

(** The batches that [fetchDocumentsUpdatedSince] returned, in order. *)
Definition fetchedBatches (calls : list BackendCall) : list (list Doc.t) :=
  omap (fun call => match call with
                    | CallFetch _ (Some documents) => Some documents
                    | _ => None
                    end) calls.

(** Every document of the batches was updated at [epoch] or before. *)
Definition Covers (epoch : Z) (batches : list (list Doc.t)) : Prop :=
  forall documents d, documents ∈ batches -> d ∈ documents -> Doc.updatedAtEpoch d <= epoch.

(** A specification of a task: from a world satisfying [pre], the task ends
    in [post] when it returns and in [failed] when it throws. *)
Definition hoare {B A : Type} (pre : World B -> Prop) (task : Task B A)
    (post : A -> World B -> Prop) (failed : World B -> Prop) : Prop :=
  forall w, pre w ->
    match task w with
    | (Ok x, w') => post x w'
    | (Err _, w') => failed w'
    end.

(** ** Assertions on the worlds of a task *)

Section Assertions.
Context {B : Type} `{RemoteMemoryBackend B}.
Variable statePath : string.
(** The world in which the task starts, and the target state it finds. *)
Variable w0 : World B.
Variable p0 : RemoteSyncTargetState.

(** The task has made the calls [cs] and the persisted target state is [p]:
    nothing but the push cursor has moved. *)
Record Progress (cs : list BackendCall) (p : RemoteSyncTargetState) (w : World B)
  : Prop := mkProgress {
  progress_store : store w = store w0;
  progress_log : errorLog w = errorLog w0;
  progress_calls : calls w = (calls w0 ++ cs)%list;
  progress_state : readTargetState statePath (files w) = Ok p;
  progress_bootstrap : bootstrapComplete p = bootstrapComplete p0;
  progress_pull : lastPullEpoch p = lastPullEpoch p0;
  progress_push : lastLocalPushEpoch p0 <= lastLocalPushEpoch p;
  progress_covers : Covers (lastLocalPushEpoch p) (pushedBatches cs);
  progress_files : pushedBatches cs = [] -> files w = files w0;
  progress_fetched : fetchedBatches cs = [];
}.

(** The task goes on: every call so far succeeded. *)
Definition Running (P : RemoteSyncTargetState -> Prop) (w : World B) : Prop :=
  exists cs p, Progress cs p w /\ Forall (fun c => callOk c = true) cs /\ P p.

(** The task stopped at a call that failed. *)
Definition Interrupted (w : World B) : Prop :=
  exists cs c p,
    Progress (cs ++ [c]) p w /\ Forall (fun c => callOk c = true) cs /\ callOk c = false.

(** The cycle completed. *)
Definition Completed (bootstrapLocal : bool) (w : World B) : Prop :=
  exists cs new,
    errorLog w = errorLog w0
    /\ calls w = (calls w0 ++ cs)%list
    /\ Forall (fun c => callOk c = true) cs
    /\ readTargetState statePath (files w) = Ok new
    /\ lastLocalPushEpoch p0 <= lastLocalPushEpoch new
    /\ lastPullEpoch p0 <= lastPullEpoch new
    /\ Covers (lastLocalPushEpoch new) (pushedBatches cs)
    /\ Covers (lastPullEpoch new) (fetchedBatches cs)
    /\ (bootstrapLocal = true \/ bootstrapComplete p0 = true -> bootstrapComplete new = true).

(** The cursors persisted in [w'] are those of [old] or later ones. *)
Definition NotBefore (old : RemoteSyncTargetState) (w' : World B) : Prop :=
  exists new,
    readTargetState statePath (files w') = Ok new
    /\ lastLocalPushEpoch old <= lastLocalPushEpoch new
    /\ lastPullEpoch old <= lastPullEpoch new.

End Assertions.

(** The state the cycle holds in memory is ahead of the persisted one. *)
Definition Ahead (bootstrapLocal : bool) (state p : RemoteSyncTargetState) : Prop :=
  lastLocalPushEpoch p <= lastLocalPushEpoch state
  /\ lastPullEpoch state = lastPullEpoch p
  /\ (bootstrapLocal = true \/ bootstrapComplete p = true -> bootstrapComplete state = true).

Module ExamplesCycle.
(** The engine over the in-memory backend, with no state file yet. *)
Definition target : RemoteMemoryBackend MemoryBackend := memoryBackend "target".

Definition world (faults : list bool) : World MemoryBackend :=
  {| files := ∅;
     store := ExamplesSync.localStore;
     backend := {| remote := []; faults := faults |};
     calls := [];
     errorLog := [] |}.

Definition cycle (bootstrapLocal : bool) (w : World MemoryBackend)
  : Result unit * World MemoryBackend :=
  @performSynchronization examplePlatform MemoryBackend target "state.json" bootstrapLocal w.

Definition persisted (w : World MemoryBackend) : Result RemoteSyncTargetState :=
  @readTargetState MemoryBackend target "state.json" (files w).
End ExamplesCycle.

(** ** What an import leaves in place *)

(** The rows of the four tables. *)
Definition rowCount (db : Database) : nat :=
  (length (sdk_sessions db) + length (user_prompts db)
   + length (observations db) + length (session_summaries db))%nat.

(** The priority of a status: that of the table, and 0 for any other name. *)
Definition priorityOf (status : string) : Z :=
  nullish_default (ownNumber status priority) 0.

(** The session row [new] stands where [old] stood: the same row and session,
    its status no lower, and every column that was set still set. *)
Record SessionKept (old new : LocalSessionRow) : Prop := mkSessionKept {
  kept_id : id new = id old;
  kept_content : contentOf new = contentOf old;
  kept_status :
    priorityOf (Session.status (data old)) <= priorityOf (Session.status (data new));
  kept_started_at :
    Session.started_at (data old) <> "" ->
    Session.started_at (data new) = Session.started_at (data old);
  kept_started_at_epoch :
    Session.started_at_epoch (data old) <> 0 ->
    Session.started_at_epoch (data new) = Session.started_at_epoch (data old);
  kept_completed_at :
    is_Some (Session.completed_at (data old)) -> is_Some (Session.completed_at (data new));
  kept_completed_at_epoch :
    is_Some (Session.completed_at_epoch (data old)) ->
    is_Some (Session.completed_at_epoch (data new));
  kept_custom_title :
    is_Some (Session.custom_title (data old)) -> is_Some (Session.custom_title (data new));
  kept_memory :
    falsy_ostr (memoryOf old) = false -> falsy_ostr (memoryOf new) = false;
  kept_project :
    Session.project (data old) <> "" -> Session.project (data new) <> "";
  kept_user_prompt :
    falsy_ostr (Session.user_prompt (data old)) = false ->
    falsy_ostr (Session.user_prompt (data new)) = false;
}.

(** The identity of a session row: its row id and its session. *)
Definition sessionKey (r : LocalSessionRow) : Z * string := (id r, contentOf r).

(** The store [db'] holds what [db] held: the prompt, observation and summary
    rows of [db] as they were, and its session rows by row id and session,
    each table with rows added at the end only. *)
Record Grown (db db' : Database) : Prop := mkGrown {
  grown_sessions :
    (sessionKey <$> sdk_sessions db) `prefix_of` (sessionKey <$> sdk_sessions db');
  grown_prompts : user_prompts db `prefix_of` user_prompts db';
  grown_observations : observations db `prefix_of` observations db';
  grown_summaries : session_summaries db `prefix_of` session_summaries db';
}.

(** The prompt payloads of a batch, in order. *)
Definition promptsOf (documents : list Doc.t) : list Prompt.t :=
  omap (fun document => match Doc.payload document with
                        | PPrompt p => Some p
                        | _ => None
                        end) documents.

(** The natural key of a prompt payload. *)
Definition promptIdentity (p : Prompt.t) : string * Z :=
  (Prompt.content_session_id p, Prompt.prompt_number p).

(** No prompt, observation or summary of the store was created at
    [sinceEpoch] or later. *)
Definition NothingSince (db : Database) (sinceEpoch : Z) : Prop :=
  (forall up, up ∈ user_prompts db -> UserPrompt.created_at_epoch (data up) < sinceEpoch)
  /\ (forall o, o ∈ observations db -> Observation.created_at_epoch (data o) < sinceEpoch)
  /\ (forall s, s ∈ session_summaries db -> Summary.created_at_epoch (data s) < sinceEpoch).

(** The observation and summary payloads of a batch, in order. *)
Definition observationsOf (documents : list Doc.t) : list Observation.t :=
  omap (fun document => match Doc.payload document with
                        | PObservation o => Some o
                        | _ => None
                        end) documents.

Definition summariesOf (documents : list Doc.t) : list Summary.t :=
  omap (fun document => match Doc.payload document with
                        | PSummary s => Some s
                        | _ => None
                        end) documents.

(** What the importer tells observations apart by: the columns its SELECT
    compares. *)
Definition observationKey (o : Observation.t) : string * Z * string * string * string :=
  (Observation.memory_session_id o, Observation.created_at_epoch o, Observation.type o,
   COALESCE_str (Observation.title o), COALESCE_str (Observation.narrative o)).

(** What the importer tells summaries apart by. *)
Definition summaryKey (s : Summary.t) : string * Z * Z :=
  (Summary.memory_session_id s, Summary.created_at_epoch s,
   COALESCE_neg1 (Summary.prompt_number s)).

(** ** Example state files *)

Module ExamplesState.
Definition state : RemoteSyncTargetState :=
  {| bootstrapComplete := true; lastLocalPushEpoch := 7; lastPullEpoch := 9 |}.

(** A state file with the entry of the target ["target"]. *)
Definition written : FileSystem :=
  <["state.json" :=
      Parsed (JObj [("version", JNum 1);
                    ("targets", JObj [("target", targetStateJson state)])])]> ∅.

(** A state file of another version, with the entry of a target ["other"]. *)
Definition outdated : FileSystem :=
  <["state.json" :=
      Parsed (JObj [("version", JNum 2);
                    ("targets", JObj [("other", targetStateJson initialTargetState)])])]> ∅.
End ExamplesState.

(** ** The course of a cycle *)

(** A batch as [pushDocuments] sends it: an empty one is not sent. *)
Definition pushedAs (documents : list Doc.t) : list (list Doc.t) :=
  if bool_decide (length documents = 0%nat) then [] else [documents].

Section Course.
Context `{Platform}.

(** The state a cycle holds in memory after the bootstrap push, and the
    batch of that push. *)
Definition afterBootstrap (bootstrapLocal : bool) (state : RemoteSyncTargetState)
    (db : Database) : RemoteSyncTargetState :=
  if bootstrapLocal && negb (bootstrapComplete state) then
    {| bootstrapComplete := true;
       lastLocalPushEpoch :=
         Z.max (lastLocalPushEpoch state)
               (getMaxUpdatedEpoch (collectBootstrapDocuments db));
       lastPullEpoch := lastPullEpoch state |}
  else state.

Definition bootstrapBatch (bootstrapLocal : bool) (state : RemoteSyncTargetState)
    (db : Database) : list (list Doc.t) :=
  if bootstrapLocal && negb (bootstrapComplete state)
  then pushedAs (collectBootstrapDocuments db)
  else [].

(** The batch of the incremental push, and the state after it. *)
Definition incrementalBatch (state : RemoteSyncTargetState) (db : Database) : list Doc.t :=
  collectIncrementalDocuments db
    (Z.max 0 (lastLocalPushEpoch state - LOCAL_INCREMENTAL_OVERLAP_MS)).

Definition afterIncremental (state : RemoteSyncTargetState) (db : Database)
  : RemoteSyncTargetState :=
  if bool_decide (0 < length (incrementalBatch state db))%nat
  then raisePush state (incrementalBatch state db)
  else state.

(** The state after the documents fetched. *)
Definition afterPull (state : RemoteSyncTargetState) (fetched : list Doc.t)
  : RemoteSyncTargetState :=
  if bool_decide (0 < length fetched)%nat then raisePull state fetched else state.

(** The batches a cycle pushes from the store [db] when it finds the target
    state [old]: the bootstrap batch when it is asked for and not done yet,
    then the incremental batch, each unless empty. *)
Definition cyclePushes (bootstrapLocal : bool) (old : RemoteSyncTargetState)
    (db : Database) : list (list Doc.t) :=
  bootstrapBatch bootstrapLocal old db
  ++ pushedAs (incrementalBatch (afterBootstrap bootstrapLocal old db) db).

(** The target state a cycle saves at its end. *)
Definition cycleState (bootstrapLocal : bool) (old : RemoteSyncTargetState)
    (db : Database) (fetched : list Doc.t) : RemoteSyncTargetState :=
  afterPull (afterIncremental (afterBootstrap bootstrapLocal old db) db) fetched.

End Course.

(** The calls of a cycle in which every call is served. *)
Definition servedCalls (pushes : list (list Doc.t)) (sinceEpoch : Z) (fetched : list Doc.t)
  : list BackendCall :=
  CallInitialize true
  :: ((fun documents => CallUpsert documents true) <$> pushes)
  ++ [CallFetch sinceEpoch (Some fetched)].

Section Exactness.
Context {B : Type} `{RemoteMemoryBackend B}.
Variable statePath : string.
Variable w0 : World B.

(** The task has made the calls [cs], each of them served, and has left the
    store and the log alone; the state of the target can be read. *)
Record Exactly (cs : list BackendCall) (w : World B) : Prop := mkExactly {
  exactly_store : store w = store w0;
  exactly_log : errorLog w = errorLog w0;
  exactly_calls : calls w = (calls w0 ++ cs)%list;
  exactly_state : exists p, readTargetState statePath (files w) = Ok p;
}.

End Exactness.

Section Summary.
Context `{Platform} {B : Type} `{RemoteMemoryBackend B}.
Variable statePath : string.

(** What a cycle that started in [w0] with the target state [old] has come to
    in [w']: its calls, the store, the log and the state it saved. *)
Definition Summed (w0 : World B) (bootstrapLocal : bool) (old : RemoteSyncTargetState)
    (w' : World B) : Prop :=
  exists fetched,
    calls w' = (calls w0
                ++ servedCalls (cyclePushes bootstrapLocal old (store w0))
                     (Z.max 0 (lastPullEpoch old - REMOTE_INCREMENTAL_OVERLAP_MS))
                     fetched)%list
    /\ store w' = fst (importRemoteDocuments (store w0) fetched)
    /\ errorLog w' = errorLog w0
    /\ readTargetState statePath (files w')
       = Ok (cycleState bootstrapLocal old (store w0) fetched).

End Summary.

(** The line the engine logs when the task of a request fails. *)
Definition requestMessage (request : Request) : string :=
  match request with
  | Startup => "Initial remote sync failed, continuing with local DB only"
  | FullSync => "Periodic remote sync failed"
  | PromptSync _ => "Prompt sync failed"
  | ObservationSync _ => "Observation sync failed"
  | SummarySync _ => "Summary sync failed"
  end.

(** What one request has come to: the calls it made, the store after the
    imports of what it fetched, and the log with one line more when a call
    failed. *)
Definition Outcome {B : Type} (message : string) (w w' : World B) : Prop :=
  exists cs,
    calls w' = (calls w ++ cs)%list
    /\ store w' = importAll (store w) (fetchedBatches cs)
    /\ ((Forall (fun c => callOk c = true) cs /\ errorLog w' = errorLog w)
        \/ (exists served failed,
              cs = (served ++ [failed])%list
              /\ Forall (fun c => callOk c = true) served
              /\ callOk failed = false
              /\ errorLog w' = (errorLog w ++ [message])%list)).


Section EventPush.
Context {B : Type} `{RemoteMemoryBackend B}.
Variable statePath : string.

(** An event-driven task has sent [documents] in one call. When the call was
    served, the push cursor is raised over the batch and nothing is logged;
    when it failed, [message] is logged and the state file is as it was. *)
Definition Pushed (documents : list Doc.t) (message : string)
    (old : RemoteSyncTargetState) (w w' : World B) : Prop :=
  exists ok,
    calls w' = (calls w ++ [CallUpsert documents ok])%list
    /\ store w' = store w
    /\ (ok = true ->
        errorLog w' = errorLog w
        /\ readTargetState statePath (files w') = Ok (raisePush old documents))
    /\ (ok = false ->
        errorLog w' = (errorLog w ++ [message])%list /\ files w' = files w).

End EventPush.

(** ** Stand-ins for the Cosmos SDK and for [Number.parseInt] *)

Module ExamplesAzure.

(** A container kept in memory: the client is the list of its items, a
    database and a container are known by their ids, and no operation
    throws. *)
Definition cosmos : CosmosSDK (list Doc.t) string string :=
  {| CosmosClient_ofConnectionString := fun _ => Ok [];
     CosmosClient_ofEndpoint := fun _ _ => Ok [];
     databases_createIfNotExists := fun id client => (Ok id, client);
     containers_createIfNotExists := fun _ id _ client => (Ok id, client);
     items_upsert := fun _ document client => (Ok tt, (client ++ [document])%list);
     items_query_fetchAll := fun _ _ client => (Ok client, client) |}.

Definition digit (c : Ascii.ascii) : option Z :=
  let n := Z.of_nat (Ascii.nat_of_ascii c) in
  if bool_decide (48 <= n <= 57) then Some (n - 48) else None.

Fixpoint readDigits (s : string) (read : option Z) : option Z :=
  match s with
  | String c rest =>
      match digit c with
      | Some d => readDigits rest (Some (10 * nullish_default read 0 + d))
      | None => read
      end
  | EmptyString => read
  end.

(** The decimal digits a string starts with, read as [Number.parseInt] reads
    them. *)
Definition numbers : NumberPlatform :=
  {| Number_parseInt := fun s _ =>
       match readDigits s None with
       | Some n => Integer n
       | None => NotANumber
       end |}.

Definition settings : SettingsDefaults :=
  {| CLAUDE_MEM_REMOTE_DB_ENABLED := "true";
     CLAUDE_MEM_REMOTE_DB_PROVIDER := "";
     CLAUDE_MEM_AZURE_COSMOS_CONNECTION_STRING := "AccountEndpoint=https://a/;AccountKey=k;";
     CLAUDE_MEM_AZURE_COSMOS_ENDPOINT := "";
     CLAUDE_MEM_AZURE_COSMOS_KEY := "";
     CLAUDE_MEM_AZURE_COSMOS_DATABASE := "";
     CLAUDE_MEM_AZURE_COSMOS_CONTAINER := "";
     CLAUDE_MEM_REMOTE_DB_SYNC_INTERVAL_MS := "60000" |}.

(** The same settings with the connection string of another account. *)
Definition otherAccount : SettingsDefaults :=
  {| CLAUDE_MEM_REMOTE_DB_ENABLED := "true";
     CLAUDE_MEM_REMOTE_DB_PROVIDER := "";
     CLAUDE_MEM_AZURE_COSMOS_CONNECTION_STRING := "AccountEndpoint=https://b/;AccountKey=k;";
     CLAUDE_MEM_AZURE_COSMOS_ENDPOINT := "";
     CLAUDE_MEM_AZURE_COSMOS_KEY := "";
     CLAUDE_MEM_AZURE_COSMOS_DATABASE := "";
     CLAUDE_MEM_AZURE_COSMOS_CONTAINER := "";
     CLAUDE_MEM_REMOTE_DB_SYNC_INTERVAL_MS := "60000" |}.

Definition document (name : string) (epoch : Z) : Doc.t :=
  {| Doc.id := "prompt:" ++ name ++ ":1";
     Doc.sortEpoch := epoch;
     Doc.updatedAtEpoch := epoch;
     Doc.payload :=
       PPrompt {| Prompt.content_session_id := name;
                  Prompt.project := "P";
                  Prompt.prompt_number := 1;
                  Prompt.prompt_text := "hi";
                  Prompt.created_at := "2026-01-01T00:00:01Z";
                  Prompt.created_at_epoch := epoch |} |}.

(** A store over the container in memory, not yet initialised, that holds two
    documents out of order. *)
Definition stocked : AzureCosmosRemoteStore.t (list Doc.t) string :=
  AzureCosmosRemoteStore.mk (@RemoteMemorySync.configOf settings)
    [document "b" 20; document "a" 10] None.

(** The engine over that store, with the example sessions in the local
    database and no state file yet. *)
Definition world : World (AzureCosmosRemoteStore.t (list Doc.t) string) :=
  {| files := ∅;
     store := ExamplesSync.localStore;
     backend := stocked;
     calls := [];
     errorLog := [] |}.

End ExamplesAzure.

(** The Cosmos service answers every call. *)
Record Healthy {C D K : Type} `{CosmosSDK C D K} : Prop := mkHealthy {
  healthy_database : forall id client,
      exists database client', databases_createIfNotExists id client = (Ok database, client');
  healthy_container : forall (database : D) id paths client,
      exists (container : K) client',
        containers_createIfNotExists database id paths client = (Ok container, client');
  healthy_upsert : forall (container : K) document client,
      exists client', items_upsert container document client = (Ok tt, client');
  healthy_query : forall (container : K) querySpec client,
      exists resources client',
        items_query_fetchAll container querySpec client = (Ok resources, client');
}.
Arguments Healthy {C} D {K} {_}.

(** The backend serves every call. *)
Record Serving (B : Type) `{RemoteMemoryBackend B} : Prop := mkServing {
  serving_initialize : forall b : B, exists b', backend_initialize b = (Ok tt, b');
  serving_upsert : forall documents (b : B),
      exists b', upsertDocuments documents b = (Ok tt, b');
  serving_fetch : forall sinceEpoch (b : B),
      exists documents b', fetchDocumentsUpdatedSince sinceEpoch b = (Ok documents, b');
}.

Section Quietness.
Context {B : Type} `{RemoteMemoryBackend B}.
Variable statePath : string.
Variable w0 : World B.

(** Since [w0] every call was served and nothing was logged; the state of
    the target can be read. *)
Record Quiet (w : World B) : Prop := mkQuiet {
  quiet_log : errorLog w = errorLog w0;
  quiet_calls : exists cs, calls w = (calls w0 ++ cs)%list
                           /\ Forall (fun c => callOk c = true) cs;
  quiet_state : exists p, readTargetState statePath (files w) = Ok p;
}.

End Quietness.

(** * Properties *)

(** ** The state store *)

Lemma notStateVersion_false (version : option json) :
  notStateVersion version = false -> version = Some (JNum 1).
Proof.
  destruct version as [[| | n | | |]|]; simpl; try discriminate.
  unfold strict_ne, STATE_VERSION. case_bool_decide; [congruence | discriminate].
Qed.

(** C8.  [loadStateFile] returns the empty state [{version: 1, targets: {}}],
    and does not throw, when the file is missing, cannot be read or parsed,
    has a [version] other than 1, or has no [targets]. *)
Theorem loadStateFile_bad_file_is_empty (fs : FileSystem) (statePath : string) :
  BadStateFile fs statePath ->
  loadStateFile fs statePath = emptyStateFile.
Proof.
  intros bad. unfold loadStateFile, loadStateFile_try.
  destruct bad as [-> | -> | -> | parsed -> version | parsed -> targets]; try reflexivity.
  - destruct (getProperty parsed "version") as [v|e] eqn:Hv; [|reflexivity].
    destruct (notStateVersion v) eqn:Hn; [reflexivity|].
    apply notStateVersion_false in Hn. subst v. contradiction.
  - destruct (getProperty parsed "version") as [v|e]; [|reflexivity].
    destruct (notStateVersion v); [reflexivity|].
    rewrite targets. reflexivity.
Qed.

Lemma loadStateFile_bad_file_is_empty_witness :
  loadStateFile
    (<["state.json" := Parsed (JObj [("version", JNum 2); ("targets", JObj [])])]> ∅)
    "state.json" = emptyStateFile.
Proof.
  apply loadStateFile_bad_file_is_empty.
  apply file_other_version with (parsed := JObj [("version", JNum 2); ("targets", JObj [])]).
  - apply lookup_insert_eq.
  - simpl. discriminate.
Defined.

(** ** The importer: merging one session *)


Section ImporterFacts.

Lemma find_fmap_same {A : Type} (f : A -> bool) (g : A -> A) (l : list A) :
  (forall x, f (g x) = f x) ->
  find f (g <$> l) = option_map g (find f l).
Proof.
  intros same. induction l as [|x l IH]; [reflexivity|].
  rewrite fmap_cons. simpl. rewrite same. destruct (f x); [reflexivity | exact IH].
Qed.



(** [changed] is false exactly when no column would change. *)
Lemma sessionChanged_spec (next existing : Session.t) :
  Session.content_session_id next = Session.content_session_id existing ->
  sessionChanged next existing = bool_decide (next <> existing).
Proof.
  intros same. unfold sessionChanged, strict_ne.
  destruct next, existing; simpl in *; subst.
  repeat (case_bool_decide;
          [subst; simpl | simpl; rewrite ?orb_true_r;
                          symmetry; apply bool_decide_eq_true; congruence]).
  symmetry. apply bool_decide_eq_false. intros ne. apply ne. reflexivity.
Qed.

Lemma setSessionColumns_same_content (next row : Session.t) :
  Session.content_session_id next = Session.content_session_id row ->
  setSessionColumns next row = next.
Proof. intros same. destruct next; simpl in *. subst. reflexivity. Qed.

Lemma content_setSessionColumns (next row : Session.t) :
  Session.content_session_id (setSessionColumns next row)
  = Session.content_session_id row.
Proof. reflexivity. Qed.

(** The UPDATE does not change which row a content_session_id finds, only
    that row's columns. *)
Lemma getSession_after_update (db : Database) (rowid : Z) (next : Session.t) (c : string) :
  getSessionByContentSessionId
    (with_sessions db (SQL_update_by_id (sdk_sessions db) rowid (setSessionColumns next))) c
  = option_map
      (fun r => if bool_decide (id r = rowid)
                then mkRow (id r) (setSessionColumns next (data r)) else r)
      (getSessionByContentSessionId db c).
Proof.
  unfold getSessionByContentSessionId, SQL_update_by_id. simpl.
  apply find_fmap_same. intros r. destruct (bool_decide (id r = rowid)); reflexivity.
Qed.

Lemma getSession_content (db : Database) (c : string) (row : LocalSessionRow) :
  getSessionByContentSessionId db c = Some row ->
  Session.content_session_id (data row) = c.
Proof.
  unfold getSessionByContentSessionId. intros found.
  apply find_some in found as [_ eq]. apply bool_decide_eq_true in eq. exact eq.
Qed.

(** After [upsertSession] the row of an existing session holds [nextValues]. *)
Lemma upsertSession_existing_row (db : Database) (session : Session.t)
    (existing : LocalSessionRow) :
  getSessionByContentSessionId db (Session.content_session_id session) = Some existing ->
  getSessionByContentSessionId (fst (upsertSession db session))
    (Session.content_session_id session)
  = Some (mkRow (id existing)
            (nextValues (resolveImportedMemorySessionId db session (Some existing))
                        (data existing) session)).
Proof.
  intros found. unfold upsertSession. rewrite found.
  set (next := nextValues _ _ _).
  assert (same : Session.content_session_id next
                 = Session.content_session_id (data existing)) by reflexivity.
  rewrite sessionChanged_spec by exact same.
  case_bool_decide as changed; simpl.
  - rewrite getSession_after_update, found. simpl.
    rewrite bool_decide_eq_true_2 by reflexivity.
    rewrite setSessionColumns_same_content by exact same. reflexivity.
  - rewrite found. rewrite changed.
    destruct existing; reflexivity.
Qed.

End ImporterFacts.




(** C9.  Importing a session whose payload has no [memory_session_id] leaves
    the [memory_session_id] of the local row of that session as it was. *)
Theorem null_memory_session_id_keeps_binding
    (db : Database) (session : Session.t) (existing : LocalSessionRow) (bound : string) :
  Session.memory_session_id session = None ->
  getSessionByContentSessionId db (Session.content_session_id session) = Some existing ->
  Session.memory_session_id (data existing) = Some bound ->
  exists row,
    getSessionByContentSessionId (fst (upsertSession db session))
      (Session.content_session_id session) = Some row
    /\ id row = id existing
    /\ Session.memory_session_id (data row) = Some bound.
Proof.
  intros incoming found binding.
  eexists. split; [apply (upsertSession_existing_row db session existing found)|].
  split; [reflexivity|]. simpl.
  unfold resolveImportedMemorySessionId. rewrite incoming. simpl. exact binding.
Qed.

Lemma null_memory_session_id_keeps_binding_witness :
  exists row,
    getSessionByContentSessionId
      (fst (upsertSession Examples.oneSession (Examples.finished "A"))) "A" = Some row
    /\ id row = 1
    /\ Session.memory_session_id (data row) = Some "X".
Proof.
  apply (null_memory_session_id_keeps_binding Examples.oneSession (Examples.finished "A")
           (mkRow 1 (Examples.session "A" (Some "X"))) "X"); reflexivity.
Defined.

(** ** The importer: uniqueness invariants *)

Section Uniqueness.

Lemma find_none_elem {A : Type} (f : A -> bool) (l : list A) (x : A) :
  find f l = None -> x ∈ l -> f x = false.
Proof. intros none elem. apply (find_none f l none). apply list_elem_of_In. exact elem. Qed.

Lemma find_some_elem {A : Type} (f : A -> bool) (l : list A) (x : A) :
  find f l = Some x -> x ∈ l /\ f x = true.
Proof. intros some. apply find_some in some as [elem fx]. split; [apply list_elem_of_In|]; assumption. Qed.

Lemma find_is_none {A : Type} (f : A -> bool) (l : list A) :
  (forall x, x ∈ l -> f x = false) -> find f l = None.
Proof.
  induction l as [|y l IH]; intros none; [reflexivity|]. simpl.
  rewrite (none y) by apply list_elem_of_here.
  apply IH. intros x elem. apply none. apply list_elem_of_further. exact elem.
Qed.

Lemma find_snoc {A : Type} (f : A -> bool) (l : list A) (x : A) :
  find f (l ++ [x]) = match find f l with
                      | Some y => Some y
                      | None => if f x then Some x else None
                      end.
Proof.
  induction l as [|y l IH]; simpl; [reflexivity|].
  destruct (f y); [reflexivity | exact IH].
Qed.

Lemma nextRowId_fresh {P : Type} (rows : list (Row P)) (r : Row P) :
  r ∈ rows -> id r < nextRowId rows.
Proof.
  unfold nextRowId. induction rows as [|x rows IH]; intros elem.
  - inversion elem.
  - simpl. apply elem_of_cons in elem as [-> | elem]; [lia|].
    specialize (IH elem). lia.
Qed.

Lemma NoDup_snoc_fresh {A : Type} (l : list A) (x : A) :
  x ∉ l -> NoDup l -> NoDup (l ++ [x]).
Proof.
  intros fresh nodup. apply NoDup_app. split; [exact nodup|]. split.
  - intros y elem single. apply list_elem_of_singleton in single. subst. contradiction.
  - apply NoDup_singleton.
Qed.

Lemma SQL_insert_rowid {P : Type} (rows : list (Row P)) (values : P) :
  NoDup (id <$> rows) -> NoDup (id <$> SQL_insert rows values).
Proof.
  intros nodup. unfold SQL_insert. rewrite fmap_app. simpl.
  apply NoDup_snoc_fresh; [|exact nodup].
  intros elem. apply list_elem_of_fmap in elem as [r [eq elem]].
  apply nextRowId_fresh in elem. lia.
Qed.

Lemma SQL_update_rowid {P : Type} (rows : list (Row P)) (rowid : Z) (set : P -> P) :
  id <$> SQL_update_by_id rows rowid set = id <$> rows.
Proof.
  unfold SQL_update_by_id. rewrite <- list_fmap_compose.
  apply list_fmap_ext. intros i r _. simpl. case_bool_decide; reflexivity.
Qed.

Lemma SQL_update_content (rows : list LocalSessionRow) (rowid : Z) (next : Session.t) :
  contentOf <$> SQL_update_by_id rows rowid (setSessionColumns next) = contentOf <$> rows.
Proof.
  unfold SQL_update_by_id. rewrite <- list_fmap_compose.
  apply list_fmap_ext. intros i r _. simpl. case_bool_decide; reflexivity.
Qed.

(** With a primary key, the UPDATE changes one row. *)
Lemma SQL_update_other {P : Type} (rows : list (Row P)) (rowid : Z) (set : P -> P)
    (r : Row P) :
  r ∈ rows -> id r <> rowid -> r ∈ SQL_update_by_id rows rowid set.
Proof.
  intros elem other. unfold SQL_update_by_id. apply list_elem_of_fmap.
  exists r. split; [|exact elem]. rewrite bool_decide_eq_false_2 by exact other. reflexivity.
Qed.

Lemma SQL_update_elem {P : Type} (rows : list (Row P)) (rowid : Z) (set : P -> P)
    (r' : Row P) :
  r' ∈ SQL_update_by_id rows rowid set ->
  exists r, r ∈ rows /\
            ((id r = rowid /\ r' = mkRow (id r) (set (data r)))
             \/ (id r <> rowid /\ r' = r)).
Proof.
  unfold SQL_update_by_id. intros elem.
  apply list_elem_of_fmap in elem as [r [eq elem]].
  exists r. split; [exact elem|]. case_bool_decide; [left | right]; split; assumption.
Qed.

Lemma same_rowid {P : Type} (rows : list (Row P)) (r1 r2 : Row P) :
  NoDup (id <$> rows) -> r1 ∈ rows -> r2 ∈ rows -> id r1 = id r2 -> r1 = r2.
Proof.
  induction rows as [|x rows IH]; intros nodup e1 e2 same; [inversion e1|].
  rewrite fmap_cons in nodup. apply NoDup_cons in nodup as [fresh nodup].
  apply elem_of_cons in e1 as [-> | e1]; apply elem_of_cons in e2 as [-> | e2].
  - reflexivity.
  - exfalso. apply fresh. rewrite same. apply list_elem_of_fmap. exists r2. split; [reflexivity | exact e2].
  - exfalso. apply fresh. rewrite <- same. apply list_elem_of_fmap. exists r1. split; [reflexivity | exact e1].
  - apply IH; assumption.
Qed.

Lemma same_content (rows : list LocalSessionRow) (r1 r2 : LocalSessionRow) :
  NoDup (contentOf <$> rows) -> r1 ∈ rows -> r2 ∈ rows -> contentOf r1 = contentOf r2 -> r1 = r2.
Proof.
  induction rows as [|x rows IH]; intros nodup e1 e2 same; [inversion e1|].
  rewrite fmap_cons in nodup. apply NoDup_cons in nodup as [fresh nodup].
  apply elem_of_cons in e1 as [-> | e1]; apply elem_of_cons in e2 as [-> | e2].
  - reflexivity.
  - exfalso. apply fresh. rewrite same. apply list_elem_of_fmap. exists r2. split; [reflexivity | exact e2].
  - exfalso. apply fresh. rewrite <- same. apply list_elem_of_fmap. exists r1. split; [reflexivity | exact e1].
  - apply IH; assumption.
Qed.

(** What [resolveImportedMemorySessionId] can return: the local binding, or
    the imported one when it is non-empty and no other session holds it. *)
Lemma resolve_cases (db : Database) (session : Session.t) (existing : option LocalSessionRow) :
  resolveImportedMemorySessionId db session existing = existingMemorySessionId existing
  \/ exists m,
       resolveImportedMemorySessionId db session existing = Some m
       /\ Session.memory_session_id session = Some m
       /\ m <> ""
       /\ forall r, r ∈ sdk_sessions db -> memoryOf r = Some m ->
                    contentOf r = Session.content_session_id session.
Proof.
  unfold resolveImportedMemorySessionId.
  destruct (falsy_ostr (Session.memory_session_id session)) eqn:falsy; [left; reflexivity|].
  cbv zeta. destruct (find _ (sdk_sessions db)) eqn:conflict; [left; reflexivity|].
  right. destruct (Session.memory_session_id session) as [m|] eqn:mem; [|discriminate].
  exists m. split; [reflexivity|]. split; [reflexivity|]. split.
  - simpl in falsy. apply bool_decide_eq_false in falsy. exact falsy.
  - intros r elem bound.
    apply (find_none_elem _ _ r conflict) in elem.
    apply andb_false_iff in elem as [ne | eq].
    + apply bool_decide_eq_false in ne. contradiction.
    + apply negb_false_iff, bool_decide_eq_true in eq. exact eq.
Qed.

Lemma omap_cons_match {A C : Type} (f : A -> option C) (x : A) (l : list A) :
  omap f (x :: l) = match f x with
                    | Some y => y :: omap f l
                    | None => omap f l
                    end.
Proof. reflexivity. Qed.

Lemma omap_update_same (rows : list LocalSessionRow) (rowid : Z) (next : Session.t) :
  (forall r, r ∈ rows -> id r = rowid -> Session.memory_session_id next = memoryOf r) ->
  omap memoryOf (SQL_update_by_id rows rowid (setSessionColumns next)) = omap memoryOf rows.
Proof.
  unfold SQL_update_by_id. induction rows as [|x rows IH]; intros same; [reflexivity|].
  rewrite fmap_cons, !omap_cons_match.
  rewrite IH by (intros r elem; apply same; apply list_elem_of_further; exact elem).
  case_bool_decide as hit; [|reflexivity].
  unfold memoryOf at 1. simpl.
  rewrite (same x (list_elem_of_here _ _) hit). reflexivity.
Qed.

Lemma omap_update_elem (rows : list LocalSessionRow) (rowid : Z) (next : Session.t) (m : string) :
  m ∈ omap memoryOf (SQL_update_by_id rows rowid (setSessionColumns next)) ->
  Session.memory_session_id next = Some m \/ m ∈ omap memoryOf rows.
Proof.
  intros elem. apply list_elem_of_omap in elem as [r' [elem bound]].
  apply SQL_update_elem in elem as [r [elem [[hit ->] | [miss ->]]]].
  - left. exact bound.
  - right. apply list_elem_of_omap. exists r. split; assumption.
Qed.

Lemma omap_update_fresh (rows : list LocalSessionRow) (rowid : Z) (next : Session.t) (m : string) :
  Session.memory_session_id next = Some m ->
  NoDup (id <$> rows) ->
  NoDup (omap memoryOf rows) ->
  (forall r, r ∈ rows -> id r <> rowid -> memoryOf r <> Some m) ->
  NoDup (omap memoryOf (SQL_update_by_id rows rowid (setSessionColumns next))).
Proof.
  intros bound. induction rows as [|x rows IH]; intros key nodup others; [apply NoDup_nil_2|].
  rewrite fmap_cons in key. apply NoDup_cons in key as [fresh key].
  assert (tail : NoDup (omap memoryOf rows)).
  { rewrite omap_cons_match in nodup.
    destruct (memoryOf x); [apply NoDup_cons in nodup as [_ nodup]|]; exact nodup. }
  assert (others' : forall r, r ∈ rows -> id r <> rowid -> memoryOf r <> Some m).
  { intros r elem. apply others. apply list_elem_of_further. exact elem. }
  unfold SQL_update_by_id. rewrite fmap_cons.
  fold (SQL_update_by_id rows rowid (setSessionColumns next)).
  rewrite omap_cons_match. case_bool_decide as hit.
  - unfold memoryOf at 1. simpl. rewrite bound.
    rewrite omap_update_same.
    + apply NoDup_cons. split; [|exact tail].
      intros elem. apply list_elem_of_omap in elem as [r [elem is_m]].
      apply (others' r elem); [|exact is_m].
      intros same. apply fresh. rewrite hit, <- same.
      apply list_elem_of_fmap. exists r. split; [reflexivity | exact elem].
    + intros r elem same. exfalso. apply fresh. rewrite hit, <- same.
      apply list_elem_of_fmap. exists r. split; [reflexivity | exact elem].
  - specialize (IH key tail others').
    destruct (memoryOf x) as [mx|] eqn:memx; [|exact IH].
    apply NoDup_cons. split; [|exact IH].
    intros elem. apply omap_update_elem in elem as [is_m | elem].
    + apply (others x (list_elem_of_here _ _) hit). rewrite memx. congruence.
    + rewrite omap_cons_match, memx in nodup. apply NoDup_cons in nodup as [notin _].
      contradiction.
Qed.

Lemma upsertSession_unique (db : Database) (session : Session.t) :
  UniqueKeys db -> UniqueKeys (fst (upsertSession db session)).
Proof.
  intros [key content memory prompt]. unfold upsertSession. cbv zeta.
  destruct (getSessionByContentSessionId db (Session.content_session_id session))
    as [existing|] eqn:found.
  - destruct (negb (sessionChanged _ _)); simpl; [split; assumption|].
    apply find_some_elem in found as [elem is_c]. apply bool_decide_eq_true in is_c.
    split; simpl.
    + rewrite SQL_update_rowid. exact key.
    + rewrite SQL_update_content. exact content.
    + destruct (resolve_cases db session (Some existing)) as [same | [m [-> [_ [_ only]]]]].
      * rewrite omap_update_same; [exact memory|].
        intros r elem_r same_id. simpl. rewrite same. simpl.
        rewrite (same_rowid _ r existing key elem_r elem same_id). reflexivity.
      * apply omap_update_fresh with (m := m); [reflexivity | exact key | exact memory |].
        intros r elem_r other bound. apply other.
        f_equal. apply (same_content _ r existing content elem_r elem).
        rewrite (only r elem_r bound). symmetry. exact is_c.
    + exact prompt.
  - simpl. split; simpl.
    + apply SQL_insert_rowid. exact key.
    + unfold SQL_insert. rewrite fmap_app. simpl.
      apply NoDup_snoc_fresh; [|exact content].
      intros elem. apply list_elem_of_fmap in elem as [r [eq elem]].
      apply (find_none_elem _ _ r found) in elem.
      apply bool_decide_eq_false in elem. apply elem. symmetry. exact eq.
    + unfold SQL_insert. rewrite omap_app. simpl. unfold memoryOf at 2. simpl.
      destruct (resolve_cases db session None) as [-> | [m [-> [_ [_ only]]]]]; simpl.
      * rewrite app_nil_r. exact memory.
      * apply NoDup_snoc_fresh; [|exact memory].
        intros elem. apply list_elem_of_omap in elem as [r [elem bound]].
        specialize (only r elem bound).
        apply (find_none_elem _ _ r found) in elem.
        apply bool_decide_eq_false in elem. contradiction.
    + exact prompt.
Qed.

Lemma upsertPrompt_unique (db : Database) (prompt : Prompt.t) :
  UniqueKeys db -> UniqueKeys (fst (upsertPrompt db prompt)).
Proof.
  intros [key content memory unique]. unfold upsertPrompt. cbv zeta.
  destruct (find _ (user_prompts db)) as [stored|] eqn:found; [split; assumption|].
  destruct (getSessionByContentSessionId db _) as [owner|]; [|split; assumption].
  split; simpl; try assumption.
  unfold SQL_insert. rewrite fmap_app. simpl.
  apply NoDup_snoc_fresh; [|exact unique].
  intros elem. apply list_elem_of_fmap in elem as [stored [eq elem]].
  apply (find_none_elem _ _ stored found) in elem.
  unfold promptKey in eq. simpl in eq. injection eq as eq1 eq2.
  rewrite <- eq1, <- eq2 in elem. rewrite !bool_decide_eq_true_2 in elem by reflexivity.
  discriminate.
Qed.

Lemma upsertObservation_unique (db : Database) (observation : Observation.t) :
  UniqueKeys db -> UniqueKeys (fst (upsertObservation db observation)).
Proof.
  intros [key content memory unique]. unfold upsertObservation.
  destruct (getSessionByMemorySessionId db _); [|split; assumption].
  destruct (find _ (observations db)); split; assumption.
Qed.

Lemma upsertSummary_unique (db : Database) (summary : Summary.t) :
  UniqueKeys db -> UniqueKeys (fst (upsertSummary db summary)).
Proof.
  intros [key content memory unique]. unfold upsertSummary.
  destruct (getSessionByMemorySessionId db _); [|split; assumption].
  destruct (find _ (session_summaries db)); split; assumption.
Qed.

Lemma importDocument_unique (db : Database) (document : Doc.t) :
  UniqueKeys db -> UniqueKeys (fst (importDocument db document)).
Proof.
  unfold importDocument. destruct (Doc.payload document).
  - apply upsertSession_unique.
  - apply upsertPrompt_unique.
  - apply upsertObservation_unique.
  - apply upsertSummary_unique.
Qed.

Lemma importLoop_unique (documents : list Doc.t) (db : Database) (count : nat) :
  UniqueKeys db -> UniqueKeys (fst (importLoop db count documents)).
Proof.
  revert db count. induction documents as [|document rest IH]; intros db count unique.
  - exact unique.
  - simpl. pose proof (importDocument_unique db document unique) as step.
    destruct (importDocument db document) as [db' written]. apply IH. exact step.
Qed.

Lemma importAll_unique (batches : list (list Doc.t)) (db : Database) :
  UniqueKeys db -> UniqueKeys (importAll db batches).
Proof.
  revert db. induction batches as [|batch rest IH]; intros db unique; [exact unique|].
  simpl. apply IH. apply importLoop_unique. exact unique.
Qed.

End Uniqueness.

Section ConflictPolicy.

Lemma resolve_conflict (db : Database) (session : Session.t)
    (existing : option LocalSessionRow) (holder : LocalSessionRow) :
  holder ∈ sdk_sessions db ->
  memoryOf holder = Session.memory_session_id session ->
  contentOf holder <> Session.content_session_id session ->
  resolveImportedMemorySessionId db session existing = existingMemorySessionId existing.
Proof.
  intros elem bound other. unfold resolveImportedMemorySessionId.
  destruct (falsy_ostr _); [reflexivity|]. cbv zeta.
  destruct (find _ (sdk_sessions db)) eqn:conflict; [reflexivity|].
  apply (find_none_elem _ _ holder conflict) in elem.
  unfold memoryOf, contentOf in *.
  rewrite bool_decide_eq_true_2 in elem by exact bound.
  rewrite bool_decide_eq_false_2 in elem by exact other.
  discriminate.
Qed.

Lemma upsertSession_inserted_row (db : Database) (session : Session.t) :
  getSessionByContentSessionId db (Session.content_session_id session) = None ->
  getSessionByContentSessionId (fst (upsertSession db session))
    (Session.content_session_id session)
  = Some (mkRow (nextRowId (sdk_sessions db))
            (insertedSession (resolveImportedMemorySessionId db session None) session)).
Proof.
  intros absent. unfold upsertSession. rewrite absent. simpl.
  unfold getSessionByContentSessionId in *. simpl. unfold SQL_insert.
  rewrite find_snoc, absent. simpl.
  rewrite bool_decide_eq_true_2 by reflexivity. reflexivity.
Qed.

Lemma upsertSession_keeps_others (db : Database) (session : Session.t)
    (other : LocalSessionRow) :
  NoDup (id <$> sdk_sessions db) ->
  other ∈ sdk_sessions db ->
  contentOf other <> Session.content_session_id session ->
  other ∈ sdk_sessions (fst (upsertSession db session)).
Proof.
  intros key elem differs. unfold upsertSession. cbv zeta.
  destruct (getSessionByContentSessionId db _) as [existing|] eqn:found.
  - destruct (negb (sessionChanged _ _)); simpl; [exact elem|].
    apply SQL_update_other; [exact elem|].
    intros same. apply differs.
    apply find_some_elem in found as [elem_e is_c]. apply bool_decide_eq_true in is_c.
    rewrite (same_rowid _ other existing key elem elem_e same). exact is_c.
  - simpl. unfold SQL_insert. apply elem_of_app. left. exact elem.
Qed.

Lemma importLoop_session (db : Database) (count : nat) (document : Doc.t)
    (rest : list Doc.t) (session : Session.t) :
  Doc.payload document = PSession session ->
  importLoop db count (document :: rest)
  = importLoop (fst (upsertSession db session))
      (count + if snd (upsertSession db session) then 1 else 0)%nat rest.
Proof.
  intros payload. simpl. unfold importDocument. rewrite payload.
  destruct (upsertSession db session). reflexivity.
Qed.

End ConflictPolicy.

(** C3.  Every sequence of imports keeps the keys of the local store unique:
    the row id of a session, [content_session_id], non-null
    [memory_session_id], and [(content_session_id, prompt_number)].  When an
    imported session carries a [memory_session_id] that a local session with
    another [content_session_id] holds, that holder's row is left as it is,
    the imported session keeps its local binding (null when it has no local
    row), and the loop goes on with the rest of the batch. *)
Theorem imports_preserve_unique_keys (db : Database) :
  UniqueKeys db ->
  (forall batches, UniqueKeys (importAll db batches))
  /\ (forall session holder,
        holder ∈ sdk_sessions db ->
        memoryOf holder = Session.memory_session_id session ->
        contentOf holder <> Session.content_session_id session ->
        let db' := fst (upsertSession db session) in
        holder ∈ sdk_sessions db'
        /\ (exists row,
              getSessionByContentSessionId db' (Session.content_session_id session)
              = Some row
              /\ memoryOf row
                 = existingMemorySessionId
                     (getSessionByContentSessionId db (Session.content_session_id session)))
        /\ (forall document rest count,
              Doc.payload document = PSession session ->
              importLoop db count (document :: rest)
              = importLoop db'
                  (count + if snd (upsertSession db session) then 1 else 0)%nat rest)).
Proof.
  intros unique. split.
  - intros batches. apply importAll_unique. exact unique.
  - intros session holder elem bound differs db'. split; [|split].
    + apply upsertSession_keeps_others; [apply unique | exact elem | exact differs].
    + subst db'.
      destruct (getSessionByContentSessionId db (Session.content_session_id session))
        as [existing|] eqn:found.
      * eexists. split; [apply (upsertSession_existing_row db session existing found)|].
        unfold memoryOf. simpl.
        apply (resolve_conflict db session (Some existing) holder elem bound differs).
      * eexists. split; [apply (upsertSession_inserted_row db session found)|].
        unfold memoryOf. simpl.
        apply (resolve_conflict db session None holder elem bound differs).
    + intros document rest count payload. apply importLoop_session. exact payload.
Qed.

Lemma imports_preserve_unique_keys_witness :
  UniqueKeys
    (importAll Examples.oneSession
       [[Examples.sessionDocument (Examples.session "B" (Some "X"));
         Examples.sessionDocument (Examples.finished "A")]]).
Proof.
  apply (imports_preserve_unique_keys Examples.oneSession).
  split; apply (bool_decide_unpack _); vm_compute; exact I.
Defined.

(** ** The importer: a second import of the same batch *)

Section SecondImport.

Lemma conflict_found (db : Database) (session : Session.t) :
  Conflict db session <->
  exists r,
    find (fun r => bool_decide (Session.memory_session_id (data r)
                                = Session.memory_session_id session)
                   && negb (bool_decide (Session.content_session_id (data r)
                                         = Session.content_session_id session)))
         (sdk_sessions db) = Some r.
Proof.
  split.
  - intros [r [elem [bound other]]].
    destruct (find _ (sdk_sessions db)) as [r'|] eqn:found; [exists r'; reflexivity|].
    apply (find_none_elem _ _ r found) in elem.
    unfold memoryOf, contentOf in *.
    rewrite bool_decide_eq_true_2 in elem by exact bound.
    rewrite bool_decide_eq_false_2 in elem by exact other. discriminate.
  - intros [r found]. apply find_some_elem in found as [elem holds].
    apply andb_true_iff in holds as [bound other].
    apply bool_decide_eq_true in bound. apply negb_true_iff, bool_decide_eq_false in other.
    exists r. split; [exact elem|]. split; assumption.
Qed.

(** The resolution only looks at whether there is a conflict. *)
Lemma resolve_by_conflict (db : Database) (session : Session.t)
    (existing : option LocalSessionRow) :
  (falsy_ostr (Session.memory_session_id session) = true
   /\ resolveImportedMemorySessionId db session existing = existingMemorySessionId existing)
  \/ (falsy_ostr (Session.memory_session_id session) = false
      /\ Conflict db session
      /\ resolveImportedMemorySessionId db session existing
         = existingMemorySessionId existing)
  \/ (falsy_ostr (Session.memory_session_id session) = false
      /\ ~ Conflict db session
      /\ resolveImportedMemorySessionId db session existing
         = Session.memory_session_id session).
Proof.
  unfold resolveImportedMemorySessionId.
  destruct (falsy_ostr _) eqn:falsy; [left; split; reflexivity|]. right. cbv zeta.
  destruct (find _ (sdk_sessions db)) as [r|] eqn:found.
  - left. split; [reflexivity|]. split; [|reflexivity].
    apply conflict_found. exists r. exact found.
  - right. split; [reflexivity|]. split; [|reflexivity].
    intros conflict. apply conflict_found in conflict as [r found']. congruence.
Qed.

(** If the conflicts of a store persist in another and the row of the session
    already holds what was resolved, the resolution is what the row holds. *)
Lemma resolve_stable (db db' : Database) (session : Session.t)
    (existing : option LocalSessionRow) (row : LocalSessionRow) :
  (falsy_ostr (Session.memory_session_id session) = false ->
   Conflict db session -> Conflict db' session) ->
  memoryOf row = resolveImportedMemorySessionId db session existing ->
  resolveImportedMemorySessionId db' session (Some row) = memoryOf row.
Proof.
  intros keeps holds.
  destruct (resolve_by_conflict db' session (Some row))
    as [[_ ->] | [[_ [_ ->]] | [falsy [none ->]]]]; try reflexivity.
  destruct (resolve_by_conflict db session existing)
    as [[falsy' _] | [[_ [conflict _]] | [_ [_ eq]]]].
  - congruence.
  - exfalso. apply none, keeps; assumption.
  - rewrite holds, eq. reflexivity.
Qed.

Lemma or_str_idem_l (a b : string) : or_str a (or_str a b) = or_str a b.
Proof. unfold or_str. repeat case_bool_decide; congruence. Qed.

Lemma or_str_idem_r (a b : string) : or_str (or_str a b) b = or_str a b.
Proof. unfold or_str. repeat case_bool_decide; congruence. Qed.

Lemma or_num_idem_r (a b : Z) : or_num (or_num a b) b = or_num a b.
Proof. unfold or_num. repeat case_bool_decide; congruence. Qed.

Lemma or_ostr_idem_l (a b : option string) : or_ostr a (or_ostr a b) = or_ostr a b.
Proof. unfold or_ostr. destruct (falsy_ostr a); reflexivity. Qed.

Lemma nullish_idem_l {A : Type} (a b : option A) : nullish a (nullish a b) = nullish a b.
Proof. destruct a; reflexivity. Qed.

Lemma selectSessionStatus_same (status : string) :
  selectSessionStatus status status = status.
Proof. unfold selectSessionStatus. destruct (ge _ _); reflexivity. Qed.

Lemma selectSessionStatus_idem (current incoming : string) :
  selectSessionStatus (selectSessionStatus current incoming) incoming
  = selectSessionStatus current incoming.
Proof.
  unfold selectSessionStatus at 2 3.
  destruct (ge (nullish_default (getNumber priority incoming) (OwnNumber 0))
               (nullish_default (getNumber priority current) (OwnNumber 0))) eqn:wins.
  - apply selectSessionStatus_same.
  - unfold selectSessionStatus. rewrite wins. reflexivity.
Qed.

Lemma nextValues_idempotent (resolved : option string) (old new : Session.t) :
  nextValues resolved (nextValues resolved old new) new = nextValues resolved old new.
Proof.
  unfold nextValues. simpl.
  rewrite or_str_idem_l, or_ostr_idem_l, !nullish_idem_l, or_str_idem_r, or_num_idem_r,
    selectSessionStatus_idem.
  reflexivity.
Qed.

Lemma nextValues_inserted (resolved : option string) (new : Session.t) :
  nextValues resolved (insertedSession resolved new) new = insertedSession resolved new.
Proof.
  unfold nextValues, insertedSession. simpl. f_equal.
  - unfold or_str. case_bool_decide; reflexivity.
  - unfold or_ostr, falsy_ostr. destruct (Session.user_prompt new) as [text|]; simpl;
      [|reflexivity].
    case_bool_decide; congruence.
  - destruct (Session.custom_title new); reflexivity.
  - unfold or_str. case_bool_decide; reflexivity.
  - unfold or_num. case_bool_decide; reflexivity.
  - destruct (Session.completed_at new); reflexivity.
  - destruct (Session.completed_at_epoch new); reflexivity.
  - apply selectSessionStatus_same.
Qed.

(** When [upsertSession] writes nothing. *)
Lemma upsertSession_quiet (db : Database) (session : Session.t) :
  upsertSession db session = (db, false) <->
  exists existing,
    getSessionByContentSessionId db (Session.content_session_id session) = Some existing
    /\ nextValues (resolveImportedMemorySessionId db session (Some existing))
                  (data existing) session = data existing.
Proof.
  unfold upsertSession. cbv zeta.
  destruct (getSessionByContentSessionId db _) as [existing|] eqn:found.
  - rewrite sessionChanged_spec by reflexivity. split.
    + intros quiet. exists existing. split; [reflexivity|].
      case_bool_decide as changed; simpl in quiet; [discriminate|]. exact changed.
    + intros [row [eq same]]. injection eq as <-.
      rewrite bool_decide_eq_false_2; [reflexivity|].
      intros changed. apply changed. exact same.
  - split; [discriminate|]. intros [row [eq _]]. discriminate.
Qed.

Lemma upsertSession_rowid (db : Database) (session : Session.t) :
  NoDup (id <$> sdk_sessions db) ->
  NoDup (id <$> sdk_sessions (fst (upsertSession db session))).
Proof.
  intros key. unfold upsertSession. cbv zeta.
  destruct (getSessionByContentSessionId db _) as [existing|].
  - destruct (negb (sessionChanged _ _)); simpl; [exact key|].
    rewrite SQL_update_rowid. exact key.
  - simpl. apply SQL_insert_rowid. exact key.
Qed.

(** A session of another [content_session_id] is found as before. *)
Lemma upsertSession_other_lookup (db : Database) (session : Session.t) (c : string) :
  NoDup (id <$> sdk_sessions db) ->
  c <> Session.content_session_id session ->
  getSessionByContentSessionId (fst (upsertSession db session)) c
  = getSessionByContentSessionId db c.
Proof.
  intros key other. unfold upsertSession. cbv zeta.
  destruct (getSessionByContentSessionId db (Session.content_session_id session))
    as [existing|] eqn:found.
  - destruct (negb (sessionChanged _ _)); simpl; [reflexivity|].
    rewrite getSession_after_update.
    destruct (getSessionByContentSessionId db c) as [row|] eqn:found_c; [|reflexivity].
    simpl. rewrite bool_decide_eq_false_2; [reflexivity|].
    intros same. apply other.
    pose proof (getSession_content _ _ _ found) as is_s.
    pose proof (getSession_content _ _ _ found_c) as is_c.
    unfold getSessionByContentSessionId in found, found_c.
    apply find_some_elem in found as [elem _]. apply find_some_elem in found_c as [elem_c _].
    rewrite (same_rowid _ row existing key elem_c elem same) in is_c. congruence.
  - simpl. unfold getSessionByContentSessionId. simpl. unfold SQL_insert.
    rewrite find_snoc. destruct (find _ (sdk_sessions db)); [reflexivity|]. simpl.
    rewrite bool_decide_eq_false_2; [reflexivity|]. congruence.
Qed.

Lemma SQL_update_hit {P : Type} (rows : list (Row P)) (set : P -> P) (r : Row P) :
  r ∈ rows -> mkRow (id r) (set (data r)) ∈ SQL_update_by_id rows (id r) set.
Proof.
  intros elem. unfold SQL_update_by_id. apply list_elem_of_fmap.
  exists r. split; [|exact elem]. rewrite bool_decide_eq_true_2 by reflexivity. reflexivity.
Qed.

(** Importing a session twice in a row writes nothing the second time. *)
Lemma upsertSession_twice (db : Database) (session : Session.t) :
  NoDup (id <$> sdk_sessions db) ->
  upsertSession (fst (upsertSession db session)) session
  = (fst (upsertSession db session), false).
Proof.
  intros key. apply upsertSession_quiet.
  assert (keeps : falsy_ostr (Session.memory_session_id session) = false ->
                  Conflict db session -> Conflict (fst (upsertSession db session)) session).
  { intros _ [r [elem [bound other]]]. exists r. split; [|split; assumption].
    apply upsertSession_keeps_others; assumption. }
  destruct (getSessionByContentSessionId db (Session.content_session_id session))
    as [existing|] eqn:found.
  - eexists. split; [apply (upsertSession_existing_row db session existing found)|].
    rewrite (resolve_stable db _ session (Some existing)); [|exact keeps | reflexivity].
    unfold memoryOf. simpl. apply nextValues_idempotent.
  - eexists. split; [apply (upsertSession_inserted_row db session found)|].
    rewrite (resolve_stable db _ session None); [|exact keeps | reflexivity].
    unfold memoryOf. simpl. apply nextValues_inserted.
Qed.

(** A conflict outlives the import of a session that releases no binding
    claimed by another session. *)
Lemma conflict_preserved (db : Database) (all : list Session.t) (session other : Session.t) :
  NoDup (id <$> sdk_sessions db) ->
  ReleasesUnclaimed db all other ->
  session ∈ all ->
  Session.content_session_id session <> Session.content_session_id other ->
  falsy_ostr (Session.memory_session_id session) = false ->
  Conflict db session ->
  Conflict (fst (upsertSession db other)) session.
Proof.
  intros key releases member apart truthy [r [elem [bound differs]]].
  destruct (getSessionByContentSessionId db (Session.content_session_id other))
    as [existing|] eqn:found.
  - destruct (decide (id r = id existing)) as [same | distinct].
    + pose proof found as found'.
      unfold getSessionByContentSessionId in found'.
      apply find_some_elem in found' as [elem_e _].
      pose proof (same_rowid _ r existing key elem elem_e same) as ->.
      exists (mkRow (id existing)
                (nextValues (resolveImportedMemorySessionId db other (Some existing))
                            (data existing) other)).
      split; [|split].
      * pose proof (upsertSession_existing_row db other existing found) as row.
        unfold getSessionByContentSessionId in row.
        apply find_some_elem in row as [row _]. exact row.
      * unfold memoryOf at 1. simpl. rewrite <- bound.
        destruct (Session.memory_session_id session) as [m|] eqn:mem; [|discriminate].
        destruct (releases existing m found bound) as [falsy | [same_m | unclaimed]].
        -- destruct (resolve_by_conflict db other (Some existing))
             as [[_ ->] | [[_ [_ ->]] | [falsy' [_ ->]]]]; simpl;
             solve [reflexivity | exact bound | congruence].
        -- destruct (resolve_by_conflict db other (Some existing))
             as [[_ ->] | [[_ [_ ->]] | [falsy' [_ ->]]]]; simpl;
             solve [reflexivity | exact bound | congruence].
        -- exfalso. apply (unclaimed session member apart). exact mem.
      * exact differs.
    + exists r. split; [|split; assumption].
      unfold upsertSession. rewrite found. cbv zeta.
      destruct (negb (sessionChanged _ _)); simpl; [exact elem|].
      apply SQL_update_other; assumption.
  - exists r. split; [|split; assumption].
    unfold upsertSession. rewrite found. simpl.
    unfold SQL_insert. apply elem_of_app. left. exact elem.
Qed.

(** A session on which the store is settled stays settled when another
    session document of the batch is imported. *)
Lemma upsertSession_stays_quiet (db : Database) (all : list Session.t)
    (session other : Session.t) :
  NoDup (id <$> sdk_sessions db) ->
  OnePayloadPerSession all ->
  session ∈ all -> other ∈ all ->
  ReleasesUnclaimed db all other ->
  upsertSession db session = (db, false) ->
  upsertSession (fst (upsertSession db other)) session
  = (fst (upsertSession db other), false).
Proof.
  intros key one member member_other releases quiet.
  destruct (decide (Session.content_session_id session = Session.content_session_id other))
    as [same_session | differs].
  { rewrite <- (one session other member member_other same_session).
    rewrite quiet. exact quiet. }
  apply upsertSession_quiet in quiet as [existing [found same]].
  apply upsertSession_quiet. exists existing. split.
  - rewrite upsertSession_other_lookup; assumption.
  - assert (holds : memoryOf existing
                    = resolveImportedMemorySessionId db session (Some existing)).
    { unfold memoryOf. rewrite <- same at 1. reflexivity. }
    rewrite (resolve_stable db _ session (Some existing)); [| |exact holds].
    + rewrite holds. exact same.
    + intros truthy conflict. apply (conflict_preserved db all); assumption.
Qed.

(** What a session releases is judged on the store as each document finds
    it. *)
Lemma ReleasesUnclaimed_step (db : Database) (all : list Session.t)
    (session first : Session.t) :
  NoDup (id <$> sdk_sessions db) ->
  OnePayloadPerSession all ->
  session ∈ all -> first ∈ all ->
  ReleasesUnclaimed db all session ->
  ReleasesUnclaimed (fst (upsertSession db first)) all session.
Proof.
  intros key one member member_first releases existing bound.
  destruct (decide (Session.content_session_id session = Session.content_session_id first))
    as [same_session | differs].
  - rewrite (one session first member member_first same_session) in *.
    destruct (getSessionByContentSessionId db (Session.content_session_id first))
      as [row|] eqn:found.
    + rewrite (upsertSession_existing_row db first row found).
      intros [= <-]. unfold memoryOf. simpl. intros resolved.
      destruct (resolve_by_conflict db first (Some row))
        as [[falsy _] | [[_ [_ kept]] | [_ [_ taken]]]].
      * left. exact falsy.
      * rewrite kept in resolved. apply (releases row bound found resolved).
      * rewrite taken in resolved. right. left. exact resolved.
    + rewrite (upsertSession_inserted_row db first found).
      intros [= <-]. unfold memoryOf. simpl. intros resolved.
      destruct (resolve_by_conflict db first None)
        as [[falsy _] | [[_ [_ kept]] | [_ [_ taken]]]].
      * left. exact falsy.
      * rewrite kept in resolved. discriminate.
      * rewrite taken in resolved. right. left. exact resolved.
  - rewrite upsertSession_other_lookup by assumption. apply releases.
Qed.

Lemma Forall_ReleasesUnclaimed_step (db : Database) (all sessions : list Session.t)
    (first : Session.t) :
  NoDup (id <$> sdk_sessions db) ->
  OnePayloadPerSession all ->
  Forall (fun s => s ∈ all) sessions -> first ∈ all ->
  Forall (ReleasesUnclaimed db all) sessions ->
  Forall (ReleasesUnclaimed (fst (upsertSession db first)) all) sessions.
Proof.
  intros key one members member_first releases.
  apply Forall_forall. intros s elem.
  apply ReleasesUnclaimed_step; try assumption.
  - exact (proj1 (Forall_forall _ _) members s elem).
  - exact (proj1 (Forall_forall _ _) releases s elem).
Qed.

Lemma applySessions_stays_quiet (all sessions : list Session.t) (db : Database)
    (session : Session.t) :
  NoDup (id <$> sdk_sessions db) ->
  OnePayloadPerSession all ->
  session ∈ all ->
  Forall (fun s => s ∈ all) sessions ->
  Forall (ReleasesUnclaimed db all) sessions ->
  upsertSession db session = (db, false) ->
  upsertSession (applySessions db sessions) session = (applySessions db sessions, false).
Proof.
  revert db. induction sessions as [|other rest IH];
    intros db key one member members releases quiet.
  - exact quiet.
  - simpl.
    apply Forall_cons in members as [member_other members].
    apply Forall_cons in releases as [releases_other releases].
    apply IH; try assumption.
    + apply upsertSession_rowid. exact key.
    + apply Forall_ReleasesUnclaimed_step; assumption.
    + apply (upsertSession_stays_quiet db all); assumption.
Qed.

Lemma applySessions_settled (all sessions : list Session.t) (db : Database) :
  NoDup (id <$> sdk_sessions db) ->
  OnePayloadPerSession all ->
  Forall (fun s => s ∈ all) sessions ->
  Forall (ReleasesUnclaimed db all) sessions ->
  forall session, session ∈ sessions ->
    upsertSession (applySessions db sessions) session = (applySessions db sessions, false).
Proof.
  revert db. induction sessions as [|first rest IH];
    intros db key one members releases session elem.
  - inversion elem.
  - apply Forall_cons in members as [member_first members].
    apply Forall_cons in releases as [releases_first releases].
    assert (releases' : Forall (ReleasesUnclaimed (fst (upsertSession db first)) all) rest).
    { apply Forall_ReleasesUnclaimed_step; assumption. }
    simpl. apply elem_of_cons in elem as [-> | elem].
    + apply (applySessions_stays_quiet all); try assumption.
      * apply upsertSession_rowid. exact key.
      * apply upsertSession_twice. exact key.
    + apply IH; try assumption. apply upsertSession_rowid. exact key.
Qed.

Lemma Appended_refl (db : Database) : Appended db db.
Proof. repeat split; exists []; rewrite app_nil_r; reflexivity. Qed.

Lemma Appended_trans (db1 db2 db3 : Database) :
  Appended db1 db2 -> Appended db2 db3 -> Appended db1 db3.
Proof.
  intros [s1 [[p1 ep1] [[o1 eo1] [u1 eu1]]]] [s2 [[p2 ep2] [[o2 eo2] [u2 eu2]]]].
  split; [congruence|]. split; [|split].
  - exists (p1 ++ p2)%list. rewrite ep2, ep1, app_assoc. reflexivity.
  - exists (o1 ++ o2)%list. rewrite eo2, eo1, app_assoc. reflexivity.
  - exists (u1 ++ u2)%list. rewrite eu2, eu1, app_assoc. reflexivity.
Qed.

Lemma find_app_some {A : Type} (f : A -> bool) (l k : list A) (x : A) :
  find f l = Some x -> find f (l ++ k) = Some x.
Proof.
  induction l as [|y l IH]; simpl; [discriminate|].
  destruct (f y); [trivial | exact IH].
Qed.

Lemma importDocument_appended (db : Database) (document : Doc.t) :
  notSession document -> Appended db (fst (importDocument db document)).
Proof.
  unfold notSession, Doc.kind, importDocument.
  destruct (Doc.payload document) as [s | p | o | s]; intros kind.
  - contradiction.
  - unfold upsertPrompt. cbv zeta.
    destruct (find _ (user_prompts db)); [apply Appended_refl|].
    destruct (getSessionByContentSessionId db _); [|apply Appended_refl].
    simpl. unfold SQL_insert. repeat split; simpl; try (exists []; rewrite app_nil_r; reflexivity).
    eexists. reflexivity.
  - unfold upsertObservation.
    destruct (getSessionByMemorySessionId db _); [|apply Appended_refl].
    destruct (find _ (observations db)); [apply Appended_refl|].
    simpl. unfold SQL_insert. repeat split; simpl; try (exists []; rewrite app_nil_r; reflexivity).
    eexists. reflexivity.
  - unfold upsertSummary.
    destruct (getSessionByMemorySessionId db _); [|apply Appended_refl].
    destruct (find _ (session_summaries db)); [apply Appended_refl|].
    simpl. unfold SQL_insert. repeat split; simpl; try (exists []; rewrite app_nil_r; reflexivity).
    eexists. reflexivity.
Qed.

(** Rows added to the other tables do not unsettle a document. *)
Lemma Settled_appended (db db' : Database) (document : Doc.t) :
  Appended db db' -> Settled db document -> Settled db' document.
Proof.
  intros [sessions [[p prompts] [[o observed] [u summaries]]]].
  unfold Settled, importDocument.
  destruct (Doc.payload document) as [session | prompt | observation | summary].
  - intros quiet. apply upsertSession_quiet in quiet as [existing [found same]].
    apply upsertSession_quiet. exists existing.
    unfold getSessionByContentSessionId, resolveImportedMemorySessionId in *.
    rewrite sessions. split; assumption.
  - unfold upsertPrompt, getSessionByContentSessionId. cbv zeta.
    rewrite sessions, prompts.
    destruct (find _ (user_prompts db)) as [stored|] eqn:found.
    + intros _. rewrite (find_app_some _ _ _ _ found). reflexivity.
    + destruct (find _ (sdk_sessions db)); [discriminate|].
      intros _. destruct (find _ (user_prompts db ++ p)); reflexivity.
  - unfold upsertObservation, getSessionByMemorySessionId.
    rewrite sessions, observed.
    destruct (find _ (sdk_sessions db)); [|reflexivity].
    destruct (find _ (observations db)) as [stored|] eqn:found; [|discriminate].
    intros _. rewrite (find_app_some _ _ _ _ found). reflexivity.
  - unfold upsertSummary, getSessionByMemorySessionId.
    rewrite sessions, summaries.
    destruct (find _ (sdk_sessions db)); [|reflexivity].
    destruct (find _ (session_summaries db)) as [stored|] eqn:found; [|discriminate].
    intros _. rewrite (find_app_some _ _ _ _ found). reflexivity.
Qed.

(** A prompt, observation or summary imported twice in a row is written once. *)
Lemma importDocument_twice (db : Database) (document : Doc.t) :
  notSession document -> Settled (fst (importDocument db document)) document.
Proof.
  unfold notSession, Doc.kind, Settled, importDocument.
  destruct (Doc.payload document) as [s | p | o | s]; intros kind.
  - contradiction.
  - unfold upsertPrompt. cbv zeta.
    destruct (find _ (user_prompts db)) as [stored|] eqn:found.
    + simpl. rewrite found. reflexivity.
    + destruct (getSessionByContentSessionId db _) as [owner|] eqn:session.
      * simpl. unfold SQL_insert. rewrite find_snoc, found. simpl.
        rewrite !bool_decide_eq_true_2 by reflexivity. reflexivity.
      * simpl. rewrite found, session. reflexivity.
  - unfold upsertObservation.
    destruct (getSessionByMemorySessionId db _) as [owner|] eqn:session.
    + destruct (find _ (observations db)) as [stored|] eqn:found.
      * simpl. rewrite session, found. reflexivity.
      * simpl. unfold getSessionByMemorySessionId in *. simpl. rewrite session.
        unfold SQL_insert. rewrite find_snoc, found.
        unfold sameObservation. simpl.
        rewrite !bool_decide_eq_true_2 by reflexivity. reflexivity.
    + simpl. rewrite session. reflexivity.
  - unfold upsertSummary.
    destruct (getSessionByMemorySessionId db _) as [owner|] eqn:session.
    + destruct (find _ (session_summaries db)) as [stored|] eqn:found.
      * simpl. rewrite session, found. reflexivity.
      * simpl. unfold getSessionByMemorySessionId in *. simpl. rewrite session.
        unfold SQL_insert. rewrite find_snoc, found.
        unfold sameSummary. simpl.
        rewrite !bool_decide_eq_true_2 by reflexivity. reflexivity.
    + simpl. rewrite session. reflexivity.
Qed.

Lemma importLoop_count (documents : list Doc.t) (db : Database) (count : nat) :
  importLoop db count documents
  = (fst (importLoop db 0 documents), (count + snd (importLoop db 0 documents))%nat).
Proof.
  revert db count. induction documents as [|document rest IH]; intros db count; simpl.
  - rewrite Nat.add_0_r. reflexivity.
  - destruct (importDocument db document) as [db' written].
    rewrite (IH db' (count + _)%nat), (IH db' (if written then 1 else 0)%nat). simpl.
    f_equal. lia.
Qed.

Lemma importLoop_cons (document : Doc.t) (rest : list Doc.t) (db : Database) :
  fst (importLoop db 0 (document :: rest))
  = fst (importLoop (fst (importDocument db document)) 0 rest).
Proof.
  simpl. destruct (importDocument db document) as [db' written]. simpl.
  rewrite importLoop_count. reflexivity.
Qed.

Lemma importLoop_app (first rest : list Doc.t) (db : Database) :
  fst (importLoop db 0 (first ++ rest))
  = fst (importLoop (fst (importLoop db 0 first)) 0 rest).
Proof.
  revert db. induction first as [|document first IH]; intros db; [reflexivity|].
  rewrite <- app_comm_cons, !importLoop_cons. apply IH.
Qed.

Lemma importLoop_settled (documents : list Doc.t) (db : Database) (count : nat) :
  Forall (Settled db) documents -> importLoop db count documents = (db, count).
Proof.
  revert count. induction documents as [|document rest IH]; intros count settled;
    [reflexivity|].
  apply Forall_cons in settled as [here settled]. simpl.
  unfold Settled in here. rewrite here. rewrite Nat.add_0_r. apply IH. exact settled.
Qed.

Lemma importLoop_appended (documents : list Doc.t) (db : Database) :
  Forall notSession documents -> Appended db (fst (importLoop db 0 documents)).
Proof.
  revert db. induction documents as [|document rest IH]; intros db kinds.
  - apply Appended_refl.
  - apply Forall_cons in kinds as [kind kinds]. rewrite importLoop_cons.
    eapply Appended_trans; [apply importDocument_appended; exact kind|].
    apply IH. exact kinds.
Qed.

Lemma importLoop_others_settled (documents : list Doc.t) (db : Database) :
  Forall notSession documents ->
  Forall (Settled (fst (importLoop db 0 documents))) documents.
Proof.
  revert db. induction documents as [|document rest IH]; intros db kinds; [constructor|].
  apply Forall_cons in kinds as [kind kinds]. rewrite importLoop_cons.
  apply Forall_cons. split; [|apply IH; exact kinds].
  apply (Settled_appended (fst (importDocument db document))).
  - apply importLoop_appended. exact kinds.
  - apply importDocument_twice. exact kind.
Qed.

Lemma importLoop_sessions (documents : list Doc.t) (db : Database) :
  Forall (fun document => Doc.kind document = KSession) documents ->
  fst (importLoop db 0 documents) = applySessions db (sessionsOf documents).
Proof.
  revert db. induction documents as [|document rest IH]; intros db kinds; [reflexivity|].
  apply Forall_cons in kinds as [kind kinds]. rewrite importLoop_cons.
  unfold sessionsOf. rewrite omap_cons_match. fold (sessionsOf rest).
  unfold importDocument. unfold Doc.kind in kind.
  destruct (Doc.payload document); try discriminate.
  simpl. apply IH. exact kinds.
Qed.

Lemma ofKind_kind (k : RemoteMemoryKind) (documents : list Doc.t) :
  Forall (fun document => Doc.kind document = k) (ofKind k documents).
Proof.
  apply Forall_forall. intros document elem.
  apply list_elem_of_In, filter_In in elem as [_ kind].
  apply bool_decide_eq_true in kind. exact kind.
Qed.

Lemma sessionsOf_ofKind (documents : list Doc.t) :
  sessionsOf (ofKind KSession documents) = sessionsOf documents.
Proof.
  unfold sessionsOf, ofKind. induction documents as [|document rest IH]; [reflexivity|].
  simpl List.filter.
  destruct (bool_decide (Doc.kind document = KSession)) eqn:kind.
  - rewrite !omap_cons_match, IH. reflexivity.
  - apply bool_decide_eq_false in kind. rewrite omap_cons_match, IH.
    destruct (Doc.payload document) eqn:payload; try reflexivity.
    exfalso. apply kind. unfold Doc.kind. rewrite payload. reflexivity.
Qed.

Lemma sessionsOf_payload (documents : list Doc.t) (document : Doc.t) :
  document ∈ documents -> Doc.kind document = KSession ->
  exists session, Doc.payload document = PSession session /\ session ∈ sessionsOf documents.
Proof.
  intros elem kind. unfold Doc.kind in kind.
  destruct (Doc.payload document) as [session| | |] eqn:payload; try discriminate.
  exists session. split; [reflexivity|].
  apply list_elem_of_omap. exists document. split; [exact elem|]. rewrite payload. reflexivity.
Qed.

End SecondImport.

(** C2, as the code has it.  When the session documents of one session carry
    the same payload, and no session document releases a [memory_session_id]
    that a document of another session carries (each leaves the binding its
    session has locally in place, or moves its session off a binding that no
    other session of the batch claims), importing the batch a second time
    writes no row: it returns 0 and leaves every table as the first import
    left it. *)
Theorem second_import_writes_nothing (db : Database) (batch : list Doc.t) :
  NoDup (id <$> sdk_sessions db) ->
  OnePayloadPerSession (sessionsOf batch) ->
  Forall (ReleasesUnclaimed db (sessionsOf batch)) (sessionsOf batch) ->
  importRemoteDocuments (fst (importRemoteDocuments db batch)) batch
  = (fst (importRemoteDocuments db batch), 0%nat).
Proof.
  intros key one releases. unfold importRemoteDocuments.
  apply importLoop_settled. unfold orderDocuments.
  set (others := (ofKind KPrompt batch ++ ofKind KObservation batch
                  ++ ofKind KSummary batch)%list).
  assert (kinds : Forall notSession others).
  { unfold others, notSession. repeat apply Forall_app_2;
      (eapply Forall_impl; [apply ofKind_kind|]); intros document ->; discriminate. }
  rewrite importLoop_app. apply Forall_app_2.
  - apply Forall_forall. intros document elem.
    apply (Settled_appended (fst (importLoop db 0 (ofKind KSession batch)))).
    + apply importLoop_appended. exact kinds.
    + rewrite importLoop_sessions by apply ofKind_kind.
      pose proof (proj1 (Forall_forall _ _) (ofKind_kind KSession batch) document elem)
        as kind.
      destruct (sessionsOf_payload _ document elem kind) as [session [payload member]].
      unfold Settled, importDocument. rewrite payload.
      rewrite sessionsOf_ofKind in *.
      apply (applySessions_settled (sessionsOf batch)); try assumption.
      apply Forall_forall. trivial.
  - apply importLoop_others_settled. exact kinds.
Qed.

Lemma second_import_writes_nothing_witness :
  importRemoteDocuments
    (fst (importRemoteDocuments Examples.oneSession ExamplesImport.moving))
    ExamplesImport.moving
  = (fst (importRemoteDocuments Examples.oneSession ExamplesImport.moving), 0%nat).
Proof.
  apply (second_import_writes_nothing Examples.oneSession ExamplesImport.moving).
  - apply (bool_decide_unpack _). vm_compute. exact I.
  - intros s t member_s member_t same.
    repeat (apply elem_of_cons in member_s as [-> | member_s]);
      try (apply elem_of_nil in member_s; contradiction);
      repeat (apply elem_of_cons in member_t as [-> | member_t]);
      try (apply elem_of_nil in member_t; contradiction);
      first [reflexivity | discriminate].
  - assert (moves : ReleasesUnclaimed Examples.oneSession
                      (sessionsOf ExamplesImport.moving)
                      (Examples.session "A" (Some "Y"))).
    { intros existing bound found is_bound. right. right.
      injection found as <-. injection is_bound as <-.
      intros other member differs.
      repeat (apply elem_of_cons in member as [-> | member]);
        try (apply elem_of_nil in member; contradiction);
        first [discriminate | contradiction]. }
    repeat (apply Forall_cons; split); [exact moves | | exact moves | apply Forall_nil_2].
    intros existing bound found _. vm_compute in found. discriminate.
Defined.

(** C2 as stated fails: in a store whose keys are unique, a batch of two
    session documents with distinct ids writes a row when imported again. *)
Lemma second_import_can_write :
  UniqueKeys Examples.oneSession
  /\ NoDup (Doc.id <$> ExamplesImport.rebinding)
  /\ snd (importRemoteDocuments
            (fst (importRemoteDocuments Examples.oneSession ExamplesImport.rebinding))
            ExamplesImport.rebinding) = 1%nat.
Proof.
  split; [|split].
  - split; apply (bool_decide_unpack _); vm_compute; exact I.
  - apply (bool_decide_unpack _). vm_compute. exact I.
  - vm_compute. reflexivity.
Qed.

(** Two documents of one session with different payloads are written again:
    over the session [A] bound to [X], the batch of [A] with [X] and [A] with
    [Y], in which no document of another session claims anything, writes one
    row when first imported and two when imported again. *)
Lemma differing_duplicates_are_written_again :
  UniqueKeys Examples.oneSession
  /\ Forall (ReleasesUnclaimed Examples.oneSession (sessionsOf ExamplesImport.differing))
            (sessionsOf ExamplesImport.differing)
  /\ ~ OnePayloadPerSession (sessionsOf ExamplesImport.differing)
  /\ snd (importRemoteDocuments Examples.oneSession ExamplesImport.differing) = 1%nat
  /\ snd (importRemoteDocuments
            (fst (importRemoteDocuments Examples.oneSession ExamplesImport.differing))
            ExamplesImport.differing) = 2%nat.
Proof.
  split; [|split; [|split; [|split]]].
  - split; apply (bool_decide_unpack _); vm_compute; exact I.
  - repeat (apply Forall_cons; split); [| |apply Forall_nil_2].
    + intros existing bound found is_bound.
      injection found as <-. injection is_bound as <-. right. left. reflexivity.
    + intros existing bound found is_bound. right. right.
      intros other member differs.
      repeat (apply elem_of_cons in member as [-> | member]);
        try (apply elem_of_nil in member; contradiction); contradiction.
  - intros one.
    assert (same : Examples.session "A" (Some "X") = Examples.session "A" (Some "Y")).
    { apply one; [left | right; left | reflexivity]. }
    discriminate.
  - vm_compute. reflexivity.
  - vm_compute. reflexivity.
Qed.

(** ** Document identity *)

Section Identity.
Context `{Platform}.

Lemma or_onum_zero (tokens : option Z) : or_onum tokens 0 = tokensOrZero tokens.
Proof.
  destruct tokens as [n|]; [|reflexivity]. unfold or_onum, or_num.
  case_bool_decide; simpl; congruence.
Qed.

Lemma observationPayload_canonical (o : Observation.t) :
  observationPayloadJson (observationPayload o) = canonicalObservation o.
Proof.
  unfold observationPayloadJson, observationPayload, canonicalObservation. simpl.
  rewrite or_onum_zero. reflexivity.
Qed.

Lemma summaryPayload_canonical (s : Summary.t) :
  summaryPayloadJson (summaryPayload s) = canonicalSummary s.
Proof.
  unfold summaryPayloadJson, summaryPayload, canonicalSummary. simpl.
  rewrite or_onum_zero. reflexivity.
Qed.

Lemma canonicalObservation_same (a b : Observation.t) :
  sameObservationContent a b -> canonicalObservation a = canonicalObservation b.
Proof.
  unfold sameObservationContent, canonicalObservation. intros same.
  decompose [and] same. congruence.
Qed.

Lemma canonicalSummary_same (a b : Summary.t) :
  sameSummaryContent a b -> canonicalSummary a = canonicalSummary b.
Proof.
  unfold sameSummaryContent, canonicalSummary. intros same.
  decompose [and] same. congruence.
Qed.

(** C5.  Observation and summary ids are the kind, a colon and the SHA-256
    hex digest of the serialised canonical payload, so rows with the same
    content (a missing [discovery_tokens] counting as 0) get the same id,
    whatever their row ids; prompt and session ids are built from the natural
    keys without hashing. *)
Theorem document_ids_are_deterministic :
  (forall a b : LocalObservationRow,
      sameObservationContent (data a) (data b) ->
      Doc.id (buildObservationDocument a) = Doc.id (buildObservationDocument b))
  /\ (forall a : LocalObservationRow,
         Doc.id (buildObservationDocument a)
         = "observation:" ++ sha256_hex (JSON_stringify (canonicalObservation (data a))))
  /\ (forall a b : LocalSummaryRow,
         sameSummaryContent (data a) (data b) ->
         Doc.id (buildSummaryDocument a) = Doc.id (buildSummaryDocument b))
  /\ (forall a : LocalSummaryRow,
         Doc.id (buildSummaryDocument a)
         = "summary:" ++ sha256_hex (JSON_stringify (canonicalSummary (data a))))
  /\ (forall p : LocalPromptRow,
         Doc.id (buildPromptDocument p)
         = "prompt:" ++ Prompt.content_session_id (data p)
           ++ ":" ++ pretty (Prompt.prompt_number (data p)))
  /\ (forall (s : LocalSessionRow) (updatedAtEpoch : option Z),
         Doc.id (buildSessionDocument s updatedAtEpoch)
         = "session:" ++ Session.content_session_id (data s)).
Proof.
  repeat split.
  - intros a b same. unfold buildObservationDocument, buildHashDocumentId. simpl.
    rewrite !observationPayload_canonical, (canonicalObservation_same _ _ same). reflexivity.
  - intros a. unfold buildObservationDocument, buildHashDocumentId. simpl.
    rewrite observationPayload_canonical. reflexivity.
  - intros a b same. unfold buildSummaryDocument, buildHashDocumentId. simpl.
    rewrite !summaryPayload_canonical, (canonicalSummary_same _ _ same). reflexivity.
  - intros a. unfold buildSummaryDocument, buildHashDocumentId. simpl.
    rewrite summaryPayload_canonical. reflexivity.
Qed.

End Identity.

Lemma document_ids_are_deterministic_witness :
  Doc.id (@buildObservationDocument examplePlatform
            (mkRow 1 (ExamplesIdentity.observation None)))
  = Doc.id (@buildObservationDocument examplePlatform
              (mkRow 7 (ExamplesIdentity.observation (Some 0)))).
Proof.
  apply (proj1 (@document_ids_are_deterministic examplePlatform)).
  repeat split.
Defined.

(** ** Push batches *)

Section Sorting.
Context {A : Type} (leb : A -> A -> bool).
Hypothesis leb_total : forall a b, leb a b = false -> leb b a = true.
Hypothesis leb_trans : forall a b c, leb a b = true -> leb b c = true -> leb a c = true.

Lemma insertSorted_perm (x : A) (l : list A) : insertSorted leb x l ≡ₚ x :: l.
Proof.
  induction l as [|y l IH]; simpl; [reflexivity|].
  destruct (leb x y); [reflexivity|].
  rewrite IH. apply Permutation_swap.
Qed.

Lemma stableSort_perm (l : list A) : stableSort leb l ≡ₚ l.
Proof.
  unfold stableSort. induction l as [|x l IH]; simpl; [reflexivity|].
  rewrite insertSorted_perm, IH. reflexivity.
Qed.

Lemma insertSorted_sorted (x : A) (l : list A) :
  StronglySorted (fun a b => leb a b = true) l ->
  StronglySorted (fun a b => leb a b = true) (insertSorted leb x l).
Proof.
  induction l as [|y l IH]; intros sorted; simpl.
  - constructor; constructor.
  - apply StronglySorted_inv in sorted as [sorted below].
    destruct (leb x y) eqn:le.
    + constructor; [constructor; assumption|].
      constructor; [exact le|].
      eapply Forall_impl; [exact below|]. intros z yz. simpl in yz.
      apply (leb_trans x y z); assumption.
    + constructor; [apply IH; exact sorted|].
      rewrite insertSorted_perm. constructor; [apply leb_total; exact le | exact below].
Qed.

Lemma stableSort_sorted (l : list A) :
  StronglySorted (fun a b => leb a b = true) (stableSort leb l).
Proof.
  unfold stableSort. induction l as [|x l IH]; simpl; [constructor|].
  apply insertSorted_sorted. exact IH.
Qed.

End Sorting.

Lemma StronglySorted_impl {A : Type} (R S : A -> A -> Prop) (l : list A) :
  (forall a b, R a b -> S a b) -> StronglySorted R l -> StronglySorted S l.
Proof.
  intros sub. induction 1 as [|x l sorted IH below]; constructor; [exact IH|].
  eapply Forall_impl; [exact below|]. intros y. apply sub.
Qed.

Lemma fold_left_flat_map {A B C : Type} (f : A -> B -> A) (g : C -> list B)
    (l : list C) (a : A) :
  fold_left (fun acc x => fold_left f (g x) acc) l a = fold_left f (flat_map g l) a.
Proof.
  revert a. induction l as [|x l IH]; intros a; simpl; [reflexivity|].
  rewrite fold_left_app. apply IH.
Qed.

Section Maps.

Lemma Map_get_set (documents : DocumentMap) (key key' : string) (value : Doc.t) :
  Map_get (Map_set documents key value) key'
  = if bool_decide (key = key') then Some value else Map_get documents key'.
Proof.
  induction documents as [|[k v] rest IH]; simpl.
  - case_bool_decide; reflexivity.
  - destruct (bool_decide (k = key)) eqn:hit; simpl.
    + apply bool_decide_eq_true in hit. subst k.
      case_bool_decide; reflexivity.
    + apply bool_decide_eq_false in hit. rewrite IH.
      destruct (bool_decide (k = key')) eqn:hit'; [|reflexivity].
      apply bool_decide_eq_true in hit'. subst k.
      rewrite bool_decide_eq_false_2 by congruence. reflexivity.
Qed.

Lemma Map_set_keys (documents : DocumentMap) (key : string) (value : Doc.t) :
  fst <$> Map_set documents key value
  = match Map_get documents key with
    | Some _ => fst <$> documents
    | None => ((fst <$> documents) ++ [key])%list
    end.
Proof.
  induction documents as [|[k v] rest IH]; [reflexivity|].
  cbn [Map_set Map_get].
  destruct (bool_decide (k = key)) eqn:hit.
  - reflexivity.
  - rewrite !fmap_cons, IH. destruct (Map_get rest key); reflexivity.
Qed.

Lemma Map_get_None (documents : DocumentMap) (key : string) :
  Map_get documents key = None -> key ∉ (fst <$> documents).
Proof.
  induction documents as [|[k v] rest IH]; cbn [Map_get]; intros none elem.
  - inversion elem.
  - destruct (bool_decide (k = key)) eqn:hit; [discriminate|].
    apply bool_decide_eq_false in hit. rewrite fmap_cons in elem.
    apply elem_of_cons in elem as [eq | elem]; [simpl in eq; congruence|].
    exact (IH none elem).
Qed.

Lemma Map_get_elem (documents : DocumentMap) (key : string) (value : Doc.t) :
  Map_get documents key = Some value -> (key, value) ∈ documents.
Proof.
  induction documents as [|[k v] rest IH]; simpl; [discriminate|].
  destruct (bool_decide (k = key)) eqn:hit.
  - apply bool_decide_eq_true in hit. subst k. intros [= ->]. apply list_elem_of_here.
  - intros found. apply list_elem_of_further. exact (IH found).
Qed.

Lemma Map_elem_get (documents : DocumentMap) (key : string) (value : Doc.t) :
  NoDup (fst <$> documents) -> (key, value) ∈ documents ->
  Map_get documents key = Some value.
Proof.
  induction documents as [|[k v] rest IH]; intros nodup elem; [inversion elem|].
  rewrite fmap_cons in nodup. apply NoDup_cons in nodup as [fresh nodup]. simpl in *.
  apply elem_of_cons in elem as [eq | elem].
  - injection eq as -> ->. rewrite bool_decide_eq_true_2 by reflexivity. reflexivity.
  - rewrite bool_decide_eq_false_2; [exact (IH nodup elem)|].
    intros ->. apply fresh. apply list_elem_of_fmap. exists (key, value). split; [reflexivity | exact elem].
Qed.

Lemma Collected_nil : Collected [] [].
Proof.
  split.
  - apply NoDup_nil_2.
  - intros key value found. discriminate.
  - intros d elem. inversion elem.
Qed.

Lemma Map_set_NoDup (documents : DocumentMap) (key : string) (value : Doc.t) :
  NoDup (fst <$> documents) -> NoDup (fst <$> Map_set documents key value).
Proof.
  intros nodup. rewrite Map_set_keys.
  destruct (Map_get documents key) eqn:found; [exact nodup|].
  apply NoDup_snoc_fresh; [apply Map_get_None; exact found | exact nodup].
Qed.

Lemma addDocument_collected (added : list Doc.t) (documents : DocumentMap) (d : Doc.t) :
  Collected added documents -> Collected (added ++ [d]) (addDocument documents d).
Proof.
  intros [keys from all]. unfold addDocument.
  destruct (Map_get documents (Doc.id d)) as [existing|] eqn:found.
  - destruct (bool_decide (Doc.updatedAtEpoch existing <= Doc.updatedAtEpoch d)) eqn:newer.
    + apply bool_decide_eq_true in newer. split.
      * apply Map_set_NoDup. exact keys.
      * intros key value. rewrite Map_get_set. case_bool_decide as hit.
        -- intros [= <-]. split; [exact hit|]. apply elem_of_app. right.
           apply list_elem_of_here.
        -- intros get. destruct (from key value get) as [is_key elem].
           split; [exact is_key|]. apply elem_of_app. left. exact elem.
      * intros a elem. rewrite Map_get_set. case_bool_decide as hit.
        -- exists d. split; [reflexivity|].
           apply elem_of_app in elem as [elem | elem].
           ++ destruct (all a elem) as [kept [get le]].
              rewrite <- hit, found in get. injection get as <-. lia.
           ++ apply list_elem_of_singleton in elem. subst a. lia.
        -- apply elem_of_app in elem as [elem | elem]; [exact (all a elem)|].
           apply list_elem_of_singleton in elem. subst a. contradiction.
    + apply bool_decide_eq_false in newer. split.
      * exact keys.
      * intros key value get. destruct (from key value get) as [is_key elem].
        split; [exact is_key|]. apply elem_of_app. left. exact elem.
      * intros a elem. apply elem_of_app in elem as [elem | elem]; [exact (all a elem)|].
        apply list_elem_of_singleton in elem. subst a.
        exists existing. split; [exact found | lia].
  - split.
    + apply Map_set_NoDup. exact keys.
    + intros key value. rewrite Map_get_set. case_bool_decide as hit.
      * intros [= <-]. split; [exact hit|]. apply elem_of_app. right.
        apply list_elem_of_here.
      * intros get. destruct (from key value get) as [is_key elem].
        split; [exact is_key|]. apply elem_of_app. left. exact elem.
    + intros a elem. rewrite Map_get_set. case_bool_decide as hit.
      * apply elem_of_app in elem as [elem | elem].
        -- destruct (all a elem) as [kept [get _]]. rewrite <- hit in get. congruence.
        -- apply list_elem_of_singleton in elem. subst a. exists d. split; [reflexivity | lia].
      * apply elem_of_app in elem as [elem | elem]; [exact (all a elem)|].
        apply list_elem_of_singleton in elem. subst a. contradiction.
Qed.

Lemma addDocuments_collected (batch added : list Doc.t) (documents : DocumentMap) :
  Collected added documents -> Collected (added ++ batch) (addDocuments documents batch).
Proof.
  revert added documents. induction batch as [|d batch IH]; intros added documents collected.
  - rewrite app_nil_r. exact collected.
  - simpl. replace (added ++ d :: batch)%list with ((added ++ [d]) ++ batch)%list
      by (rewrite <- app_assoc; reflexivity).
    apply IH. apply addDocument_collected. exact collected.
Qed.

Lemma Collected_values (added : list Doc.t) (documents : DocumentMap) :
  Collected added documents ->
  NoDup (Doc.id <$> Map_values documents) /\ Represents added (Map_values documents).
Proof.
  intros [keys from all].
  assert (entry : forall key value, (key, value) ∈ documents ->
                                    Doc.id value = key /\ value ∈ added).
  { intros key value elem. apply from. apply Map_elem_get; assumption. }
  split; [|split].
  - replace (Doc.id <$> Map_values documents) with (fst <$> documents); [exact keys|].
    unfold Map_values. clear keys from all.
    induction documents as [|[k v] rest IH]; [reflexivity|].
    cbn [map]. rewrite !fmap_cons. cbn [fst snd].
    f_equal.
    + symmetry. apply (entry k v). apply list_elem_of_here.
    + apply IH. intros key value elem. apply entry. apply list_elem_of_further. exact elem.
  - intros d elem. unfold Map_values in elem.
    apply list_elem_of_In, in_map_iff in elem as [[k v] [<- elem]].
    apply list_elem_of_In in elem. apply (entry k v elem).
  - intros d elem. destruct (all d elem) as [kept [get le]].
    exists kept. split; [|split].
    + unfold Map_values. apply list_elem_of_In, in_map_iff.
      exists (Doc.id d, kept). split; [reflexivity|].
      apply list_elem_of_In, Map_get_elem. exact get.
    + apply (from _ _ get).
    + exact le.
Qed.

End Maps.

Section PushBatches.
Context `{Platform}.

Lemma Represents_refl (l : list Doc.t) : Represents l l.
Proof.
  split; [trivial|]. intros d elem. exists d. split; [exact elem|]. split; [reflexivity | lia].
Qed.

Lemma Represents_trans (a b c : list Doc.t) :
  Represents a b -> Represents b c -> Represents a c.
Proof.
  intros [from_ab all_ab] [from_bc all_bc]. split.
  - intros d elem. apply from_ab, from_bc, elem.
  - intros d elem. destruct (all_ab d elem) as [k [elem_k [id_k le_k]]].
    destruct (all_bc k elem_k) as [k' [elem_k' [id_k' le_k']]].
    exists k'. split; [exact elem_k'|]. split; [congruence | lia].
Qed.

Lemma Represents_app (a1 a2 b1 b2 : list Doc.t) :
  Represents a1 b1 -> Represents a2 b2 -> Represents (a1 ++ a2) (b1 ++ b2).
Proof.
  intros [from1 all1] [from2 all2]. split.
  - intros d elem. apply elem_of_app in elem as [elem | elem]; apply elem_of_app;
      [left; apply from1 | right; apply from2]; exact elem.
  - intros d elem. apply elem_of_app in elem as [elem | elem].
    + destruct (all1 d elem) as [k [elem_k rest]]. exists k. split; [|exact rest].
      apply elem_of_app. left. exact elem_k.
    + destruct (all2 d elem) as [k [elem_k rest]]. exists k. split; [|exact rest].
      apply elem_of_app. right. exact elem_k.
Qed.

Lemma Represents_flat_map {A : Type} (f g : A -> list Doc.t) (l : list A) :
  (forall x, Represents (f x) (g x)) -> Represents (flat_map f l) (flat_map g l).
Proof.
  intros pointwise. induction l as [|x l IH]; simpl; [apply Represents_refl|].
  apply Represents_app; [apply pointwise | exact IH].
Qed.

Lemma DedupedSorted_refine (raw outer batch : list Doc.t) :
  Represents raw outer -> DedupedSorted outer batch -> DedupedSorted raw batch.
Proof.
  intros refines [nodup [represents sorted]].
  split; [exact nodup|]. split; [|exact sorted].
  eapply Represents_trans; eassumption.
Qed.

Lemma fold_left_fmap {A : Type} (f : A -> Doc.t) (l : list A) (documents : DocumentMap) :
  fold_left (fun documents x => addDocument documents (f x)) l documents
  = addDocuments documents (f <$> l).
Proof.
  revert documents. induction l as [|x l IH]; intros documents; [reflexivity|].
  rewrite fmap_cons. simpl. apply IH.
Qed.

Lemma compareDocuments_le (left right : Doc.t) :
  compareDocuments left right <= 0 <-> documentLe left right.
Proof.
  unfold compareDocuments, documentLe, strict_ne.
  case_bool_decide as same; simpl; [rewrite same|]; intuition lia.
Qed.

Context `{!ConsistentCollation}.

Lemma compareDocuments_total (a b : Doc.t) :
  bool_decide (compareDocuments a b <= 0) = false ->
  bool_decide (compareDocuments b a <= 0) = true.
Proof.
  intros gt. apply bool_decide_eq_false in gt. apply bool_decide_eq_true.
  unfold compareDocuments, strict_ne in *.
  case_bool_decide as same; simpl in *.
  - rewrite bool_decide_eq_true_2 by congruence. simpl.
    pose proof (localeCompare_antisym (Doc.id a) (Doc.id b)). lia.
  - rewrite bool_decide_eq_false_2 by congruence. simpl. lia.
Qed.

Lemma compareDocuments_trans (a b c : Doc.t) :
  bool_decide (compareDocuments a b <= 0) = true ->
  bool_decide (compareDocuments b c <= 0) = true ->
  bool_decide (compareDocuments a c <= 0) = true.
Proof.
  intros ab bc. apply bool_decide_eq_true in ab, bc. apply bool_decide_eq_true.
  apply compareDocuments_le in ab, bc. apply compareDocuments_le.
  unfold documentLe in *.
  destruct ab as [ab | [ab ab']], bc as [bc | [bc bc']]; try (left; lia).
  right. split; [lia|]. eapply localeCompare_trans; eassumption.
Qed.

Lemma sortDocuments_collected (added : list Doc.t) (documents : DocumentMap) :
  Collected added documents -> DedupedSorted added (sortDocuments documents).
Proof.
  intros collected. apply Collected_values in collected as [nodup [from all]].
  unfold sortDocuments.
  set (leb := fun left right => bool_decide (compareDocuments left right <= 0)).
  split; [|split; [split|]].
  - rewrite (stableSort_perm leb). exact nodup.
  - intros d elem. rewrite (stableSort_perm leb) in elem. apply from. exact elem.
  - intros d elem. destruct (all d elem) as [kept [elem_k rest]].
    exists kept. split; [|exact rest]. rewrite (stableSort_perm leb). exact elem_k.
  - apply (StronglySorted_impl (fun a b => leb a b = true)).
    + intros a b le. apply compareDocuments_le. apply bool_decide_eq_true in le. exact le.
    + apply stableSort_sorted.
      * apply compareDocuments_total.
      * apply compareDocuments_trans.
Qed.

Lemma addDocuments_deduped (added : list Doc.t) :
  DedupedSorted added (sortDocuments (addDocuments [] added)).
Proof.
  apply sortDocuments_collected.
  apply (addDocuments_collected added [] []). apply Collected_nil.
Qed.

Lemma collectPromptDocuments_deduped (db : Database) (prompts : list LocalPromptRow) :
  DedupedSorted (flat_map (promptDocuments db) prompts) (collectPromptDocuments db prompts).
Proof.
  unfold collectPromptDocuments, addDocuments.
  rewrite (fold_left_flat_map addDocument (promptDocuments db)).
  apply addDocuments_deduped.
Qed.

Lemma collectObservationDocuments_deduped
    (db : Database) (observations : list LocalObservationRow) :
  DedupedSorted (flat_map (observationDocuments db) observations)
                (collectObservationDocuments db observations).
Proof.
  unfold collectObservationDocuments, addDocuments.
  rewrite (fold_left_flat_map addDocument (observationDocuments db)).
  apply addDocuments_deduped.
Qed.

Lemma collectSummaryDocuments_deduped (db : Database) (summaries : list LocalSummaryRow) :
  DedupedSorted (flat_map (summaryDocuments db) summaries)
                (collectSummaryDocuments db summaries).
Proof.
  unfold collectSummaryDocuments, addDocuments.
  rewrite (fold_left_flat_map addDocument (summaryDocuments db)).
  apply addDocuments_deduped.
Qed.

Lemma single_represents {A : Type} (f : A -> list Doc.t) (collect : list A -> list Doc.t) :
  (forall l, DedupedSorted (flat_map f l) (collect l)) ->
  forall x, Represents (f x) (collect [x]).
Proof.
  intros deduped x. destruct (deduped [x]) as [_ [represents _]].
  simpl in represents. rewrite app_nil_r in represents. exact represents.
Qed.

Lemma collectBootstrapDocuments_deduped (db : Database) :
  DedupedSorted (bootstrapCandidates db) (collectBootstrapDocuments db).
Proof.
  unfold collectBootstrapDocuments, addPromptRows, addObservationRows, addSummaryRows.
  cbv zeta.
  rewrite (fold_left_fmap (fun session => buildSessionDocument session None)).
  unfold addDocuments.
  rewrite (fold_left_flat_map addDocument (fun p => collectPromptDocuments db [p])).
  rewrite (fold_left_flat_map addDocument (fun o => collectObservationDocuments db [o])).
  rewrite (fold_left_flat_map addDocument (fun s => collectSummaryDocuments db [s])).
  rewrite <- !fold_left_app.
  eapply DedupedSorted_refine; [|apply addDocuments_deduped].
  unfold bootstrapCandidates.
  repeat apply Represents_app.
  - apply Represents_refl.
  - apply Represents_flat_map.
    apply (single_represents _ _ (collectPromptDocuments_deduped db)).
  - apply Represents_flat_map.
    apply (single_represents _ _ (collectObservationDocuments_deduped db)).
  - apply Represents_flat_map.
    apply (single_represents _ _ (collectSummaryDocuments_deduped db)).
Qed.

Lemma collectIncrementalDocuments_deduped (db : Database) (sinceEpoch : Z) :
  DedupedSorted (incrementalCandidates db sinceEpoch)
                (collectIncrementalDocuments db sinceEpoch).
Proof.
  unfold collectIncrementalDocuments, addPromptRows, addObservationRows, addSummaryRows.
  cbv zeta. unfold addDocuments.
  rewrite (fold_left_flat_map addDocument (fun p => collectPromptDocuments db [p])).
  rewrite (fold_left_flat_map addDocument (fun o => collectObservationDocuments db [o])).
  rewrite (fold_left_flat_map addDocument (fun s => collectSummaryDocuments db [s])).
  rewrite <- !fold_left_app.
  eapply DedupedSorted_refine; [|apply addDocuments_deduped].
  unfold incrementalCandidates.
  repeat apply Represents_app.
  - apply Represents_flat_map.
    apply (single_represents _ _ (collectPromptDocuments_deduped db)).
  - apply Represents_flat_map.
    apply (single_represents _ _ (collectObservationDocuments_deduped db)).
  - apply Represents_flat_map.
    apply (single_represents _ _ (collectSummaryDocuments_deduped db)).
Qed.

(** C7.  Every push batch of the collectors (bootstrap, incremental, and the
    three event-driven ones) has at most one document per id, each of them one
    of the documents built, at least as recent as every built document of its
    id, and the batch is in ascending order of [(updatedAtEpoch, id)]. *)
Theorem push_batches_are_deduped_and_sorted (db : Database) :
  DedupedSorted (bootstrapCandidates db) (collectBootstrapDocuments db)
  /\ (forall sinceEpoch,
         DedupedSorted (incrementalCandidates db sinceEpoch)
                       (collectIncrementalDocuments db sinceEpoch))
  /\ (forall prompts,
         DedupedSorted (flat_map (promptDocuments db) prompts)
                       (collectPromptDocuments db prompts))
  /\ (forall observations,
         DedupedSorted (flat_map (observationDocuments db) observations)
                       (collectObservationDocuments db observations))
  /\ (forall summaries,
         DedupedSorted (flat_map (summaryDocuments db) summaries)
                       (collectSummaryDocuments db summaries)).
Proof.
  split; [apply collectBootstrapDocuments_deduped|].
  split; [apply collectIncrementalDocuments_deduped|].
  split; [apply collectPromptDocuments_deduped|].
  split; [apply collectObservationDocuments_deduped|].
  apply collectSummaryDocuments_deduped.
Qed.

End PushBatches.

Lemma codeUnitCompare_consistent : @ConsistentCollation examplePlatform.
Proof.
  split; simpl; unfold codeUnitCompare.
  - intros a b. rewrite (String.compare_antisym b a).
    destruct (String.compare a b); simpl; lia.
  - intros a b c.
    destruct (String.compare a b) eqn:ab; [| |lia].
    + apply String.compare_eq_iff in ab. subst b. trivial.
    + destruct (String.compare b c) eqn:bc; [| |lia].
      * apply String.compare_eq_iff in bc. subst c. rewrite ab. lia.
      * apply String_as_OT.cmp_lt in ab, bc.
        pose proof (String_as_OT.lt_trans _ _ _ ab bc) as ac.
        apply String_as_OT.cmp_lt in ac. unfold String_as_OT.cmp in ac. rewrite ac. lia.
Qed.

Lemma push_batches_are_deduped_and_sorted_witness :
  @DedupedSorted examplePlatform
    (@bootstrapCandidates examplePlatform ExamplesSync.localStore)
    (@collectBootstrapDocuments examplePlatform ExamplesSync.localStore).
Proof.
  apply (proj1 (@push_batches_are_deduped_and_sorted examplePlatform
                  codeUnitCompare_consistent ExamplesSync.localStore)).
Defined.

(** ** The sync orchestrator: calls, cursors and the state file *)

Section StateStore.
Context `{Platform} {B : Type} `{RemoteMemoryBackend B}.
Variable statePath : string.

Lemma assoc_assign_eq (k : string) (v : json) (fields : list (string * json)) :
  assoc k (assign k v fields) = Some v.
Proof.
  induction fields as [|[k' v'] rest IH]; simpl.
  - rewrite bool_decide_eq_true_2 by reflexivity. reflexivity.
  - destruct (bool_decide (k' = k)) eqn:hit; simpl.
    + rewrite bool_decide_eq_true_2 by reflexivity. reflexivity.
    + rewrite hit. exact IH.
Qed.

Lemma assoc_assign_ne (k k' : string) (v : json) (fields : list (string * json)) :
  k <> k' -> assoc k' (assign k v fields) = assoc k' fields.
Proof.
  intros ne. induction fields as [|[k0 v0] rest IH]; simpl.
  - rewrite bool_decide_eq_false_2 by exact ne. reflexivity.
  - destruct (bool_decide (k0 = k)) eqn:hit; simpl.
    + apply bool_decide_eq_true in hit. subst k0.
      rewrite !bool_decide_eq_false_2 by exact ne. reflexivity.
    + rewrite IH. reflexivity.
Qed.

(** A state file whose [targets] is an object has version 1. *)
Lemma loadStateFile_targets (fs : FileSystem) (targets : list (string * json)) :
  targetsOf (loadStateFile fs statePath) = Some targets ->
  exists fields,
    loadStateFile fs statePath = JObj fields
    /\ assoc "version" fields = Some (JNum 1)
    /\ assoc "targets" fields = Some (JObj targets).
Proof.
  unfold loadStateFile, loadStateFile_try.
  assert (empty : targetsOf emptyStateFile = Some targets ->
                  exists fields, emptyStateFile = JObj fields
                                 /\ assoc "version" fields = Some (JNum 1)
                                 /\ assoc "targets" fields = Some (JObj targets)).
  { intros [= <-]. eexists. split; [reflexivity|]. split; reflexivity. }
  destruct (fs !! statePath) as [[| |parsed]|]; try exact empty.
  destruct (getProperty parsed "version") as [version|e] eqn:get_version; [|exact empty].
  destruct (notStateVersion version) eqn:not_version; [exact empty|].
  destruct (getProperty parsed "targets") as [value|e]; [|exact empty].
  destruct (falsy value); [exact empty|].
  intros is_targets. destruct parsed as [| | | | |fields]; try discriminate.
  exists fields. split; [reflexivity|]. simpl in get_version. injection get_version as <-.
  split; [apply notStateVersion_false; exact not_version|].
  simpl in is_targets.
  destruct (assoc "targets" fields) as [[| | | | |t]|]; try discriminate.
  congruence.
Qed.

Lemma asTargetState_json (state : RemoteSyncTargetState) :
  asTargetState (targetStateJson state) = Some state.
Proof. destruct state. reflexivity. Qed.

(** What is written for this target is what is read back. *)
Lemma writeTargetState_read (fs : FileSystem) (old state : RemoteSyncTargetState) :
  readTargetState statePath fs = Ok old ->
  exists fs',
    writeTargetState statePath fs state = Ok fs'
    /\ readTargetState statePath fs' = Ok state.
Proof.
  unfold readTargetState, writeTargetState. intros readable.
  destruct (targetsOf (loadStateFile fs statePath)) as [targets|] eqn:is_targets;
    [|discriminate].
  destruct (loadStateFile_targets fs targets is_targets) as [fields [-> [version found]]].
  rewrite found. eexists. split; [reflexivity|].
  unfold saveStateFile, loadStateFile, loadStateFile_try.
  rewrite lookup_insert_eq. simpl.
  rewrite assoc_assign_ne by discriminate. rewrite version. simpl.
  rewrite assoc_assign_eq. simpl.
  rewrite !assoc_assign_eq. rewrite asTargetState_json. reflexivity.
Qed.

End StateStore.

Lemma hoare_bind {B A C : Type} (pre : World B -> Prop) (task : Task B A)
    (mid : A -> World B -> Prop) (k : A -> Task B C)
    (post : C -> World B -> Prop) (failed : World B -> Prop) :
  hoare pre task mid failed ->
  (forall x, hoare (mid x) (k x) post failed) ->
  hoare pre (bind task k) post failed.
Proof.
  intros first next w holds. unfold bind. specialize (first w holds).
  destruct (task w) as [[x|e] w']; [|exact first].
  apply (next x w' first).
Qed.

Lemma hoare_ret {B A : Type} (pre : World B -> Prop) (x : A)
    (post : A -> World B -> Prop) (failed : World B -> Prop) :
  (forall w, pre w -> post x w) -> hoare pre (ret x) post failed.
Proof. intros holds w p. simpl. apply holds. exact p. Qed.

Lemma hoare_weaken {B A : Type} (pre pre' : World B -> Prop) (task : Task B A)
    (post post' : A -> World B -> Prop) (failed : World B -> Prop) :
  hoare pre task post failed ->
  (forall w, pre' w -> pre w) ->
  (forall x w, post x w -> post' x w) ->
  hoare pre' task post' failed.
Proof.
  intros spec stronger weaker w holds. specialize (spec w (stronger w holds)).
  destruct (task w) as [[x|e] w']; [apply weaker|]; exact spec.
Qed.

Lemma fold_max_out (documents : list Doc.t) (a b : Z) :
  fold_left (fun maxEpoch document => Z.max maxEpoch (Doc.updatedAtEpoch document))
            documents (Z.max a b)
  = Z.max a (fold_left (fun maxEpoch document => Z.max maxEpoch (Doc.updatedAtEpoch document))
                       documents b).
Proof.
  revert a b. induction documents as [|d rest IH]; intros a b; simpl; [reflexivity|].
  rewrite <- Z.max_assoc. apply IH.
Qed.

Lemma getMaxUpdatedEpoch_cons (d : Doc.t) (rest : list Doc.t) :
  getMaxUpdatedEpoch (d :: rest)
  = Z.max (Doc.updatedAtEpoch d) (getMaxUpdatedEpoch rest).
Proof.
  unfold getMaxUpdatedEpoch. simpl. rewrite Z.max_comm. apply fold_max_out.
Qed.

Lemma getMaxUpdatedEpoch_ge (documents : list Doc.t) (d : Doc.t) :
  d ∈ documents -> Doc.updatedAtEpoch d <= getMaxUpdatedEpoch documents.
Proof.
  induction documents as [|x rest IH]; intros elem; [inversion elem|].
  rewrite getMaxUpdatedEpoch_cons.
  apply elem_of_cons in elem as [-> | elem]; [lia|].
  specialize (IH elem). lia.
Qed.

Lemma pushedBatches_app (first rest : list BackendCall) :
  pushedBatches (first ++ rest) = (pushedBatches first ++ pushedBatches rest)%list.
Proof. apply omap_app. Qed.

Lemma fetchedBatches_app (first rest : list BackendCall) :
  fetchedBatches (first ++ rest) = (fetchedBatches first ++ fetchedBatches rest)%list.
Proof. apply omap_app. Qed.

Lemma Covers_le (epoch epoch' : Z) (batches : list (list Doc.t)) :
  epoch <= epoch' -> Covers epoch batches -> Covers epoch' batches.
Proof.
  intros le covers documents d batch elem. specialize (covers documents d batch elem). lia.
Qed.

Lemma Covers_snoc (epoch : Z) (batches : list (list Doc.t)) (documents : list Doc.t) :
  Covers epoch batches -> getMaxUpdatedEpoch documents <= epoch ->
  Covers epoch (batches ++ [documents]).
Proof.
  intros covers le batch d elem member.
  apply elem_of_app in elem as [elem | elem]; [exact (covers batch d elem member)|].
  apply list_elem_of_singleton in elem. subst batch.
  pose proof (getMaxUpdatedEpoch_ge documents d member). lia.
Qed.

Section Cycle.
Context `{Platform} {B : Type} `{RemoteMemoryBackend B}.
Variable statePath : string.
(** The world in which the task starts, and the target state it finds. *)
Variable w0 : World B.
Variable p0 : RemoteSyncTargetState.

Local Abbreviation Progress := (Progress statePath w0 p0).
Local Abbreviation Running := (Running statePath w0 p0).
Local Abbreviation Interrupted := (Interrupted statePath w0 p0).
Local Abbreviation Completed := (Completed statePath w0 p0).

(** A call that is neither an accepted upsert nor a served fetch leaves the
    progress as it is. *)
Lemma Progress_call (cs : list BackendCall) (p : RemoteSyncTargetState) (w : World B)
    (b : B) (c : BackendCall) :
  pushedBatches [c] = [] -> fetchedBatches [c] = [] ->
  Progress cs p w ->
  Progress (cs ++ [c]) p
    (mkWorld (files w) (store w) b (calls w ++ [c]) (errorLog w)).
Proof.
  intros no_push no_fetch [st lg cl ps bt pl pu cv fl ft].
  split; simpl; try assumption.
  - rewrite cl, app_assoc. reflexivity.
  - rewrite pushedBatches_app, no_push, app_nil_r. exact cv.
  - rewrite pushedBatches_app, no_push, app_nil_r. exact fl.
  - rewrite fetchedBatches_app, no_fetch, ft. reflexivity.
Qed.

Lemma callInitialize_spec (P : RemoteSyncTargetState -> Prop) :
  hoare (Running P) callInitialize (fun _ => Running P) Interrupted.
Proof.
  intros w [cs [p [progress [ok holds]]]]. unfold callInitialize, logCall.
  destruct (backend_initialize (backend w)) as [[[]|e] b]; simpl.
  - exists (cs ++ [CallInitialize true])%list, p. split; [|split].
    + apply Progress_call; [reflexivity | reflexivity | exact progress].
    + apply Forall_app_2; [exact ok | repeat constructor].
    + exact holds.
  - exists cs, (CallInitialize false), p. split; [|split].
    + apply Progress_call; [reflexivity | reflexivity | exact progress].
    + exact ok.
    + reflexivity.
Qed.

Lemma loadTargetState_spec (P : RemoteSyncTargetState -> Prop) :
  hoare (Running P) (loadTargetState statePath)
        (fun state => Running (fun p => P p /\ state = p)) Interrupted.
Proof.
  intros w [cs [p [progress [ok holds]]]]. unfold loadTargetState.
  rewrite (progress_state _ _ _ _ _ _ progress).
  exists cs, p. split; [exact progress|]. split; [exact ok|]. split; [exact holds | reflexivity].
Qed.

Lemma getStore_spec (P : RemoteSyncTargetState -> Prop) :
  hoare (Running P) getStore (fun db w => db = store w0 /\ Running P w) Interrupted.
Proof.
  intros w running. simpl. split; [|exact running].
  destruct running as [cs [p [progress _]]]. apply (progress_store _ _ _ _ _ _ progress).
Qed.

Lemma pushDocuments_spec (P : RemoteSyncTargetState -> Prop) (documents : list Doc.t) :
  hoare (Running P) (pushDocuments statePath documents)
        (fun _ => Running (fun p' => exists p, P p /\ (p' = p \/ p' = raisePush p documents)))
        Interrupted.
Proof.
  intros w [cs [p [progress [ok holds]]]]. unfold pushDocuments.
  case_bool_decide as empty.
  - simpl. exists cs, p. split; [exact progress|]. split; [exact ok|].
    exists p. split; [exact holds | left; reflexivity].
  - unfold bind, callUpsertDocuments, logCall.
    destruct (upsertDocuments documents (backend w)) as [[[]|e] b]; simpl.
    + unfold loadTargetState, saveTargetState. simpl.
      rewrite (progress_state _ _ _ _ _ _ progress).
      destruct (writeTargetState_read statePath (files w) p (raisePush p documents)
                  (progress_state _ _ _ _ _ _ progress)) as [fs' [written read]].
      rewrite written.
      destruct progress as [st lg cl ps bt pl pu cv fl ft].
      exists (cs ++ [CallUpsert documents true])%list, (raisePush p documents).
      split; [|split].
      * split; simpl; try assumption.
        -- rewrite cl, app_assoc. reflexivity.
        -- lia.
        -- rewrite pushedBatches_app. simpl. apply Covers_snoc; [|lia].
           eapply Covers_le; [|exact cv]. lia.
        -- rewrite pushedBatches_app. simpl. intros impossible.
           apply app_eq_nil in impossible as [_ impossible]. discriminate.
        -- rewrite fetchedBatches_app, ft. reflexivity.
      * apply Forall_app_2; [exact ok | repeat constructor].
      * exists p. split; [exact holds | right; reflexivity].
    + exists cs, (CallUpsert documents false), p. split; [|split].
      * apply Progress_call; [reflexivity | reflexivity | exact progress].
      * exact ok.
      * reflexivity.
Qed.

Lemma Running_impl (P Q : RemoteSyncTargetState -> Prop) (w : World B) :
  (forall p, P p -> Q p) -> Running P w -> Running Q w.
Proof.
  intros sub [cs [p [progress [ok holds]]]]. exists cs, p.
  split; [exact progress|]. split; [exact ok|]. apply sub. exact holds.
Qed.

Lemma bootstrapPhase_spec (bootstrapLocal : bool) (state : RemoteSyncTargetState) :
  hoare (Running (fun p => state = p)) (bootstrapPhase statePath bootstrapLocal state)
        (fun state' => Running (Ahead bootstrapLocal state')) Interrupted.
Proof.
  unfold bootstrapPhase.
  destruct (bootstrapLocal && negb (bootstrapComplete state)) eqn:go.
  - eapply hoare_bind; [apply getStore_spec|]. intros db. simpl.
    eapply hoare_bind.
    + eapply hoare_weaken; [apply pushDocuments_spec | | intros x w post; exact post].
      intros w [_ running]. exact running.
    + intros u. apply hoare_ret. intros w. apply Running_impl.
      intros p' [p [<- cases]]. unfold Ahead. simpl.
      destruct cases as [-> | ->]; simpl; repeat split; try lia; trivial.
  - apply hoare_ret. intros w. apply Running_impl. intros p <-. unfold Ahead.
    split; [lia|]. split; [reflexivity|].
    intros [requested | complete]; [|exact complete].
    subst bootstrapLocal. simpl in go. apply negb_false_iff in go. exact go.
Qed.

Lemma incrementalPhase_spec (bootstrapLocal : bool) (state : RemoteSyncTargetState) :
  hoare (Running (Ahead bootstrapLocal state)) (incrementalPhase statePath state)
        (fun state' => Running (Ahead bootstrapLocal state')) Interrupted.
Proof.
  unfold incrementalPhase. cbv zeta.
  eapply hoare_bind; [apply getStore_spec|]. intros db. simpl.
  case_bool_decide as some.
  - eapply hoare_bind.
    + eapply hoare_weaken; [apply pushDocuments_spec | | intros x w post; exact post].
      intros w [_ running]. exact running.
    + intros u. apply hoare_ret. intros w. apply Running_impl.
      intros p' [p [[push [pull boot]] cases]]. unfold Ahead. simpl.
      destruct cases as [-> | ->]; simpl; repeat split; try lia; trivial.
  - apply hoare_ret. intros w [_ running]. exact running.
Qed.

Lemma importPhase_run (state : RemoteSyncTargetState) (documents : list Doc.t)
    (w : World B) :
  exists db,
    importPhase state documents w
    = (Ok (if bool_decide (0 < length documents)%nat
           then raisePull state documents else state),
       mkWorld (files w) db (backend w) (calls w) (errorLog w)).
Proof.
  unfold importPhase. case_bool_decide.
  - unfold bind, getStore. simpl.
    destruct (importRemoteDocuments (store w) documents) as [db' count]. simpl.
    exists db'. reflexivity.
  - exists (store w). destruct w. reflexivity.
Qed.

Lemma pullPhase_spec (bootstrapLocal : bool) (state : RemoteSyncTargetState) :
  hoare (Running (Ahead bootstrapLocal state))
        (bind (pullPhase state) (saveTargetState statePath))
        (fun _ => Completed bootstrapLocal) Interrupted.
Proof.
  intros w [cs [p [progress [ok [push [pull boot]]]]]].
  unfold pullPhase, bind, callFetchDocumentsUpdatedSince, logCall. cbv zeta.
  destruct (fetchDocumentsUpdatedSince _ (backend w)) as [[documents|e] b]; simpl.
  - match goal with
    | |- context [importPhase state documents ?w1] =>
        destruct (importPhase_run state documents w1) as [db' ->]
    end.
    set (final := if bool_decide (0 < length documents)%nat
                  then raisePull state documents else state).
    unfold saveTargetState. simpl.
    destruct (writeTargetState_read statePath (files w) p final
                (progress_state _ _ _ _ _ _ progress)) as [fs' [-> read]].
    destruct progress as [st lg cl ps bt pl pu cv fl ft].
    match goal with
    | |- Completed _ (mkWorld _ _ _ (_ ++ [?c]) _) => exists (cs ++ [c])%list, final
    end.
    simpl. split; [exact lg|]. split; [rewrite cl, app_assoc; reflexivity|].
    split; [apply Forall_app_2; [exact ok | repeat constructor]|].
    split; [exact read|].
    assert (same_push : lastLocalPushEpoch final = lastLocalPushEpoch state).
    { unfold final. case_bool_decide; reflexivity. }
    assert (same_boot : bootstrapComplete final = bootstrapComplete state).
    { unfold final. case_bool_decide; reflexivity. }
    split; [lia|]. split; [|split; [|split]].
    + unfold final. case_bool_decide; simpl; lia.
    + rewrite pushedBatches_app. simpl. rewrite app_nil_r.
      eapply Covers_le; [|exact cv]. lia.
    + rewrite fetchedBatches_app, ft. simpl.
      intros batch d elem member. apply list_elem_of_singleton in elem. subst batch.
      unfold final. rewrite bool_decide_eq_true_2.
      * simpl. pose proof (getMaxUpdatedEpoch_ge documents d member). lia.
      * destruct documents; [inversion member | simpl; lia].
    + rewrite same_boot. rewrite bt in boot. exact boot.
  - exists cs, (CallFetch (Z.max 0 (lastPullEpoch state - REMOTE_INCREMENTAL_OVERLAP_MS)) None), p.
    split; [|split].
    + apply Progress_call; [reflexivity | reflexivity | exact progress].
    + exact ok.
    + reflexivity.
Qed.

Lemma Progress_start : readTargetState statePath (files w0) = Ok p0 -> Progress [] p0 w0.
Proof.
  intros readable. split; try reflexivity; try lia.
  - rewrite app_nil_r. reflexivity.
  - exact readable.
  - intros documents d elem. inversion elem.
Qed.

(** A cycle ends completed or at the one call that failed. *)
Lemma performSynchronization_spec (bootstrapLocal : bool) :
  readTargetState statePath (files w0) = Ok p0 ->
  match performSynchronization statePath bootstrapLocal w0 with
  | (Ok _, w') => Completed bootstrapLocal w'
  | (Err _, w') => Interrupted w'
  end.
Proof.
  intros readable.
  assert (spec : hoare (Running (fun _ => True))
                       (performSynchronization statePath bootstrapLocal)
                       (fun _ => Completed bootstrapLocal) Interrupted).
  { unfold performSynchronization.
    eapply hoare_bind; [apply callInitialize_spec|]. intros u.
    eapply hoare_bind; [apply loadTargetState_spec|]. intros state.
    eapply hoare_bind.
    { eapply hoare_weaken; [apply bootstrapPhase_spec | | intros x w post; exact post].
      intros w. apply Running_impl. intros p [_ same]. exact same. }
    intros state1.
    eapply hoare_bind; [apply incrementalPhase_spec|]. intros state2.
    apply pullPhase_spec. }
  apply spec. exists [], p0. split; [apply Progress_start; exact readable|].
  split; [constructor | exact I].
Qed.

End Cycle.

Section Requests.
Context `{Platform} {B : Type} `{RemoteMemoryBackend B}.
Variable statePath : string.

Local Abbreviation NotBefore := (NotBefore statePath).

Lemma Running_NotBefore (w0 : World B) (p0 : RemoteSyncTargetState)
    (P : RemoteSyncTargetState -> Prop) (w : World B) :
  Running statePath w0 p0 P w -> NotBefore p0 w.
Proof.
  intros [cs [p [[st lg cl ps bt pl pu cv fl ft] _]]].
  exists p. split; [exact ps|]. lia.
Qed.

Lemma Interrupted_NotBefore (w0 : World B) (p0 : RemoteSyncTargetState) (w : World B) :
  Interrupted statePath w0 p0 w -> NotBefore p0 w.
Proof.
  intros [cs [c [p [[st lg cl ps bt pl pu cv fl ft] _]]]].
  exists p. split; [exact ps|]. lia.
Qed.

Lemma Completed_NotBefore (w0 : World B) (p0 : RemoteSyncTargetState)
    (bootstrapLocal : bool) (w : World B) :
  Completed statePath w0 p0 bootstrapLocal w -> NotBefore p0 w.
Proof.
  intros [cs [new [_ [_ [_ [read [push [pull _]]]]]]]].
  exists new. split; [exact read|]. lia.
Qed.

Lemma runLogged_files (message : string) (task : Task B unit) (w : World B) :
  files (runLogged message task w) = files (snd (task w)).
Proof. unfold runLogged. destruct (task w) as [[[]|e] w']; reflexivity. Qed.

Lemma NotBefore_files (old : RemoteSyncTargetState) (w w' : World B) :
  files w' = files w -> NotBefore old w -> NotBefore old w'.
Proof. intros same [new facts]. exists new. rewrite same. exact facts. Qed.

Lemma hoare_NotBefore (old : RemoteSyncTargetState) (w : World B) (task : Task B unit)
    (message : string) :
  readTargetState statePath (files w) = Ok old ->
  hoare (Running statePath w old (fun _ => True)) task
        (fun _ => Running statePath w old (fun _ => True)) (Interrupted statePath w old) ->
  NotBefore old (runLogged message task w).
Proof.
  intros readable spec. apply (NotBefore_files old (snd (task w)));
    [apply runLogged_files|].
  assert (start : Running statePath w old (fun _ => True) w).
  { exists [], old. split; [apply Progress_start; exact readable|].
    split; [constructor | exact I]. }
  specialize (spec w start). destruct (task w) as [[[]|e] w']; simpl.
  - eapply Running_NotBefore. exact spec.
  - eapply Interrupted_NotBefore. exact spec.
Qed.

Lemma cycle_NotBefore (old : RemoteSyncTargetState) (w : World B)
    (bootstrapLocal : bool) (message : string) :
  readTargetState statePath (files w) = Ok old ->
  NotBefore old (runLogged message (performSynchronization statePath bootstrapLocal) w).
Proof.
  intros readable.
  apply (NotBefore_files old (snd (performSynchronization statePath bootstrapLocal w)));
    [apply runLogged_files|].
  pose proof (performSynchronization_spec statePath w old bootstrapLocal readable) as spec.
  destruct (performSynchronization statePath bootstrapLocal w) as [[[]|e] w']; simpl.
  - eapply Completed_NotBefore. exact spec.
  - eapply Interrupted_NotBefore. exact spec.
Qed.

(** An event-driven task reads one row and pushes its documents. *)
Ltac push_task_spec :=
  eapply hoare_bind; [apply getStore_spec|]; intros db; simpl;
  match goal with
  | |- hoare _ (match ?row with _ => _ end) _ _ => destruct row
  end;
  [ eapply hoare_weaken;
    [ apply pushDocuments_spec
    | intros w [_ running]; exact running
    | intros u w; apply Running_impl; trivial ]
  | apply hoare_ret; intros w [_ running]; exact running ].

Lemma promptSyncTask_spec (w0 : World B) (p0 : RemoteSyncTargetState) (promptId : Z) :
  hoare (Running statePath w0 p0 (fun _ => True)) (promptSyncTask statePath promptId)
        (fun _ => Running statePath w0 p0 (fun _ => True)) (Interrupted statePath w0 p0).
Proof. unfold promptSyncTask. push_task_spec. Qed.

Lemma observationSyncTask_spec (w0 : World B) (p0 : RemoteSyncTargetState)
    (observationId : Z) :
  hoare (Running statePath w0 p0 (fun _ => True))
        (observationSyncTask statePath observationId)
        (fun _ => Running statePath w0 p0 (fun _ => True)) (Interrupted statePath w0 p0).
Proof. unfold observationSyncTask. push_task_spec. Qed.

Lemma summarySyncTask_spec (w0 : World B) (p0 : RemoteSyncTargetState) (summaryId : Z) :
  hoare (Running statePath w0 p0 (fun _ => True)) (summarySyncTask statePath summaryId)
        (fun _ => Running statePath w0 p0 (fun _ => True)) (Interrupted statePath w0 p0).
Proof. unfold summarySyncTask. push_task_spec. Qed.

Lemma serve_NotBefore (request : Request) (old : RemoteSyncTargetState) (w : World B) :
  readTargetState statePath (files w) = Ok old -> NotBefore old (serve statePath request w).
Proof.
  intros readable. destruct request as [| |promptId|observationId|summaryId]; simpl.
  - apply cycle_NotBefore. exact readable.
  - apply cycle_NotBefore. exact readable.
  - apply hoare_NotBefore; [exact readable | apply promptSyncTask_spec].
  - apply hoare_NotBefore; [exact readable | apply observationSyncTask_spec].
  - apply hoare_NotBefore; [exact readable | apply summarySyncTask_spec].
Qed.

Lemma serveAll_NotBefore (requests : list Request) (old : RemoteSyncTargetState)
    (w : World B) :
  readTargetState statePath (files w) = Ok old -> NotBefore old (serveAll statePath requests w).
Proof.
  revert old w. induction requests as [|request rest IH]; intros old w readable.
  - exists old. split; [exact readable|]. lia.
  - simpl. destruct (serve_NotBefore request old w readable) as [mid [read [push pull]]].
    destruct (IH mid (serve statePath request w) read) as [new [read' [push' pull']]].
    exists new. split; [exact read'|]. lia.
Qed.

Lemma completed_was_readable (bootstrapLocal : bool) (w w' : World B) :
  performSynchronization statePath bootstrapLocal w = (Ok tt, w') ->
  exists old, readTargetState statePath (files w) = Ok old.
Proof.
  destruct (readTargetState statePath (files w)) as [old|e] eqn:read;
    [intros _; exists old; reflexivity|].
  unfold performSynchronization, bind, callInitialize, logCall.
  destruct (backend_initialize (backend w)) as [[[]|e'] b]; [|discriminate].
  unfold loadTargetState. simpl. rewrite read. discriminate.
Qed.

End Requests.

(** C6.  After a cycle that completes, the persisted [lastLocalPushEpoch] is
    at least the [updatedAtEpoch] of every document of every batch pushed in
    the cycle, and the persisted [lastPullEpoch] at least that of every
    document fetched; and over any sequence of tasks of the queue (cycles,
    completed or not, and event-driven pushes) neither cursor decreases. *)
Theorem cursors_cover_documents_and_never_decrease
    `{Platform} {B : Type} `{RemoteMemoryBackend B} (statePath : string) (w : World B) :
  (forall bootstrapLocal w',
      performSynchronization statePath bootstrapLocal w = (Ok tt, w') ->
      exists cs new,
        calls w' = (calls w ++ cs)%list
        /\ readTargetState statePath (files w') = Ok new
        /\ Covers (lastLocalPushEpoch new) (pushedBatches cs)
        /\ Covers (lastPullEpoch new) (fetchedBatches cs))
  /\ (forall requests old,
         readTargetState statePath (files w) = Ok old ->
         exists new,
           readTargetState statePath (files (serveAll statePath requests w)) = Ok new
           /\ lastLocalPushEpoch old <= lastLocalPushEpoch new
           /\ lastPullEpoch old <= lastPullEpoch new).
Proof.
  split.
  - intros bootstrapLocal w' completed.
    destruct (completed_was_readable statePath bootstrapLocal w w' completed)
      as [old readable].
    pose proof (performSynchronization_spec statePath w old bootstrapLocal readable) as spec.
    rewrite completed in spec.
    destruct spec as [cs [new [_ [made [_ [read [_ [_ [pushed [fetched _]]]]]]]]]].
    exists cs, new. repeat split; assumption.
  - intros requests old readable. apply serveAll_NotBefore. exact readable.
Qed.

(** C1, as the code has it.  A cycle throws only at a backend call that
    failed.  It then leaves the local store, the persisted [bootstrapComplete]
    and the persisted [lastPullEpoch] as they were; the state file is
    unchanged when no push of the cycle had been accepted before the failure
    (so when [initialize] or the first push fails), and otherwise only
    [lastLocalPushEpoch] was raised, to cover the batches accepted.  A cycle
    in which no backend call fails completes, with both cursors at or after
    the old ones and covering what was pushed and fetched. *)
Theorem backend_failure_aborts_cycle
    `{Platform} {B : Type} `{RemoteMemoryBackend B}
    (statePath : string) (bootstrapLocal : bool) (w : World B)
    (old : RemoteSyncTargetState) :
  readTargetState statePath (files w) = Ok old ->
  (forall e w',
      performSynchronization statePath bootstrapLocal w = (Err e, w') ->
      store w' = store w
      /\ exists cs failed new,
           calls w' = (calls w ++ cs ++ [failed])%list
           /\ Forall (fun c => callOk c = true) cs
           /\ callOk failed = false
           /\ readTargetState statePath (files w') = Ok new
           /\ bootstrapComplete new = bootstrapComplete old
           /\ lastPullEpoch new = lastPullEpoch old
           /\ lastLocalPushEpoch old <= lastLocalPushEpoch new
           /\ Covers (lastLocalPushEpoch new) (pushedBatches cs)
           /\ (pushedBatches cs = [] -> files w' = files w))
  /\ (forall outcome w' cs,
         performSynchronization statePath bootstrapLocal w = (outcome, w') ->
         calls w' = (calls w ++ cs)%list ->
         Forall (fun c => callOk c = true) cs ->
         outcome = Ok tt
         /\ exists new,
              readTargetState statePath (files w') = Ok new
              /\ lastLocalPushEpoch old <= lastLocalPushEpoch new
              /\ lastPullEpoch old <= lastPullEpoch new
              /\ Covers (lastLocalPushEpoch new) (pushedBatches cs)
              /\ Covers (lastPullEpoch new) (fetchedBatches cs)
              /\ (bootstrapLocal = true -> bootstrapComplete new = true)).
Proof.
  intros readable.
  pose proof (performSynchronization_spec statePath w old bootstrapLocal readable) as spec.
  split.
  - intros e w' failed. rewrite failed in spec.
    destruct spec as [cs [c [new [[st lg cl ps bt pl pu cv fl ft] [ok bad]]]]].
    split; [exact st|]. exists cs, c, new.
    rewrite pushedBatches_app in cv, fl.
    assert (none : pushedBatches [c] = []).
    { destruct c as [|documents []|]; try reflexivity. discriminate. }
    rewrite none, app_nil_r in cv, fl.
    repeat split; assumption.
  - intros outcome w' cs run made ok. rewrite run in spec.
    destruct outcome as [[]|e].
    + split; [reflexivity|].
      destruct spec as [cs' [new [_ [made' [_ [read [push [pull [pushed [fetched boot]]]]]]]]]].
      rewrite made in made'. apply app_inv_head in made'. subst cs'.
      exists new. repeat split; try assumption. intros requested. apply boot. left. exact requested.
    + exfalso. destruct spec as [cs' [c [new [[st lg cl ps bt pl pu cv fl ft] [_ bad]]]]].
      rewrite made in cl. apply app_inv_head in cl. subst cs.
      apply Forall_app in ok as [_ ok]. apply Forall_cons in ok as [ok _]. congruence.
Qed.

Lemma backend_failure_aborts_cycle_witness :
  store (snd (ExamplesCycle.cycle true (ExamplesCycle.world [false; true])))
  = store (ExamplesCycle.world [false; true])
  /\ exists cs failed new,
       calls (snd (ExamplesCycle.cycle true (ExamplesCycle.world [false; true])))
       = (calls (ExamplesCycle.world [false; true]) ++ cs ++ [failed])%list
       /\ Forall (fun c => callOk c = true) cs
       /\ callOk failed = false
       /\ ExamplesCycle.persisted
            (snd (ExamplesCycle.cycle true (ExamplesCycle.world [false; true]))) = Ok new
       /\ bootstrapComplete new = bootstrapComplete initialTargetState
       /\ lastPullEpoch new = lastPullEpoch initialTargetState
       /\ lastLocalPushEpoch initialTargetState <= lastLocalPushEpoch new
       /\ Covers (lastLocalPushEpoch new) (pushedBatches cs)
       /\ (pushedBatches cs = [] ->
           files (snd (ExamplesCycle.cycle true (ExamplesCycle.world [false; true])))
           = files (ExamplesCycle.world [false; true])).
Proof.
  apply (proj1 (@backend_failure_aborts_cycle examplePlatform MemoryBackend
                  ExamplesCycle.target "state.json" true
                  (ExamplesCycle.world [false; true]) initialTargetState eq_refl)
               (BackendError "unavailable")).
  vm_compute. reflexivity.
Defined.

(** C1 as stated fails: [initialize] and the incremental push succeed and the
    fetch throws; the cycle aborts, and the persisted [lastLocalPushEpoch] has
    moved from 0 to 100. *)
Lemma failed_cycle_can_move_push_cursor :
  fst (ExamplesCycle.cycle false (ExamplesCycle.world [false; false; true]))
  = Err (BackendError "unavailable")
  /\ ExamplesCycle.persisted (ExamplesCycle.world [false; false; true])
     = Ok {| bootstrapComplete := false; lastLocalPushEpoch := 0; lastPullEpoch := 0 |}
  /\ ExamplesCycle.persisted
       (snd (ExamplesCycle.cycle false (ExamplesCycle.world [false; false; true])))
     = Ok {| bootstrapComplete := false; lastLocalPushEpoch := 100; lastPullEpoch := 0 |}.
Proof. repeat split; vm_compute; reflexivity. Qed.

Lemma cursors_cover_documents_and_never_decrease_witness :
  exists new,
    ExamplesCycle.persisted
      (@serveAll examplePlatform MemoryBackend ExamplesCycle.target "state.json"
                [Startup; PromptSync 1; FullSync] (ExamplesCycle.world [false; true]))
    = Ok new
    /\ lastLocalPushEpoch initialTargetState <= lastLocalPushEpoch new
    /\ lastPullEpoch initialTargetState <= lastPullEpoch new.
Proof.
  apply (proj2 (@cursors_cover_documents_and_never_decrease examplePlatform MemoryBackend
                  ExamplesCycle.target "state.json"
                  (ExamplesCycle.world [false; true]))).
  reflexivity.
Defined.

Section MissingRow.

Lemma getPromptById_missing (db : Database) (promptId : Z) :
  (forall r, r ∈ user_prompts db -> id r <> promptId) ->
  getPromptById db promptId = None.
Proof.
  intros missing. unfold getPromptById.
  replace (List.filter (fun up => bool_decide (id up = promptId)) (user_prompts db))
    with (@nil (Row UserPrompt.t)); [reflexivity|].
  symmetry. induction (user_prompts db) as [|r rows IH]; [reflexivity|]. simpl.
  rewrite bool_decide_eq_false_2 by (apply missing; apply list_elem_of_here).
  apply IH. intros r' elem. apply missing. apply list_elem_of_further. exact elem.
Qed.

Lemma find_by_id_missing {P : Type} (rows : list (Row P)) (rowId : Z) :
  (forall r, r ∈ rows -> id r <> rowId) ->
  find (fun r => bool_decide (id r = rowId)) rows = None.
Proof.
  intros missing. apply find_is_none. intros r elem.
  apply bool_decide_eq_false_2. apply missing. exact elem.
Qed.

End MissingRow.

(** C10.  Scheduling the sync of a prompt, an observation or a summary whose
    id is the id of no row of its table leaves the world as it is: no backend
    call is made, the state file is not written, and no error is raised or
    logged. *)
Theorem schedule_missing_row_is_noop
    `{Platform} {B : Type} `{RemoteMemoryBackend B}
    (statePath : string) (rowId : Z) (w : World B) :
  ((forall r, r ∈ user_prompts (store w) -> id r <> rowId) ->
   scheduleUserPromptSync statePath rowId w = w)
  /\ ((forall r, r ∈ observations (store w) -> id r <> rowId) ->
      scheduleObservationSync statePath rowId w = w)
  /\ ((forall r, r ∈ session_summaries (store w) -> id r <> rowId) ->
      scheduleSummarySync statePath rowId w = w).
Proof.
  repeat split; intros missing;
    unfold scheduleUserPromptSync, scheduleObservationSync, scheduleSummarySync,
      runLogged, promptSyncTask, observationSyncTask, summarySyncTask, bind, getStore,
      getObservationById, getSummaryById;
    rewrite ?(getPromptById_missing _ _ missing), ?(find_by_id_missing _ _ missing);
    reflexivity.
Qed.

Lemma schedule_missing_row_is_noop_witness :
  @scheduleUserPromptSync examplePlatform MemoryBackend ExamplesCycle.target
    "state.json" 42 (ExamplesCycle.world [true])
  = ExamplesCycle.world [true].
Proof.
  apply (proj1 (@schedule_missing_row_is_noop examplePlatform MemoryBackend
                  ExamplesCycle.target "state.json" 42 (ExamplesCycle.world [true]))).
  intros r elem. apply list_elem_of_singleton in elem. subst r. simpl. lia.
Defined.

(** * Further properties of the code *)

(** ** The importer: what an import leaves in place *)

Lemma SessionKept_refl (r : LocalSessionRow) : SessionKept r r.
Proof. split; auto; lia. Qed.

Lemma SessionKept_trans (a b c : LocalSessionRow) :
  SessionKept a b -> SessionKept b c -> SessionKept a c.
Proof.
  intros [i1 c1 s1 a1 e1 ca1 ce1 t1 m1 p1 u1] [i2 c2 s2 a2 e2 ca2 ce2 t2 m2 p2 u2].
  split; try congruence; try lia; auto.
  all: intros set.
  all: first [ rewrite a2; rewrite a1; auto | rewrite e2; rewrite e1; auto ].
Qed.

Lemma Forall2_SessionKept_refl (rows : list LocalSessionRow) :
  Forall2 SessionKept rows rows.
Proof. induction rows; constructor; auto using SessionKept_refl. Qed.

Lemma priorityOf_select (current incoming : string) :
  priorityOf current <= priorityOf (selectSessionStatus current incoming).
Proof.
  unfold selectSessionStatus.
  destruct (ge _ _) eqn:wins; [|lia].
  unfold priorityOf. unfold getNumber in wins.
  destruct (ownNumber current priority) as [x|];
    destruct (ownNumber incoming priority) as [y|];
    try destruct (Object_prototype current); try destruct (Object_prototype incoming);
    cbn [nullish_default fmap option_fmap option_map ge] in wins |- *;
    try discriminate; try apply bool_decide_eq_true in wins; lia.
Qed.

Lemma resolve_keeps_binding (db : Database) (session : Session.t)
    (existing : LocalSessionRow) :
  falsy_ostr (memoryOf existing) = false ->
  falsy_ostr (resolveImportedMemorySessionId db session (Some existing)) = false.
Proof.
  intros bound. unfold resolveImportedMemorySessionId.
  destruct (falsy_ostr (Session.memory_session_id session)) eqn:incoming;
    [exact bound|].
  destruct (find _ _); [exact bound | exact incoming].
Qed.

(** The row the UPDATE of [upsertSession] writes stands where the row found
    stood. *)
Lemma nextValues_kept (resolved : option string) (existing : LocalSessionRow)
    (session : Session.t) :
  (falsy_ostr (memoryOf existing) = false -> falsy_ostr resolved = false) ->
  SessionKept existing
    (mkRow (id existing)
       (setSessionColumns (nextValues resolved (data existing) session) (data existing))).
Proof.
  intros bound. destruct existing as [rowid old]. unfold memoryOf in bound. simpl in bound.
  split; unfold contentOf, memoryOf; simpl; auto.
  - apply priorityOf_select.
  - unfold or_str. case_bool_decide; congruence.
  - unfold or_num. case_bool_decide; congruence.
  - unfold nullish. destruct (Session.completed_at session); eauto.
  - unfold nullish. destruct (Session.completed_at_epoch session); eauto.
  - unfold nullish. destruct (Session.custom_title session); eauto.
  - unfold or_str. case_bool_decide; congruence.
  - unfold or_ostr. destruct (falsy_ostr (Session.user_prompt session)) eqn:e; congruence.
Qed.

Lemma SQL_update_kept (rows : list LocalSessionRow) (existing : LocalSessionRow)
    (next : Session.t) :
  NoDup (id <$> rows) -> existing ∈ rows ->
  SessionKept existing (mkRow (id existing) (setSessionColumns next (data existing))) ->
  Forall2 SessionKept rows (SQL_update_by_id rows (id existing) (setSessionColumns next)).
Proof.
  intros unique elem kept. unfold SQL_update_by_id.
  apply Forall2_fmap_r, Forall_Forall2_diag, Forall_forall. intros r member. unfold compose.
  destruct (bool_decide (id r = id existing)) eqn:same; [|apply SessionKept_refl].
  apply bool_decide_eq_true in same.
  assert (r = existing) as -> by (eapply same_rowid; eauto). exact kept.
Qed.

Lemma upsertSession_kept (db : Database) (session : Session.t) :
  NoDup (id <$> sdk_sessions db) ->
  exists kept added,
    sdk_sessions (fst (upsertSession db session)) = (kept ++ added)%list
    /\ Forall2 SessionKept (sdk_sessions db) kept.
Proof.
  intros unique. unfold upsertSession. cbv zeta.
  destruct (getSessionByContentSessionId db (Session.content_session_id session))
    as [existing|] eqn:found.
  - destruct (negb _).
    + exists (sdk_sessions db), []. rewrite app_nil_r. simpl.
      split; [reflexivity | apply Forall2_SessionKept_refl].
    + eexists. exists []. rewrite app_nil_r. simpl. split; [reflexivity|].
      apply find_some_elem in found as [elem _].
      apply SQL_update_kept; [exact unique | exact elem |].
      apply nextValues_kept, resolve_keeps_binding.
  - exists (sdk_sessions db). eexists. simpl. unfold SQL_insert.
    split; [reflexivity | apply Forall2_SessionKept_refl].
Qed.

Lemma importDocument_rowid (db : Database) (document : Doc.t) :
  NoDup (id <$> sdk_sessions db) ->
  NoDup (id <$> sdk_sessions (fst (importDocument db document))).
Proof.
  intros unique. unfold importDocument.
  destruct (Doc.payload document) as [s|p|o|s] eqn:payload.
  - apply upsertSession_rowid. exact unique.
  - unfold upsertPrompt. repeat (destruct (find _ _) || destruct (getSessionByContentSessionId _ _));
      exact unique.
  - unfold upsertObservation.
    destruct (getSessionByMemorySessionId _ _); [|exact unique].
    destruct (find _ _); exact unique.
  - unfold upsertSummary.
    destruct (getSessionByMemorySessionId _ _); [|exact unique].
    destruct (find _ _); exact unique.
Qed.

Lemma importDocument_kept (db : Database) (document : Doc.t) :
  NoDup (id <$> sdk_sessions db) ->
  exists kept added,
    sdk_sessions (fst (importDocument db document)) = (kept ++ added)%list
    /\ Forall2 SessionKept (sdk_sessions db) kept.
Proof.
  intros unique. unfold importDocument.
  destruct (Doc.payload document) as [s|p|o|s] eqn:payload.
  - apply upsertSession_kept. exact unique.
  - exists (sdk_sessions db), []. rewrite app_nil_r.
    split; [|apply Forall2_SessionKept_refl].
    unfold upsertPrompt.
    repeat (destruct (find _ _) || destruct (getSessionByContentSessionId _ _)); reflexivity.
  - exists (sdk_sessions db), []. rewrite app_nil_r.
    split; [|apply Forall2_SessionKept_refl].
    unfold upsertObservation.
    destruct (getSessionByMemorySessionId _ _); [|reflexivity].
    destruct (find _ _); reflexivity.
  - exists (sdk_sessions db), []. rewrite app_nil_r.
    split; [|apply Forall2_SessionKept_refl].
    unfold upsertSummary.
    destruct (getSessionByMemorySessionId _ _); [|reflexivity].
    destruct (find _ _); reflexivity.
Qed.

Lemma Forall2_SessionKept_trans (a b c : list LocalSessionRow) :
  Forall2 SessionKept a b -> Forall2 SessionKept b c -> Forall2 SessionKept a c.
Proof.
  intros ab. revert c. induction ab as [|x y a b xy ab IH]; intros c bc.
  - inversion bc. constructor.
  - inversion bc as [|y' z b' c' yz bc']; subst. constructor.
    + eapply SessionKept_trans; eauto.
    + apply IH. exact bc'.
Qed.

(** Rows kept, then rows kept again. *)
Lemma kept_step (rows rows1 rows2 kept1 added1 kept2 added2 : list LocalSessionRow) :
  rows1 = (kept1 ++ added1)%list -> Forall2 SessionKept rows kept1 ->
  rows2 = (kept2 ++ added2)%list -> Forall2 SessionKept rows1 kept2 ->
  exists kept added, rows2 = (kept ++ added)%list /\ Forall2 SessionKept rows kept.
Proof.
  intros -> first -> second.
  apply Forall2_app_inv_l in second as [k1 [k2 [second1 [second2 ->]]]].
  exists k1, (k2 ++ added2)%list. split; [rewrite app_assoc; reflexivity|].
  eapply Forall2_SessionKept_trans; eauto.
Qed.

Lemma importLoop_kept (documents : list Doc.t) (db : Database) (count : nat) :
  NoDup (id <$> sdk_sessions db) ->
  NoDup (id <$> sdk_sessions (fst (importLoop db count documents)))
  /\ exists kept added,
       sdk_sessions (fst (importLoop db count documents)) = (kept ++ added)%list
       /\ Forall2 SessionKept (sdk_sessions db) kept.
Proof.
  revert db count. induction documents as [|document rest IH]; intros db count unique.
  - simpl. split; [exact unique|]. exists (sdk_sessions db), []. rewrite app_nil_r.
    split; [reflexivity | apply Forall2_SessionKept_refl].
  - simpl. pose proof (importDocument_rowid db document unique) as unique1.
    destruct (importDocument_kept db document unique) as [kept1 [added1 [rows1 first]]].
    destruct (importDocument db document) as [db1 written]. simpl in *.
    destruct (IH db1 (count + (if written then 1 else 0))%nat unique1)
      as [unique2 [kept2 [added2 [rows2 second]]]].
    split; [exact unique2|].
    exact (kept_step _ _ _ _ _ _ _ rows1 first rows2 second).
Qed.

Lemma importAll_kept (batches : list (list Doc.t)) (db : Database) :
  NoDup (id <$> sdk_sessions db) ->
  exists kept added,
    sdk_sessions (importAll db batches) = (kept ++ added)%list
    /\ Forall2 SessionKept (sdk_sessions db) kept.
Proof.
  revert db. induction batches as [|batch rest IH]; intros db unique.
  - exists (sdk_sessions db), []. rewrite app_nil_r.
    split; [reflexivity | apply Forall2_SessionKept_refl].
  - simpl. unfold importRemoteDocuments.
    destruct (importLoop_kept (orderDocuments batch) db 0%nat unique)
      as [unique1 [kept1 [added1 [rows1 first]]]].
    destruct (IH _ unique1) as [kept2 [added2 [rows2 second]]].
    exact (kept_step _ _ _ _ _ _ _ rows1 first rows2 second).
Qed.

(** X1.  No import, of whatever batches, takes a session row away or sets one
    back: every session row is still there afterwards, at its place, with its
    row id and [content_session_id], a status of no lower priority, its
    [started_at] and [started_at_epoch] as they were once set, and its
    [memory_session_id], [project], [user_prompt], [custom_title],
    [completed_at] and [completed_at_epoch] still set when they were. *)
Theorem imports_never_set_sessions_back (db : Database) (batches : list (list Doc.t)) :
  NoDup (id <$> sdk_sessions db) ->
  exists kept added,
    sdk_sessions (importAll db batches) = (kept ++ added)%list
    /\ Forall2 SessionKept (sdk_sessions db) kept.
Proof. apply importAll_kept. Qed.

Lemma imports_never_set_sessions_back_witness :
  exists kept added,
    sdk_sessions (importAll Examples.oneSession [ExamplesImport.rebinding])
    = (kept ++ added)%list
    /\ Forall2 SessionKept (sdk_sessions Examples.oneSession) kept.
Proof.
  apply (imports_never_set_sessions_back Examples.oneSession [ExamplesImport.rebinding]).
  simpl. apply NoDup_singleton.
Defined.

Lemma Grown_refl (db : Database) : Grown db db.
Proof. split; reflexivity. Qed.

Lemma Grown_trans (db1 db2 db3 : Database) : Grown db1 db2 -> Grown db2 db3 -> Grown db1 db3.
Proof. intros [s1 p1 o1 m1] [s2 p2 o2 m2]. split; etransitivity; eauto. Qed.

Lemma sessionKey_update (rows : list LocalSessionRow) (rowid : Z) (next : Session.t) :
  sessionKey <$> SQL_update_by_id rows rowid (setSessionColumns next) = sessionKey <$> rows.
Proof.
  unfold SQL_update_by_id. rewrite <- list_fmap_compose. apply list_fmap_ext.
  intros i r _. unfold compose. destruct (bool_decide (id r = rowid)); reflexivity.
Qed.

Lemma rowCount_insert {P : Type} (rows : list (Row P)) (values : P) :
  length (SQL_insert rows values) = S (length rows).
Proof. unfold SQL_insert. rewrite length_app. simpl. lia. Qed.

Lemma length_update {P : Type} (rows : list (Row P)) (rowid : Z) (set : P -> P) :
  length (SQL_update_by_id rows rowid set) = length rows.
Proof. unfold SQL_update_by_id. apply length_fmap. Qed.

(** One document: the tables grow at the end, by one row at most, and only
    when the upsert says it wrote. *)
Lemma importDocument_grown (db : Database) (document : Doc.t) :
  Grown db (fst (importDocument db document))
  /\ (rowCount db <= rowCount (fst (importDocument db document))
      <= rowCount db + (if snd (importDocument db document) then 1 else 0))%nat.
Proof.
  unfold importDocument. destruct (Doc.payload document) as [s|p|o|s].
  - unfold upsertSession. cbv zeta.
    destruct (getSessionByContentSessionId db (Session.content_session_id s)) as [existing|].
    + destruct (negb _).
      * split; [apply Grown_refl | simpl; lia].
      * split.
        -- split; simpl; try reflexivity. rewrite sessionKey_update. reflexivity.
        -- unfold rowCount. simpl. rewrite length_update. lia.
    + split.
      * split; simpl; try reflexivity. unfold SQL_insert. rewrite fmap_app.
        apply prefix_app_r. reflexivity.
      * unfold rowCount. simpl. rewrite rowCount_insert. lia.
  - unfold upsertPrompt. destruct (find _ _); [split; [apply Grown_refl | simpl; lia]|].
    destruct (getSessionByContentSessionId _ _); [|split; [apply Grown_refl | simpl; lia]].
    split.
    + split; simpl; try reflexivity. unfold SQL_insert. apply prefix_app_r. reflexivity.
    + unfold rowCount. simpl. rewrite rowCount_insert. lia.
  - unfold upsertObservation.
    destruct (getSessionByMemorySessionId _ _); [|split; [apply Grown_refl | simpl; lia]].
    destruct (find _ _); [split; [apply Grown_refl | simpl; lia]|].
    split.
    + split; simpl; try reflexivity. unfold SQL_insert. apply prefix_app_r. reflexivity.
    + unfold rowCount. simpl. rewrite rowCount_insert. lia.
  - unfold upsertSummary.
    destruct (getSessionByMemorySessionId _ _); [|split; [apply Grown_refl | simpl; lia]].
    destruct (find _ _); [split; [apply Grown_refl | simpl; lia]|].
    split.
    + split; simpl; try reflexivity. unfold SQL_insert. apply prefix_app_r. reflexivity.
    + unfold rowCount. simpl. rewrite rowCount_insert. lia.
Qed.

Lemma importLoop_grown (documents : list Doc.t) (db : Database) (count : nat) :
  Grown db (fst (importLoop db count documents))
  /\ (count <= snd (importLoop db count documents) <= count + length documents)%nat
  /\ (rowCount db <= rowCount (fst (importLoop db count documents)))%nat
  /\ (rowCount (fst (importLoop db count documents)) + count
      <= rowCount db + snd (importLoop db count documents))%nat.
Proof.
  revert db count. induction documents as [|document rest IH]; intros db count.
  - simpl. split; [apply Grown_refl | lia].
  - simpl. destruct (importDocument_grown db document) as [grown1 rows1].
    destruct (importDocument db document) as [db1 written]. simpl in grown1, rows1.
    destruct (IH db1 (count + (if written then 1 else 0))%nat) as [grown2 [counts [low high]]].
    split; [eapply Grown_trans; eauto|]. destruct written; lia.
Qed.

Lemma length_orderDocuments (documents : list Doc.t) :
  length (orderDocuments documents) = length documents.
Proof.
  unfold orderDocuments, ofKind. rewrite !length_app.
  induction documents as [|document rest IH]; [reflexivity|]. simpl.
  destruct (Doc.kind document); simpl; lia.
Qed.

(** X2.  An import deletes nothing and rewrites no prompt, observation or
    summary: each of these tables is the old one with rows added at the end,
    and every session row keeps its row id and [content_session_id] at its
    place. The count returned is at most the number of documents, and the
    tables together gained at most that many rows. *)
Theorem import_only_appends (db : Database) (documents : list Doc.t) :
  let db' := fst (importRemoteDocuments db documents) in
  let importedCount := snd (importRemoteDocuments db documents) in
  Grown db db'
  /\ (importedCount <= length documents)%nat
  /\ (rowCount db <= rowCount db' <= rowCount db + importedCount)%nat.
Proof.
  cbv zeta. unfold importRemoteDocuments.
  destruct (importLoop_grown (orderDocuments documents) db 0) as [grown [counts [low high]]].
  rewrite length_orderDocuments in counts. split; [exact grown | lia].
Qed.

(** ** The importer: which prompts of a batch are stored *)

Lemma getSession_is_Some (db : Database) (c : string) :
  is_Some (getSessionByContentSessionId db c) <-> c ∈ contentOf <$> sdk_sessions db.
Proof.
  unfold getSessionByContentSessionId. split.
  - intros [row found]. apply find_some_elem in found as [elem same].
    apply bool_decide_eq_true in same. apply list_elem_of_fmap. exists row. auto.
  - intros elem. apply list_elem_of_fmap in elem as [row [-> elem]].
    destruct (find _ _) as [found|] eqn:none; [eauto|].
    pose proof (find_none_elem _ _ _ none elem) as no.
    apply bool_decide_eq_false in no. contradiction.
Qed.

Lemma contentOf_update (rows : list LocalSessionRow) (rowid : Z) (next : Session.t) :
  contentOf <$> SQL_update_by_id rows rowid (setSessionColumns next) = contentOf <$> rows.
Proof.
  unfold SQL_update_by_id. rewrite <- list_fmap_compose. apply list_fmap_ext.
  intros i r _. unfold compose. destruct (bool_decide (id r = rowid)); reflexivity.
Qed.

(** The sessions known after [upsertSession] are those known before and the
    one of the payload; no prompt is touched. *)
Lemma upsertSession_known (db : Database) (session : Session.t) (c : string) :
  user_prompts (fst (upsertSession db session)) = user_prompts db
  /\ (c ∈ contentOf <$> sdk_sessions (fst (upsertSession db session))
      <-> c ∈ contentOf <$> sdk_sessions db \/ c = Session.content_session_id session).
Proof.
  unfold upsertSession. cbv zeta.
  destruct (getSessionByContentSessionId db (Session.content_session_id session))
    as [existing|] eqn:found.
  - assert (known : Session.content_session_id session ∈ contentOf <$> sdk_sessions db).
    { apply getSession_is_Some. rewrite found. eauto. }
    destruct (negb _); simpl; (split; [reflexivity|]).
    + split; [auto | intros [?| ->]; auto].
    + rewrite contentOf_update. split; [auto | intros [?| ->]; auto].
  - simpl. split; [reflexivity|]. unfold SQL_insert. rewrite fmap_app, elem_of_app.
    simpl. rewrite list_elem_of_singleton. reflexivity.
Qed.

Lemma applySessions_known (sessions : list Session.t) (db : Database) (c : string) :
  user_prompts (applySessions db sessions) = user_prompts db
  /\ (c ∈ contentOf <$> sdk_sessions (applySessions db sessions)
      <-> c ∈ contentOf <$> sdk_sessions db
          \/ c ∈ Session.content_session_id <$> sessions).
Proof.
  revert db. induction sessions as [|session rest IH]; intros db.
  - simpl. split; [reflexivity|]. rewrite elem_of_nil. tauto.
  - simpl. destruct (IH (fst (upsertSession db session))) as [prompts known].
    destruct (upsertSession_known db session c) as [prompts1 known1].
    split; [congruence|]. rewrite known, known1, elem_of_cons. tauto.
Qed.

(** [upsertPrompt] stores the prompt when it is new and its session is known;
    no session is touched. *)
Lemma upsertPrompt_keys (db : Database) (prompt : Prompt.t) (k : string * Z) :
  sdk_sessions (fst (upsertPrompt db prompt)) = sdk_sessions db
  /\ (k ∈ promptKey <$> user_prompts (fst (upsertPrompt db prompt))
      <-> k ∈ promptKey <$> user_prompts db
          \/ (k = promptIdentity prompt
              /\ Prompt.content_session_id prompt ∈ contentOf <$> sdk_sessions db)).
Proof.
  unfold upsertPrompt.
  destruct (find _ (user_prompts db)) as [existing|] eqn:found.
  - simpl. split; [reflexivity|]. split; [auto|]. intros [?|[-> known]]; [assumption|].
    apply find_some_elem in found as [elem same].
    apply andb_true_iff in same as [same1 same2].
    apply bool_decide_eq_true in same1, same2.
    apply list_elem_of_fmap. exists existing. split; [|exact elem].
    unfold promptIdentity, promptKey. congruence.
  - destruct (getSessionByContentSessionId db (Prompt.content_session_id prompt))
      as [row|] eqn:session.
    + assert (known : Prompt.content_session_id prompt ∈ contentOf <$> sdk_sessions db).
      { apply getSession_is_Some. rewrite session. eauto. }
      simpl. split; [reflexivity|]. unfold SQL_insert.
      rewrite fmap_app, elem_of_app. simpl. rewrite list_elem_of_singleton.
      unfold promptKey at 2. simpl. unfold promptIdentity. tauto.
    + simpl. split; [reflexivity|]. split; [auto|]. intros [?|[_ known]]; [assumption|].
      apply getSession_is_Some in known. rewrite session in known.
      destruct known as [? impossible]. discriminate.
Qed.

Lemma importLoop_prompts (documents : list Doc.t) (db : Database) (k : string * Z) :
  Forall (fun document => Doc.kind document = KPrompt) documents ->
  sdk_sessions (fst (importLoop db 0 documents)) = sdk_sessions db
  /\ (k ∈ promptKey <$> user_prompts (fst (importLoop db 0 documents))
      <-> k ∈ promptKey <$> user_prompts db
          \/ exists prompt, prompt ∈ promptsOf documents
                            /\ k = promptIdentity prompt
                            /\ Prompt.content_session_id prompt
                               ∈ contentOf <$> sdk_sessions db).
Proof.
  intros kinds. revert db. induction kinds as [|document rest kind kinds IH]; intros db.
  - simpl. split; [reflexivity|]. split; [auto|].
    intros [?|[prompt [elem _]]]; [assumption|]. apply elem_of_nil in elem. contradiction.
  - rewrite importLoop_cons. unfold importDocument, promptsOf. unfold Doc.kind in kind.
    rewrite omap_cons_match.
    destruct (Doc.payload document) as [s|p|o|s]; try discriminate.
    destruct (upsertPrompt_keys db p k) as [sessions1 keys1].
    destruct (IH (fst (upsertPrompt db p))) as [sessions2 keys2].
    split; [congruence|]. rewrite keys2, keys1, sessions1. fold (promptsOf rest).
    split.
    + intros [[?|[-> known]]|[prompt [elem facts]]]; [auto| |].
      * right. exists p. split; [apply elem_of_cons; auto | auto].
      * right. exists prompt. split; [apply elem_of_cons; auto | auto].
    + intros [?|[prompt [elem [-> known]]]]; [auto|].
      apply elem_of_cons in elem as [->|elem]; [auto|].
      right. exists prompt. auto.
Qed.

(** Observations and summaries leave sessions and prompts alone. *)
Lemma importLoop_leaves_prompts (documents : list Doc.t) (db : Database) :
  Forall (fun document => Doc.kind document = KObservation
                          \/ Doc.kind document = KSummary) documents ->
  sdk_sessions (fst (importLoop db 0 documents)) = sdk_sessions db
  /\ user_prompts (fst (importLoop db 0 documents)) = user_prompts db.
Proof.
  intros kinds. revert db. induction kinds as [|document rest kind kinds IH]; intros db.
  - simpl. auto.
  - rewrite importLoop_cons. destruct (IH (fst (importDocument db document))) as [-> ->].
    unfold importDocument. unfold Doc.kind in kind.
    destruct (Doc.payload document) as [s|p|o|s];
      try (destruct kind; discriminate).
    + unfold upsertObservation. destruct (getSessionByMemorySessionId _ _); [|auto].
      destruct (find _ _); auto.
    + unfold upsertSummary. destruct (getSessionByMemorySessionId _ _); [|auto].
      destruct (find _ _); auto.
Qed.

Lemma promptsOf_ofKind (documents : list Doc.t) :
  promptsOf (ofKind KPrompt documents) = promptsOf documents.
Proof.
  unfold promptsOf, ofKind. induction documents as [|document rest IH]; [reflexivity|].
  simpl List.filter.
  destruct (bool_decide (Doc.kind document = KPrompt)) eqn:kind.
  - rewrite !omap_cons_match, IH. reflexivity.
  - apply bool_decide_eq_false in kind. rewrite omap_cons_match, IH.
    destruct (Doc.payload document) eqn:payload; try reflexivity.
    exfalso. apply kind. unfold Doc.kind. rewrite payload. reflexivity.
Qed.

(** X3.  After an import the prompts stored are those stored before and, of the
    batch, those whose session is known: it has a local row, or a session
    document of the same batch brings it, wherever in the batch that document
    stands. A prompt whose session is unknown is left out. *)
Theorem import_stores_prompts_of_known_sessions
    (db : Database) (documents : list Doc.t) (k : string * Z) :
  k ∈ promptKey <$> user_prompts (fst (importRemoteDocuments db documents))
  <-> k ∈ promptKey <$> user_prompts db
      \/ exists prompt,
           prompt ∈ promptsOf documents
           /\ k = promptIdentity prompt
           /\ (Prompt.content_session_id prompt ∈ contentOf <$> sdk_sessions db
               \/ Prompt.content_session_id prompt
                  ∈ Session.content_session_id <$> sessionsOf documents).
Proof.
  unfold importRemoteDocuments, orderDocuments.
  rewrite importLoop_app, importLoop_app.
  rewrite (importLoop_sessions (ofKind KSession documents)) by apply ofKind_kind.
  rewrite sessionsOf_ofKind.
  set (db1 := applySessions db (sessionsOf documents)).
  set (db2 := fst (importLoop db1 0 (ofKind KPrompt documents))).
  assert (others : Forall (fun document => Doc.kind document = KObservation
                                           \/ Doc.kind document = KSummary)
                          (ofKind KObservation documents ++ ofKind KSummary documents)).
  { apply Forall_app. split.
    - eapply Forall_impl; [apply ofKind_kind|]. simpl. auto.
    - eapply Forall_impl; [apply ofKind_kind|]. simpl. auto. }
  destruct (importLoop_leaves_prompts _ db2 others) as [_ ->].
  destruct (importLoop_prompts (ofKind KPrompt documents) db1 k (ofKind_kind _ _))
    as [_ keys].
  fold db2 in keys. rewrite keys, promptsOf_ofKind.
  destruct (applySessions_known (sessionsOf documents) db
              "") as [prompts _].
  fold db1 in prompts. rewrite prompts.
  split.
  - intros [?|[prompt [elem [-> known]]]]; [auto|].
    right. exists prompt. split; [exact elem|]. split; [reflexivity|].
    apply (applySessions_known (sessionsOf documents) db). exact known.
  - intros [?|[prompt [elem [-> known]]]]; [auto|].
    right. exists prompt. split; [exact elem|]. split; [reflexivity|].
    apply (applySessions_known (sessionsOf documents) db). exact known.
Qed.

(** ** The importer: which observations and summaries of a batch are stored *)

Lemma sameObservation_key (o : Observation.t) (r : LocalObservationRow) :
  sameObservation o r = true <-> observationKey (data r) = observationKey o.
Proof.
  unfold sameObservation, observationKey. rewrite !andb_true_iff, !bool_decide_eq_true.
  split; [intros [[[[-> ->] ->] ->] ->]; reflexivity | intros [= -> -> -> -> ->]; auto].
Qed.

Lemma sameSummary_key (s : Summary.t) (r : LocalSummaryRow) :
  sameSummary s r = true <-> summaryKey (data r) = summaryKey s.
Proof.
  unfold sameSummary, summaryKey. rewrite !andb_true_iff, !bool_decide_eq_true.
  split; [intros [[-> ->] ->]; reflexivity | intros [= -> -> ->]; auto].
Qed.

Lemma getSessionByMemory_same (db db' : Database) (m : string) :
  sdk_sessions db' = sdk_sessions db ->
  getSessionByMemorySessionId db' m = getSessionByMemorySessionId db m.
Proof. intros same. unfold getSessionByMemorySessionId. rewrite same. reflexivity. Qed.

(** [upsertObservation] stores the observation when it is new and a session
    holds its [memory_session_id]; nothing else is touched. *)
Lemma upsertObservation_keys (db : Database) (o : Observation.t)
    (k : string * Z * string * string * string) :
  sdk_sessions (fst (upsertObservation db o)) = sdk_sessions db
  /\ session_summaries (fst (upsertObservation db o)) = session_summaries db
  /\ (k ∈ (observationKey ∘ data) <$> observations (fst (upsertObservation db o))
      <-> k ∈ (observationKey ∘ data) <$> observations db
          \/ (k = observationKey o
              /\ is_Some (getSessionByMemorySessionId db (Observation.memory_session_id o)))).
Proof.
  unfold upsertObservation.
  destruct (getSessionByMemorySessionId db (Observation.memory_session_id o)) as [session|].
  - destruct (find (sameObservation o) (observations db)) as [existing|] eqn:found.
    + simpl. split; [reflexivity|]. split; [reflexivity|]. split; [auto|].
      intros [?|[-> _]]; [assumption|].
      apply find_some_elem in found as [elem same]. apply sameObservation_key in same.
      apply list_elem_of_fmap. exists existing. split; [symmetry; exact same | exact elem].
    + simpl. split; [reflexivity|]. split; [reflexivity|]. unfold SQL_insert.
      rewrite fmap_app, elem_of_app. simpl. rewrite list_elem_of_singleton.
      unfold observationKey at 2. simpl. unfold observationKey at 3. split.
      * intros [?| ->]; [auto | right; eauto].
      * intros [?|[-> _]]; auto.
  - simpl. split; [reflexivity|]. split; [reflexivity|]. split; [auto|].
    intros [?|[_ [? impossible]]]; [assumption | discriminate].
Qed.

Lemma upsertSummary_keys (db : Database) (s : Summary.t) (k : string * Z * Z) :
  sdk_sessions (fst (upsertSummary db s)) = sdk_sessions db
  /\ observations (fst (upsertSummary db s)) = observations db
  /\ (k ∈ (summaryKey ∘ data) <$> session_summaries (fst (upsertSummary db s))
      <-> k ∈ (summaryKey ∘ data) <$> session_summaries db
          \/ (k = summaryKey s
              /\ is_Some (getSessionByMemorySessionId db (Summary.memory_session_id s)))).
Proof.
  unfold upsertSummary.
  destruct (getSessionByMemorySessionId db (Summary.memory_session_id s)) as [session|].
  - destruct (find (sameSummary s) (session_summaries db)) as [existing|] eqn:found.
    + simpl. split; [reflexivity|]. split; [reflexivity|]. split; [auto|].
      intros [?|[-> _]]; [assumption|].
      apply find_some_elem in found as [elem same]. apply sameSummary_key in same.
      apply list_elem_of_fmap. exists existing. split; [symmetry; exact same | exact elem].
    + simpl. split; [reflexivity|]. split; [reflexivity|]. unfold SQL_insert.
      rewrite fmap_app, elem_of_app. simpl. rewrite list_elem_of_singleton.
      unfold summaryKey at 2. simpl. unfold summaryKey at 3. split.
      * intros [?| ->]; [auto | right; eauto].
      * intros [?|[-> _]]; auto.
  - simpl. split; [reflexivity|]. split; [reflexivity|]. split; [auto|].
    intros [?|[_ [? impossible]]]; [assumption | discriminate].
Qed.

Lemma importLoop_observations (documents : list Doc.t) (db : Database)
    (k : string * Z * string * string * string) :
  Forall (fun document => Doc.kind document = KObservation) documents ->
  sdk_sessions (fst (importLoop db 0 documents)) = sdk_sessions db
  /\ session_summaries (fst (importLoop db 0 documents)) = session_summaries db
  /\ (k ∈ (observationKey ∘ data) <$> observations (fst (importLoop db 0 documents))
      <-> k ∈ (observationKey ∘ data) <$> observations db
          \/ exists o, o ∈ observationsOf documents
                       /\ k = observationKey o
                       /\ is_Some (getSessionByMemorySessionId db
                                     (Observation.memory_session_id o))).
Proof.
  intros kinds. revert db. induction kinds as [|document rest kind kinds IH]; intros db.
  - simpl. split; [reflexivity|]. split; [reflexivity|]. split; [auto|].
    intros [?|[o [elem _]]]; [assumption|]. apply elem_of_nil in elem. contradiction.
  - rewrite importLoop_cons. unfold importDocument, observationsOf. unfold Doc.kind in kind.
    rewrite omap_cons_match.
    destruct (Doc.payload document) as [s|p|o|s]; try discriminate.
    destruct (upsertObservation_keys db o k) as [sessions1 [summaries1 keys1]].
    destruct (IH (fst (upsertObservation db o))) as [sessions2 [summaries2 keys2]].
    split; [congruence|]. split; [congruence|].
    rewrite keys2, keys1. fold (observationsOf rest).
    split.
    + intros [[?|[-> bound]]|[o' [elem [-> bound]]]]; [auto| |].
      * right. exists o. split; [apply elem_of_cons; auto | auto].
      * right. exists o'. split; [apply elem_of_cons; auto|]. split; [reflexivity|].
        rewrite <- (getSessionByMemory_same db _ _ sessions1). exact bound.
    + intros [?|[o' [elem [-> bound]]]]; [auto|].
      apply elem_of_cons in elem as [->|elem]; [auto|].
      right. exists o'. split; [exact elem|]. split; [reflexivity|].
      rewrite (getSessionByMemory_same db _ _ sessions1). exact bound.
Qed.

Lemma importLoop_summaries (documents : list Doc.t) (db : Database) (k : string * Z * Z) :
  Forall (fun document => Doc.kind document = KSummary) documents ->
  sdk_sessions (fst (importLoop db 0 documents)) = sdk_sessions db
  /\ observations (fst (importLoop db 0 documents)) = observations db
  /\ (k ∈ (summaryKey ∘ data) <$> session_summaries (fst (importLoop db 0 documents))
      <-> k ∈ (summaryKey ∘ data) <$> session_summaries db
          \/ exists s, s ∈ summariesOf documents
                       /\ k = summaryKey s
                       /\ is_Some (getSessionByMemorySessionId db
                                     (Summary.memory_session_id s))).
Proof.
  intros kinds. revert db. induction kinds as [|document rest kind kinds IH]; intros db.
  - simpl. split; [reflexivity|]. split; [reflexivity|]. split; [auto|].
    intros [?|[s [elem _]]]; [assumption|]. apply elem_of_nil in elem. contradiction.
  - rewrite importLoop_cons. unfold importDocument, summariesOf. unfold Doc.kind in kind.
    rewrite omap_cons_match.
    destruct (Doc.payload document) as [s0|p|o|s]; try discriminate.
    destruct (upsertSummary_keys db s k) as [sessions1 [observations1 keys1]].
    destruct (IH (fst (upsertSummary db s))) as [sessions2 [observations2 keys2]].
    split; [congruence|]. split; [congruence|].
    rewrite keys2, keys1. fold (summariesOf rest).
    split.
    + intros [[?|[-> bound]]|[s' [elem [-> bound]]]]; [auto| |].
      * right. exists s. split; [apply elem_of_cons; auto | auto].
      * right. exists s'. split; [apply elem_of_cons; auto|]. split; [reflexivity|].
        rewrite <- (getSessionByMemory_same db _ _ sessions1). exact bound.
    + intros [?|[s' [elem [-> bound]]]]; [auto|].
      apply elem_of_cons in elem as [->|elem]; [auto|].
      right. exists s'. split; [exact elem|]. split; [reflexivity|].
      rewrite (getSessionByMemory_same db _ _ sessions1). exact bound.
Qed.

(** Sessions and prompts leave observations and summaries alone. *)
Lemma importLoop_leaves_rows (documents : list Doc.t) (db : Database) :
  Forall (fun document => Doc.kind document = KSession
                          \/ Doc.kind document = KPrompt) documents ->
  observations (fst (importLoop db 0 documents)) = observations db
  /\ session_summaries (fst (importLoop db 0 documents)) = session_summaries db.
Proof.
  intros kinds. revert db. induction kinds as [|document rest kind kinds IH]; intros db.
  - simpl. auto.
  - rewrite importLoop_cons. destruct (IH (fst (importDocument db document))) as [-> ->].
    unfold importDocument. unfold Doc.kind in kind.
    destruct (Doc.payload document) as [s|p|o|s];
      try (destruct kind; discriminate).
    + unfold upsertSession. cbv zeta. destruct (getSessionByContentSessionId _ _); [|auto].
      destruct (negb _); auto.
    + unfold upsertPrompt. destruct (find _ _); [auto|].
      destruct (getSessionByContentSessionId _ _); auto.
Qed.

Lemma observationsOf_ofKind (documents : list Doc.t) :
  observationsOf (ofKind KObservation documents) = observationsOf documents.
Proof.
  unfold observationsOf, ofKind. induction documents as [|document rest IH]; [reflexivity|].
  simpl List.filter.
  destruct (bool_decide (Doc.kind document = KObservation)) eqn:kind.
  - rewrite !omap_cons_match, IH. reflexivity.
  - apply bool_decide_eq_false in kind. rewrite omap_cons_match, IH.
    destruct (Doc.payload document) eqn:payload; try reflexivity.
    exfalso. apply kind. unfold Doc.kind. rewrite payload. reflexivity.
Qed.

Lemma summariesOf_ofKind (documents : list Doc.t) :
  summariesOf (ofKind KSummary documents) = summariesOf documents.
Proof.
  unfold summariesOf, ofKind. induction documents as [|document rest IH]; [reflexivity|].
  simpl List.filter.
  destruct (bool_decide (Doc.kind document = KSummary)) eqn:kind.
  - rewrite !omap_cons_match, IH. reflexivity.
  - apply bool_decide_eq_false in kind. rewrite omap_cons_match, IH.
    destruct (Doc.payload document) eqn:payload; try reflexivity.
    exfalso. apply kind. unfold Doc.kind. rewrite payload. reflexivity.
Qed.

(** X24.  After an import the observations stored, told apart as the importer
    tells them, are those stored before and, of the batch, those whose
    [memory_session_id] a session holds once the sessions of the batch are in;
    the same goes for summaries. An observation or summary of a session
    without that binding is left out, and one that matches a stored row on
    the compared columns is not stored again. *)
Theorem import_stores_rows_of_bound_sessions (db : Database) (documents : list Doc.t) :
  let db' := fst (importRemoteDocuments db documents) in
  (forall k,
     k ∈ (observationKey ∘ data) <$> observations db'
     <-> k ∈ (observationKey ∘ data) <$> observations db
         \/ exists o, o ∈ observationsOf documents
                      /\ k = observationKey o
                      /\ is_Some (getSessionByMemorySessionId db'
                                    (Observation.memory_session_id o)))
  /\ (forall k,
        k ∈ (summaryKey ∘ data) <$> session_summaries db'
        <-> k ∈ (summaryKey ∘ data) <$> session_summaries db
            \/ exists s, s ∈ summariesOf documents
                         /\ k = summaryKey s
                         /\ is_Some (getSessionByMemorySessionId db'
                                       (Summary.memory_session_id s))).
Proof.
  cbv zeta. unfold importRemoteDocuments, orderDocuments.
  rewrite app_assoc, importLoop_app, importLoop_app.
  set (db2 := fst (importLoop db 0 (ofKind KSession documents ++ ofKind KPrompt documents))).
  set (db3 := fst (importLoop db2 0 (ofKind KObservation documents))).
  set (db4 := fst (importLoop db3 0 (ofKind KSummary documents))).
  assert (early : Forall (fun document => Doc.kind document = KSession
                                          \/ Doc.kind document = KPrompt)
                         (ofKind KSession documents ++ ofKind KPrompt documents)).
  { apply Forall_app. split.
    - eapply Forall_impl; [apply ofKind_kind|]. simpl. auto.
    - eapply Forall_impl; [apply ofKind_kind|]. simpl. auto. }
  destruct (importLoop_leaves_rows _ db early) as [observations2 summaries2].
  fold db2 in observations2, summaries2.
  assert (sessions3 : sdk_sessions db3 = sdk_sessions db2).
  { apply (importLoop_observations _ db2 ("", 0, "", "", "") (ofKind_kind _ _)). }
  assert (sessions4 : sdk_sessions db4 = sdk_sessions db3).
  { apply (importLoop_summaries _ db3 ("", 0, 0) (ofKind_kind _ _)). }
  split; intros k.
  - destruct (importLoop_observations _ db2 k (ofKind_kind KObservation documents))
      as [_ [_ keys]].
    fold db3 in keys.
    destruct (importLoop_summaries _ db3 ("", 0, 0) (ofKind_kind KSummary documents))
      as [_ [same _]].
    fold db4 in same. rewrite same, keys, observations2, observationsOf_ofKind.
    split; (intros [?|[o [elem [-> bound]]]]; [auto|]); right; exists o;
      (split; [exact elem|]); (split; [reflexivity|]).
    + rewrite (getSessionByMemory_same db2 db4) by congruence. exact bound.
    + rewrite <- (getSessionByMemory_same db2 db4) by congruence. exact bound.
  - destruct (importLoop_summaries _ db3 k (ofKind_kind KSummary documents))
      as [_ [_ keys]].
    fold db4 in keys.
    destruct (importLoop_observations _ db2 ("", 0, "", "", "")
                (ofKind_kind KObservation documents)) as [_ [same _]].
    fold db3 in same. rewrite keys, same, summaries2, summariesOf_ofKind.
    split; (intros [?|[s [elem [-> bound]]]]; [auto|]); right; exists s;
      (split; [exact elem|]); (split; [reflexivity|]).
    + rewrite (getSessionByMemory_same db3 db4) by congruence. exact bound.
    + rewrite <- (getSessionByMemory_same db3 db4) by congruence. exact bound.
Qed.

(** ** Push batches: what the collectors leave out and what they keep *)

Section Collecting.
Context `{Platform}.

(** Sorting keeps the documents of the map; no property of the collation is
    needed for that. *)
Lemma sortDocuments_represents (added : list Doc.t) (documents : DocumentMap) :
  Collected added documents -> Represents added (sortDocuments documents).
Proof.
  intros collected. apply Collected_values in collected as [_ [from all]].
  unfold sortDocuments.
  set (leb := fun left right => bool_decide (compareDocuments left right <= 0)).
  split.
  - intros d elem. rewrite (stableSort_perm leb) in elem. apply from. exact elem.
  - intros d elem. destruct (all d elem) as [kept [elem_k rest]].
    exists kept. split; [|exact rest]. rewrite (stableSort_perm leb). exact elem_k.
Qed.

Lemma addDocuments_represents (added : list Doc.t) :
  Represents added (sortDocuments (addDocuments [] added)).
Proof.
  apply sortDocuments_represents.
  apply (addDocuments_collected added [] []). apply Collected_nil.
Qed.

Lemma collectPromptDocuments_represents (db : Database) (prompts : list LocalPromptRow) :
  Represents (flat_map (promptDocuments db) prompts) (collectPromptDocuments db prompts).
Proof.
  unfold collectPromptDocuments, addDocuments.
  rewrite (fold_left_flat_map addDocument (promptDocuments db)).
  apply addDocuments_represents.
Qed.

Lemma collectObservationDocuments_represents
    (db : Database) (observations : list LocalObservationRow) :
  Represents (flat_map (observationDocuments db) observations)
             (collectObservationDocuments db observations).
Proof.
  unfold collectObservationDocuments, addDocuments.
  rewrite (fold_left_flat_map addDocument (observationDocuments db)).
  apply addDocuments_represents.
Qed.

Lemma collectSummaryDocuments_represents (db : Database) (summaries : list LocalSummaryRow) :
  Represents (flat_map (summaryDocuments db) summaries)
             (collectSummaryDocuments db summaries).
Proof.
  unfold collectSummaryDocuments, addDocuments.
  rewrite (fold_left_flat_map addDocument (summaryDocuments db)).
  apply addDocuments_represents.
Qed.

Lemma one_row_represents {A : Type} (f : A -> list Doc.t) (collect : list A -> list Doc.t) :
  (forall l, Represents (flat_map f l) (collect l)) ->
  forall x, Represents (f x) (collect [x]).
Proof.
  intros represents x. specialize (represents [x]).
  simpl in represents. rewrite app_nil_r in represents. exact represents.
Qed.

Lemma collectBootstrapDocuments_represents (db : Database) :
  Represents (bootstrapCandidates db) (collectBootstrapDocuments db).
Proof.
  unfold collectBootstrapDocuments, addPromptRows, addObservationRows, addSummaryRows.
  cbv zeta.
  rewrite (fold_left_fmap (fun session => buildSessionDocument session None)).
  unfold addDocuments.
  rewrite (fold_left_flat_map addDocument (fun p => collectPromptDocuments db [p])).
  rewrite (fold_left_flat_map addDocument (fun o => collectObservationDocuments db [o])).
  rewrite (fold_left_flat_map addDocument (fun s => collectSummaryDocuments db [s])).
  rewrite <- !fold_left_app.
  eapply Represents_trans; [|apply addDocuments_represents].
  unfold bootstrapCandidates.
  repeat apply Represents_app.
  - apply Represents_refl.
  - apply Represents_flat_map.
    apply (one_row_represents _ _ (collectPromptDocuments_represents db)).
  - apply Represents_flat_map.
    apply (one_row_represents _ _ (collectObservationDocuments_represents db)).
  - apply Represents_flat_map.
    apply (one_row_represents _ _ (collectSummaryDocuments_represents db)).
Qed.

Lemma collectIncrementalDocuments_represents (db : Database) (sinceEpoch : Z) :
  Represents (incrementalCandidates db sinceEpoch)
             (collectIncrementalDocuments db sinceEpoch).
Proof.
  unfold collectIncrementalDocuments, addPromptRows, addObservationRows, addSummaryRows.
  cbv zeta. unfold addDocuments.
  rewrite (fold_left_flat_map addDocument (fun p => collectPromptDocuments db [p])).
  rewrite (fold_left_flat_map addDocument (fun o => collectObservationDocuments db [o])).
  rewrite (fold_left_flat_map addDocument (fun s => collectSummaryDocuments db [s])).
  rewrite <- !fold_left_app.
  eapply Represents_trans; [|apply addDocuments_represents].
  unfold incrementalCandidates.
  repeat apply Represents_app.
  - apply Represents_flat_map.
    apply (one_row_represents _ _ (collectPromptDocuments_represents db)).
  - apply Represents_flat_map.
    apply (one_row_represents _ _ (collectObservationDocuments_represents db)).
  - apply Represents_flat_map.
    apply (one_row_represents _ _ (collectSummaryDocuments_represents db)).
Qed.

Lemma elem_of_flat_map {A C : Type} (f : A -> list C) (l : list A) (y : C) :
  y ∈ flat_map f l <-> exists x, x ∈ l /\ y ∈ f x.
Proof.
  rewrite list_elem_of_In, in_flat_map. split; intros [x [? ?]]; exists x;
    rewrite ?list_elem_of_In in *; auto.
Qed.

Lemma elem_of_orderByAsc {A : Type} (key : A -> Z) (rows : list A) (x : A) :
  x ∈ orderByAsc key rows <-> x ∈ rows.
Proof. unfold orderByAsc. rewrite stableSort_perm. reflexivity. Qed.

Lemma elem_of_filter' {A : Type} (f : A -> bool) (l : list A) (x : A) :
  x ∈ List.filter f l <-> x ∈ l /\ f x = true.
Proof. rewrite !list_elem_of_In. apply filter_In. Qed.

(** The rows of the join are the prompt rows, each with a project. *)
Lemma leftJoinSession_row (db : Database) (up : Row UserPrompt.t) (p : LocalPromptRow) :
  p ∈ leftJoinSession db up -> exists project, p = joinedPrompt up project.
Proof.
  unfold leftJoinSession. destruct (List.filter _ _) as [|s matches].
  - intros elem. apply list_elem_of_singleton in elem. eauto.
  - intros elem. apply list_elem_of_In, in_map_iff in elem as [s' [<- _]]. eauto.
Qed.

Lemma leftJoinSession_nonempty (db : Database) (up : Row UserPrompt.t) :
  exists project, joinedPrompt up project ∈ leftJoinSession db up.
Proof.
  unfold leftJoinSession. destruct (List.filter _ _) as [|s matches].
  - exists "". apply list_elem_of_here.
  - exists (Session.project (data s)). simpl. apply list_elem_of_here.
Qed.

End Collecting.

Section OwnDocuments.
Context `{Platform}.

Lemma find_is_Some {A : Type} (f : A -> bool) (l : list A) (x : A) :
  x ∈ l -> f x = true -> is_Some (find f l).
Proof.
  intros elem holds. destruct (find f l) eqn:found; [eauto|].
  rewrite (find_none_elem _ _ _ found elem) in holds. discriminate.
Qed.

(** A session row merges into itself without a change. *)
Lemma own_session_settled (db : Database) (row : LocalSessionRow) :
  NoDup (contentOf <$> sdk_sessions db) -> row ∈ sdk_sessions db ->
  upsertSession db (data row) = (db, false).
Proof.
  intros unique elem. apply upsertSession_quiet.
  destruct (find_is_Some
              (fun r => bool_decide (Session.content_session_id (data r)
                                     = Session.content_session_id (data row)))
              (sdk_sessions db) row elem) as [existing found];
    [apply bool_decide_eq_true; reflexivity|].
  assert (existing = row) as ->.
  { pose proof (find_some_elem _ _ _ found) as [elem' same].
    apply bool_decide_eq_true in same.
    eapply same_content; eauto. }
  exists row. split; [exact found|].
  assert (resolved : resolveImportedMemorySessionId db (data row) (Some row)
                     = Session.memory_session_id (data row)).
  { destruct (resolve_cases db (data row) (Some row)) as [->|[m [-> [-> _]]]]; reflexivity. }
  rewrite resolved. destruct row as [rowid s]. destruct s. unfold nextValues. simpl.
  f_equal.
  - unfold or_str. case_bool_decide; congruence.
  - unfold or_ostr. destruct (falsy_ostr _); reflexivity.
  - unfold nullish. destruct custom_title; reflexivity.
  - unfold or_str. case_bool_decide; congruence.
  - unfold or_num. case_bool_decide; congruence.
  - unfold nullish. destruct completed_at; reflexivity.
  - unfold nullish. destruct completed_at_epoch; reflexivity.
  - apply selectSessionStatus_same.
Qed.

Lemma own_prompt_settled (db : Database) (up : Row UserPrompt.t) (project : string) :
  up ∈ user_prompts db -> upsertPrompt db (data (joinedPrompt up project)) = (db, false).
Proof.
  intros elem. unfold upsertPrompt.
  destruct (find_is_Some
              (fun r => bool_decide (UserPrompt.content_session_id (data r)
                                     = Prompt.content_session_id
                                         (data (joinedPrompt up project)))
                        && bool_decide (UserPrompt.prompt_number (data r)
                                        = Prompt.prompt_number
                                            (data (joinedPrompt up project))))
              (user_prompts db) up elem) as [existing found].
  { simpl. rewrite !bool_decide_eq_true_2 by reflexivity. reflexivity. }
  rewrite found. reflexivity.
Qed.

Lemma own_observation_settled (db : Database) (row : LocalObservationRow) :
  row ∈ observations db -> upsertObservation db (observationPayload (data row)) = (db, false).
Proof.
  intros elem. unfold upsertObservation.
  destruct (getSessionByMemorySessionId _ _); [|reflexivity].
  destruct (find_is_Some (sameObservation (observationPayload (data row)))
              (observations db) row elem) as [existing found].
  { unfold sameObservation. simpl. rewrite !bool_decide_eq_true_2 by reflexivity. reflexivity. }
  rewrite found. reflexivity.
Qed.

Lemma own_summary_settled (db : Database) (row : LocalSummaryRow) :
  row ∈ session_summaries db -> upsertSummary db (summaryPayload (data row)) = (db, false).
Proof.
  intros elem. unfold upsertSummary.
  destruct (getSessionByMemorySessionId _ _); [|reflexivity].
  destruct (find_is_Some (sameSummary (summaryPayload (data row)))
              (session_summaries db) row elem) as [existing found].
  { unfold sameSummary. simpl. rewrite !bool_decide_eq_true_2 by reflexivity. reflexivity. }
  rewrite found. reflexivity.
Qed.

Lemma getSessionByMemory_elem (db : Database) (m : string) (row : LocalSessionRow) :
  getSessionByMemorySessionId db m = Some row -> row ∈ sdk_sessions db.
Proof. intros found. apply find_some_elem in found as [elem _]. exact elem. Qed.

Lemma getSessionByContent_elem (db : Database) (c : string) (row : LocalSessionRow) :
  getSessionByContentSessionId db c = Some row -> row ∈ sdk_sessions db.
Proof. intros found. apply find_some_elem in found as [elem _]. exact elem. Qed.

Lemma promptDocuments_settled (db : Database) (up : Row UserPrompt.t) (project : string)
    (d : Doc.t) :
  NoDup (contentOf <$> sdk_sessions db) -> up ∈ user_prompts db ->
  d ∈ promptDocuments db (joinedPrompt up project) -> Settled db d.
Proof.
  intros unique elem member. unfold promptDocuments in member.
  apply elem_of_cons in member as [->|member].
  - apply own_prompt_settled. exact elem.
  - destruct (getSessionByContentSessionId _ _) as [session|] eqn:found;
      [|apply elem_of_nil in member; contradiction].
    apply list_elem_of_singleton in member. subst d.
    apply own_session_settled; [exact unique|].
    eapply getSessionByContent_elem. exact found.
Qed.

Lemma observationDocuments_settled (db : Database) (row : LocalObservationRow) (d : Doc.t) :
  NoDup (contentOf <$> sdk_sessions db) -> row ∈ observations db ->
  d ∈ observationDocuments db row -> Settled db d.
Proof.
  intros unique elem member. unfold observationDocuments in member.
  apply elem_of_cons in member as [->|member].
  - apply own_observation_settled. exact elem.
  - destruct (getSessionByMemorySessionId _ _) as [session|] eqn:found;
      [|apply elem_of_nil in member; contradiction].
    apply list_elem_of_singleton in member. subst d.
    apply own_session_settled; [exact unique|].
    eapply getSessionByMemory_elem. exact found.
Qed.

Lemma summaryDocuments_settled (db : Database) (row : LocalSummaryRow) (d : Doc.t) :
  NoDup (contentOf <$> sdk_sessions db) -> row ∈ session_summaries db ->
  d ∈ summaryDocuments db row -> Settled db d.
Proof.
  intros unique elem member. unfold summaryDocuments in member.
  apply elem_of_cons in member as [->|member].
  - apply own_summary_settled. exact elem.
  - destruct (getSessionByMemorySessionId _ _) as [session|] eqn:found;
      [|apply elem_of_nil in member; contradiction].
    apply list_elem_of_singleton in member. subst d.
    apply own_session_settled; [exact unique|].
    eapply getSessionByMemory_elem. exact found.
Qed.

Lemma joined_prompt_row (db : Database) (p : LocalPromptRow) :
  p ∈ flat_map (leftJoinSession db) (user_prompts db) ->
  exists up project, up ∈ user_prompts db /\ p = joinedPrompt up project.
Proof.
  intros elem. apply elem_of_flat_map in elem as [up [elem joined]].
  apply leftJoinSession_row in joined as [project ->]. eauto.
Qed.

Lemma bootstrapCandidates_settled (db : Database) (d : Doc.t) :
  NoDup (contentOf <$> sdk_sessions db) -> d ∈ bootstrapCandidates db -> Settled db d.
Proof.
  intros unique member. unfold bootstrapCandidates in member.
  rewrite !elem_of_app in member. destruct member as [member|[member|[member|member]]].
  - apply list_elem_of_fmap in member as [session [-> elem]].
    apply own_session_settled; [exact unique|].
    apply elem_of_orderByAsc in elem. exact elem.
  - apply elem_of_flat_map in member as [p [elem member]].
    apply elem_of_orderByAsc, joined_prompt_row in elem as [up [project [elem ->]]].
    eapply promptDocuments_settled; eauto.
  - apply elem_of_flat_map in member as [row [elem member]].
    apply elem_of_orderByAsc in elem.
    eapply observationDocuments_settled; eauto.
  - apply elem_of_flat_map in member as [row [elem member]].
    apply elem_of_orderByAsc in elem.
    eapply summaryDocuments_settled; eauto.
Qed.

Lemma incrementalCandidates_settled (db : Database) (sinceEpoch : Z) (d : Doc.t) :
  NoDup (contentOf <$> sdk_sessions db) -> d ∈ incrementalCandidates db sinceEpoch ->
  Settled db d.
Proof.
  intros unique member. unfold incrementalCandidates in member.
  rewrite !elem_of_app in member. destruct member as [member|[member|member]].
  - apply elem_of_flat_map in member as [p [elem member]].
    apply elem_of_orderByAsc, elem_of_filter' in elem as [elem _].
    apply joined_prompt_row in elem as [up [project [elem ->]]].
    eapply promptDocuments_settled; eauto.
  - apply elem_of_flat_map in member as [row [elem member]].
    apply elem_of_orderByAsc, elem_of_filter' in elem as [elem _].
    eapply observationDocuments_settled; eauto.
  - apply elem_of_flat_map in member as [row [elem member]].
    apply elem_of_orderByAsc, elem_of_filter' in elem as [elem _].
    eapply summaryDocuments_settled; eauto.
Qed.

Lemma import_settled (db : Database) (documents : list Doc.t) :
  (forall d, d ∈ documents -> Settled db d) ->
  importRemoteDocuments db documents = (db, 0%nat).
Proof.
  intros settled. unfold importRemoteDocuments. apply importLoop_settled.
  apply Forall_forall. intros d elem. apply settled.
  unfold orderDocuments, ofKind in elem. rewrite !elem_of_app, !elem_of_filter' in elem.
  tauto.
Qed.

End OwnDocuments.

(** X4.  The documents a store exports come back into it without a write: in a
    store with one session row per [content_session_id], importing the
    store's own bootstrap batch, or its incremental batch since any epoch,
    returns 0 and leaves the store as it is. *)
Theorem own_documents_import_as_nothing `{Platform} (db : Database) :
  NoDup (contentOf <$> sdk_sessions db) ->
  importRemoteDocuments db (collectBootstrapDocuments db) = (db, 0%nat)
  /\ forall sinceEpoch,
       importRemoteDocuments db (collectIncrementalDocuments db sinceEpoch) = (db, 0%nat).
Proof.
  intros unique. split; [|intros sinceEpoch]; apply import_settled; intros d elem.
  - apply bootstrapCandidates_settled; [exact unique|].
    apply (collectBootstrapDocuments_represents db). exact elem.
  - apply (incrementalCandidates_settled db sinceEpoch); [exact unique|].
    apply (collectIncrementalDocuments_represents db sinceEpoch). exact elem.
Qed.

Lemma own_documents_import_as_nothing_witness :
  importRemoteDocuments ExamplesSync.localStore
    (@collectBootstrapDocuments examplePlatform ExamplesSync.localStore)
  = (ExamplesSync.localStore, 0%nat)
  /\ forall sinceEpoch,
       importRemoteDocuments ExamplesSync.localStore
         (@collectIncrementalDocuments examplePlatform ExamplesSync.localStore sinceEpoch)
       = (ExamplesSync.localStore, 0%nat).
Proof.
  apply (@own_documents_import_as_nothing examplePlatform ExamplesSync.localStore).
  simpl. apply NoDup_singleton.
Defined.

Section Coverage.
Context `{Platform}.

Lemma represented (added batch : list Doc.t) (d : Doc.t) :
  Represents added batch -> d ∈ added ->
  exists kept, kept ∈ batch /\ Doc.id kept = Doc.id d
               /\ Doc.updatedAtEpoch d <= Doc.updatedAtEpoch kept.
Proof. intros [_ all]. apply all. Qed.

Lemma joined_prompt_recent (db : Database) (up : Row UserPrompt.t) (sinceEpoch : Z) :
  up ∈ user_prompts db -> sinceEpoch <= UserPrompt.created_at_epoch (data up) ->
  exists project, joinedPrompt up project ∈ getPromptsSince db sinceEpoch.
Proof.
  intros elem recent. destruct (leftJoinSession_nonempty db up) as [project joined].
  exists project. apply elem_of_orderByAsc, elem_of_filter'. split.
  - apply elem_of_flat_map. eauto.
  - apply bool_decide_eq_true. exact recent.
Qed.

Lemma joined_prompt_all (db : Database) (up : Row UserPrompt.t) :
  up ∈ user_prompts db -> exists project, joinedPrompt up project ∈ getAllPrompts db.
Proof.
  intros elem. destruct (leftJoinSession_nonempty db up) as [project joined].
  exists project. apply elem_of_orderByAsc, elem_of_flat_map. eauto.
Qed.

Lemma incrementalCandidates_recent (db : Database) (sinceEpoch : Z) (d : Doc.t) :
  d ∈ incrementalCandidates db sinceEpoch -> sinceEpoch <= Doc.updatedAtEpoch d.
Proof.
  intros member. unfold incrementalCandidates in member.
  rewrite !elem_of_app in member. destruct member as [member|[member|member]];
    apply elem_of_flat_map in member as [row [elem member]];
    apply elem_of_orderByAsc, elem_of_filter' in elem as [_ recent];
    apply bool_decide_eq_true in recent.
  - unfold promptDocuments in member. apply elem_of_cons in member as [->|member];
      [exact recent|].
    destruct (getSessionByContentSessionId _ _); [|apply elem_of_nil in member; contradiction].
    apply list_elem_of_singleton in member. subst d. exact recent.
  - unfold observationDocuments in member. apply elem_of_cons in member as [->|member];
      [exact recent|].
    destruct (getSessionByMemorySessionId _ _); [|apply elem_of_nil in member; contradiction].
    apply list_elem_of_singleton in member. subst d. exact recent.
  - unfold summaryDocuments in member. apply elem_of_cons in member as [->|member];
      [exact recent|].
    destruct (getSessionByMemorySessionId _ _); [|apply elem_of_nil in member; contradiction].
    apply list_elem_of_singleton in member. subst d. exact recent.
Qed.

Lemma incremental_prompt_held (db : Database) (sinceEpoch : Z) (up : Row UserPrompt.t) :
  up ∈ user_prompts db ->
  sinceEpoch <= UserPrompt.created_at_epoch (data up) ->
  exists d, d ∈ collectIncrementalDocuments db sinceEpoch
            /\ Doc.id d = "prompt:" ++ UserPrompt.content_session_id (data up)
                          ++ ":" ++ pretty (UserPrompt.prompt_number (data up)).
Proof.
  intros elem recent.
  pose proof (collectIncrementalDocuments_represents db sinceEpoch) as represents.
  destruct (joined_prompt_recent db up sinceEpoch elem recent) as [project joined].
  destruct (represented _ _ (buildPromptDocument (joinedPrompt up project)) represents)
    as [d [member [same _]]]; [|eauto].
  unfold incrementalCandidates. rewrite !elem_of_app. left. apply elem_of_flat_map.
  exists (joinedPrompt up project). split; [exact joined|]. apply list_elem_of_here.
Qed.

Lemma incremental_observation_held (db : Database) (sinceEpoch : Z)
    (o : LocalObservationRow) :
  o ∈ observations db ->
  sinceEpoch <= Observation.created_at_epoch (data o) ->
  exists d, d ∈ collectIncrementalDocuments db sinceEpoch
            /\ Doc.id d = Doc.id (buildObservationDocument o).
Proof.
  intros elem recent.
  pose proof (collectIncrementalDocuments_represents db sinceEpoch) as represents.
  destruct (represented _ _ (buildObservationDocument o) represents)
    as [d [member [same _]]]; [|eauto].
  unfold incrementalCandidates. rewrite !elem_of_app. right. left. apply elem_of_flat_map.
  exists o. split; [|apply list_elem_of_here].
  apply elem_of_orderByAsc, elem_of_filter'. split; [exact elem|].
  apply bool_decide_eq_true. exact recent.
Qed.

Lemma incremental_summary_held (db : Database) (sinceEpoch : Z) (s : LocalSummaryRow) :
  s ∈ session_summaries db ->
  sinceEpoch <= Summary.created_at_epoch (data s) ->
  exists d, d ∈ collectIncrementalDocuments db sinceEpoch
            /\ Doc.id d = Doc.id (buildSummaryDocument s).
Proof.
  intros elem recent.
  pose proof (collectIncrementalDocuments_represents db sinceEpoch) as represents.
  destruct (represented _ _ (buildSummaryDocument s) represents)
    as [d [member [same _]]]; [|eauto].
  unfold incrementalCandidates. rewrite !elem_of_app. right. right. apply elem_of_flat_map.
  exists s. split; [|apply list_elem_of_here].
  apply elem_of_orderByAsc, elem_of_filter'. split; [exact elem|].
  apply bool_decide_eq_true. exact recent.
Qed.

(** The incremental batch is empty exactly when no row is recent. *)
Lemma incremental_empty_iff (db : Database) (sinceEpoch : Z) :
  collectIncrementalDocuments db sinceEpoch = []
  <-> NothingSince db sinceEpoch.
Proof.
  split.
  - intros empty.
    split; [|split]; intros row elem;
      match goal with
      | |- ?epoch < _ => destruct (Z.lt_ge_cases epoch sinceEpoch) as [?|recent]
      end; try assumption; exfalso.
    + destruct (incremental_prompt_held db sinceEpoch row elem recent) as [d [member _]].
      rewrite empty in member. apply elem_of_nil in member. exact member.
    + destruct (incremental_observation_held db sinceEpoch row elem recent)
        as [d [member _]].
      rewrite empty in member. apply elem_of_nil in member. exact member.
    + destruct (incremental_summary_held db sinceEpoch row elem recent) as [d [member _]].
      rewrite empty in member. apply elem_of_nil in member. exact member.
  - intros [old_prompts [old_observations old_summaries]].
    pose proof (collectIncrementalDocuments_represents db sinceEpoch) as represents.
    destruct (collectIncrementalDocuments db sinceEpoch) as [|d rest] eqn:batch;
      [reflexivity|exfalso].
    destruct represents as [from _].
    specialize (from d (list_elem_of_here _ _)).
    unfold incrementalCandidates in from. rewrite !elem_of_app in from.
    destruct from as [member|[member|member]];
      apply elem_of_flat_map in member as [row [elem _]];
      apply elem_of_orderByAsc, elem_of_filter' in elem as [elem recent];
      apply bool_decide_eq_true in recent.
    + apply joined_prompt_row in elem as [up [project [elem ->]]].
      specialize (old_prompts up elem). unfold promptEpoch in recent. simpl in recent. lia.
    + specialize (old_observations row elem). unfold observationEpoch in recent. lia.
    + specialize (old_summaries row elem). unfold summaryEpoch in recent. lia.
Qed.

End Coverage.

(** X5.  The bootstrap batch leaves no row out: every session, prompt,
    observation and summary row of the store has a document of its id in the
    batch, stamped no earlier than the row. *)
Theorem bootstrap_batch_holds_every_row `{Platform} (db : Database) :
  (forall s, s ∈ sdk_sessions db ->
     exists d, d ∈ collectBootstrapDocuments db
               /\ Doc.id d = "session:" ++ contentOf s
               /\ getSessionStableUpdatedEpoch (data s) <= Doc.updatedAtEpoch d)
  /\ (forall up, up ∈ user_prompts db ->
        exists d, d ∈ collectBootstrapDocuments db
                  /\ Doc.id d = "prompt:" ++ UserPrompt.content_session_id (data up)
                                ++ ":" ++ pretty (UserPrompt.prompt_number (data up))
                  /\ UserPrompt.created_at_epoch (data up) <= Doc.updatedAtEpoch d)
  /\ (forall o, o ∈ observations db ->
        exists d, d ∈ collectBootstrapDocuments db
                  /\ Doc.id d = Doc.id (buildObservationDocument o)
                  /\ Observation.created_at_epoch (data o) <= Doc.updatedAtEpoch d)
  /\ (forall s, s ∈ session_summaries db ->
        exists d, d ∈ collectBootstrapDocuments db
                  /\ Doc.id d = Doc.id (buildSummaryDocument s)
                  /\ Summary.created_at_epoch (data s) <= Doc.updatedAtEpoch d).
Proof.
  pose proof (collectBootstrapDocuments_represents db) as represents.
  unfold bootstrapCandidates in represents.
  split; [|split; [|split]].
  - intros s elem.
    apply (represented _ _ (buildSessionDocument s None) represents).
    rewrite !elem_of_app. left. apply list_elem_of_fmap. exists s.
    split; [reflexivity|]. apply elem_of_orderByAsc. exact elem.
  - intros up elem. destruct (joined_prompt_all db up elem) as [project joined].
    apply (represented _ _ (buildPromptDocument (joinedPrompt up project)) represents).
    rewrite !elem_of_app. right. left. apply elem_of_flat_map.
    exists (joinedPrompt up project). split; [exact joined|]. apply list_elem_of_here.
  - intros o elem.
    apply (represented _ _ (buildObservationDocument o) represents).
    rewrite !elem_of_app. right. right. left. apply elem_of_flat_map.
    exists o. split; [apply elem_of_orderByAsc; exact elem|]. apply list_elem_of_here.
  - intros s elem.
    apply (represented _ _ (buildSummaryDocument s) represents).
    rewrite !elem_of_app. right. right. right. apply elem_of_flat_map.
    exists s. split; [apply elem_of_orderByAsc; exact elem|]. apply list_elem_of_here.
Qed.

(** X6.  The incremental batch is made of the rows created at [sinceEpoch] or
    later (the bound is inclusive): every document of the batch is stamped at
    [sinceEpoch] or later, every prompt, observation and summary row created
    then has a document of its id in the batch, and the batch is empty, so
    that nothing is pushed, exactly when the store has no such row. *)
Theorem incremental_batch_holds_the_recent_rows `{Platform} (db : Database) (sinceEpoch : Z) :
  (forall d, d ∈ collectIncrementalDocuments db sinceEpoch ->
     sinceEpoch <= Doc.updatedAtEpoch d)
  /\ (forall up, up ∈ user_prompts db ->
        sinceEpoch <= UserPrompt.created_at_epoch (data up) ->
        exists d, d ∈ collectIncrementalDocuments db sinceEpoch
                  /\ Doc.id d = "prompt:" ++ UserPrompt.content_session_id (data up)
                                ++ ":" ++ pretty (UserPrompt.prompt_number (data up)))
  /\ (forall o, o ∈ observations db ->
        sinceEpoch <= Observation.created_at_epoch (data o) ->
        exists d, d ∈ collectIncrementalDocuments db sinceEpoch
                  /\ Doc.id d = Doc.id (buildObservationDocument o))
  /\ (forall s, s ∈ session_summaries db ->
        sinceEpoch <= Summary.created_at_epoch (data s) ->
        exists d, d ∈ collectIncrementalDocuments db sinceEpoch
                  /\ Doc.id d = Doc.id (buildSummaryDocument s))
  /\ (collectIncrementalDocuments db sinceEpoch = [] <-> NothingSince db sinceEpoch).
Proof.
  split; [|split; [|split; [|split; [|apply incremental_empty_iff]]]].
  - intros d elem. apply (incrementalCandidates_recent db).
    destruct (collectIncrementalDocuments_represents db sinceEpoch) as [from _].
    apply from. exact elem.
  - apply incremental_prompt_held.
  - apply incremental_observation_held.
  - apply incremental_summary_held.
Qed.

(** ** The state file: one entry per target *)

Section TargetEntries.
Context {B : Type} `{RemoteMemoryBackend B}.
Variable statePath : string.

(** When the entry can be written, the state loaded is an object of version 1
    whose [targets] is an object, and the file written holds it with the entry
    set. *)
Lemma writeTargetState_Ok (fs fs' : FileSystem) (state : RemoteSyncTargetState) :
  writeTargetState statePath fs state = Ok fs' ->
  exists fields targets,
    loadStateFile fs statePath = JObj fields
    /\ assoc "version" fields = Some (JNum 1)
    /\ assoc "targets" fields = Some (JObj targets)
    /\ fs' = <[statePath :=
                 Parsed (JObj (assign "targets"
                                 (JObj (assign (targetFingerprint B)
                                               (targetStateJson state) targets))
                                 fields))]> fs.
Proof.
  unfold writeTargetState. intros written.
  destruct (loadStateFile fs statePath) as [| | | | |fields] eqn:loaded; try discriminate.
  destruct (assoc "targets" fields) as [[| | | | |targets]|] eqn:found; try discriminate.
  assert (is_targets : targetsOf (loadStateFile fs statePath) = Some targets).
  { rewrite loaded. simpl. rewrite found. reflexivity. }
  destruct (loadStateFile_targets statePath fs targets is_targets)
    as [fields' [loaded' [version _]]].
  rewrite loaded in loaded'. injection loaded' as <-.
  exists fields, targets. repeat split; try assumption.
  injection written as <-. reflexivity.
Qed.

(** The file just written loads as it was written. *)
Lemma loadStateFile_written (fs : FileSystem) (fields : list (string * json))
    (targets : list (string * json)) :
  assoc "version" fields = Some (JNum 1) ->
  loadStateFile (<[statePath := Parsed (JObj (assign "targets" (JObj targets) fields))]> fs)
                statePath
  = JObj (assign "targets" (JObj targets) fields).
Proof.
  intros version. unfold loadStateFile, loadStateFile_try.
  rewrite lookup_insert_eq. simpl.
  rewrite assoc_assign_ne by discriminate. rewrite version. simpl.
  rewrite assoc_assign_eq. reflexivity.
Qed.

End TargetEntries.

(** X7.  What [saveTargetState] writes for a target is what [loadTargetState]
    reads back for it, whatever the file held before, and no other file is
    touched. *)
Theorem saved_target_state_is_read_back
    {B : Type} `{RemoteMemoryBackend B} (statePath : string)
    (fs fs' : FileSystem) (state : RemoteSyncTargetState) :
  writeTargetState statePath fs state = Ok fs' ->
  readTargetState statePath fs' = Ok state
  /\ forall path, path <> statePath -> fs' !! path = fs !! path.
Proof.
  intros written.
  destruct (writeTargetState_Ok statePath fs fs' state written)
    as [fields [targets [_ [version [_ ->]]]]].
  split.
  - unfold readTargetState. rewrite loadStateFile_written by exact version.
    simpl. rewrite assoc_assign_eq, assoc_assign_eq, asTargetState_json. reflexivity.
  - intros path other. apply lookup_insert_ne. congruence.
Qed.

Lemma saved_target_state_is_read_back_witness :
  @readTargetState MemoryBackend ExamplesCycle.target "state.json" ExamplesState.written
  = Ok ExamplesState.state
  /\ forall path, path <> "state.json" ->
       ExamplesState.written !! path = (∅ : FileSystem) !! path.
Proof.
  apply (@saved_target_state_is_read_back MemoryBackend ExamplesCycle.target "state.json" ∅).
  reflexivity.
Defined.

(** X8.  The entries of a state file are independent: writing the state of one
    target leaves what is read for a target of another fingerprint as it
    was. *)
Theorem target_states_are_independent
    {B1 B2 : Type} (one : RemoteMemoryBackend B1) (other : RemoteMemoryBackend B2)
    (statePath : string) (fs fs' : FileSystem) (state : RemoteSyncTargetState) :
  targetFingerprint B1 <> targetFingerprint B2 ->
  @writeTargetState B1 one statePath fs state = Ok fs' ->
  @readTargetState B2 other statePath fs' = @readTargetState B2 other statePath fs.
Proof.
  intros differ written.
  destruct (writeTargetState_Ok statePath fs fs' state written)
    as [fields [targets [loaded [version [found ->]]]]].
  unfold readTargetState. rewrite loadStateFile_written by exact version.
  rewrite loaded. simpl. rewrite assoc_assign_eq, found.
  rewrite assoc_assign_ne by exact differ. reflexivity.
Qed.

Lemma target_states_are_independent_witness :
  @readTargetState MemoryBackend (memoryBackend "other") "state.json" ExamplesState.written
  = @readTargetState MemoryBackend (memoryBackend "other") "state.json" ∅.
Proof.
  apply (@target_states_are_independent MemoryBackend MemoryBackend
           ExamplesCycle.target (memoryBackend "other") "state.json" ∅ _
           ExamplesState.state).
  - simpl. discriminate.
  - reflexivity.
Defined.

(** X9.  Over a state file that is missing, unreadable, malformed, of another
    version or without [targets], [saveTargetState] writes a fresh file of
    version 1 that holds the entry of this target and nothing else: what the
    old file held for other targets is not carried over. *)
Theorem bad_state_file_is_replaced
    {B : Type} `{RemoteMemoryBackend B} (statePath : string)
    (fs : FileSystem) (state : RemoteSyncTargetState) :
  BadStateFile fs statePath ->
  writeTargetState statePath fs state
  = Ok (<[statePath :=
            Parsed (JObj [("version", JNum 1);
                          ("targets",
                           JObj [(targetFingerprint B, targetStateJson state)])])]> fs).
Proof.
  intros bad.
  assert (empty : loadStateFile fs statePath = emptyStateFile).
  { unfold loadStateFile, loadStateFile_try.
    destruct bad as [-> | -> | -> | parsed -> version | parsed -> targets]; try reflexivity.
    - destruct (getProperty parsed "version") as [v|e] eqn:get; [|reflexivity].
      destruct (notStateVersion v) eqn:other; [reflexivity|].
      apply notStateVersion_false in other. subst v. contradiction.
    - destruct (getProperty parsed "version") as [v|e]; [|reflexivity].
      destruct (notStateVersion v); [reflexivity|].
      rewrite targets. reflexivity. }
  unfold writeTargetState. rewrite empty. reflexivity.
Qed.

Lemma bad_state_file_is_replaced_witness :
  @writeTargetState MemoryBackend ExamplesCycle.target "state.json"
    ExamplesState.outdated ExamplesState.state
  = Ok (<["state.json" :=
            Parsed (JObj [("version", JNum 1);
                          ("targets",
                           JObj [("target", targetStateJson ExamplesState.state)])])]>
          ExamplesState.outdated).
Proof.
  apply (@bad_state_file_is_replaced MemoryBackend ExamplesCycle.target "state.json").
  apply file_other_version
    with (parsed := JObj [("version", JNum 2);
                          ("targets", JObj [("other", targetStateJson initialTargetState)])]).
  - apply lookup_insert_eq.
  - simpl. discriminate.
Defined.

(** ** The sync orchestrator: the course of a cycle *)

Section CycleCourse.
Context `{Platform} {B : Type} `{RemoteMemoryBackend B}.
Variable statePath : string.
Variable w0 : World B.

Local Abbreviation Exactly := (Exactly statePath w0).
Local Abbreviation anyhow := (fun _ : World B => True).

Lemma Exactly_call (cs : list BackendCall) (w : World B) (b : B) (c : BackendCall) :
  Exactly cs w ->
  Exactly (cs ++ [c]) (mkWorld (files w) (store w) b (calls w ++ [c]) (errorLog w)).
Proof.
  intros [st lg cl rd]. split; simpl; try assumption.
  rewrite cl, app_assoc. reflexivity.
Qed.

Lemma callInitialize_exactly (cs : list BackendCall) :
  hoare (Exactly cs) callInitialize
        (fun _ => Exactly (cs ++ [CallInitialize true])) anyhow.
Proof.
  intros w exact. unfold callInitialize, logCall.
  destruct (backend_initialize (backend w)) as [[[]|e] b]; simpl; [|exact I].
  apply Exactly_call. exact exact.
Qed.

Lemma pushDocuments_exactly (cs : list BackendCall) (documents : list Doc.t) :
  hoare (Exactly cs) (pushDocuments statePath documents)
        (fun _ => Exactly (cs ++ ((fun d => CallUpsert d true) <$> pushedAs documents)))
        anyhow.
Proof.
  intros w exact. unfold pushDocuments, pushedAs. case_bool_decide as empty.
  - simpl. rewrite app_nil_r. exact exact.
  - unfold bind, callUpsertDocuments, logCall.
    destruct (upsertDocuments documents (backend w)) as [[[]|e] b]; simpl; [|exact I].
    unfold loadTargetState, saveTargetState. simpl.
    destruct exact as [st lg cl [p readable]]. rewrite readable.
    destruct (writeTargetState_read statePath (files w) p (raisePush p documents) readable)
      as [fs' [-> read]].
    split; simpl; try assumption.
    + rewrite cl, app_assoc. reflexivity.
    + eauto.
Qed.

Lemma getStore_exactly (cs : list BackendCall) :
  hoare (Exactly cs) getStore (fun db w => db = store w0 /\ Exactly cs w) anyhow.
Proof. intros w exact. simpl. split; [apply exact | exact exact]. Qed.

(** A fact about a value is carried into the specification of what follows. *)
Lemma hoare_pure {A : Type} (fact : Prop) (pre : World B -> Prop) (task : Task B A)
    (post : A -> World B -> Prop) (failed : World B -> Prop) :
  (fact -> hoare pre task post failed) ->
  hoare (fun w => fact /\ pre w) task post failed.
Proof. intros spec w [holds before]. apply (spec holds). exact before. Qed.

Lemma bootstrapPhase_exactly (cs : list BackendCall) (bootstrapLocal : bool)
    (state : RemoteSyncTargetState) :
  hoare (Exactly cs) (bootstrapPhase statePath bootstrapLocal state)
        (fun state' w =>
           state' = afterBootstrap bootstrapLocal state (store w0)
           /\ Exactly (cs ++ ((fun d => CallUpsert d true)
                              <$> bootstrapBatch bootstrapLocal state (store w0))) w)
        anyhow.
Proof.
  unfold bootstrapPhase, afterBootstrap, bootstrapBatch.
  destruct (bootstrapLocal && negb (bootstrapComplete state)).
  - eapply hoare_bind; [apply getStore_exactly|]. intros db. simpl.
    apply hoare_pure. intros ->.
    eapply hoare_bind; [apply pushDocuments_exactly|].
    intros u. apply hoare_ret. intros w exact. split; [reflexivity | exact exact].
  - apply hoare_ret. intros w exact. split; [reflexivity|].
    rewrite app_nil_r. exact exact.
Qed.

Lemma pushedAs_nonempty (documents : list Doc.t) :
  (0 < length documents)%nat -> pushedAs documents = [documents].
Proof. intros some. unfold pushedAs. rewrite bool_decide_eq_false_2 by lia. reflexivity. Qed.

Lemma pushedAs_empty (documents : list Doc.t) :
  ~ (0 < length documents)%nat -> pushedAs documents = [].
Proof. intros none. unfold pushedAs. rewrite bool_decide_eq_true_2 by lia. reflexivity. Qed.

Lemma incrementalPhase_exactly (cs : list BackendCall) (state : RemoteSyncTargetState) :
  hoare (Exactly cs) (incrementalPhase statePath state)
        (fun state' w =>
           state' = afterIncremental state (store w0)
           /\ Exactly (cs ++ ((fun d => CallUpsert d true)
                              <$> pushedAs (incrementalBatch state (store w0)))) w)
        anyhow.
Proof.
  unfold incrementalPhase. cbv zeta.
  eapply hoare_bind; [apply getStore_exactly|]. intros db. simpl.
  apply hoare_pure. intros ->. unfold afterIncremental.
  fold (incrementalBatch state (store w0)).
  case_bool_decide as some.
  - eapply hoare_bind; [apply pushDocuments_exactly|].
    intros u. apply hoare_ret. intros w exact. split; [reflexivity | exact exact].
  - apply hoare_ret. intros w exact. split; [reflexivity|].
    rewrite pushedAs_empty by exact some. simpl. rewrite app_nil_r. exact exact.
Qed.

Lemma import_nothing (db : Database) : importRemoteDocuments db [] = (db, 0%nat).
Proof. reflexivity. Qed.

Lemma pullPhase_exactly (cs : list BackendCall) (state : RemoteSyncTargetState) :
  hoare (Exactly cs)
        (bind (pullPhase state) (saveTargetState statePath))
        (fun _ w' =>
           exists fetched,
             calls w' = (calls w0 ++ cs
                         ++ [CallFetch
                               (Z.max 0 (lastPullEpoch state - REMOTE_INCREMENTAL_OVERLAP_MS))
                               (Some fetched)])%list
             /\ store w' = fst (importRemoteDocuments (store w0) fetched)
             /\ errorLog w' = errorLog w0
             /\ readTargetState statePath (files w') = Ok (afterPull state fetched))
        anyhow.
Proof.
  intros w [st lg cl [p readable]].
  unfold pullPhase, bind, callFetchDocumentsUpdatedSince, logCall. cbv zeta.
  destruct (fetchDocumentsUpdatedSince _ (backend w)) as [[fetched|e] b]; simpl; [|exact I].
  unfold importPhase, afterPull. case_bool_decide as some.
  - unfold bind, getStore, setStore. simpl.
    destruct (importRemoteDocuments (store w) fetched) as [db' count] eqn:imported. simpl.
    unfold saveTargetState. simpl.
    destruct (writeTargetState_read statePath (files w) p (raisePull state fetched) readable)
      as [fs' [-> read]].
    exists fetched. simpl. rewrite <- st, imported, cl, app_assoc.
    rewrite bool_decide_eq_true_2 by exact some. auto.
  - unfold ret, saveTargetState. simpl.
    destruct (writeTargetState_read statePath (files w) p state readable)
      as [fs' [-> read]].
    exists fetched. simpl. rewrite cl, app_assoc.
    rewrite bool_decide_eq_false_2 by exact some.
    destruct fetched; [|simpl in some; lia]. auto.
Qed.

Lemma afterIncremental_pull (state : RemoteSyncTargetState) (db : Database) :
  lastPullEpoch (afterIncremental state db) = lastPullEpoch state.
Proof. unfold afterIncremental. case_bool_decide; reflexivity. Qed.

Lemma afterBootstrap_pull (bootstrapLocal : bool) (state : RemoteSyncTargetState)
    (db : Database) :
  lastPullEpoch (afterBootstrap bootstrapLocal state db) = lastPullEpoch state.
Proof. unfold afterBootstrap. destruct (_ && _); reflexivity. Qed.

(** A cycle that completes has run its course. *)
Lemma performSynchronization_summed (bootstrapLocal : bool) (old : RemoteSyncTargetState)
    (w' : World B) :
  readTargetState statePath (files w0) = Ok old ->
  performSynchronization statePath bootstrapLocal w0 = (Ok tt, w') ->
  Summed statePath w0 bootstrapLocal old w'.
Proof.
  intros readable. unfold performSynchronization.
  unfold bind at 1. unfold callInitialize, logCall.
  destruct (backend_initialize (backend w0)) as [[[]|e] b]; [|discriminate].
  unfold bind at 1. unfold loadTargetState at 1. simpl. rewrite readable.
  set (w1 := mkWorld (files w0) (store w0) b (calls w0 ++ [CallInitialize true]) (errorLog w0)).
  assert (start : Exactly [CallInitialize true] w1).
  { split; try reflexivity. exists old. exact readable. }
  assert (spec : hoare (Exactly [CallInitialize true])
                   (let* state := bootstrapPhase statePath bootstrapLocal old in
                    let* state := incrementalPhase statePath state in
                    let* state := pullPhase state in
                    saveTargetState statePath state)
                   (fun _ => Summed statePath w0 bootstrapLocal old) anyhow).
  { eapply hoare_bind; [apply bootstrapPhase_exactly|]. intros state1. simpl.
    apply hoare_pure. intros ->.
    eapply hoare_bind; [apply incrementalPhase_exactly|]. intros state2. simpl.
    apply hoare_pure. intros ->.
    eapply hoare_weaken; [apply pullPhase_exactly | intros w exact; exact exact |].
    intros u w [fetched [cl [st [lg rd]]]]. exists fetched.
    split; [|split; [exact st | split; [exact lg | exact rd]]].
    rewrite cl, afterIncremental_pull, afterBootstrap_pull.
    unfold servedCalls, cyclePushes. rewrite fmap_app. simpl.
    rewrite <- !app_assoc. reflexivity. }
  intros run. specialize (spec w1 start). rewrite run in spec. exact spec.
Qed.

End CycleCourse.

Lemma length_pushedAs (documents : list Doc.t) : (length (pushedAs documents) <= 1)%nat.
Proof. unfold pushedAs. case_bool_decide; simpl; lia. Qed.

Lemma pushedAs_some (documents : list Doc.t) :
  Forall (fun batch => batch <> []) (pushedAs documents).
Proof.
  unfold pushedAs. case_bool_decide as empty; constructor; [|constructor].
  intros ->. apply empty. reflexivity.
Qed.

Lemma pushedBatches_served (pushes : list (list Doc.t)) :
  pushedBatches ((fun documents => CallUpsert documents true) <$> pushes) = pushes.
Proof.
  unfold pushedBatches. induction pushes as [|batch rest IH]; [reflexivity|].
  rewrite fmap_cons, omap_cons_match, IH. reflexivity.
Qed.

Lemma fetchedBatches_served (pushes : list (list Doc.t)) :
  fetchedBatches ((fun documents => CallUpsert documents true) <$> pushes) = [].
Proof.
  unfold fetchedBatches. induction pushes as [|batch rest IH]; [reflexivity|].
  rewrite fmap_cons, omap_cons_match, IH. reflexivity.
Qed.

Lemma pushedBatches_servedCalls (pushes : list (list Doc.t)) (sinceEpoch : Z)
    (fetched : list Doc.t) :
  pushedBatches (servedCalls pushes sinceEpoch fetched) = pushes.
Proof.
  unfold servedCalls. change (CallInitialize true :: ?l) with ([CallInitialize true] ++ l)%list.
  rewrite !pushedBatches_app, pushedBatches_served. simpl. apply app_nil_r.
Qed.

Lemma fetchedBatches_servedCalls (pushes : list (list Doc.t)) (sinceEpoch : Z)
    (fetched : list Doc.t) :
  fetchedBatches (servedCalls pushes sinceEpoch fetched) = [fetched].
Proof.
  unfold servedCalls. change (CallInitialize true :: ?l) with ([CallInitialize true] ++ l)%list.
  rewrite !fetchedBatches_app, fetchedBatches_served. reflexivity.
Qed.

Lemma servedCalls_ok (pushes : list (list Doc.t)) (sinceEpoch : Z) (fetched : list Doc.t) :
  Forall (fun c => callOk c = true) (servedCalls pushes sinceEpoch fetched).
Proof.
  unfold servedCalls. constructor; [reflexivity|]. apply Forall_app. split.
  - apply Forall_fmap, Forall_forall. reflexivity.
  - constructor; [reflexivity | constructor].
Qed.

(** X10.  A cycle that completes has called [initialize] once, first, then
    [upsertDocuments] for the bootstrap batch (when the bootstrap is asked for
    and not yet done) and for the incremental batch, never with an empty
    batch, and then [fetchDocumentsUpdatedSince] once, last, with the pull
    cursor it found less the overlap of 5000 ms and not below 0. *)
Theorem completed_cycle_calls
    `{Platform} {B : Type} `{RemoteMemoryBackend B}
    (statePath : string) (bootstrapLocal : bool) (w w' : World B)
    (old : RemoteSyncTargetState) :
  readTargetState statePath (files w) = Ok old ->
  performSynchronization statePath bootstrapLocal w = (Ok tt, w') ->
  let pushes := cyclePushes bootstrapLocal old (store w) in
  (exists fetched,
     calls w' = (calls w
                 ++ [CallInitialize true]
                 ++ ((fun documents => CallUpsert documents true) <$> pushes)
                 ++ [CallFetch (Z.max 0 (lastPullEpoch old - REMOTE_INCREMENTAL_OVERLAP_MS))
                               (Some fetched)])%list)
  /\ (length pushes <= 2)%nat
  /\ Forall (fun batch => batch <> []) pushes
  /\ (bootstrapLocal = false \/ bootstrapComplete old = true ->
      pushes = pushedAs (collectIncrementalDocuments (store w)
                           (Z.max 0 (lastLocalPushEpoch old - LOCAL_INCREMENTAL_OVERLAP_MS)))).
Proof.
  intros readable run. cbv zeta.
  destruct (performSynchronization_summed statePath w bootstrapLocal old w' readable run)
    as [fetched [cl _]].
  split; [exists fetched; exact cl|]. unfold cyclePushes, bootstrapBatch.
  split; [|split].
  - rewrite length_app.
    pose proof (length_pushedAs (collectBootstrapDocuments (store w))).
    pose proof (length_pushedAs
                  (incrementalBatch (afterBootstrap bootstrapLocal old (store w)) (store w))).
    destruct (_ && _); simpl; lia.
  - apply Forall_app. split; [|apply pushedAs_some].
    destruct (_ && _); [apply pushedAs_some | constructor].
  - intros skipped. unfold afterBootstrap.
    replace (bootstrapLocal && negb (bootstrapComplete old)) with false.
    + reflexivity.
    + destruct skipped as [-> | ->]; [reflexivity | apply eq_sym, andb_false_r].
Qed.

Lemma completed_cycle_calls_witness :
  let pushes :=
    @cyclePushes examplePlatform true initialTargetState ExamplesSync.localStore in
  (exists fetched,
     calls (snd (ExamplesCycle.cycle true (ExamplesCycle.world [])))
     = (calls (ExamplesCycle.world [])
        ++ [CallInitialize true]
        ++ ((fun documents => CallUpsert documents true) <$> pushes)
        ++ [CallFetch (Z.max 0 (lastPullEpoch initialTargetState
                                 - REMOTE_INCREMENTAL_OVERLAP_MS))
                      (Some fetched)])%list)
  /\ (length pushes <= 2)%nat
  /\ Forall (fun batch => batch <> []) pushes
  /\ (true = false \/ bootstrapComplete initialTargetState = true ->
      pushes = pushedAs (@collectIncrementalDocuments examplePlatform
                           ExamplesSync.localStore
                           (Z.max 0 (lastLocalPushEpoch initialTargetState
                                     - LOCAL_INCREMENTAL_OVERLAP_MS)))).
Proof.
  apply (@completed_cycle_calls examplePlatform MemoryBackend ExamplesCycle.target
           "state.json" true (ExamplesCycle.world [])
           (snd (ExamplesCycle.cycle true (ExamplesCycle.world []))) initialTargetState).
  - reflexivity.
  - vm_compute. reflexivity.
Defined.

(** ** The sync orchestrator: the cursors after a cycle *)

Lemma getMaxUpdatedEpoch_nonneg (documents : list Doc.t) : 0 <= getMaxUpdatedEpoch documents.
Proof.
  induction documents as [|d rest IH]; [reflexivity|].
  rewrite getMaxUpdatedEpoch_cons. lia.
Qed.

Lemma getMaxUpdatedEpoch_app (first rest : list Doc.t) :
  getMaxUpdatedEpoch (first ++ rest)
  = Z.max (getMaxUpdatedEpoch first) (getMaxUpdatedEpoch rest).
Proof.
  induction first as [|d first IH].
  - simpl. pose proof (getMaxUpdatedEpoch_nonneg rest). unfold getMaxUpdatedEpoch at 2.
    simpl. lia.
  - simpl. rewrite !getMaxUpdatedEpoch_cons, IH. lia.
Qed.

Lemma getMaxUpdatedEpoch_attained (documents : list Doc.t) :
  getMaxUpdatedEpoch documents = 0
  \/ exists d, d ∈ documents /\ Doc.updatedAtEpoch d = getMaxUpdatedEpoch documents.
Proof.
  induction documents as [|d rest IH]; [left; reflexivity|].
  rewrite getMaxUpdatedEpoch_cons.
  destruct (Z.max_spec (Doc.updatedAtEpoch d) (getMaxUpdatedEpoch rest)) as [[lt ->]|[le ->]].
  - destruct IH as [zero|[kept [elem same]]]; [left; exact zero|].
    right. exists kept. split; [apply list_elem_of_further; exact elem | exact same].
  - right. exists d. split; [apply list_elem_of_here | reflexivity].
Qed.

Lemma getMaxUpdatedEpoch_pushedAs (documents : list Doc.t) :
  getMaxUpdatedEpoch (concat (pushedAs documents)) = getMaxUpdatedEpoch documents.
Proof.
  unfold pushedAs. case_bool_decide as empty; simpl.
  - destruct documents; [reflexivity | discriminate].
  - rewrite app_nil_r. reflexivity.
Qed.

(** X11.  The epoch a cursor is raised to is the largest [updatedAtEpoch] of the
    batch and never below 0: it is 0 for an empty batch and for a batch of
    negative epochs, it is at least the epoch of every document, and when it
    is not 0 it is the epoch of one of them; over two batches it is the larger
    of the two. *)
Theorem getMaxUpdatedEpoch_is_the_largest_epoch (documents more : list Doc.t) :
  0 <= getMaxUpdatedEpoch documents
  /\ (forall d, d ∈ documents -> Doc.updatedAtEpoch d <= getMaxUpdatedEpoch documents)
  /\ (getMaxUpdatedEpoch documents = 0
      \/ exists d, d ∈ documents /\ Doc.updatedAtEpoch d = getMaxUpdatedEpoch documents)
  /\ getMaxUpdatedEpoch (documents ++ more)
     = Z.max (getMaxUpdatedEpoch documents) (getMaxUpdatedEpoch more).
Proof.
  split; [apply getMaxUpdatedEpoch_nonneg|].
  split; [apply getMaxUpdatedEpoch_ge|].
  split; [apply getMaxUpdatedEpoch_attained | apply getMaxUpdatedEpoch_app].
Qed.

Section Cursors.
Context `{Platform}.

Lemma cycleState_push (bootstrapLocal : bool) (old : RemoteSyncTargetState)
    (db : Database) (fetched : list Doc.t) :
  0 <= lastLocalPushEpoch old ->
  lastLocalPushEpoch (cycleState bootstrapLocal old db fetched)
  = Z.max (lastLocalPushEpoch old)
          (getMaxUpdatedEpoch (concat (cyclePushes bootstrapLocal old db))).
Proof.
  intros nonneg. unfold cycleState, cyclePushes, afterPull.
  rewrite concat_app, getMaxUpdatedEpoch_app, getMaxUpdatedEpoch_pushedAs.
  set (state1 := afterBootstrap bootstrapLocal old db).
  assert (first : lastLocalPushEpoch state1
                  = Z.max (lastLocalPushEpoch old)
                          (getMaxUpdatedEpoch (concat (bootstrapBatch bootstrapLocal old db)))).
  { unfold state1, afterBootstrap, bootstrapBatch. destruct (_ && _); simpl.
    - rewrite getMaxUpdatedEpoch_pushedAs. reflexivity.
    - unfold getMaxUpdatedEpoch. simpl. lia. }
  assert (second : lastLocalPushEpoch (afterIncremental state1 db)
                   = Z.max (lastLocalPushEpoch state1)
                           (getMaxUpdatedEpoch (incrementalBatch state1 db))).
  { unfold afterIncremental. case_bool_decide as some; [reflexivity|].
    destruct (incrementalBatch state1 db); [|simpl in some; lia].
    unfold getMaxUpdatedEpoch. simpl.
    pose proof (getMaxUpdatedEpoch_nonneg (concat (bootstrapBatch bootstrapLocal old db))).
    lia. }
  case_bool_decide; simpl; rewrite second, first; lia.
Qed.

Lemma cycleState_pull (bootstrapLocal : bool) (old : RemoteSyncTargetState)
    (db : Database) (fetched : list Doc.t) :
  0 <= lastPullEpoch old ->
  lastPullEpoch (cycleState bootstrapLocal old db fetched)
  = Z.max (lastPullEpoch old) (getMaxUpdatedEpoch fetched).
Proof.
  intros nonneg. unfold cycleState, afterPull.
  case_bool_decide as some; simpl.
  - unfold afterIncremental, afterBootstrap.
    case_bool_decide; destruct (_ && _); reflexivity.
  - destruct fetched; [|simpl in some; lia].
    unfold afterIncremental, afterBootstrap, getMaxUpdatedEpoch.
    case_bool_decide; destruct (_ && _); simpl; lia.
Qed.

Lemma cycleState_bootstrap (bootstrapLocal : bool) (old : RemoteSyncTargetState)
    (db : Database) (fetched : list Doc.t) :
  bootstrapComplete (cycleState bootstrapLocal old db fetched)
  = bootstrapComplete old || bootstrapLocal.
Proof.
  unfold cycleState, afterPull, afterIncremental, afterBootstrap.
  repeat case_bool_decide; destruct bootstrapLocal, (bootstrapComplete old) eqn:done;
    simpl; rewrite ?done; reflexivity.
Qed.

End Cursors.

(** X12.  A cycle that completes leaves each cursor exactly at the newest epoch
    seen, never ahead of the data: [lastLocalPushEpoch] is the larger of the
    old cursor and the largest [updatedAtEpoch] pushed, [lastPullEpoch] the
    larger of the old cursor and the largest [updatedAtEpoch] fetched, and
    [bootstrapComplete] is set when it was set or the cycle was asked to
    bootstrap. *)
Theorem completed_cycle_cursors
    `{Platform} {B : Type} `{RemoteMemoryBackend B}
    (statePath : string) (bootstrapLocal : bool) (w w' : World B)
    (old : RemoteSyncTargetState) :
  readTargetState statePath (files w) = Ok old ->
  0 <= lastLocalPushEpoch old -> 0 <= lastPullEpoch old ->
  performSynchronization statePath bootstrapLocal w = (Ok tt, w') ->
  exists cs new,
    calls w' = (calls w ++ cs)%list
    /\ readTargetState statePath (files w') = Ok new
    /\ lastLocalPushEpoch new
       = Z.max (lastLocalPushEpoch old) (getMaxUpdatedEpoch (concat (pushedBatches cs)))
    /\ lastPullEpoch new
       = Z.max (lastPullEpoch old) (getMaxUpdatedEpoch (concat (fetchedBatches cs)))
    /\ bootstrapComplete new = bootstrapComplete old || bootstrapLocal.
Proof.
  intros readable push pull run.
  destruct (performSynchronization_summed statePath w bootstrapLocal old w' readable run)
    as [fetched [cl [_ [_ read]]]].
  eexists. eexists. split; [exact cl|]. split; [exact read|].
  rewrite pushedBatches_servedCalls, fetchedBatches_servedCalls. simpl. rewrite app_nil_r.
  split; [apply cycleState_push; exact push|].
  split; [apply cycleState_pull; exact pull | apply cycleState_bootstrap].
Qed.

Lemma completed_cycle_cursors_witness :
  exists cs new,
    calls (snd (ExamplesCycle.cycle true (ExamplesCycle.world [])))
    = (calls (ExamplesCycle.world []) ++ cs)%list
    /\ ExamplesCycle.persisted (snd (ExamplesCycle.cycle true (ExamplesCycle.world [])))
       = Ok new
    /\ lastLocalPushEpoch new
       = Z.max (lastLocalPushEpoch initialTargetState)
               (getMaxUpdatedEpoch (concat (pushedBatches cs)))
    /\ lastPullEpoch new
       = Z.max (lastPullEpoch initialTargetState)
               (getMaxUpdatedEpoch (concat (fetchedBatches cs)))
    /\ bootstrapComplete new = bootstrapComplete initialTargetState || true.
Proof.
  apply (@completed_cycle_cursors examplePlatform MemoryBackend ExamplesCycle.target
           "state.json" true (ExamplesCycle.world [])
           (snd (ExamplesCycle.cycle true (ExamplesCycle.world []))) initialTargetState).
  - reflexivity.
  - simpl. lia.
  - simpl. lia.
  - vm_compute. reflexivity.
Defined.

(** ** The sync orchestrator: when the bootstrap is done *)

Section Bootstrap.
Context `{Platform} {B : Type} `{RemoteMemoryBackend B}.
Variable statePath : string.

(** A task that does not complete a cycle leaves [bootstrapComplete] as it
    found it. *)
Lemma Running_bootstrap (w0 : World B) (p0 : RemoteSyncTargetState)
    (P : RemoteSyncTargetState -> Prop) (w : World B) :
  Running statePath w0 p0 P w ->
  exists new, readTargetState statePath (files w) = Ok new
              /\ bootstrapComplete new = bootstrapComplete p0.
Proof.
  intros [cs [p [[st lg cl ps bt pl pu cv fl ft] _]]]. exists p. auto.
Qed.

Lemma Interrupted_bootstrap (w0 : World B) (p0 : RemoteSyncTargetState) (w : World B) :
  Interrupted statePath w0 p0 w ->
  exists new, readTargetState statePath (files w) = Ok new
              /\ bootstrapComplete new = bootstrapComplete p0
              /\ exists served failed,
                   calls w = (calls w0 ++ served ++ [failed])%list
                   /\ callOk failed = false.
Proof.
  intros [cs [c [p [[st lg cl ps bt pl pu cv fl ft] [_ failed]]]]]. exists p.
  split; [exact ps|]. split; [exact bt|]. exists cs, c. auto.
Qed.

Lemma runLogged_log (message : string) (task : Task B unit) (w : World B) :
  errorLog (runLogged message task w)
  = match task w with
    | (Ok _, w') => errorLog w'
    | (Err _, w') => (errorLog w' ++ [message])%list
    end.
Proof. unfold runLogged. destruct (task w) as [[[]|e] w']; reflexivity. Qed.

Lemma log_grown (log : list string) (message : string) : (log ++ [message])%list <> log.
Proof.
  intros impossible. apply (f_equal length) in impossible.
  rewrite length_app in impossible. simpl in impossible. lia.
Qed.

Lemma cycle_bootstrap (bootstrapLocal : bool) (message : string)
    (old : RemoteSyncTargetState) (w : World B) :
  readTargetState statePath (files w) = Ok old ->
  let w' := runLogged message (performSynchronization statePath bootstrapLocal) w in
  exists new,
    readTargetState statePath (files w') = Ok new
    /\ (bootstrapComplete new = true
        <-> bootstrapComplete old = true
            \/ (bootstrapLocal = true /\ errorLog w' = errorLog w)).
Proof.
  intros readable. cbv zeta. rewrite runLogged_files, runLogged_log.
  pose proof (performSynchronization_spec statePath w old bootstrapLocal readable) as spec.
  pose proof (performSynchronization_summed statePath w bootstrapLocal old) as summed.
  destruct (performSynchronization statePath bootstrapLocal w) as [[[]|e] w'].
  - destruct (summed w' readable eq_refl) as [fetched [_ [_ [lg read]]]].
    eexists. split; [exact read|]. rewrite cycleState_bootstrap, orb_true_iff. simpl.
    split; [intros [?|?]; auto | intros [?|[? _]]; auto].
  - destruct spec as [cs [c [p [[st lg cl ps bt pl pu cv fl ft] _]]]].
    exists p. simpl. split; [exact ps|]. rewrite bt. split; [auto|].
    intros [?|[_ impossible]]; [assumption|].
    rewrite lg in impossible. apply log_grown in impossible. contradiction.
Qed.

Lemma push_bootstrap (task : Task B unit) (message : string)
    (old : RemoteSyncTargetState) (w : World B) :
  readTargetState statePath (files w) = Ok old ->
  hoare (Running statePath w old (fun _ => True)) task
        (fun _ => Running statePath w old (fun _ => True)) (Interrupted statePath w old) ->
  exists new,
    readTargetState statePath (files (runLogged message task w)) = Ok new
    /\ bootstrapComplete new = bootstrapComplete old.
Proof.
  intros readable spec. rewrite runLogged_files.
  assert (start : Running statePath w old (fun _ => True) w).
  { exists [], old. split; [apply Progress_start; exact readable|].
    split; [constructor | exact I]. }
  specialize (spec w start). destruct (task w) as [[[]|e] w']; simpl.
  - eapply Running_bootstrap. exact spec.
  - destruct (Interrupted_bootstrap _ _ _ spec) as [new [read [same _]]]. eauto.
Qed.

Lemma serve_bootstrap (request : Request) (old : RemoteSyncTargetState) (w : World B) :
  readTargetState statePath (files w) = Ok old ->
  exists new,
    readTargetState statePath (files (serve statePath request w)) = Ok new
    /\ (bootstrapComplete new = true
        <-> bootstrapComplete old = true
            \/ (request = Startup
                /\ errorLog (serve statePath request w) = errorLog w)).
Proof.
  intros readable. destruct request as [| |promptId|observationId|summaryId]; simpl.
  - destruct (cycle_bootstrap true
                "Initial remote sync failed, continuing with local DB only" old w readable)
      as [new [read done]].
    exists new. split; [exact read|]. unfold initialize. rewrite done.
    split; (intros [?|[_ ?]]; auto).
  - destruct (cycle_bootstrap false "Periodic remote sync failed" old w readable)
      as [new [read done]].
    exists new. split; [exact read|]. unfold scheduleFullSync. rewrite done.
    split; (intros [?|[impossible _]]; [auto | discriminate]).
  - destruct (push_bootstrap (promptSyncTask statePath promptId) "Prompt sync failed"
                old w readable (promptSyncTask_spec statePath w old promptId))
      as [new [read same]].
    exists new. split; [exact read|]. rewrite same.
    split; [auto | intros [?|[impossible _]]; [auto | discriminate]].
  - destruct (push_bootstrap (observationSyncTask statePath observationId)
                "Observation sync failed" old w readable
                (observationSyncTask_spec statePath w old observationId))
      as [new [read same]].
    exists new. split; [exact read|]. rewrite same.
    split; [auto | intros [?|[impossible _]]; [auto | discriminate]].
  - destruct (push_bootstrap (summarySyncTask statePath summaryId) "Summary sync failed"
                old w readable (summarySyncTask_spec statePath w old summaryId))
      as [new [read same]].
    exists new. split; [exact read|]. rewrite same.
    split; [auto | intros [?|[impossible _]]; [auto | discriminate]].
Qed.

Lemma serveAll_bootstrapped (requests : list Request) (old : RemoteSyncTargetState)
    (w : World B) :
  readTargetState statePath (files w) = Ok old ->
  bootstrapComplete old = true ->
  exists new,
    readTargetState statePath (files (serveAll statePath requests w)) = Ok new
    /\ bootstrapComplete new = true.
Proof.
  revert old w. induction requests as [|request rest IH]; intros old w readable done.
  - exists old. auto.
  - simpl. destruct (serve_bootstrap request old w readable) as [mid [read step]].
    apply (IH mid); [exact read | apply step; auto].
Qed.

End Bootstrap.

(** X25.  The bootstrap is marked done by a startup cycle that completes, and by
    nothing else: a request leaves [bootstrapComplete] set when it was set,
    and sets it exactly when it is the startup and no call of its cycle
    failed. Once it is set it stays set over any requests, and every later
    cycle that completes pushes the incremental batch only, however it is
    asked: the whole store is pushed by startups until one of them has
    completed, and never after. *)
Theorem bootstrap_is_done_by_a_completed_startup
    `{Platform} {B : Type} `{RemoteMemoryBackend B}
    (statePath : string) (request : Request) (w : World B) (old : RemoteSyncTargetState) :
  readTargetState statePath (files w) = Ok old ->
  let w1 := serve statePath request w in
  exists new,
    readTargetState statePath (files w1) = Ok new
    /\ (bootstrapComplete new = true
        <-> bootstrapComplete old = true
            \/ (request = Startup /\ errorLog w1 = errorLog w))
    /\ (bootstrapComplete new = true ->
        forall (requests : list Request) (bootstrapLocal : bool) (w3 : World B),
          let w2 := serveAll statePath requests w1 in
          performSynchronization statePath bootstrapLocal w2 = (Ok tt, w3) ->
          exists state,
            readTargetState statePath (files w2) = Ok state
            /\ pushedBatches (drop (length (calls w2)) (calls w3))
               = pushedAs (collectIncrementalDocuments (store w2)
                             (Z.max 0 (lastLocalPushEpoch state
                                       - LOCAL_INCREMENTAL_OVERLAP_MS)))).
Proof.
  intros readable. cbv zeta.
  destruct (serve_bootstrap statePath request old w readable) as [new [read step]].
  exists new. split; [exact read|]. split; [exact step|].
  intros done requests bootstrapLocal w3 run.
  destruct (serveAll_bootstrapped statePath requests new _ read done)
    as [state [read2 done2]].
  exists state. split; [exact read2|].
  destruct (performSynchronization_summed statePath _ bootstrapLocal state w3 read2 run)
    as [fetched [cl _]].
  rewrite cl, drop_app_length, pushedBatches_servedCalls.
  unfold cyclePushes, bootstrapBatch, afterBootstrap, incrementalBatch.
  rewrite done2, andb_false_r. reflexivity.
Qed.

Lemma bootstrap_is_done_by_a_completed_startup_witness :
  let w1 := @serve examplePlatform MemoryBackend ExamplesCycle.target "state.json" Startup
              (ExamplesCycle.world []) in
  exists new,
    ExamplesCycle.persisted w1 = Ok new
    /\ (bootstrapComplete new = true
        <-> bootstrapComplete initialTargetState = true
            \/ (Startup = Startup /\ errorLog w1 = errorLog (ExamplesCycle.world [])))
    /\ (bootstrapComplete new = true ->
        forall (requests : list Request) (bootstrapLocal : bool)
               (w3 : World MemoryBackend),
          let w2 := @serveAll examplePlatform MemoryBackend ExamplesCycle.target
                      "state.json" requests w1 in
          @performSynchronization examplePlatform MemoryBackend ExamplesCycle.target
            "state.json" bootstrapLocal w2 = (Ok tt, w3) ->
          exists state,
            ExamplesCycle.persisted w2 = Ok state
            /\ pushedBatches (drop (length (calls w2)) (calls w3))
               = pushedAs (@collectIncrementalDocuments examplePlatform (store w2)
                             (Z.max 0 (lastLocalPushEpoch state
                                       - LOCAL_INCREMENTAL_OVERLAP_MS)))).
Proof.
  apply (@bootstrap_is_done_by_a_completed_startup examplePlatform MemoryBackend
           ExamplesCycle.target "state.json" Startup (ExamplesCycle.world [])
           initialTargetState).
  reflexivity.
Defined.

(** ** The sync orchestrator: the store and the log over the requests served *)

Section Served.
Context `{Platform} {B : Type} `{RemoteMemoryBackend B}.
Variable statePath : string.

Lemma Running_Outcome (message : string) (w w' : World B) (p0 : RemoteSyncTargetState)
    (P : RemoteSyncTargetState -> Prop) :
  Running statePath w p0 P w' -> Outcome message w w'.
Proof.
  intros [cs [p [[st lg cl ps bt pl pu cv fl ft] [ok _]]]].
  exists cs. split; [exact cl|]. split; [rewrite ft; exact st|]. left. auto.
Qed.

Lemma Interrupted_Outcome (message : string) (w w' : World B) (p0 : RemoteSyncTargetState) :
  Interrupted statePath w p0 w' ->
  Outcome message w
    (mkWorld (files w') (store w') (backend w') (calls w') (errorLog w' ++ [message])).
Proof.
  intros [cs [c [p [[st lg cl ps bt pl pu cv fl ft] [ok failed]]]]].
  exists (cs ++ [c])%list. simpl. split; [exact cl|]. split; [rewrite ft; exact st|].
  right. exists cs, c. rewrite lg. auto.
Qed.

Lemma Summed_Outcome (message : string) (w w' : World B) (bootstrapLocal : bool)
    (old : RemoteSyncTargetState) :
  Summed statePath w bootstrapLocal old w' -> Outcome message w w'.
Proof.
  intros [fetched [cl [st [lg _]]]]. eexists. split; [exact cl|].
  rewrite fetchedBatches_servedCalls. split; [exact st|].
  left. split; [apply servedCalls_ok | exact lg].
Qed.

Lemma cycle_Outcome (message : string) (bootstrapLocal : bool) (w : World B)
    (old : RemoteSyncTargetState) :
  readTargetState statePath (files w) = Ok old ->
  Outcome message w (runLogged message (performSynchronization statePath bootstrapLocal) w).
Proof.
  intros readable. unfold runLogged.
  pose proof (performSynchronization_spec statePath w old bootstrapLocal readable) as spec.
  destruct (performSynchronization statePath bootstrapLocal w) as [[[]|e] w'] eqn:run.
  - eapply Summed_Outcome. eapply performSynchronization_summed; eauto.
  - eapply Interrupted_Outcome. exact spec.
Qed.

Lemma task_Outcome (message : string) (task : Task B unit) (w : World B)
    (old : RemoteSyncTargetState) :
  readTargetState statePath (files w) = Ok old ->
  hoare (Running statePath w old (fun _ => True)) task
        (fun _ => Running statePath w old (fun _ => True)) (Interrupted statePath w old) ->
  Outcome message w (runLogged message task w).
Proof.
  intros readable spec. unfold runLogged.
  assert (start : Running statePath w old (fun _ => True) w).
  { exists [], old. split; [apply Progress_start; exact readable|].
    split; [constructor | exact I]. }
  specialize (spec w start). destruct (task w) as [[[]|e] w'].
  - eapply Running_Outcome. exact spec.
  - eapply Interrupted_Outcome. exact spec.
Qed.

Lemma serve_Outcome (request : Request) (w : World B) (old : RemoteSyncTargetState) :
  readTargetState statePath (files w) = Ok old ->
  Outcome (requestMessage request) w (serve statePath request w).
Proof.
  intros readable. destruct request as [| |promptId|observationId|summaryId]; simpl.
  - apply (cycle_Outcome _ true w old readable).
  - apply (cycle_Outcome _ false w old readable).
  - apply (task_Outcome _ _ w old readable). apply promptSyncTask_spec.
  - apply (task_Outcome _ _ w old readable). apply observationSyncTask_spec.
  - apply (task_Outcome _ _ w old readable). apply summarySyncTask_spec.
Qed.

Lemma importAll_app (db : Database) (first rest : list (list Doc.t)) :
  importAll db (first ++ rest) = importAll (importAll db first) rest.
Proof. unfold importAll. apply fold_left_app. Qed.

Lemma serveAll_store (requests : list Request) (w : World B) (old : RemoteSyncTargetState) :
  readTargetState statePath (files w) = Ok old ->
  exists cs logged,
    calls (serveAll statePath requests w) = (calls w ++ cs)%list
    /\ store (serveAll statePath requests w) = importAll (store w) (fetchedBatches cs)
    /\ errorLog (serveAll statePath requests w) = (errorLog w ++ logged)%list
    /\ (length logged <= length requests)%nat.
Proof.
  revert w old. induction requests as [|request rest IH]; intros w old readable.
  - exists [], []. simpl. rewrite !app_nil_r. auto.
  - simpl. destruct (serve_Outcome request w old readable) as [cs1 [cl1 [st1 log1]]].
    destruct (serve_NotBefore statePath request old w readable) as [new [readable1 _]].
    destruct (IH _ new readable1) as [cs2 [logged2 [cl2 [st2 [lg2 few]]]]].
    exists (cs1 ++ cs2)%list.
    exists ((if bool_decide (errorLog (serve statePath request w) = errorLog w)
             then [] else [requestMessage request]) ++ logged2)%list.
    split; [rewrite cl2, cl1, app_assoc; reflexivity|].
    split; [rewrite st2, st1, fetchedBatches_app, importAll_app; reflexivity|].
    rewrite lg2. destruct log1 as [[_ same]|[served [failed [_ [_ [_ more]]]]]].
    + rewrite bool_decide_eq_true_2 by exact same. rewrite same. simpl. split; [reflexivity | lia].
    + rewrite bool_decide_eq_false_2.
      * rewrite more, <- app_assoc. simpl. split; [reflexivity | lia].
      * rewrite more. intros impossible.
        apply (f_equal length) in impossible. rewrite length_app in impossible.
        simpl in impossible. lia.
Qed.

End Served.

(** X13.  Serving a request raises nothing to its caller. It makes its calls up
    to the first one that fails, appends one line to the error log (the
    message of the kind of request) exactly when a call failed, and changes
    the local store only by importing what it fetched. *)
Theorem request_outcome
    `{Platform} {B : Type} `{RemoteMemoryBackend B}
    (statePath : string) (request : Request) (w : World B) (old : RemoteSyncTargetState) :
  readTargetState statePath (files w) = Ok old ->
  Outcome (requestMessage request) w (serve statePath request w).
Proof. apply serve_Outcome. Qed.

Lemma request_outcome_witness :
  Outcome "Periodic remote sync failed" (ExamplesCycle.world [false; true])
    (@serve examplePlatform MemoryBackend ExamplesCycle.target "state.json" FullSync
       (ExamplesCycle.world [false; true])).
Proof.
  apply (@request_outcome examplePlatform MemoryBackend ExamplesCycle.target
           "state.json" FullSync (ExamplesCycle.world [false; true]) initialTargetState).
  reflexivity.
Defined.

(** X14.  Over any sequence of requests the local store is the store at the
    start with the batches fetched imported in the order they were fetched,
    and nothing else: whatever the backend returns, the keys of the store
    stay unique, and the error log gains at most one line per request. *)
Theorem requests_change_the_store_by_imports_only
    `{Platform} {B : Type} `{RemoteMemoryBackend B}
    (statePath : string) (requests : list Request) (w : World B)
    (old : RemoteSyncTargetState) :
  readTargetState statePath (files w) = Ok old ->
  (exists cs logged,
     calls (serveAll statePath requests w) = (calls w ++ cs)%list
     /\ store (serveAll statePath requests w) = importAll (store w) (fetchedBatches cs)
     /\ errorLog (serveAll statePath requests w) = (errorLog w ++ logged)%list
     /\ (length logged <= length requests)%nat)
  /\ (UniqueKeys (store w) -> UniqueKeys (store (serveAll statePath requests w))).
Proof.
  intros readable.
  destruct (serveAll_store statePath requests w old readable)
    as [cs [logged [cl [st [lg few]]]]].
  split; [exists cs, logged; auto|].
  intros unique. rewrite st. apply importAll_unique. exact unique.
Qed.

Lemma requests_change_the_store_by_imports_only_witness :
  (exists cs logged,
     calls (@serveAll examplePlatform MemoryBackend ExamplesCycle.target "state.json"
              [Startup; PromptSync 1] (ExamplesCycle.world [false; true]))
     = (calls (ExamplesCycle.world [false; true]) ++ cs)%list
     /\ store (@serveAll examplePlatform MemoryBackend ExamplesCycle.target "state.json"
                 [Startup; PromptSync 1] (ExamplesCycle.world [false; true]))
        = importAll (store (ExamplesCycle.world [false; true])) (fetchedBatches cs)
     /\ errorLog (@serveAll examplePlatform MemoryBackend ExamplesCycle.target "state.json"
                    [Startup; PromptSync 1] (ExamplesCycle.world [false; true]))
        = (errorLog (ExamplesCycle.world [false; true]) ++ logged)%list
     /\ (length logged <= length [Startup; PromptSync 1])%nat)
  /\ (UniqueKeys (store (ExamplesCycle.world [false; true])) ->
      UniqueKeys (store (@serveAll examplePlatform MemoryBackend ExamplesCycle.target
                           "state.json" [Startup; PromptSync 1]
                           (ExamplesCycle.world [false; true])))).
Proof.
  apply (@requests_change_the_store_by_imports_only examplePlatform MemoryBackend
           ExamplesCycle.target "state.json" [Startup; PromptSync 1]
           (ExamplesCycle.world [false; true]) initialTargetState).
  reflexivity.
Defined.

(** ** The sync orchestrator: the push of one row *)

Section RowPush.
Context `{Platform} {B : Type} `{RemoteMemoryBackend B}.
Variable statePath : string.

Lemma pushDocuments_Pushed (documents : list Doc.t) (message : string)
    (old : RemoteSyncTargetState) (w : World B) :
  documents <> [] ->
  readTargetState statePath (files w) = Ok old ->
  Pushed statePath documents message old w
    (runLogged message (pushDocuments statePath documents) w).
Proof.
  intros some readable. unfold runLogged, pushDocuments.
  rewrite bool_decide_eq_false_2 by (destruct documents; [contradiction | discriminate]).
  unfold bind, callUpsertDocuments, logCall.
  destruct (upsertDocuments documents (backend w)) as [[[]|e] b]; simpl.
  - unfold loadTargetState, saveTargetState. simpl. rewrite readable.
    destruct (writeTargetState_read statePath (files w) old (raisePush old documents) readable)
      as [fs' [-> read]].
    exists true. simpl. repeat split; auto; discriminate.
  - exists false. simpl. repeat split; auto; discriminate.
Qed.

(** A document that shares its id with no other document added is kept. *)
Lemma only_document_kept (d : Doc.t) (added batch : list Doc.t) :
  Represents added batch -> d ∈ added ->
  (forall d', d' ∈ added -> Doc.id d' = Doc.id d -> d' = d) ->
  d ∈ batch.
Proof.
  intros [from all] elem only.
  destruct (all d elem) as [kept [member [same _]]].
  rewrite <- (only kept (from kept member) same). exact member.
Qed.

(** The documents one row adds: its own and its session's, of different ids. *)
Lemma promptDocuments_ids (db : Database) (prompt : LocalPromptRow) (d d' : Doc.t) :
  d ∈ promptDocuments db prompt -> d' ∈ promptDocuments db prompt ->
  Doc.id d' = Doc.id d -> d' = d.
Proof.
  unfold promptDocuments. destruct (getSessionByContentSessionId _ _) as [session|];
    intros elem elem'; repeat (apply elem_of_cons in elem as [->|elem]);
    repeat (apply elem_of_cons in elem' as [->|elem']);
    try (apply elem_of_nil in elem; contradiction);
    try (apply elem_of_nil in elem'; contradiction);
    try reflexivity; simpl; discriminate.
Qed.

Lemma observationDocuments_ids (db : Database) (observation : LocalObservationRow)
    (d d' : Doc.t) :
  d ∈ observationDocuments db observation -> d' ∈ observationDocuments db observation ->
  Doc.id d' = Doc.id d -> d' = d.
Proof.
  unfold observationDocuments. destruct (getSessionByMemorySessionId _ _) as [session|];
    intros elem elem'; repeat (apply elem_of_cons in elem as [->|elem]);
    repeat (apply elem_of_cons in elem' as [->|elem']);
    try (apply elem_of_nil in elem; contradiction);
    try (apply elem_of_nil in elem'; contradiction);
    try reflexivity; simpl; discriminate.
Qed.

Lemma summaryDocuments_ids (db : Database) (summary : LocalSummaryRow) (d d' : Doc.t) :
  d ∈ summaryDocuments db summary -> d' ∈ summaryDocuments db summary ->
  Doc.id d' = Doc.id d -> d' = d.
Proof.
  unfold summaryDocuments. destruct (getSessionByMemorySessionId _ _) as [session|];
    intros elem elem'; repeat (apply elem_of_cons in elem as [->|elem]);
    repeat (apply elem_of_cons in elem' as [->|elem']);
    try (apply elem_of_nil in elem; contradiction);
    try (apply elem_of_nil in elem'; contradiction);
    try reflexivity; simpl; discriminate.
Qed.

Lemma promptDocuments_kept (db : Database) (prompt : LocalPromptRow) (d : Doc.t) :
  d ∈ promptDocuments db prompt -> d ∈ collectPromptDocuments db [prompt].
Proof.
  intros elem. apply (only_document_kept d (promptDocuments db prompt)).
  - apply (one_row_represents _ _ (collectPromptDocuments_represents db) prompt).
  - exact elem.
  - intros d' elem'. apply (promptDocuments_ids db prompt); assumption.
Qed.

Lemma observationDocuments_kept (db : Database) (observation : LocalObservationRow)
    (d : Doc.t) :
  d ∈ observationDocuments db observation ->
  d ∈ collectObservationDocuments db [observation].
Proof.
  intros elem. apply (only_document_kept d (observationDocuments db observation)).
  - apply (one_row_represents _ _ (collectObservationDocuments_represents db) observation).
  - exact elem.
  - intros d' elem'. apply (observationDocuments_ids db observation); assumption.
Qed.

Lemma summaryDocuments_kept (db : Database) (summary : LocalSummaryRow) (d : Doc.t) :
  d ∈ summaryDocuments db summary -> d ∈ collectSummaryDocuments db [summary].
Proof.
  intros elem. apply (only_document_kept d (summaryDocuments db summary)).
  - apply (one_row_represents _ _ (collectSummaryDocuments_represents db) summary).
  - exact elem.
  - intros d' elem'. apply (summaryDocuments_ids db summary); assumption.
Qed.

Lemma promptDocument_kept (db : Database) (prompt : LocalPromptRow) :
  buildPromptDocument prompt ∈ collectPromptDocuments db [prompt].
Proof. apply promptDocuments_kept, list_elem_of_here. Qed.

Lemma observationDocument_kept (db : Database) (observation : LocalObservationRow) :
  buildObservationDocument observation ∈ collectObservationDocuments db [observation].
Proof. apply observationDocuments_kept, list_elem_of_here. Qed.

Lemma summaryDocument_kept (db : Database) (summary : LocalSummaryRow) :
  buildSummaryDocument summary ∈ collectSummaryDocuments db [summary].
Proof. apply summaryDocuments_kept, list_elem_of_here. Qed.

Lemma elem_nonempty {A : Type} (x : A) (l : list A) : x ∈ l -> l <> [].
Proof. intros elem ->. apply elem_of_nil in elem. exact elem. Qed.

End RowPush.

(** X15.  Scheduling the sync of a prompt, an observation or a summary that is
    in the store makes one call of [upsertDocuments], with a batch that holds
    the document of the row. When the call is served the push cursor is raised
    over the batch and nothing is logged; when it fails, the failure is logged
    and the state file is as it was. Nothing is fetched or imported. *)
Theorem scheduled_row_is_pushed
    `{Platform} {B : Type} `{RemoteMemoryBackend B}
    (statePath : string) (rowId : Z) (w : World B) (old : RemoteSyncTargetState) :
  readTargetState statePath (files w) = Ok old ->
  (forall prompt, getPromptById (store w) rowId = Some prompt ->
     buildPromptDocument prompt ∈ collectPromptDocuments (store w) [prompt]
     /\ Pushed statePath (collectPromptDocuments (store w) [prompt]) "Prompt sync failed"
          old w (scheduleUserPromptSync statePath rowId w))
  /\ (forall observation, getObservationById (store w) rowId = Some observation ->
        buildObservationDocument observation
          ∈ collectObservationDocuments (store w) [observation]
        /\ Pushed statePath (collectObservationDocuments (store w) [observation])
             "Observation sync failed" old w (scheduleObservationSync statePath rowId w))
  /\ (forall summary, getSummaryById (store w) rowId = Some summary ->
        buildSummaryDocument summary ∈ collectSummaryDocuments (store w) [summary]
        /\ Pushed statePath (collectSummaryDocuments (store w) [summary])
             "Summary sync failed" old w (scheduleSummarySync statePath rowId w)).
Proof.
  intros readable. split; [|split].
  - intros prompt found. pose proof (promptDocument_kept (store w) prompt) as kept.
    split; [exact kept|].
    pose proof (pushDocuments_Pushed statePath _ "Prompt sync failed" old w
                  (elem_nonempty _ _ kept) readable) as pushed.
    unfold scheduleUserPromptSync, runLogged, promptSyncTask, bind, getStore in *.
    rewrite found. exact pushed.
  - intros observation found.
    pose proof (observationDocument_kept (store w) observation) as kept.
    split; [exact kept|].
    pose proof (pushDocuments_Pushed statePath _ "Observation sync failed" old w
                  (elem_nonempty _ _ kept) readable) as pushed.
    unfold scheduleObservationSync, runLogged, observationSyncTask, bind, getStore in *.
    rewrite found. exact pushed.
  - intros summary found. pose proof (summaryDocument_kept (store w) summary) as kept.
    split; [exact kept|].
    pose proof (pushDocuments_Pushed statePath _ "Summary sync failed" old w
                  (elem_nonempty _ _ kept) readable) as pushed.
    unfold scheduleSummarySync, runLogged, summarySyncTask, bind, getStore in *.
    rewrite found. exact pushed.
Qed.

Lemma scheduled_row_is_pushed_witness :
  exists prompt,
    getPromptById ExamplesSync.localStore 1 = Some prompt
    /\ @buildPromptDocument prompt
       ∈ @collectPromptDocuments examplePlatform ExamplesSync.localStore [prompt]
    /\ @Pushed MemoryBackend ExamplesCycle.target "state.json"
         (@collectPromptDocuments examplePlatform ExamplesSync.localStore [prompt])
         "Prompt sync failed" initialTargetState (ExamplesCycle.world [])
         (@scheduleUserPromptSync examplePlatform MemoryBackend ExamplesCycle.target
            "state.json" 1 (ExamplesCycle.world [])).
Proof.
  eexists. split; [reflexivity|].
  apply (proj1 (@scheduled_row_is_pushed examplePlatform MemoryBackend ExamplesCycle.target
                  "state.json" 1 (ExamplesCycle.world []) initialTargetState eq_refl)).
  reflexivity.
Defined.

(** X16.  The session of a row rides with it: when the session of a prompt (by
    its [content_session_id]), of an observation or of a summary (by its
    [memory_session_id]) is in the store, the batch pushed for the row holds
    the document of that session, with the row of the session as its payload
    and the [created_at_epoch] of the row as its [updatedAtEpoch]. *)
Theorem session_rides_with_its_row `{Platform} (db : Database) :
  (forall prompt session,
     getSessionByContentSessionId db (Prompt.content_session_id (data prompt))
     = Some session ->
     buildSessionDocument session (Some (Prompt.created_at_epoch (data prompt)))
       ∈ collectPromptDocuments db [prompt])
  /\ (forall observation session,
        getSessionByMemorySessionId db (Observation.memory_session_id (data observation))
        = Some session ->
        buildSessionDocument session
          (Some (Observation.created_at_epoch (data observation)))
          ∈ collectObservationDocuments db [observation])
  /\ (forall summary session,
        getSessionByMemorySessionId db (Summary.memory_session_id (data summary))
        = Some session ->
        buildSessionDocument session (Some (Summary.created_at_epoch (data summary)))
          ∈ collectSummaryDocuments db [summary]).
Proof.
  split; [|split].
  - intros prompt session found. apply promptDocuments_kept.
    unfold promptDocuments. rewrite found.
    apply list_elem_of_further, list_elem_of_here.
  - intros observation session found. apply observationDocuments_kept.
    unfold observationDocuments. rewrite found.
    apply list_elem_of_further, list_elem_of_here.
  - intros summary session found. apply summaryDocuments_kept.
    unfold summaryDocuments. rewrite found.
    apply list_elem_of_further, list_elem_of_here.
Qed.

(** X17.  A periodic cycle that completes has pushed exactly when the store
    holds a prompt, an observation or a summary created at the push cursor
    less 5000 ms (not below 0) or later: the rows of the overlap are pushed
    again by every cycle, and a store with nothing that recent is not
    pushed. *)
Theorem periodic_cycle_pushes_the_overlap
    `{Platform} {B : Type} `{RemoteMemoryBackend B}
    (statePath : string) (w w' : World B) (old : RemoteSyncTargetState) :
  readTargetState statePath (files w) = Ok old ->
  performSynchronization statePath false w = (Ok tt, w') ->
  exists cs,
    calls w' = (calls w ++ cs)%list
    /\ (pushedBatches cs = []
        <-> NothingSince (store w)
              (Z.max 0 (lastLocalPushEpoch old - LOCAL_INCREMENTAL_OVERLAP_MS))).
Proof.
  intros readable run.
  destruct (performSynchronization_summed statePath w false old w' readable run)
    as [fetched [cl _]].
  eexists. split; [exact cl|]. rewrite pushedBatches_servedCalls.
  unfold cyclePushes, bootstrapBatch, afterBootstrap, incrementalBatch. simpl.
  rewrite <- incremental_empty_iff. unfold pushedAs.
  case_bool_decide as empty.
  - destruct (collectIncrementalDocuments _ _); [tauto | discriminate].
  - split; [discriminate|]. intros none. rewrite none in empty. contradiction.
Qed.

Lemma periodic_cycle_pushes_the_overlap_witness :
  exists cs,
    calls (snd (ExamplesCycle.cycle false (ExamplesCycle.world [])))
    = (calls (ExamplesCycle.world []) ++ cs)%list
    /\ (pushedBatches cs = []
        <-> NothingSince (store (ExamplesCycle.world []))
              (Z.max 0 (lastLocalPushEpoch initialTargetState
                        - LOCAL_INCREMENTAL_OVERLAP_MS))).
Proof.
  apply (@periodic_cycle_pushes_the_overlap examplePlatform MemoryBackend
           ExamplesCycle.target "state.json" (ExamplesCycle.world [])
           (snd (ExamplesCycle.cycle false (ExamplesCycle.world []))) initialTargetState).
  - reflexivity.
  - vm_compute. reflexivity.
Defined.

(** ** The Azure Cosmos store *)

Section AzureStore.
Context {C D K : Type} `{CosmosSDK C D K}.

Import AzureCosmosRemoteStore.

Lemma initialize_Ok (this this' : t C K) :
  initialize this = (Ok tt, this') ->
  is_Some (containerRef this') /\ config this' = config this
  /\ initialize this' = (Ok tt, this').
Proof.
  unfold initialize at 1. destruct (containerRef this) as [container|] eqn:ready.
  - intros [= <-]. unfold initialize. rewrite ready. eauto.
  - destruct (databases_createIfNotExists _ _) as [[database|e] client1]; [|discriminate].
    destruct (containers_createIfNotExists _ _ _ _) as [[container|e] client2];
      [|discriminate].
    intros [= <-]. unfold initialize. simpl. eauto.
Qed.

Lemma initialize_Err (this this' : t C K) (e : Error) :
  initialize this = (Err e, this') -> containerRef this' = None /\ config this' = config this.
Proof.
  unfold initialize. destruct (containerRef this) as [container|]; [discriminate|].
  destruct (databases_createIfNotExists _ _) as [[database|e1] client1].
  - destruct (containers_createIfNotExists _ _ _ _) as [[container|e2] client2];
      [discriminate|].
    intros [= _ <-]. auto.
  - intros [= _ <-]. auto.
Qed.

Lemma upsertEach_app (container : K) (first rest : list Doc.t) (client : C) :
  upsertEach container (first ++ rest) client
  = match upsertEach container first client with
    | (Ok _, client') => upsertEach container rest client'
    | (Err e, client') => (Err e, client')
    end.
Proof.
  revert client. induction first as [|document first IH]; intros client; [reflexivity|].
  simpl. destruct (items_upsert container document client) as [[[]|e] client']; [apply IH|].
  reflexivity.
Qed.

Lemma upsertDocuments_ready (documents : list Doc.t) (this : t C K) (container : K) :
  containerRef this = Some container ->
  upsertDocuments documents this
  = (fst (upsertEach container documents (client this)),
     mk (config this) (snd (upsertEach container documents (client this))) (Some container)).
Proof.
  intros ready. unfold upsertDocuments. case_bool_decide as empty.
  - destruct documents; [|discriminate]. simpl. destruct this. simpl in *. congruence.
  - unfold initialize. rewrite ready. unfold getContainer. rewrite ready.
    destruct (upsertEach container documents (client this)). simpl.
    reflexivity.
Qed.

End AzureStore.

(** X18.  A batch can be cut anywhere: upserting [first ++ rest] is upserting
    [first] and then [rest]. When an upsert of [first] throws, the documents
    after it are not sent, and those before it stay upserted. *)
Theorem azure_upsert_composes
    {C D K : Type} `{CosmosSDK C D K}
    (first rest : list Doc.t) (this : AzureCosmosRemoteStore.t C K) :
  AzureCosmosRemoteStore.upsertDocuments (first ++ rest) this
  = match AzureCosmosRemoteStore.upsertDocuments first this with
    | (Ok _, this') => AzureCosmosRemoteStore.upsertDocuments rest this'
    | (Err e, this') => (Err e, this')
    end.
Proof.
  destruct first as [|document first]; [reflexivity|].
  unfold AzureCosmosRemoteStore.upsertDocuments at 1 2.
  rewrite !bool_decide_eq_false_2 by (simpl; lia).
  destruct (AzureCosmosRemoteStore.initialize this) as [[[]|e] this1] eqn:started;
    [|reflexivity].
  destruct (initialize_Ok this this1 started) as [[container ready] [same again]].
  unfold AzureCosmosRemoteStore.getContainer. rewrite ready.
  rewrite (upsertEach_app container (document :: first) rest).
  destruct (AzureCosmosRemoteStore.upsertEach container (document :: first)
              (AzureCosmosRemoteStore.client this1)) as [[[]|e] client1]; [|reflexivity].
  rewrite (upsertDocuments_ready rest _ container) by reflexivity. simpl.
  destruct (AzureCosmosRemoteStore.upsertEach container rest client1). reflexivity.
Qed.

(** X19.  What [fetchDocumentsUpdatedSince] returns is what the query returned,
    in ascending order of [updatedAtEpoch]; the query is the one for the
    documents updated after [sinceEpoch], run on the container the store
    holds after [initialize]. *)
Theorem azure_fetch_is_sorted
    {C D K : Type} `{CosmosSDK C D K}
    (sinceEpoch : Z) (this this' : AzureCosmosRemoteStore.t C K) (documents : list Doc.t) :
  AzureCosmosRemoteStore.fetchDocumentsUpdatedSince sinceEpoch this = (Ok documents, this') ->
  StronglySorted (fun left right => Doc.updatedAtEpoch left <= Doc.updatedAtEpoch right)
                 documents
  /\ exists container resources,
       AzureCosmosRemoteStore.containerRef this' = Some container
       /\ items_query_fetchAll container
            {| query := "SELECT * FROM c WHERE c.updatedAtEpoch > @sinceEpoch";
               parameters := [("@sinceEpoch", sinceEpoch)] |}
            (AzureCosmosRemoteStore.client (snd (AzureCosmosRemoteStore.initialize this)))
          = (Ok resources, AzureCosmosRemoteStore.client this')
       /\ documents ≡ₚ resources.
Proof.
  unfold AzureCosmosRemoteStore.fetchDocumentsUpdatedSince.
  destruct (AzureCosmosRemoteStore.initialize this) as [[[]|e] this1] eqn:started;
    [|discriminate].
  destruct (initialize_Ok this this1 started) as [[container ready] _].
  unfold AzureCosmosRemoteStore.getContainer. rewrite ready. cbv zeta.
  unfold AzureCosmosRemoteStore.fetchQuery.
  destruct (items_query_fetchAll _ _ _) as [[resources|e] client1] eqn:queried;
    [|discriminate].
  intros [= <- <-]. split.
  - unfold orderByAsc.
    apply (StronglySorted_impl
             (fun a b => bool_decide (Doc.updatedAtEpoch a <= Doc.updatedAtEpoch b) = true)).
    + intros a b le. apply bool_decide_eq_true in le. exact le.
    + apply stableSort_sorted.
      * intros a b gt. apply bool_decide_eq_false in gt. apply bool_decide_eq_true. lia.
      * intros a b c ab bc. apply bool_decide_eq_true in ab, bc.
        apply bool_decide_eq_true. lia.
  - exists container, resources. simpl. split; [reflexivity|]. split; [exact queried|].
    unfold orderByAsc. apply stableSort_perm.
Qed.

Lemma azure_fetch_is_sorted_witness :
  StronglySorted (fun left right => Doc.updatedAtEpoch left <= Doc.updatedAtEpoch right)
                 [ExamplesAzure.document "a" 10; ExamplesAzure.document "b" 20]
  /\ exists container resources,
       AzureCosmosRemoteStore.containerRef
         (snd (@AzureCosmosRemoteStore.fetchDocumentsUpdatedSince _ _ _ ExamplesAzure.cosmos
                 0 ExamplesAzure.stocked))
       = Some container
       /\ @items_query_fetchAll _ _ _ ExamplesAzure.cosmos container
            {| query := "SELECT * FROM c WHERE c.updatedAtEpoch > @sinceEpoch";
               parameters := [("@sinceEpoch", 0)] |}
            (AzureCosmosRemoteStore.client
               (snd (@AzureCosmosRemoteStore.initialize _ _ _ ExamplesAzure.cosmos
                       ExamplesAzure.stocked)))
          = (Ok resources,
             AzureCosmosRemoteStore.client
               (snd (@AzureCosmosRemoteStore.fetchDocumentsUpdatedSince _ _ _
                       ExamplesAzure.cosmos 0 ExamplesAzure.stocked)))
       /\ [ExamplesAzure.document "a" 10; ExamplesAzure.document "b" 20] ≡ₚ resources.
Proof.
  apply (@azure_fetch_is_sorted _ _ _ ExamplesAzure.cosmos 0
           ExamplesAzure.stocked).
  reflexivity.
Defined.

(** X20.  The store fails only when Cosmos does: while the service answers every
    call, [initialize], [upsertDocuments] and [fetchDocumentsUpdatedSince]
    return, and the error of a container that is not initialised is never
    raised. *)
Theorem azure_store_fails_only_with_cosmos
    {C D K : Type} `{CosmosSDK C D K}
    (this : AzureCosmosRemoteStore.t C K) :
  Healthy D ->
  fst (AzureCosmosRemoteStore.initialize this) = Ok tt
  /\ (forall documents, fst (AzureCosmosRemoteStore.upsertDocuments documents this) = Ok tt)
  /\ (forall sinceEpoch,
        exists documents,
          fst (AzureCosmosRemoteStore.fetchDocumentsUpdatedSince sinceEpoch this)
          = Ok documents).
Proof.
  intros [database container upsert query].
  assert (started : forall this : AzureCosmosRemoteStore.t C K,
             exists this', AzureCosmosRemoteStore.initialize this = (Ok tt, this')).
  { intros s. unfold AzureCosmosRemoteStore.initialize.
    destruct (AzureCosmosRemoteStore.containerRef s); [eauto|].
    destruct (database (AzureCosmosRemoteStore.database (AzureCosmosRemoteStore.config s))
                (AzureCosmosRemoteStore.client s)) as [d [client1 ->]].
    destruct (container d (AzureCosmosRemoteStore.container (AzureCosmosRemoteStore.config s))
                ["/kind"] client1) as [k [client2 ->]].
    eauto. }
  assert (each : forall (k : K) documents client,
             fst (AzureCosmosRemoteStore.upsertEach k documents client) = Ok tt).
  { intros k documents. induction documents as [|document rest IH]; intros client;
      [reflexivity|].
    simpl. destruct (upsert k document client) as [client' ->]. apply IH. }
  split; [|split].
  - destruct (started this) as [this' ->]. reflexivity.
  - intros documents. unfold AzureCosmosRemoteStore.upsertDocuments.
    case_bool_decide; [reflexivity|].
    destruct (started this) as [this' run]. rewrite run.
    destruct (initialize_Ok this this' run) as [[k ready] _].
    unfold AzureCosmosRemoteStore.getContainer. rewrite ready.
    specialize (each k documents (AzureCosmosRemoteStore.client this')).
    destruct (AzureCosmosRemoteStore.upsertEach k documents _). exact each.
  - intros sinceEpoch. unfold AzureCosmosRemoteStore.fetchDocumentsUpdatedSince.
    destruct (started this) as [this' run]. rewrite run.
    destruct (initialize_Ok this this' run) as [[k ready] _].
    unfold AzureCosmosRemoteStore.getContainer. rewrite ready. cbv zeta.
    destruct (query k (AzureCosmosRemoteStore.fetchQuery sinceEpoch)
                (AzureCosmosRemoteStore.client this')) as [resources [client1 ->]].
    eauto.
Qed.

Lemma azure_store_fails_only_with_cosmos_witness :
  fst (@AzureCosmosRemoteStore.initialize _ _ _ ExamplesAzure.cosmos ExamplesAzure.stocked)
  = Ok tt
  /\ (forall documents,
        fst (@AzureCosmosRemoteStore.upsertDocuments _ _ _ ExamplesAzure.cosmos
               documents ExamplesAzure.stocked) = Ok tt)
  /\ (forall sinceEpoch,
        exists documents,
          fst (@AzureCosmosRemoteStore.fetchDocumentsUpdatedSince _ _ _ ExamplesAzure.cosmos
                 sinceEpoch ExamplesAzure.stocked)
          = Ok documents).
Proof.
  apply (@azure_store_fails_only_with_cosmos _ _ _ ExamplesAzure.cosmos
           ExamplesAzure.stocked).
  split; simpl; eauto.
Defined.

(** ** The engine over a backend that serves every call *)

Section Quietly.
Context `{Platform} {B : Type} `{RemoteMemoryBackend B}.
Variable statePath : string.
Variable w0 : World B.
Hypothesis serving : Serving B.

Local Abbreviation Quiet := (Quiet statePath w0).
Local Abbreviation never := (fun _ : World B => False).

Lemma Quiet_call (w : World B) (b : B) (c : BackendCall) :
  callOk c = true -> Quiet w ->
  Quiet (mkWorld (files w) (store w) b (calls w ++ [c]) (errorLog w)).
Proof.
  intros ok [lg [cs [cl oks]] rd]. split; simpl; [exact lg | | exact rd].
  exists (cs ++ [c])%list. split; [rewrite cl, app_assoc; reflexivity|].
  apply Forall_app_2; [exact oks | constructor; [exact ok | constructor]].
Qed.

Lemma callInitialize_quiet : hoare Quiet callInitialize (fun _ => Quiet) never.
Proof.
  intros w quiet. unfold callInitialize, logCall.
  destruct (serving_initialize B serving (backend w)) as [b ->]. simpl.
  apply Quiet_call; [reflexivity | exact quiet].
Qed.

Lemma saveTargetState_quiet (state : RemoteSyncTargetState) :
  hoare Quiet (saveTargetState statePath state) (fun _ => Quiet) never.
Proof.
  intros w [lg cl [p readable]]. unfold saveTargetState.
  destruct (writeTargetState_read statePath (files w) p state readable) as [fs' [-> read]].
  split; simpl; eauto.
Qed.

Lemma loadTargetState_quiet :
  hoare Quiet (loadTargetState statePath) (fun _ => Quiet) never.
Proof.
  intros w quiet. unfold loadTargetState.
  destruct (quiet_state _ _ _ quiet) as [p ->]. exact quiet.
Qed.

Lemma pushDocuments_quiet (documents : list Doc.t) :
  hoare Quiet (pushDocuments statePath documents) (fun _ => Quiet) never.
Proof.
  unfold pushDocuments. case_bool_decide.
  - apply hoare_ret. trivial.
  - apply (hoare_bind _ _ (fun _ => Quiet)).
    + intros w quiet. unfold callUpsertDocuments, logCall.
      destruct (serving_upsert B serving documents (backend w)) as [b ->]. simpl.
      apply (Quiet_call w b (CallUpsert documents true)); [reflexivity | exact quiet].
    + intros u. eapply hoare_bind; [apply loadTargetState_quiet|].
      intros state. apply saveTargetState_quiet.
Qed.

Lemma getStore_quiet : hoare Quiet getStore (fun _ => Quiet) never.
Proof. intros w quiet. exact quiet. Qed.

Lemma performSynchronization_quiet (bootstrapLocal : bool) :
  hoare Quiet (performSynchronization statePath bootstrapLocal) (fun _ => Quiet) never.
Proof.
  unfold performSynchronization.
  eapply hoare_bind; [apply callInitialize_quiet|]. intros u.
  eapply hoare_bind; [apply loadTargetState_quiet|]. intros state.
  apply (hoare_bind _ _ (fun _ => Quiet)).
  { unfold bootstrapPhase. destruct (_ && _).
    - eapply hoare_bind; [apply getStore_quiet|]. intros db. simpl.
      eapply hoare_bind; [apply pushDocuments_quiet|]. intros u1.
      apply hoare_ret. intros w quiet. exact quiet.
    - apply hoare_ret. intros w quiet. exact quiet. }
  intros state1.
  apply (hoare_bind _ _ (fun _ => Quiet)).
  { unfold incrementalPhase. cbv zeta.
    eapply hoare_bind; [apply getStore_quiet|]. intros db. simpl.
    case_bool_decide.
    - eapply hoare_bind; [apply pushDocuments_quiet|]. intros u1.
      apply hoare_ret. intros w quiet. exact quiet.
    - apply hoare_ret. intros w quiet. exact quiet. }
  intros state2.
  apply (hoare_bind _ _ (fun _ => Quiet)); [|intros state3; apply saveTargetState_quiet].
  intros w quiet. unfold pullPhase, bind, callFetchDocumentsUpdatedSince, logCall. cbv zeta.
  destruct (serving_fetch B serving
              (Z.max 0 (lastPullEpoch state2 - REMOTE_INCREMENTAL_OVERLAP_MS)) (backend w))
    as [documents [b ->]].
  simpl.
  match goal with
  | |- context [importPhase state2 documents ?w1] =>
      destruct (importPhase_run state2 documents w1) as [db' ->]
  end.
  destruct quiet as [lg [cs [cl oks]] rd]. split; simpl; [exact lg | | exact rd].
  eexists. split; [rewrite cl, <- app_assoc; reflexivity|].
  apply Forall_app_2; [exact oks | constructor; [reflexivity | constructor]].
Qed.

Lemma rowTask_quiet {R : Type} (row : option R) (documents : R -> list Doc.t) :
  hoare Quiet
        (match row with
         | None => ret tt
         | Some r => pushDocuments statePath (documents r)
         end)
        (fun _ => Quiet) never.
Proof.
  destruct row; [apply pushDocuments_quiet | apply hoare_ret; trivial].
Qed.

Lemma runLogged_quiet (message : string) (task : Task B unit) (w : World B) :
  hoare Quiet task (fun _ => Quiet) never -> Quiet w -> Quiet (runLogged message task w).
Proof.
  intros spec quiet. specialize (spec w quiet). unfold runLogged.
  destruct (task w) as [[[]|e] w']; [exact spec | contradiction].
Qed.

Lemma serve_quiet (request : Request) (w : World B) :
  Quiet w -> Quiet (serve statePath request w).
Proof.
  destruct request as [| |promptId|observationId|summaryId]; simpl;
    apply runLogged_quiet; try apply performSynchronization_quiet.
  - unfold promptSyncTask. eapply hoare_bind; [apply getStore_quiet|].
    intros db. simpl. apply rowTask_quiet.
  - unfold observationSyncTask. eapply hoare_bind; [apply getStore_quiet|].
    intros db. simpl. apply rowTask_quiet.
  - unfold summarySyncTask. eapply hoare_bind; [apply getStore_quiet|].
    intros db. simpl. apply rowTask_quiet.
Qed.

Lemma serveAll_quiet (requests : list Request) (w : World B) :
  Quiet w -> Quiet (serveAll statePath requests w).
Proof.
  revert w. induction requests as [|request rest IH]; intros w quiet; [exact quiet|].
  simpl. apply IH, serve_quiet. exact quiet.
Qed.

End Quietly.

Lemma Quiet_start {B : Type} `{RemoteMemoryBackend B} (statePath : string) (w : World B)
    (old : RemoteSyncTargetState) :
  readTargetState statePath (files w) = Ok old -> Quiet statePath w w.
Proof.
  intros readable. split; [reflexivity | | eauto].
  exists []. split; [rewrite app_nil_r; reflexivity | constructor].
Qed.

(** While Cosmos answers, the store serves every call. *)
Lemma healthy_serving `{Platform} {C D K : Type} `{CosmosSDK C D K}
    (config : AzureCosmosRemoteStore.Config) :
  Healthy D ->
  @Serving (AzureCosmosRemoteStore.t C K) (AzureCosmosRemoteStore.implements config).
Proof.
  intros [database container upsert query].
  assert (started : forall this : AzureCosmosRemoteStore.t C K,
             exists this', AzureCosmosRemoteStore.initialize this = (Ok tt, this')).
  { intros s. unfold AzureCosmosRemoteStore.initialize.
    destruct (AzureCosmosRemoteStore.containerRef s); [eauto|].
    destruct (database (AzureCosmosRemoteStore.database (AzureCosmosRemoteStore.config s))
                (AzureCosmosRemoteStore.client s)) as [d [client1 ->]].
    destruct (container d (AzureCosmosRemoteStore.container (AzureCosmosRemoteStore.config s))
                ["/kind"] client1) as [k [client2 ->]].
    eauto. }
  assert (each : forall (k : K) documents client,
             fst (AzureCosmosRemoteStore.upsertEach k documents client) = Ok tt).
  { intros k documents. induction documents as [|document rest IH]; intros client;
      [reflexivity|].
    simpl. destruct (upsert k document client) as [client' ->]. apply IH. }
  split; simpl.
  - exact started.
  - intros documents this. unfold AzureCosmosRemoteStore.upsertDocuments.
    case_bool_decide; [eauto|].
    destruct (started this) as [this' run]. rewrite run.
    destruct (initialize_Ok this this' run) as [[k ready] _].
    unfold AzureCosmosRemoteStore.getContainer. rewrite ready.
    specialize (each k documents (AzureCosmosRemoteStore.client this')).
    destruct (AzureCosmosRemoteStore.upsertEach k documents _) as [r client1].
    simpl in each. subst r. eauto.
  - intros sinceEpoch this. unfold AzureCosmosRemoteStore.fetchDocumentsUpdatedSince.
    destruct (started this) as [this' run]. rewrite run.
    destruct (initialize_Ok this this' run) as [[k ready] _].
    unfold AzureCosmosRemoteStore.getContainer. rewrite ready. cbv zeta.
    destruct (query k (AzureCosmosRemoteStore.fetchQuery sinceEpoch)
                (AzureCosmosRemoteStore.client this')) as [resources [client1 ->]].
    eauto.
Qed.

(** X26.  The engine adds no failure of its own to those of Cosmos: over the
    Azure store, while the service answers every call and the state file can
    be read at the start, every request is served to its end. Every call is
    logged as served, no line reaches the error log, the state of the target
    can be read afterwards, and a cycle started then completes. *)
Theorem engine_over_healthy_cosmos_never_fails
    `{Platform} {C D K : Type} `{CosmosSDK C D K}
    (config : AzureCosmosRemoteStore.Config) (statePath : string)
    (requests : list Request) (w : World (AzureCosmosRemoteStore.t C K))
    (old : RemoteSyncTargetState) :
  Healthy D ->
  @readTargetState _ (AzureCosmosRemoteStore.implements config) statePath (files w) = Ok old ->
  let w' := @serveAll _ _ (AzureCosmosRemoteStore.implements config) statePath requests w in
  errorLog w' = errorLog w
  /\ (exists cs, calls w' = (calls w ++ cs)%list /\ Forall (fun c => callOk c = true) cs)
  /\ (exists new,
        @readTargetState _ (AzureCosmosRemoteStore.implements config) statePath (files w')
        = Ok new)
  /\ (forall bootstrapLocal,
        fst (@performSynchronization _ _ (AzureCosmosRemoteStore.implements config)
               statePath bootstrapLocal w') = Ok tt).
Proof.
  intros healthy readable. cbv zeta.
  pose proof (healthy_serving config healthy) as serving.
  pose proof (@serveAll_quiet _ _ (AzureCosmosRemoteStore.implements config) statePath w
                serving requests w
                (@Quiet_start _ (AzureCosmosRemoteStore.implements config) statePath w old
                   readable)) as quiet.
  split; [apply quiet|]. split; [apply quiet|]. split; [apply quiet|].
  intros bootstrapLocal.
  destruct quiet as [_ _ [new read]].
  pose proof (@performSynchronization_quiet _ _ (AzureCosmosRemoteStore.implements config)
                statePath _ serving bootstrapLocal _
                (@Quiet_start _ (AzureCosmosRemoteStore.implements config) statePath _ new
                   read)) as spec.
  destruct (performSynchronization _ _ _) as [[[]|e] w'']; [reflexivity | contradiction].
Qed.

Lemma engine_over_healthy_cosmos_never_fails_witness :
  let target :=
    @AzureCosmosRemoteStore.implements examplePlatform _ _ _ ExamplesAzure.cosmos
      (@RemoteMemorySync.configOf ExamplesAzure.settings) in
  let w' := @serveAll examplePlatform _ target "state.json" [Startup; PromptSync 1]
              ExamplesAzure.world in
  errorLog w' = errorLog ExamplesAzure.world
  /\ (exists cs, calls w' = (calls ExamplesAzure.world ++ cs)%list
                 /\ Forall (fun c => callOk c = true) cs)
  /\ (exists new, @readTargetState _ target "state.json" (files w') = Ok new)
  /\ (forall bootstrapLocal,
        fst (@performSynchronization examplePlatform _ target "state.json"
               bootstrapLocal w') = Ok tt).
Proof.
  apply (@engine_over_healthy_cosmos_never_fails examplePlatform _ _ _ ExamplesAzure.cosmos
           (@RemoteMemorySync.configOf ExamplesAzure.settings) "state.json"
           [Startup; PromptSync 1] ExamplesAzure.world initialTargetState).
  - split; simpl; eauto.
  - reflexivity.
Defined.

(** ** The configuration gate *)

Lemma or_str_set (a b : string) : b <> "" -> or_str a b <> "".
Proof. intros set. unfold or_str. case_bool_decide; congruence. Qed.

Lemma whenSet_or_undefined (s : string) : whenSet (or_undefined s) = or_undefined s.
Proof.
  unfold whenSet, or_undefined. case_bool_decide as empty; [reflexivity|].
  simpl. rewrite bool_decide_eq_false_2 by exact empty. reflexivity.
Qed.

Lemma or_undefined_Some (s v : string) : or_undefined s = Some v -> s = v /\ s <> "".
Proof. unfold or_undefined. case_bool_decide; [discriminate|]. intros [= <-]. auto. Qed.

Lemma parsePositiveInt_positive `{NumberPlatform} (value : option string) (fallback : Z) :
  0 < fallback -> 0 < parsePositiveInt value fallback.
Proof.
  intros positive. unfold parsePositiveInt. cbv zeta.
  destruct (Number_parseInt _ _) as [| |n]; try exact positive.
  case_bool_decide; assumption.
Qed.

(** X21.  The gate is closed, quietly, unless [CLAUDE_MEM_REMOTE_DB_ENABLED] is
    the string [true] and the provider is [azure-cosmos] or left empty. An
    engine it lets through has the state path asked for, a sync interval above
    0 (whatever the setting holds), a store that is not initialised yet with
    non-empty database and container names, and credentials: a connection
    string, or an endpoint with a key. *)
Theorem createFromSettings_gate
    `{NumberPlatform} {C D K : Type} `{CosmosSDK C D K}
    (settings : SettingsDefaults) (statePath : string) :
  (CLAUDE_MEM_REMOTE_DB_ENABLED settings <> "true"
   \/ (CLAUDE_MEM_REMOTE_DB_PROVIDER settings <> ""
       /\ CLAUDE_MEM_REMOTE_DB_PROVIDER settings <> "azure-cosmos") ->
   RemoteMemorySync.createFromSettings (C := C) (K := K) settings statePath = (None, []))
  /\ (forall engine log,
        RemoteMemorySync.createFromSettings (C := C) (K := K) settings statePath
        = (Some engine, log) ->
        log = []
        /\ RemoteMemorySync.statePath engine = statePath
        /\ 0 < RemoteMemorySync.syncIntervalMs engine
        /\ AzureCosmosRemoteStore.containerRef (RemoteMemorySync.backend engine) = None
        /\ AzureCosmosRemoteStore.database
             (AzureCosmosRemoteStore.config (RemoteMemorySync.backend engine)) <> ""
        /\ AzureCosmosRemoteStore.container
             (AzureCosmosRemoteStore.config (RemoteMemorySync.backend engine)) <> ""
        /\ (CLAUDE_MEM_AZURE_COSMOS_CONNECTION_STRING settings <> ""
            \/ (CLAUDE_MEM_AZURE_COSMOS_ENDPOINT settings <> ""
                /\ CLAUDE_MEM_AZURE_COSMOS_KEY settings <> ""))).
Proof.
  unfold RemoteMemorySync.createFromSettings, strict_ne. split.
  - intros [disabled|[named other]].
    + rewrite bool_decide_eq_false_2 by exact disabled. reflexivity.
    + case_bool_decide; [|reflexivity]. simpl.
      unfold or_str. rewrite (bool_decide_eq_false_2 _ named).
      rewrite bool_decide_eq_false_2 by exact other. reflexivity.
  - intros engine log. case_bool_decide; [|discriminate]. simpl. cbv zeta.
    case_bool_decide; [|discriminate]. simpl.
    unfold AzureCosmosRemoteStore.new, AzureCosmosRemoteStore.createCosmosClient.
    destruct (whenSet (AzureCosmosRemoteStore.connectionString
                         (RemoteMemorySync.configOf settings))) as [connection|] eqn:first.
    + destruct (CosmosClient_ofConnectionString connection); [|discriminate].
      intros [= <- <-]. simpl.
      repeat split; try (apply or_str_set; discriminate).
      * apply parsePositiveInt_positive. lia.
      * left. simpl in first. rewrite whenSet_or_undefined in first.
        apply or_undefined_Some in first. tauto.
    + destruct (whenSet (AzureCosmosRemoteStore.endpoint
                           (RemoteMemorySync.configOf settings))) as [endpoint|] eqn:second;
        [|discriminate].
      destruct (whenSet (AzureCosmosRemoteStore.key
                           (RemoteMemorySync.configOf settings))) as [key|] eqn:third;
        [|discriminate].
      destruct (CosmosClient_ofEndpoint endpoint key); [|discriminate].
      intros [= <- <-]. simpl.
      repeat split; try (apply or_str_set; discriminate).
      * apply parsePositiveInt_positive. lia.
      * right. simpl in second, third. rewrite whenSet_or_undefined in second, third.
        apply or_undefined_Some in second, third. tauto.
Qed.

Lemma createFromSettings_gate_witness :
  let engine :=
    RemoteMemorySync.mk
      (AzureCosmosRemoteStore.mk (RemoteMemorySync.configOf ExamplesAzure.settings)
         ([] : list Doc.t) (None : option string))
      "state.json" 60000 in
  ([] : list string) = []
  /\ RemoteMemorySync.statePath engine = "state.json"
  /\ 0 < RemoteMemorySync.syncIntervalMs engine
  /\ AzureCosmosRemoteStore.containerRef (RemoteMemorySync.backend engine) = None
  /\ AzureCosmosRemoteStore.database
       (AzureCosmosRemoteStore.config (RemoteMemorySync.backend engine)) <> ""
  /\ AzureCosmosRemoteStore.container
       (AzureCosmosRemoteStore.config (RemoteMemorySync.backend engine)) <> ""
  /\ (CLAUDE_MEM_AZURE_COSMOS_CONNECTION_STRING ExamplesAzure.settings <> ""
      \/ (CLAUDE_MEM_AZURE_COSMOS_ENDPOINT ExamplesAzure.settings <> ""
          /\ CLAUDE_MEM_AZURE_COSMOS_KEY ExamplesAzure.settings <> "")).
Proof.
  apply (proj2 (@createFromSettings_gate ExamplesAzure.numbers _ _ _
                  ExamplesAzure.cosmos ExamplesAzure.settings "state.json")).
  reflexivity.
Defined.

(** ** The fingerprint of a target *)

(** X22.  The cursors of a target are kept under its endpoint, database and
    container, not under its credentials: two stores whose configurations
    agree on these three read and write the same entry of the state file,
    so what one engine saves the other loads. With connection strings, which
    leave the endpoint unset, the database and container names alone decide. *)
Theorem stores_of_one_target_share_cursors
    `{Platform} {C D K : Type} `{CosmosSDK C D K}
    (one other : AzureCosmosRemoteStore.Config) (statePath : string)
    (fs fs' : FileSystem) (state : RemoteSyncTargetState) :
  or_else (AzureCosmosRemoteStore.endpoint one) "(connection-string)"
  = or_else (AzureCosmosRemoteStore.endpoint other) "(connection-string)" ->
  AzureCosmosRemoteStore.database one = AzureCosmosRemoteStore.database other ->
  AzureCosmosRemoteStore.container one = AzureCosmosRemoteStore.container other ->
  @writeTargetState _ (AzureCosmosRemoteStore.implements (C := C) (K := K) one)
    statePath fs state = Ok fs' ->
  @readTargetState _ (AzureCosmosRemoteStore.implements (C := C) (K := K) other)
    statePath fs' = Ok state.
Proof.
  intros endpoint database container written.
  destruct (writeTargetState_Ok statePath fs fs' state written)
    as [fields [targets [_ [version [_ ->]]]]].
  unfold readTargetState. rewrite loadStateFile_written by exact version.
  simpl. rewrite assoc_assign_eq.
  assert (same : AzureCosmosRemoteStore.targetFingerprintOf other
                 = AzureCosmosRemoteStore.targetFingerprintOf one).
  { unfold AzureCosmosRemoteStore.targetFingerprintOf, AzureCosmosRemoteStore.fingerprintJson.
    rewrite endpoint, database, container. reflexivity. }
  rewrite same, assoc_assign_eq, asTargetState_json. reflexivity.
Qed.

Lemma stores_of_one_target_share_cursors_witness :
  @readTargetState _
    (@AzureCosmosRemoteStore.implements examplePlatform _ _ _ ExamplesAzure.cosmos
       (RemoteMemorySync.configOf ExamplesAzure.otherAccount))
    "state.json"
    (<["state.json" :=
         Parsed (JObj [("version", JNum 1);
                       ("targets",
                        JObj [(@AzureCosmosRemoteStore.targetFingerprintOf examplePlatform
                                 (RemoteMemorySync.configOf ExamplesAzure.settings),
                               targetStateJson ExamplesState.state)])])]> ∅)
  = Ok ExamplesState.state.
Proof.
  apply (@stores_of_one_target_share_cursors examplePlatform _ _ _ ExamplesAzure.cosmos
           (RemoteMemorySync.configOf ExamplesAzure.settings)
           (RemoteMemorySync.configOf ExamplesAzure.otherAccount) "state.json" ∅);
    reflexivity.
Defined.

(** ** The life of an engine: the periodic sync *)

Lemma Exists_failed_last (served : list BackendCall) (failed : BackendCall) :
  callOk failed = false ->
  Exists (fun c => callOk c = false) (served ++ [failed]).
Proof. intros no. apply Exists_app. right. constructor. exact no. Qed.

(** X23.  [initialize] starts the periodic sync only after a startup cycle in
    which every call was served: then a timer of [syncIntervalMs] is set,
    unless one is set already or the interval is not above 0. When a call of
    the startup cycle fails, the failure is logged and no timer is set, so
    that no periodic sync will run. In both cases the world is the one the
    startup request leaves. *)
Theorem periodic_sync_starts_after_served_startup
    `{Platform} {B : Type} `{RemoteMemoryBackend B}
    (statePath : string) (syncIntervalMs : Z) (this : Lifecycle.t B)
    (old : RemoteSyncTargetState) :
  readTargetState statePath (files (Lifecycle.world this)) = Ok old ->
  let this' := Lifecycle.initialize statePath syncIntervalMs this in
  Lifecycle.world this' = initialize statePath (Lifecycle.world this)
  /\ exists cs,
       calls (Lifecycle.world this') = (calls (Lifecycle.world this) ++ cs)%list
       /\ ((Forall (fun c => callOk c = true) cs
            /\ Lifecycle.intervalRef this'
               = match Lifecycle.intervalRef this with
                 | Some period => Some period
                 | None => if bool_decide (0 < syncIntervalMs)
                           then Some syncIntervalMs else None
                 end)
           \/ (Exists (fun c => callOk c = false) cs
               /\ Lifecycle.intervalRef this' = Lifecycle.intervalRef this
               /\ (Lifecycle.intervalRef this = None ->
                   Lifecycle.interval statePath this' = this'))).
Proof.
  intros readable. cbv zeta.
  unfold Lifecycle.initialize, initialize, runLogged.
  pose proof (performSynchronization_spec statePath (Lifecycle.world this) old true readable)
    as spec.
  destruct (performSynchronization statePath true (Lifecycle.world this)) as [[[]|e] w'].
  - split.
    + unfold Lifecycle.startBackgroundSync. simpl.
      destruct (_ || _); reflexivity.
    + destruct spec as [cs [new [_ [cl [ok _]]]]]. exists cs.
      split.
      * unfold Lifecycle.startBackgroundSync. simpl. destruct (_ || _); exact cl.
      * left. split; [exact ok|]. unfold Lifecycle.startBackgroundSync. simpl.
        destruct (Lifecycle.intervalRef this) as [period|] eqn:timer.
        -- rewrite bool_decide_eq_true_2 by eauto. simpl. reflexivity.
        -- rewrite bool_decide_eq_false_2 by (intros [? impossible]; discriminate).
           simpl. repeat case_bool_decide; try lia; simpl; auto.
  - split; [reflexivity|].
    destruct spec as [cs [c [p [[st lg cl ps bt pl pu cv fl ft] [ok failed]]]]].
    exists (cs ++ [c])%list. simpl. split; [exact cl|]. right.
    split; [apply Exists_failed_last; exact failed|]. split; [reflexivity|].
    intros none. unfold Lifecycle.interval. simpl. rewrite none. reflexivity.
Qed.

Lemma periodic_sync_starts_after_served_startup_witness :
  let this := Lifecycle.mk (ExamplesCycle.world [true]) None in
  let this' :=
    @Lifecycle.initialize examplePlatform MemoryBackend ExamplesCycle.target
      "state.json" 30000 this in
  Lifecycle.world this'
  = @initialize examplePlatform MemoryBackend ExamplesCycle.target "state.json"
      (Lifecycle.world this)
  /\ exists cs,
       calls (Lifecycle.world this') = (calls (Lifecycle.world this) ++ cs)%list
       /\ ((Forall (fun c => callOk c = true) cs
            /\ Lifecycle.intervalRef this'
               = match Lifecycle.intervalRef this with
                 | Some period => Some period
                 | None => if bool_decide (0 < 30000) then Some 30000 else None
                 end)
           \/ (Exists (fun c => callOk c = false) cs
               /\ Lifecycle.intervalRef this' = Lifecycle.intervalRef this
               /\ (Lifecycle.intervalRef this = None ->
                   @Lifecycle.interval examplePlatform MemoryBackend ExamplesCycle.target
                     "state.json" this' = this'))).
Proof.
  apply (@periodic_sync_starts_after_served_startup examplePlatform MemoryBackend
           ExamplesCycle.target "state.json" 30000
           (Lifecycle.mk (ExamplesCycle.world [true]) None) initialTargetState).
  reflexivity.
Defined.
